(* ===== verification/_CoqProject ===== *)
-Q . S2P
Prelude.v
GaloisField.v
LinearAlgebra.v
MatrixInvert.v
CryptoPrimitive.v
CDCodec.v
ErasureCode.v
AontSchemes.v
CodecTheorems.v
Crsss.v
Chunker.v
Structs.v
FileNames.v
World.v
MinDedupCore.v
MinStages.v
MinRestore.v
ShareIndex.v
MinInvariant.v
MinNodes.v
MinIndex.v
MinPackage.v
MinUpload.v
MinRestoreProof.v
MinTheorems.v
MinExamples.v
RingBuffer.v
DedupCore.v
DedupStages.v
Inodes.v
InodeIndex.v
Recipes.v
DedupNodes.v
DedupUpload.v
DedupRestore.v
DedupTheorems.v
DedupExamples.v
BackendStorer.v
BackendLists.v
BackendProof.v
BackendThreads.v
BackendTheorems.v
BackendExamples.v
Socket.v
Uploader.v
UploaderProof.v
Uploads.v
Server.v
ServerProof.v
DataSession.v
Protocol.v
UploadExamples.v
Downloader.v
DownloaderProof.v
ServerFiles.v
KeyFiles.v
RecipeFiles.v
DownloadProtocol.v
TransferExamples.v
MetaUpload.v
MetaSession.v
MetaExamples.v
Encoder.v
RecipeWriter.v
MetaChunks.v
RecipeRebuild.v
Pipeline.v
EncodeThreads.v
PreDownload.v
ClientUpload.v
ClientDownload.v
ClientProof.v
ClientTheorems.v
ClientBounds.v
ClientExamples.v
PreDownloadExamples.v
