(* ===== verification/Prelude.v ===== *)
(** * Metadedup: a verification development

    Metadedup is an encrypted deduplicated storage system.  A client divides a
    file into content-defined chunks, turns every chunk into shares of which a
    subset rebuilds it, and uploads the shares to servers which store every
    distinct share once.  Metadata about chunks is itself grouped into metadata
    chunks and deduplicated by the metadata server, which also keeps, per user,
    the directory tree and the versions of every file.

    ** The parts of the program and where they are modelled

    - client/chunking/chunker.cc: file Chunker.v.  The object, both chunking
      modes and the tables of the rolling hash.
    - client/coding/CDCodec.cc: GaloisField.v (the parameter GF-Complete),
      LinearAlgebra.v, MatrixInvert.v (squareMatrixInverting), CDCodec.v (object,
      constructor, all encoders and decoders), ErasureCode.v, AontSchemes.v,
      CodecTheorems.v and Crsss.v (proofs).
    - client/utils/CryptoPrimitive.cc and its copy in server/utils:
      CryptoPrimitive.v, over the parameter OpenSSL.
    - client/utils/BasicRingBuffer.hh: RingBuffer.v, a transition system of the
      threads that call Insert, Extract and StopWhenEmptied.
    - server/dedup/dataStruct.hh: Structs.v (layouts, limits).
    - server/dedup/minDedupCore.cc, the data server: FileNames.v, MinDedupCore.v
      (object, buffer nodes, share index, containers), MinStages.v (both stages of
      deduplication), MinRestore.v (restoreShareFile).  Proofs: ShareIndex.v
      (values of the index), MinInvariant.v (the storage invariant), MinNodes.v,
      MinIndex.v, MinPackage.v, MinUpload.v, MinRestoreProof.v; the claims are in
      MinTheorems.v and their concrete instances in MinExamples.v.
    - server/dedup/DedupCore.cc, the metadata server: DedupCore.v (object, recipe
      buffers, recipe files, inode index), DedupStages.v (second stage,
      restoration).  The share index and the containers are the same code as in
      minDedupCore; a DedupCore contains a minDedupCore for them.  Proofs: Inodes.v
      (inode values), InodeIndex.v (updates of the directory tree), Recipes.v (the
      recipe invariant), DedupNodes.v, DedupUpload.v, DedupRestore.v; the claims
      are in DedupTheorems.v, their instances in DedupExamples.v.
    - server/backend/BackendStorer.cc: BackendStorer.v (names, file copies, the lists of
      nodes in a heap, and the calls and both threads as the transition function
      [exec]).  Proofs: BackendLists.v (the lists are queues), BackendProof.v (the
      files), BackendThreads.v (the invariant, step by step); the claim is in
      BackendTheorems.v, its instance and faulty runs in BackendExamples.v.
    - client/utils/socket.cc: Socket.v, over the parameter [Network] (every send and
      recv may transfer any part of a message).
    - client/comm/uploader.cc: Uploader.v (the upload threads), KeyFiles.v (key
      files), MetaUpload.v (the metadata threads).  Proofs: UploaderProof.v,
      Uploads.v; MetaSession.v runs a metadata thread against the metadata server,
      with an instance in MetaExamples.v.
    - server/comm/server.cc: Server.v (the loops of both handlers with every
      message), ServerProof.v, ServerFiles.v, DataSession.v, Protocol.v (an uploader
      and a data server run against each other).
    - client/comm/downloader.cc: Downloader.v (the download threads), RecipeFiles.v
      (recipes sent to the servers), RecipeWriter.v (recipes rebuilt from metadata
      chunks), PreDownload.v (preDownloadFile), the first half of ClientDownload.v
      (downloadFile).  Proofs: DownloaderProof.v, DownloadProtocol.v; instances in
      UploadExamples.v, TransferExamples.v and PreDownloadExamples.v.
    - client/coding/encoder.cc: Encoder.v (what the threads compute), Pipeline.v
      (threads and buffers of encoder and decoder as a step relation),
      EncodeThreads.v; the metadata chunks of the collect thread in MetaChunks.v and
      RecipeRebuild.v.
    - client/coding/decoder.cc: the second half of ClientDownload.v.
    - client/main.cc, utils/conf.hh: ClientUpload.v (constants, the upload).  The
      client as a whole: ClientProof.v, ClientTheorems.v, ClientBounds.v,
      ClientExamples.v.

    ** How code is modelled

    A function body is a computation of type [res] (below): it falls through,
    returns, exits the process, has undefined behaviour or hangs.  Every access to
    a buffer is checked against its length, every [int] operation against
    overflow, and a use of freed memory, of a null pointer or of a mutex that is
    held is undefined behaviour, so a theorem that a call ends in [Ok] includes
    memory safety.  Objects are records threaded through the state monad [SM];
    malloc'ed buffer nodes live in a heap of their own.  A C++ [std::string] and a
    buffer are lists of bytes, structures are read and written in place at their
    x86-64 offsets (Structs.v).  Buffer sizes, the number of cached containers and
    the waiting time are the class [Limits]; [LimitsOk] says what the proofs need
    of them and holds for the constants of dataStruct.hh ([dataStruct]); concrete
    runs use smaller buffers.

    ** What is assumed

    - GF-Complete: [GaloisFieldLaws], satisfied by the instance [gf256].
    - OpenSSL: [OpenSSLLaws] (digest sizes, decryption inverts encryption);
      [CryptoOk] and [HashOk] are the interface of a CryptoPrimitive object that
      CDCodec and the servers use.
    - LevelDB, the file system, the clock, the socket: the class [World] (World.v)
      with [WorldLaws] (every operation may fail; a failed database write is atomic,
      a failed file write leaves an arbitrary file).  [DiskOk] adds that files can be
      written, [ReliableWorld] that nothing fails.  [MemWorld] satisfies them.
    - Network: [NetworkLaws], every call transfers at least one byte and no more than
      asked; [Memory] gives the content of uninitialised memory, of which only the
      length is known.
    - boost::bimap: [BimapLaws], satisfied by [listBimap]; the calls on files that only
      BackendStorer uses: [CacheFilesLaws], satisfied by [memCacheFiles].
    - The program openssl that encrypts key files and the other shell commands are
      arguments (whether the call returns, what the file holds).
    - Fingerprints: claims on inodes name the collisions they exclude ([noClash],
      [goodNames]); no injectivity of a hash is assumed.

    ** What the theorems show

    - Codec: any k shares rebuild the secret, in all four schemes and, for the three
      AONT schemes, for all histories of the two objects;
      equal secrets give equal shares; a successful CAONT-RS decoding proves that the
      blocks are genuine; the constructor; matrix inversion.
    - Chunker: the rolling hash computes the boundaries of the reference chunker
      that hashes each window from scratch, chunks partition the data within their
      bounds, boundaries depend on local content only.
    - Data server: an upload returns exactly the shares to send, counts references,
      and keeps the storage invariant; on any input and any fault the second stage
      stays in its buffers; restoring delivers shares with the fingerprints of the
      recipe; shutdown puts every indexed share on disk; container names count in
      base 26.  One input keeps the first stage in its loop for ever.
    - Metadata server: addFileIntoInodeIndex_ refines an abstract update of the
      directory tree; uploading packages of whole files adds one version per file to
      the versions the server serves; every version can be restored; shutdown puts
      every version on disk; the inode index survives failing database operations.
    - Ring buffer: under every interleaving of one producer and one consumer it is a
      bounded FIFO queue, and every schedule ends with everything delivered.
    - Backend storer: in every interleaving of the calls and the two threads no file is
      lost, only stored files can be evicted, the space of new files is accounted, no
      wake-up is lost, and no step follows a wrong pointer while the new files fit the
      cache.
    - Transfer: what an upload thread sends and what a data server answers, for every
      way the network splits messages; run against each other both end and the server
      has every share; a recipe sent to the servers makes them deliver its shares; a
      key file comes back unchanged; the metadata chunks and the key file a metadata
      thread sends are stored by the metadata server and delivered on request.
    - Client: a file that is cut, encoded and collected, in every interleaving of the
      threads, is restored exactly from the shares of the first k clouds; the metadata
      chunks and key files rebuild the recipes; preDownloadFile asks every cloud for the
      name the file was uploaded under and sends it the recipe of its shares; the constants of the sources fit the
      hypotheses of these theorems.

    Runs that show where the code loses data or leaves its buffers are in the
    modules MinRuns, DedupRuns, RingWitness and BackendRuns.

    ** Bounds and fuel

    Loops over a list of nodes have the size of the heap plus one as fuel, loops over
    a path its length plus one; the theorems show they do not run out.  The loop
    over a package (its step is the client's input) has its fuel as an argument:
    the number of files is enough for well-formed packages, and no fuel is enough for
    the package of [firstStageDedup_loops].  A file copy has the size of its source as
    fuel.  The bounds on the number of references
    and inodes (2^24 and more) keep [int] counters from overflowing.

    ** Not modelled

    - leveldb (server/lib): a library.
    - The creation of sockets and threads, the accept loops, the configuration file of
      the client, argument handling and timing: system calls and text I/O.
    - The servers with a backend storer: server/main.cc passes NULL, so the branches of
      DedupCore and minDedupCore that call one are not taken.
    - Two threads inside one server object: the methods of the servers run one at a
      time; a mutex is a flag that must be free when it is taken.  The encoder's
      collect thread and its first encoding thread share a codec object; the model
      lets them use it one after the other.
    - The files of DedupCore that span packages (appendOldRecipeFile_ is modelled, not
      proved). *)

From stdpp Require Import base list numbers option countable.
From coqutil Require Import Byte Word.LittleEndianList.
From Stdlib Require Import Lia.

(** ** Automation *)

Create HintDb metadedup.
Create Rewrite HintDb meta_rw.

Declare Scope res_scope.
Delimit Scope res_scope with res.

(** ** Outcomes of C++ code

    [res R A] is the outcome of a piece of a C++ function body: it falls
    through with a value [A], leaves the function with [return r], ends the
    process with [exit(code)], has undefined behaviour (a memory access outside
    the buffer it names, a null dereference, a mutex locked twice), or is still
    running when the fuel of one of its loops is used up ([Hang]).  A whole
    function is closed with [fn], which turns [return] into the function's
    value. *)

Inductive res (R A : Type) : Type :=
| Ok (a : A)
| Return (r : R)
| Exit (code : Z)
| UB
| Hang.
Arguments Ok {R A} a.
Arguments Return {R A} r.
Arguments Exit {R A} code.
Arguments UB {R A}.
Arguments Hang {R A}.

#[global] Instance res_ret R : MRet (res R) := fun A => Ok.
#[global] Instance res_bind R : MBind (res R) := fun A B f m =>
  match m with
  | Ok a => f a
  | Return r => Return r
  | Exit c => Exit c
  | UB => UB
  | Hang => Hang
  end.

(** A function body, seen from its caller. *)
Definition fn {R A} (m : res A A) : res R A :=
  match m with
  | Ok a => Ok a
  | Return a => Ok a
  | Exit c => Exit c
  | UB => UB
  | Hang => Hang
  end.

(** Code that contains no [return] used inside another body. *)
Definition guard_mem {R} (b : bool) : res R unit := if b then Ok tt else UB.

Lemma bind_ok {R A B} (a : A) (f : A -> res R B) : (mbind f (Ok a)) = f a.
Proof. done. Qed.

Lemma bind_ok_inv {R A B} (m : res R A) (f : A -> res R B) b :
  mbind f m = Ok b -> exists a, m = Ok a /\ f a = Ok b.
Proof. destruct m; cbn; intros; simplify_eq; eauto. Qed.

(** [step] runs the first action of a monadic goal whose outcome is known. *)
Ltac step H := rewrite H; cbn [mbind res_bind]; cbv beta iota.

(** ** Counted loops *)

Section Loops.
Context {R S : Type}.

(** [for (i = lo; i < lo + n; i++) body]. *)
Fixpoint forN (n lo : nat) (body : nat -> S -> res R S) (s : S) : res R S :=
  match n with
  | O => Ok s
  | Datatypes.S n' => s' ← body lo s; forN n' (Datatypes.S lo) body s'
  end.

(** [for (i = hi - 1; i >= 0; i--) body]. *)
Fixpoint forDown (hi : nat) (body : nat -> S -> res R S) (s : S) : res R S :=
  match hi with
  | O => Ok s
  | Datatypes.S i => s' ← body i s; forDown i body s'
  end.

(** Hoare rule: an invariant indexed by the loop counter. *)
Lemma forN_inv (P : nat -> S -> Prop) n lo body s :
  P lo s ->
  (forall i s, lo <= i < lo + n -> P i s ->
     exists s', body i s = Ok s' /\ P (Datatypes.S i) s') ->
  exists s', forN n lo body s = Ok s' /\ P (lo + n) s'.
Proof.
  revert lo s. induction n as [|n IH]; intros lo s HP Hb; cbn [forN].
  - exists s. by rewrite Nat.add_0_r.
  - destruct (Hb lo s) as (s' & -> & HP'); [lia|done|]. cbn.
    destruct (IH (Datatypes.S lo) s') as (s'' & -> & HP''); [done| |].
    + intros i t Hi. apply Hb. lia.
    + exists s''. split; [done|]. by rewrite Nat.add_succ_r.
Qed.

Lemma forN_ok_inv (P : nat -> S -> Prop) n lo body s sf :
  forN n lo body s = Ok sf ->
  P lo s ->
  (forall i s s', lo <= i < lo + n -> P i s -> body i s = Ok s' -> P (Datatypes.S i) s') ->
  P (lo + n) sf.
Proof.
  revert lo s. induction n as [|n IH]; intros lo s Hf HP Hb; cbn [forN] in Hf.
  - rewrite Nat.add_0_r. by simplify_eq.
  - apply bind_ok_inv in Hf as (s' & Hbody & Hf).
    rewrite Nat.add_succ_r. apply (IH (Datatypes.S lo) s'); [done| |].
    + eapply Hb; [lia|done|done].
    + intros i t t' Hi. apply Hb. lia.
Qed.

Lemma forDown_inv (P : nat -> S -> Prop) hi body s :
  P hi s ->
  (forall i s, i < hi -> P (Datatypes.S i) s ->
     exists s', body i s = Ok s' /\ P i s') ->
  exists s', forDown hi body s = Ok s' /\ P 0 s'.
Proof.
  revert s. induction hi as [|i IH]; intros s HP Hb; cbn [forDown].
  - by exists s.
  - destruct (Hb i s) as (s' & -> & HP'); [lia|done|]. cbn.
    apply IH; [done|]. intros j t Hj. apply Hb. lia.
Qed.

Lemma forN_ext n lo body body' s :
  (forall i s, lo <= i < lo + n -> body i s = body' i s) ->
  forN n lo body s = forN n lo body' s.
Proof.
  revert lo s. induction n as [|n IH]; intros lo s Hb; cbn [forN]; [done|].
  rewrite Hb by lia. destruct (body' lo s); cbn; [|done..].
  apply IH. intros. apply Hb. lia.
Qed.
End Loops.

(** ** Stateful code

    [SM S ret A]: a piece of the body of a member function that returns [ret],
    on an object (and its environment) of type [S]. *)

Definition SM (S ret A : Type) : Type := S -> res (ret * S) (A * S).

#[global] Instance SM_ret S ret : MRet (SM S ret) := fun A a s => Ok (a, s).
#[global] Instance SM_bind S ret : MBind (SM S ret) := fun A B f m s =>
  match m s with
  | Ok (a, s') => f a s'
  | Return r => Return r
  | Exit c => Exit c
  | UB => UB
  | Hang => Hang
  end.

Section Stateful.
Context {S ret : Type}.

(** [return r] *)
Definition ret_ {A} (r : ret) : SM S ret A := fun s => Return (r, s).
(** A call of a member function. *)
Definition call {A} (m : SM S A A) : SM S ret A := fun s => fn (m s).
(** Code that does not use the object. *)
Definition lift {A} (m : res (ret * S) A) : SM S ret A := fun s =>
  match m with
  | Ok a => Ok (a, s)
  | Return r => Return r
  | Exit c => Exit c
  | UB => UB
  | Hang => Hang
  end.
Definition gets {A} (f : S -> A) : SM S ret A := fun s => Ok (f s, s).
Definition modify (f : S -> S) : SM S ret unit := fun s => Ok (tt, f s).
Definition undefined {A} : SM S ret A := fun _ => UB.

(** [for (i = lo; i < lo + n; i++)] with local variables [A]. *)
Definition forM {A} (n lo : nat) (body : nat -> A -> SM S ret A) (a : A) : SM S ret A :=
  fun s => forN n lo (fun i '(a, s) => body i a s) (a, s).
End Stateful.

(** ** Postconditions

    [wp m P Q]: [m] has no undefined behaviour and does not exit or hang; it falls
    through with a value in [P] or returns a value in [Q]. *)

Definition wp {R A} (m : res R A) (P : A -> Prop) (Q : R -> Prop) : Prop :=
  match m with
  | Ok a => P a
  | Return r => Q r
  | Exit _ | UB | Hang => False
  end.

Section Wp.
Context {R : Type}.

Lemma wp_bind {A B} (m : res R A) (f : A -> res R B) P Q :
  wp m (fun a => wp (f a) P Q) Q -> wp (mbind f m) P Q.
Proof. by destruct m. Qed.

Lemma wp_mono {A} (m : res R A) (P P' : A -> Prop) (Q Q' : R -> Prop) :
  wp m P Q -> (forall a, P a -> P' a) -> (forall r, Q r -> Q' r) -> wp m P' Q'.
Proof. destruct m; cbn; auto. Qed.

Lemma wp_ok {A} (m : res R A) a (P : A -> Prop) Q : m = Ok a -> P a -> wp m P Q.
Proof. by intros ->. Qed.

Lemma wp_exists {A} (m : res R A) (P : A -> Prop) Q :
  (exists a, m = Ok a /\ P a) -> wp m P Q.
Proof. intros (a & -> & H). done. Qed.

Lemma wp_forN {S} (I : nat -> S -> Prop) (Q : R -> Prop) n lo body s :
  I lo s ->
  (forall i s, lo <= i < lo + n -> I i s -> wp (body i s) (I (Datatypes.S i)) Q) ->
  wp (forN n lo body s) (I (lo + n)) Q.
Proof.
  revert lo s. induction n as [|n IH]; intros lo s HI Hb; cbn [forN].
  - by rewrite Nat.add_0_r.
  - apply wp_bind. eapply wp_mono; [apply (Hb lo s); [lia|done]| |auto].
    intros s' HI'. rewrite Nat.add_succ_r. apply (IH (Datatypes.S lo)); [done|].
    intros i t Hi. apply Hb. lia.
Qed.

Lemma wp_fn {A} (m : res A A) (P : A -> Prop) (Q : R -> Prop) :
  wp m P P -> wp (fn m) P Q.
Proof. by destruct m. Qed.

Lemma wp_fn_ok {A} (m : res A A) (P : A -> Prop) :
  wp m P P -> exists a, fn (R := R) m = Ok a /\ P a.
Proof. destruct m; cbn; naive_solver. Qed.
End Wp.

(** The same for stateful code: [wps m P Q s] runs [m] from [s]. *)
Definition wps {S ret A} (m : SM S ret A) (P : A -> S -> Prop) (Q : ret -> S -> Prop) (s : S)
  : Prop :=
  match m s with
  | Ok (a, s') => P a s'
  | Return (r, s') => Q r s'
  | Exit _ | UB | Hang => False
  end.

Section Wps.
Context {S ret : Type}.
Implicit Types Q : ret -> S -> Prop.

Lemma wps_bind {A B} (f : A -> SM S ret B) (m : SM S ret A) P Q s :
  wps m (fun a => wps (f a) P Q) Q s -> wps (mbind f m) P Q s.
Proof. unfold wps, mbind, SM_bind. by destruct (m s) as [[a s']|[]| | |]. Qed.

Lemma wps_mret {A} (a : A) (P : A -> S -> Prop) Q s : P a s -> wps (mret a) P Q s.
Proof. done. Qed.

Lemma wps_ret_ {A} (r : ret) (P : A -> S -> Prop) Q s : Q r s -> wps (ret_ r) P Q s.
Proof. done. Qed.

Lemma wps_gets {A} (f : S -> A) (P : A -> S -> Prop) Q s : P (f s) s -> wps (gets f) P Q s.
Proof. done. Qed.

Lemma wps_modify f (P : unit -> S -> Prop) Q s : P tt (f s) -> wps (modify f) P Q s.
Proof. done. Qed.

Lemma wps_lift {A} (m : res (ret * S) A) a (P : A -> S -> Prop) Q s :
  m = Ok a -> P a s -> wps (lift m) P Q s.
Proof. by intros ->. Qed.

Lemma wps_call {A} (m : SM S A A) (P : A -> S -> Prop) Q s :
  wps m P P s -> wps (call m) P Q s.
Proof. unfold wps, call, fn. by destruct (m s) as [[]|[]| | |]. Qed.

Lemma wps_mono {A} (m : SM S ret A) (P P' : A -> S -> Prop) Q Q' s :
  wps m P Q s -> (forall a s, P a s -> P' a s) -> (forall r s, Q r s -> Q' r s) -> wps m P' Q' s.
Proof. unfold wps. destruct (m s) as [[]|[]| | |]; auto. Qed.

Lemma wps_post {A} (m : SM S ret A) (P P' : A -> S -> Prop) Q s :
  wps m P Q s -> (forall a s, P a s -> P' a s) -> wps m P' Q s.
Proof. intros. by eapply wps_mono. Qed.

Lemma wps_forM {A} (I : nat -> A -> S -> Prop) Q n lo (body : nat -> A -> SM S ret A) a s :
  I lo a s ->
  (forall i a s, lo <= i < lo + n -> I i a s -> wps (body i a) (I (Datatypes.S i)) Q s) ->
  wps (forM n lo body a) (I (lo + n)) Q s.
Proof.
  intros HI Hb. unfold wps, forM.
  assert (wp (forN n lo (fun i '(a, s) => body i a s) (a, s))
             (fun '(a, s) => I (lo + n) a s) (fun '(r, s) => Q r s)) as Hw.
  { apply (wp_forN (fun i '(a, s) => I i a s)); [done|].
    intros i [a' s'] Hi HI'. specialize (Hb i a' s' Hi HI'). unfold wps in Hb. unfold wp.
    by destruct (body i a' s') as [[]|[]| | |]. }
  unfold wp in Hw. by destruct (forN _ _ _ _) as [[]|[]| | |].
Qed.

(** A whole method of which every outcome is known. *)
Lemma wps_result {A} (m : SM S ret A) P s :
  wps m P (fun _ _ => False) s -> exists a s', m s = Ok (a, s') /\ P a s'.
Proof. unfold wps. destruct (m s) as [[a s']|[]| | |]; naive_solver. Qed.

Lemma wps_of_result {A} (m : SM S ret A) (P : A -> S -> Prop) Q s a s' :
  m s = Ok (a, s') -> P a s' -> wps m P Q s.
Proof. unfold wps. by intros ->. Qed.
End Wps.

(** [wstep] takes one step of symbolic execution. *)
Ltac wstep :=
  cbv beta match;
  lazymatch goal with
  | |- wps (mbind _ _) _ _ _ => apply wps_bind
  | |- wps (mret _) _ _ _ => apply wps_mret
  | |- wps (ret_ _) _ _ _ => apply wps_ret_
  | |- wps (gets _) _ _ _ => apply wps_gets
  | |- wps (modify _) _ _ _ => apply wps_modify
  | |- wps (call _) _ _ _ => apply wps_call
  end; cbv beta.

(** [wcase E] splits on the decision the next step depends on. *)
Ltac wcase E :=
  cbv beta match;
  lazymatch goal with
  | |- wps (match ?d with left _ => _ | right _ => _ end) _ _ _ => destruct d as [E|E]
  end; cbv beta match.

(** ** Memory blocks

    A buffer of the program is a list; an access outside it is [UB]. *)

Section Buffers.
Context {R A : Type}.
Implicit Types b src : list A.

(** [b[i]] *)
Definition aget b (i : nat) : res R A :=
  match b !! i with Some x => Ok x | None => UB end.

(** [b[i] = x] *)
Definition aset b (i : nat) (x : A) : res R (list A) :=
  if decide (i < length b) then Ok (<[i := x]> b) else UB.

(** The [len] elements at [b + off]. *)
Definition rd b (off len : nat) : res R (list A) :=
  if decide (off + len <= length b) then Ok (take len (drop off b)) else UB.

(** Overwrite the elements at [b + off] with [src]. *)
Definition wr b (off : nat) src : res R (list A) :=
  if decide (off + length src <= length b)
  then Ok (take off b ++ src ++ drop (off + length src) b) else UB.

(** [memcpy(dst + doff, src + soff, len)] *)
Definition memcpy (dst : list A) (doff : nat) src (soff len : nat) : res R (list A) :=
  s ← rd src soff len; wr dst doff s.

(** [memset(dst + off, v, len)] *)
Definition memset (dst : list A) (off : nat) (v : A) (len : nat) : res R (list A) :=
  wr dst off (replicate len v).

Lemma aget_ok b i x : b !! i = Some x -> aget b i = Ok x.
Proof. unfold aget. by intros ->. Qed.

Lemma aset_ok b i x : i < length b -> aset b i x = Ok (<[i := x]> b).
Proof. intros. unfold aset. by rewrite decide_True. Qed.

Lemma rd_ok b off len :
  off + len <= length b -> rd b off len = Ok (take len (drop off b)).
Proof. intros. unfold rd. by rewrite decide_True. Qed.

Lemma wr_ok b off src :
  off + length src <= length b ->
  wr b off src = Ok (take off b ++ src ++ drop (off + length src) b).
Proof. intros. unfold wr. by rewrite decide_True. Qed.

(** Reading and writing the middle part of a buffer. *)
Lemma rd_mid pre mid post off len :
  off = length pre -> len = length mid -> rd (pre ++ mid ++ post) off len = Ok mid.
Proof.
  intros -> ->. rewrite rd_ok by (rewrite !length_app; lia).
  by rewrite drop_app_length, take_app_length.
Qed.

Lemma rd_front mid post len :
  len = length mid -> rd (mid ++ post) 0 len = Ok mid.
Proof. intros. by apply (rd_mid []). Qed.

Lemma wr_mid pre old post off src :
  off = length pre -> length src = length old ->
  wr (pre ++ old ++ post) off src = Ok (pre ++ src ++ post).
Proof.
  intros -> Hl. rewrite wr_ok by (rewrite !length_app; lia).
  rewrite take_app_length, <- drop_drop, drop_app_length, Hl, drop_app_length. done.
Qed.

Lemma wr_front old post src :
  length src = length old -> wr (old ++ post) 0 src = Ok (src ++ post).
Proof. intros. by apply (wr_mid []). Qed.

(** Filling a buffer from the left. *)
Lemma wr_next pre rest off src :
  off = length pre -> length src <= length rest ->
  wr (pre ++ rest) off src = Ok ((pre ++ src) ++ drop (length src) rest).
Proof.
  intros -> Hl. rewrite <- (take_drop (length src) rest) at 1.
  rewrite wr_mid; [by rewrite <- app_assoc|done|]. rewrite length_take. lia.
Qed.

Lemma wr_length b off src b' : wr b off src = Ok b' -> length b' = length b.
Proof.
  unfold wr. case_decide; [|done]. intros; simplify_eq.
  rewrite !length_app, length_take, length_drop. lia.
Qed.

(** The content written by [wr], by position. *)
Lemma wr_lookup b off src b' i :
  wr b off src = Ok b' ->
  b' !! i = if decide (off <= i < off + length src) then src !! (i - off) else b !! i.
Proof.
  unfold wr. case_decide as Hl; [|done]. intros; simplify_eq.
  case_decide as Hi.
  - rewrite lookup_app_r; rewrite length_take; [|lia].
    rewrite lookup_app_l; [f_equal; lia|lia].
  - destruct (decide (i < off)).
    + rewrite lookup_app_l by (rewrite length_take; lia).
      by rewrite lookup_take_lt.
    + rewrite lookup_app_r; rewrite length_take; [|lia].
      rewrite lookup_app_r by lia. rewrite lookup_drop. f_equal; lia.
Qed.

Lemma memcpy_ok dst doff src soff len :
  soff + len <= length src -> doff + len <= length dst ->
  memcpy dst doff src soff len
  = Ok (take doff dst ++ take len (drop soff src) ++ drop (doff + len) dst).
Proof.
  intros. unfold memcpy. rewrite rd_ok by done. cbn.
  assert (length (take len (drop soff src)) = len) as Hl
    by (rewrite length_take, length_drop; lia).
  rewrite wr_ok by (rewrite Hl; lia). by rewrite Hl.
Qed.
End Buffers.

#[export] Hint Rewrite @length_app @length_take @length_drop @length_replicate
  @length_insert @length_fmap @length_zip_with : meta_rw.

(** [lens] normalises list lengths and closes the arithmetic that is left. *)
Ltac lens := autorewrite with meta_rw in *; cbn [length] in *; try lia.

(** ** Bytes *)

#[global] Instance byte_eq_dec : EqDecision byte.
Proof.
  refine (fun a b => match Byte.eqb a b as r return Byte.eqb a b = r -> Decision (a = b) with
                  | true => fun H => left _ | false => fun H => right _ end eq_refl).
  - by apply Strings.Byte.byte_dec_bl.
  - intros ->. by rewrite Strings.Byte.byte_dec_lb in H.
Defined.

#[global] Instance byte_inhabited : Inhabited byte := populate Byte.x00.

Abbreviation bytes := (list byte).

#[global] Instance byte_countable : Countable byte :=
  inj_countable Byte.to_N Byte.of_N Byte.of_to_N.

(** ** Machine integers *)

Local Open Scope Z_scope.

(** A value of type [uint32_t]. *)
Definition u32 (x : Z) : Z := x mod 2 ^ 32.

(** The result of an [int] operation: overflow is undefined behaviour. *)
Definition sint {R} (x : Z) : res R Z :=
  if decide (- 2 ^ 31 <= x < 2 ^ 31) then Ok x else UB.

Lemma sint_ok {R} x : - 2 ^ 31 <= x < 2 ^ 31 -> sint (R := R) x = Ok x.
Proof. intros. unfold sint. by rewrite decide_True. Qed.

(** The conversion of an [int] to [size_t] where it denotes a size or an offset:
    a negative value becomes larger than any buffer. *)
Definition sz {R} (x : Z) : res R nat := if decide (0 <= x) then Ok (Z.to_nat x) else UB.

Lemma sz_ok {R} x : 0 <= x -> sz (R := R) x = Ok (Z.to_nat x).
Proof. intros. unfold sz. by rewrite decide_True. Qed.
