(* ===== verification/GaloisField.v ===== *)
(** * GF(256)

    [CDCodec] computes in GF(256) through a [gf_t] object of the GF-Complete
    library, which is not part of the repository.  The operations it uses are
    the class [GaloisField]; the algebra GF-Complete documents for them is
    [GaloisFieldLaws].  Addition in GF(2^w) is exclusive or, which the program
    writes as [^].  [gf256] is a concrete instance (the polynomial 0x11d, which
    GF-Complete uses by default for w = 8). *)

From stdpp Require Import base list numbers.
From coqutil Require Import Byte.
From Stdlib Require Import Lia Field.
From S2P Require Import Prelude.

Local Open Scope Z_scope.

(** ** Exclusive or on bytes *)

Lemma testbit_byte_high (b : byte) i : 8 <= i -> Z.testbit (byte.unsigned b) i = false.
Proof.
  intros Hi. rewrite <- (byte.wrap_unsigned b). unfold byte.wrap.
  rewrite <- Z.land_ones, Z.land_spec, Z.ones_spec_high by lia.
  apply andb_false_r.
Qed.

Lemma unsigned_xor (a b : byte) :
  byte.unsigned (byte.xor a b) = Z.lxor (byte.unsigned a) (byte.unsigned b).
Proof.
  unfold byte.xor. rewrite byte.unsigned_of_Z. unfold byte.wrap.
  rewrite <- Z.land_ones by lia. apply Z.bits_inj'. intros i Hi.
  rewrite Z.land_spec, Z.lxor_spec.
  destruct (decide (i < 8)).
  - rewrite Z.ones_spec_low by lia. apply andb_true_r.
  - rewrite !testbit_byte_high by lia. done.
Qed.

Lemma xor_comm a b : byte.xor a b = byte.xor b a.
Proof. apply byte.unsigned_inj. by rewrite !unsigned_xor, Z.lxor_comm. Qed.

Lemma xor_assoc a b c : byte.xor a (byte.xor b c) = byte.xor (byte.xor a b) c.
Proof. apply byte.unsigned_inj. by rewrite !unsigned_xor, Z.lxor_assoc. Qed.

Lemma xor_0_l a : byte.xor Byte.x00 a = a.
Proof. apply byte.unsigned_inj. by rewrite unsigned_xor. Qed.

Lemma xor_0_r a : byte.xor a Byte.x00 = a.
Proof. by rewrite xor_comm, xor_0_l. Qed.

Lemma xor_nilp a : byte.xor a a = Byte.x00.
Proof. apply byte.unsigned_inj. by rewrite unsigned_xor, Z.lxor_nilpotent. Qed.

Lemma xor_cancel_l a b : byte.xor a (byte.xor a b) = b.
Proof. by rewrite xor_assoc, xor_nilp, xor_0_l. Qed.

Lemma xor_cancel_r a b : byte.xor (byte.xor a b) b = a.
Proof. by rewrite <- xor_assoc, xor_nilp, xor_0_r. Qed.

Lemma xor_eq_0 a b : byte.xor a b = Byte.x00 -> a = b.
Proof.
  intros H. apply (f_equal (byte.xor a)) in H. rewrite xor_cancel_l, xor_0_r in H. done.
Qed.

#[export] Hint Rewrite xor_0_l xor_0_r xor_nilp xor_cancel_l xor_cancel_r : meta_rw.

(** A C [int] used as a GF word: GF-Complete's [w = 8] operations are tables
    over 0..255, so any other value is an access outside them. *)
Definition gf_word {R} (z : Z) : res R byte :=
  if decide (0 <= z < 256) then Ok (byte.of_Z z) else UB.

Lemma gf_word_ok {R} z : 0 <= z < 256 -> gf_word (R := R) z = Ok (byte.of_Z z).
Proof. intros. unfold gf_word. by rewrite decide_True. Qed.

Lemma of_Z_inj_small x y :
  0 <= x < 256 -> 0 <= y < 256 -> byte.of_Z x = byte.of_Z y -> x = y.
Proof.
  intros Hx Hy H. apply (f_equal byte.unsigned) in H.
  rewrite !byte.unsigned_of_Z in H. unfold byte.wrap in H.
  rewrite !Z.mod_small in H; lia.
Qed.

Lemma lxor_byte_range x y : 0 <= x < 256 -> 0 <= y < 256 -> 0 <= Z.lxor x y < 256.
Proof.
  intros Hx Hy. pose proof (unsigned_xor (byte.of_Z x) (byte.of_Z y)) as H.
  rewrite !byte.unsigned_of_Z in H. unfold byte.wrap in H.
  rewrite !(Z.mod_small _ (2^8)) in H by lia.
  rewrite <- H. apply byte.unsigned_range.
Qed.

(** [i ^ j] on small ints is the exclusive or of the two bytes. *)
Lemma of_Z_lxor x y :
  0 <= x < 256 -> 0 <= y < 256 ->
  byte.of_Z (Z.lxor x y) = byte.xor (byte.of_Z x) (byte.of_Z y).
Proof.
  intros Hx Hy. apply byte.unsigned_inj.
  rewrite unsigned_xor, !byte.unsigned_of_Z. unfold byte.wrap.
  pose proof (lxor_byte_range x y Hx Hy).
  by rewrite !Z.mod_small by lia.
Qed.

(** ** The interface *)

Class GaloisField := {
  (** [gfObj_.multiply.w32(&gfObj_, a, b)] *)
  gf_mul : byte -> byte -> byte;
  (** [gfObj_.divide.w32(&gfObj_, a, b)] *)
  gf_div : byte -> byte -> byte;
}.

Class GaloisFieldLaws {GF : GaloisField} := {
  gf_mul_comm a b : gf_mul a b = gf_mul b a;
  gf_mul_assoc a b c : gf_mul a (gf_mul b c) = gf_mul (gf_mul a b) c;
  gf_mul_1_l a : gf_mul Byte.x01 a = a;
  gf_mul_xor_l a b c : gf_mul (byte.xor a b) c = byte.xor (gf_mul a c) (gf_mul b c);
  gf_mul_div a b : b <> Byte.x00 -> gf_mul (gf_div a b) b = a;
}.
Arguments GaloisFieldLaws : clear implicits.

Declare Scope gf_scope.
Delimit Scope gf_scope with gf.
Infix "+" := byte.xor : gf_scope.
Infix "*" := gf_mul : gf_scope.
Notation "0" := Byte.x00 : gf_scope.
Notation "1" := Byte.x01 : gf_scope.

(** The reciprocal, which the program writes [divide.w32(&gfObj_, 1, x)]. *)
Definition gf_inv {GF : GaloisField} (x : byte) : byte := gf_div Byte.x01 x.
Notation "/ x" := (gf_inv x) : gf_scope.

Ltac gf_cst t :=
  lazymatch t with
  | Byte.x00 => constr:(false)
  | Byte.x01 => constr:(true)
  | _ => constr:(InitialRing.NotConstant)
  end.

Section Field.
Context {GF : GaloisField} {LAWS : GaloisFieldLaws GF}.
Local Open Scope gf_scope.

Lemma gf_mul_0_l a : 0 * a = 0.
Proof.
  assert (0 * a = 0 * a + 0 * a) as H by (by rewrite <- gf_mul_xor_l, xor_nilp).
  by rewrite xor_nilp in H.
Qed.

Lemma gf_1_neq_0 : Byte.x01 <> Byte.x00.
Proof. done. Qed.

(** The ring and field structures, for [ring] and [field]. *)
Lemma gf_field_theory :
  field_theory 0 1 byte.xor gf_mul byte.xor id (fun a b => a * / b) gf_inv eq.
Proof.
  constructor.
  - constructor; intros.
    + apply xor_0_l.
    + apply xor_comm.
    + apply xor_assoc.
    + apply gf_mul_1_l.
    + apply gf_mul_comm.
    + apply gf_mul_assoc.
    + apply gf_mul_xor_l.
    + done.
    + apply xor_nilp.
  - apply gf_1_neq_0.
  - done.
  - intros p Hp. by apply gf_mul_div.
Qed.

(** Characteristic 2: the coefficients [ring] computes with are booleans. *)
Definition gf_of_bool (b : bool) : byte := if b then 1 else 0.

Lemma gf_morph :
  ring_morph 0 1 byte.xor gf_mul byte.xor id eq
    false true xorb andb xorb (fun b => b) Bool.eqb gf_of_bool.
Proof.
  constructor; try done.
  - by intros [] [].
  - by intros [] [].
  - intros [] []; cbn; rewrite ?gf_mul_1_l, ?gf_mul_0_l; done.
  - by intros [] [].
Qed.

Add Field gf_field : gf_field_theory (morphism gf_morph, constants [gf_cst]).

Lemma gf_mul_0_r a : a * 0 = 0.
Proof. ring. Qed.

Lemma gf_mul_1_r a : a * 1 = a.
Proof. ring. Qed.

Lemma gf_mul_xor_r a b c : a * (b + c) = a * b + a * c.
Proof. ring. Qed.

Lemma gf_mul_eq_0 a b : a * b = 0 -> a <> 0 -> b = 0.
Proof.
  intros H Ha. assert (b = / a * (a * b)) as -> by (field; done).
  rewrite H. apply gf_mul_0_r.
Qed.

Lemma gf_inv_neq_0 a : a <> 0 -> / a <> 0.
Proof.
  intros Ha H. pose proof (gf_mul_div 1 a Ha) as E. fold (/ a) in E. rewrite H, gf_mul_0_l in E.
  by symmetry in E; apply gf_1_neq_0 in E.
Qed.
End Field.

#[export] Hint Rewrite @gf_mul_0_l @gf_mul_0_r @gf_mul_1_r @gf_mul_1_l
  using typeclasses eauto : meta_rw.

(** ** A concrete GF(256) *)

Module GF256.

(** Multiplication by x modulo x^8 + x^4 + x^3 + x^2 + 1. *)
Definition xtime (a : byte) : byte :=
  let z := 2 * byte.unsigned a in
  byte.of_Z (if z <? 256 then z else Z.lxor z 0x11d).

Fixpoint mul_bits (n : nat) (a : byte) (b : Z) : byte :=
  match n with
  | O => Byte.x00
  | S n' => byte.xor (if Z.odd b then a else Byte.x00) (mul_bits n' (xtime a) (Z.div2 b))
  end.

Definition mul (a b : byte) : byte := mul_bits 8 a (byte.unsigned b).

(** x^254, the reciprocal of x <> 0. *)
Definition inv (a : byte) : byte :=
  let sq x := mul x x in
  let a2 := sq a in let a4 := sq a2 in let a8 := sq a4 in let a16 := sq a8 in
  let a32 := sq a16 in let a64 := sq a32 in let a128 := sq a64 in
  mul a128 (mul a64 (mul a32 (mul a16 (mul a8 (mul a4 a2))))).

Definition div (a b : byte) : byte := mul a (inv b).

Definition all_bytes : list byte := map byte.of_Z (seqZ 0 256).

Lemma all_bytes_complete b : In b all_bytes.
Proof.
  unfold all_bytes. apply in_map_iff. exists (byte.unsigned b).
  split; [apply byte.of_Z_unsigned|].
  apply list_elem_of_In, elem_of_seqZ. pose proof (byte.unsigned_range b). lia.
Qed.

(** Decide a property of all bytes, or of all pairs of bytes, by evaluation. *)
Lemma all_bytes_check (f : byte -> bool) : forallb f all_bytes = true -> forall a, f a = true.
Proof. rewrite forallb_forall. eauto using all_bytes_complete. Qed.

Lemma all_pairs_check (f : byte -> byte -> bool) :
  forallb (fun a => forallb (f a) all_bytes) all_bytes = true -> forall a b, f a b = true.
Proof.
  intros H a b. apply (all_bytes_check (f a)).
  by apply (all_bytes_check (fun a => forallb (f a) all_bytes)).
Qed.

Lemma eqb_true (a b : byte) : Byte.eqb a b = true -> a = b.
Proof. apply Strings.Byte.byte_dec_bl. Qed.

Lemma xtime_xor a b : xtime (byte.xor a b) = byte.xor (xtime a) (xtime b).
Proof.
  apply eqb_true. revert a b.
  apply (all_pairs_check (fun a b =>
    Byte.eqb (xtime (byte.xor a b)) (byte.xor (xtime a) (xtime b)))).
  vm_compute. reflexivity.
Qed.

Lemma mul_1_l a : mul Byte.x01 a = a.
Proof.
  apply eqb_true. revert a.
  apply (all_bytes_check (fun a => Byte.eqb (mul Byte.x01 a) a)). vm_compute. reflexivity.
Qed.

Lemma mul_inv_l a : a <> Byte.x00 -> mul (inv a) a = Byte.x01.
Proof.
  intros Ha.
  assert (orb (Byte.eqb a Byte.x00) (Byte.eqb (mul (inv a) a) Byte.x01) = true) as H.
  { revert a Ha. intros a _. revert a.
    apply (all_bytes_check
             (fun a => orb (Byte.eqb a Byte.x00) (Byte.eqb (mul (inv a) a) Byte.x01))).
    vm_compute. reflexivity. }
  apply orb_prop in H as [H|H]; apply eqb_true in H; [done|done].
Qed.

Lemma mul_bits_0 n b : mul_bits n Byte.x00 b = Byte.x00.
Proof.
  revert b. induction n as [|n IH]; intros b; cbn [mul_bits]; [done|].
  change (xtime Byte.x00) with Byte.x00. rewrite IH. by destruct (Z.odd b).
Qed.

Lemma xor_swap a b c d :
  byte.xor (byte.xor a b) (byte.xor c d) = byte.xor (byte.xor a c) (byte.xor b d).
Proof. rewrite <- !xor_assoc. f_equal. by rewrite !xor_assoc, (xor_comm b c). Qed.

Lemma mul_bits_lxor n a b c :
  mul_bits n a (Z.lxor b c) = byte.xor (mul_bits n a b) (mul_bits n a c).
Proof.
  revert a b c. induction n as [|n IH]; intros a b c; cbn [mul_bits]; [done|].
  rewrite !Z.div2_spec, Z.shiftr_lxor, <- !Z.div2_spec, IH.
  rewrite <- !Z.bit0_odd, Z.lxor_spec.
  rewrite xor_swap. f_equal.
  destruct (Z.testbit b 0), (Z.testbit c 0); cbn [xorb]; by autorewrite with meta_rw.
Qed.

Lemma mul_xor_r a b c : mul a (byte.xor b c) = byte.xor (mul a b) (mul a c).
Proof. unfold mul. by rewrite unsigned_xor, mul_bits_lxor. Qed.

Lemma mul_bits_xor n a b c :
  mul_bits n (byte.xor a b) c = byte.xor (mul_bits n a c) (mul_bits n b c).
Proof.
  revert a b c. induction n as [|n IH]; intros a b c; cbn [mul_bits]; [done|].
  rewrite xtime_xor, IH, xor_swap. f_equal.
  destruct (Z.odd c); by autorewrite with meta_rw.
Qed.

Lemma mul_bits_xtime n a b : mul_bits n (xtime a) b = xtime (mul_bits n a b).
Proof.
  revert a b. induction n as [|n IH]; intros a b; cbn [mul_bits]; [done|].
  rewrite xtime_xor, IH. by destruct (Z.odd b).
Qed.

(** Multiplication commutes with the shift-and-add expansion of a factor. *)
Lemma mul_bits_mul n a b c : mul (mul_bits n a c) b = mul_bits n (mul a b) c.
Proof.
  revert a c. induction n as [|n IH]; intros a c; cbn [mul_bits].
  - apply mul_bits_0.
  - unfold mul in *. rewrite mul_bits_xor, IH, mul_bits_xtime. f_equal.
    destruct (Z.odd c); [done|apply mul_bits_0].
Qed.

Lemma mul_comm a b : mul a b = mul b a.
Proof.
  rewrite <- (mul_1_l a) at 1. unfold mul at 2.
  rewrite mul_bits_mul, mul_1_l. done.
Qed.

Lemma mul_assoc a b c : mul a (mul b c) = mul (mul a b) c.
Proof.
  rewrite (mul_comm a (mul b c)). unfold mul at 2. rewrite mul_bits_mul.
  by rewrite (mul_comm b a).
Qed.

#[export] Instance gf256 : GaloisField := {| gf_mul := mul; gf_div := div |}.

Lemma mul_xor_l a b c : mul (byte.xor a b) c = byte.xor (mul a c) (mul b c).
Proof. apply mul_bits_xor. Qed.

Lemma mul_div a b : b <> Byte.x00 -> mul (div a b) b = a.
Proof.
  intros Hb. unfold div. rewrite <- mul_assoc, (mul_inv_l b Hb), mul_comm. apply mul_1_l.
Qed.

#[export] Instance gf256_laws : GaloisFieldLaws gf256 := {|
  gf_mul_comm := mul_comm;
  gf_mul_assoc := mul_assoc;
  gf_mul_1_l := mul_1_l;
  gf_mul_xor_l := mul_xor_l;
  gf_mul_div := mul_div;
|}.

End GF256.
