(* ===== verification/LinearAlgebra.v ===== *)
(** * Linear algebra over GF(256)

    The mathematics behind the erasure codes of [CDCodec]: finite sums,
    nonsingular matrices (trivial kernel), and the fact that makes a Cauchy
    matrix usable as an erasure code, namely that every square submatrix of it
    is nonsingular. *)

From stdpp Require Import base list numbers sets.
From coqutil Require Import Byte.
From Stdlib Require Import Lia Field.
From S2P Require Import Prelude GaloisField.

Section LinearAlgebra.
Context {GF : GaloisField} {LAWS : GaloisFieldLaws GF}.
Local Open Scope gf_scope.

Add Field gf_field' : gf_field_theory (morphism gf_morph, constants [gf_cst]).

(** ** Sums *)

(** f 0 + ... + f (k - 1). *)
Fixpoint gsum (k : nat) (f : nat -> byte) : byte :=
  match k with
  | O => 0
  | S k' => gsum k' f + f k'
  end.

Definition delta (i j : nat) : byte := if decide (i = j) then 1 else 0.

Lemma gsum_ext k f g : (forall j, (j < k)%nat -> f j = g j) -> gsum k f = gsum k g.
Proof.
  intros H. induction k as [|k IH]; cbn; [done|].
  rewrite IH, H by (intros; try apply H; lia). done.
Qed.

Lemma gsum_add k f g : gsum k (fun j => f j + g j) = gsum k f + gsum k g.
Proof. induction k as [|k IH]; cbn; [done|]. rewrite IH. ring. Qed.

Lemma gsum_mul_l k c f : gsum k (fun j => c * f j) = c * gsum k f.
Proof. induction k as [|k IH]; cbn; [ring|]. rewrite IH. ring. Qed.

Lemma gsum_mul_r k c f : gsum k (fun j => f j * c) = gsum k f * c.
Proof. induction k as [|k IH]; cbn; [ring|]. rewrite IH. ring. Qed.

Lemma gsum_0 k f : (forall j, (j < k)%nat -> f j = 0) -> gsum k f = 0.
Proof.
  intros H. induction k as [|k IH]; cbn; [done|].
  rewrite IH, H by (intros; try apply H; lia). done.
Qed.

(** A sum with one nonzero term. *)
Lemma gsum_single k f i :
  (i < k)%nat -> (forall j, (j < k)%nat -> j <> i -> f j = 0) -> gsum k f = f i.
Proof.
  intros Hi H. induction k as [|k IH]; [lia|]. cbn.
  destruct (decide (i = k)) as [->|Hne].
  - rewrite gsum_0; [ring|]. intros. apply H; lia.
  - rewrite IH, (H k) by (intros; try apply H; lia). ring.
Qed.

Lemma gsum_swap k n (f : nat -> nat -> byte) :
  gsum k (fun i => gsum n (fun j => f i j)) = gsum n (fun j => gsum k (fun i => f i j)).
Proof.
  induction k as [|k IH]; cbn.
  - symmetry. by apply gsum_0.
  - rewrite IH. symmetry. apply gsum_add.
Qed.

(** A change of one term. *)
Lemma gsum_update k f g i :
  (i < k)%nat -> (forall j, (j < k)%nat -> j <> i -> f j = g j) ->
  gsum k f = gsum k g + (f i + g i).
Proof.
  intros Hi H.
  rewrite <- (gsum_single k (fun j => f j + g j) i Hi).
  - rewrite gsum_add. ring.
  - intros j Hj Hne. rewrite H by done. apply xor_nilp.
Qed.

Lemma gsum_delta_l k i f : (i < k)%nat -> gsum k (fun j => delta i j * f j) = f i.
Proof.
  intros Hi. rewrite (gsum_single k _ i Hi).
  - unfold delta. rewrite decide_True by done. ring.
  - intros j _ Hne. unfold delta. rewrite decide_False by done. ring.
Qed.

(** ** Square matrices *)

(** Only the zero vector is mapped to zero. *)
Definition nonsing (k : nat) (m : nat -> nat -> byte) : Prop :=
  forall x : nat -> byte,
    (forall i, (i < k)%nat -> gsum k (fun j => m i j * x j) = 0) ->
    forall j, (j < k)%nat -> x j = 0.

(** v m = s *)
Definition mat_mul_eq (k : nat) (v m s : nat -> nat -> byte) : Prop :=
  forall i j, (i < k)%nat -> (j < k)%nat -> gsum k (fun h => v i h * m h j) = s i j.

Lemma mat_mul_vec k v m s x i :
  mat_mul_eq k v m s -> (i < k)%nat ->
  gsum k (fun h => v i h * gsum k (fun j => m h j * x j)) = gsum k (fun j => s i j * x j).
Proof.
  intros H Hi.
  rewrite (gsum_ext k _ (fun h => gsum k (fun j => v i h * m h j * x j))).
  2: { intros h _. rewrite <- gsum_mul_l. apply gsum_ext. intros. ring. }
  rewrite gsum_swap. apply gsum_ext. intros j Hj.
  rewrite gsum_mul_r. f_equal. by apply H.
Qed.

Lemma left_inverse_nonsing k v m : mat_mul_eq k v m delta -> nonsing k m.
Proof.
  intros H x Hx i Hi. rewrite <- (gsum_delta_l k i x Hi).
  rewrite <- (mat_mul_vec k v m delta x i H Hi).
  apply gsum_0. intros h Hh. rewrite Hx by done. ring.
Qed.

Lemma delta_nonsing k : nonsing k delta.
Proof. intros x Hx j Hj. by rewrite <- (gsum_delta_l k j x Hj), Hx. Qed.

(** A left inverse that is nonsingular is a right inverse. *)
Lemma right_inverse k v m :
  mat_mul_eq k v m delta -> nonsing k v -> mat_mul_eq k m v delta.
Proof.
  intros Hvm Hv i j Hi Hj.
  assert (forall a, (a < k)%nat -> gsum k (fun h => m a h * v h j) + delta a j = 0) as H.
  { apply (Hv (fun a => gsum k (fun h => m a h * v h j) + delta a j)). intros a Ha.
    rewrite (gsum_ext k _ (fun h => v a h * gsum k (fun b => m h b * v b j)
                                    + v a h * delta h j)) by (intros; ring).
    rewrite gsum_add, (mat_mul_vec k v m delta (fun b => v b j) a Hvm Ha).
    rewrite (gsum_delta_l k a (fun b => v b j) Ha).
    rewrite (gsum_ext k (fun h => v a h * delta h j) (fun h => delta j h * v a h)).
    - rewrite (gsum_delta_l k j (fun h => v a h) Hj). apply xor_nilp.
    - intros h _. unfold delta. repeat case_decide; subst; try done; ring. }
  apply xor_eq_0, H, Hi.
Qed.

Lemma nonsing_ext k m m' :
  (forall i j, (i < k)%nat -> (j < k)%nat -> m i j = m' i j) -> nonsing k m -> nonsing k m'.
Proof.
  intros H Hn x Hx. apply Hn. intros i Hi. rewrite <- (Hx i Hi).
  apply gsum_ext. intros j Hj. by rewrite H.
Qed.

(** ** Row operations

    Each row of [B] is a combination of two rows of [A]; in [row_comb2] a
    second pair of matrices is combined with the same coefficients. *)

Definition row_comb2 (k : nat) (A A' B B' : nat -> nat -> byte) : Prop :=
  forall i, (i < k)%nat -> exists a p b q, (p < k)%nat /\ (q < k)%nat /\
    (forall j, (j < k)%nat -> B i j = a * A p j + b * A q j) /\
    (forall j, (j < k)%nat -> B' i j = a * A' p j + b * A' q j).

Lemma mat_mul_row_comb k V m S V' S' :
  row_comb2 k V S V' S' -> mat_mul_eq k V m S -> mat_mul_eq k V' m S'.
Proof.
  intros H HV i j Hi Hj. destruct (H i Hi) as (a & p & b & q & Hp & Hq & HV' & HS').
  rewrite HS' by done.
  rewrite (gsum_ext k _ (fun h => a * (V p h * m h j) + b * (V q h * m h j))).
  2: { intros h Hh. rewrite HV' by done. ring. }
  rewrite gsum_add, !gsum_mul_l. by rewrite (HV p j), (HV q j).
Qed.

Lemma nonsing_row_comb k A B : row_comb2 k B B A A -> nonsing k A -> nonsing k B.
Proof.
  intros H HA x Hx. apply HA. intros i Hi.
  destruct (H i Hi) as (a & p & b & q & Hp & Hq & HAB & _).
  rewrite (gsum_ext k _ (fun j => a * (B p j * x j) + b * (B q j * x j))).
  2: { intros j Hj. rewrite HAB by done. ring. }
  rewrite gsum_add, !gsum_mul_l, (Hx p), (Hx q) by done. ring.
Qed.

(** The first [i] columns are those of a unit upper triangular matrix. *)
Definition unit_upper (k i : nat) (m : nat -> nat -> byte) : Prop :=
  forall c, (c < i)%nat -> m c c = 1 /\ forall r, (c < r < k)%nat -> m r c = 0.

(** Back substitution, on the rows [i - t .. i - 1]. *)
Lemma back_substitution k i m t :
  unit_upper k i m -> (i < k)%nat -> (t <= i)%nat ->
  exists x : nat -> byte, x i = 1 /\ (forall j, (i < j)%nat -> x j = 0) /\
    forall r, (i - t <= r < i)%nat -> gsum k (fun j => m r j * x j) = 0.
Proof.
  intros HU Hi. induction t as [|t IH]; intros Ht.
  - exists (fun j => if decide (j = i) then 1 else 0).
    split; [by rewrite decide_True|]. split; [|lia].
    intros j Hj. rewrite decide_False by lia. done.
  - destruct IH as (x & Hxi & Hxhi & Hx); [lia|].
    assert (exists r0, r0 = (i - S t)%nat) as [r0 Hr0] by eauto.
    set (s := gsum k (fun j => m r0 j * x j)).
    exists (fun j => if decide (j = r0) then x r0 + s else x j).
    split; [rewrite decide_False by lia; done|]. split.
    { intros j Hj. rewrite decide_False by lia. by apply Hxhi. }
    intros r Hr. rewrite (gsum_update k _ (fun j => m r j * x j) r0); [|lia|].
    2: { intros j Hj Hne. by rewrite decide_False. }
    rewrite decide_True by done.
    destruct (decide (r = r0)) as [->|Hne].
    + fold s. destruct (HU r0) as [-> _]; [lia|]. ring.
    + rewrite Hx by lia. destruct (HU r0) as [_ HU0]; [lia|].
      rewrite (HU0 r) by lia. ring.
Qed.

(** No pivot left in column [i]: the matrix is singular. *)
Lemma no_pivot_singular k i m :
  unit_upper k i m -> (i < k)%nat ->
  (forall r, (i <= r < k)%nat -> m r i = 0) -> ~ nonsing k m.
Proof.
  intros HU Hi Hz Hn.
  destruct (back_substitution k i m i HU Hi) as (x & Hxi & Hxhi & Hx); [lia|].
  assert (x i = 0) as H0; [|by rewrite Hxi in H0].
  apply Hn; [|done]. intros r Hr. destruct (decide (r < i)%nat).
  - apply Hx. lia.
  - apply gsum_0. intros j Hj. destruct (Nat.lt_trichotomy j i) as [Hl|[->|Hl]].
    + destruct (HU j Hl) as [_ HU0]. rewrite (HU0 r) by lia. ring.
    + rewrite Hz by lia. ring.
    + rewrite Hxhi by done. ring.
Qed.

(** ** Sums over lists, and the Cauchy matrix *)

Fixpoint lsum {A} (f : A -> byte) (l : list A) : byte :=
  match l with
  | [] => 0
  | a :: l' => f a + lsum f l'
  end.

Lemma lsum_ext {A} (f g : A -> byte) l :
  (forall a, a ∈ l -> f a = g a) -> lsum f l = lsum g l.
Proof.
  induction l as [|a l IH]; intros H; cbn; [done|].
  rewrite H, IH by set_solver. done.
Qed.

Lemma lsum_add {A} (f g : A -> byte) l : lsum (fun a => f a + g a) l = lsum f l + lsum g l.
Proof. induction l as [|a l IH]; cbn; [done|]. rewrite IH. ring. Qed.

Lemma lsum_mul_l {A} c (f : A -> byte) l : lsum (fun a => c * f a) l = c * lsum f l.
Proof. induction l as [|a l IH]; cbn; [ring|]. rewrite IH. ring. Qed.

Lemma lsum_fmap {A B} (f : B -> byte) (g : A -> B) l : lsum f (g <$> l) = lsum (f ∘ g) l.
Proof. induction l as [|a l IH]; cbn; [done|]. by rewrite IH. Qed.

Lemma lsum_app {A} (f : A -> byte) l1 l2 : lsum f (l1 ++ l2) = lsum f l1 + lsum f l2.
Proof. induction l1 as [|a l IH]; cbn; [by rewrite xor_0_l|]. rewrite IH. ring. Qed.

Lemma gsum_lsum k f : gsum k f = lsum f (seq 0 k).
Proof.
  induction k as [|k IH]; [done|]. rewrite seq_S, lsum_app, <- IH. cbn. ring.
Qed.

(** Terms outside [P] vanish. *)
Lemma lsum_filter {A} (P : A -> Prop) {HD : forall a, Decision (P a)} (f : A -> byte) l :
  (forall a, a ∈ l -> ~ P a -> f a = 0) -> lsum f l = lsum f (filter P l).
Proof.
  induction l as [|a l IH]; intros H; [done|].
  rewrite filter_cons. cbn [lsum].
  rewrite IH by set_solver. case_decide; cbn; [done|].
  rewrite H by set_solver. apply xor_0_l.
Qed.

(** Row [a] of a Cauchy matrix applied to a vector, given with its columns. *)
Definition csum (a : byte) (l : list (byte * byte)) : byte :=
  lsum (fun p => p.2 * / (a + p.1)) l.

(** One elimination step on a Cauchy system: rows [a0] and [a], column [b0]. *)
Lemma csum_eliminate a0 a b0 x0 l :
  a <> a0 ->
  a0 + b0 <> 0 -> a + b0 <> 0 ->
  (forall p, p ∈ l -> a0 + p.1 <> 0 /\ a + p.1 <> 0) ->
  csum a0 ((b0, x0) :: l) = 0 -> csum a ((b0, x0) :: l) = 0 ->
  csum a ((fun p => (p.1, p.2 * (b0 + p.1) * / (a0 + p.1))) <$> l) = 0.
Proof.
  intros Hne H0 H1 Hl E0 E1.
  apply (gf_mul_eq_0 (a + a0)); [|intros E; apply Hne; by apply xor_eq_0].
  assert (csum a ((fun p => (p.1, p.2 * (b0 + p.1) * / (a0 + p.1))) <$> l) * (a + a0)
          = lsum (fun p => (a + b0) * (p.2 * / (a + p.1)) + (a0 + b0) * (p.2 * / (a0 + p.1))) l)
    as Hs.
  { unfold csum. rewrite lsum_fmap. rewrite gf_mul_comm, <- lsum_mul_l.
    apply lsum_ext. intros p Hp. cbn. destruct (Hl p Hp) as [Hp0 Hp1].
    field_simplify_eq; [|split; done]. ring. }
  rewrite gf_mul_comm, Hs, lsum_add, !lsum_mul_l.
  unfold csum in E0, E1. cbn in E0, E1.
  apply xor_eq_0 in E0, E1. rewrite <- E0, <- E1.
  field_simplify_eq; [ring|split; done].
Qed.

(** A vector in the kernel of a square Cauchy system is zero. *)
Theorem cauchy_kernel (la : list byte) (l : list (byte * byte)) :
  length la = length l -> NoDup la -> NoDup l.*1 ->
  (forall a p, a ∈ la -> p ∈ l -> a + p.1 <> 0) ->
  (forall a, a ∈ la -> csum a l = 0) ->
  Forall (fun p => p.2 = 0) l.
Proof.
  revert l. induction la as [|a0 la IH]; intros [|[b0 x0] l] Hlen Ha Hb Hab Hs;
    try discriminate; [constructor|].
  apply NoDup_cons in Ha as [Ha0 Ha]. cbn in Hb. apply NoDup_cons in Hb as [Hb0 Hb].
  assert (a0 + b0 <> 0) as H00 by (apply (Hab a0 (b0, x0)); set_solver).
  assert (Forall (fun p => p.2 = 0) ((fun p => (p.1, p.2 * (b0 + p.1) * / (a0 + p.1))) <$> l))
    as Hz.
  { apply IH.
    - rewrite length_fmap. cbn in Hlen. lia.
    - done.
    - rewrite <- list_fmap_compose. by rewrite (list_fmap_ext _ fst l) by done.
    - intros a p Hain (q & -> & Hq)%list_elem_of_fmap. cbn. apply Hab; set_solver.
    - intros a Hain. apply csum_eliminate with x0.
      + set_solver.
      + done.
      + apply (Hab a (b0, x0)); set_solver.
      + intros p Hp. split; apply Hab; set_solver.
      + apply Hs. set_solver.
      + apply Hs. set_solver. }
  assert (Forall (fun p => p.2 = 0) l) as Hl.
  { rewrite Forall_fmap in Hz. rewrite Forall_forall in Hz |- *. intros p Hp.
    specialize (Hz p Hp). cbn in Hz.
    assert (a0 + p.1 <> 0) as Hap by (apply Hab; set_solver).
    rewrite (gf_mul_comm _ (/ _)) in Hz.
    apply gf_mul_eq_0 in Hz; [|by apply gf_inv_neq_0].
    rewrite gf_mul_comm in Hz. apply gf_mul_eq_0 in Hz; [done|].
    intros E. apply xor_eq_0 in E. apply Hb0. rewrite E.
    apply list_elem_of_fmap. eauto. }
  constructor; [|done]. cbn.
  specialize (Hs a0). unfold csum in Hs. cbn in Hs.
  rewrite (lsum_ext _ (fun _ => 0) l) in Hs.
  2: { intros p Hp. rewrite Forall_forall in Hl. rewrite Hl by done. ring. }
  assert (lsum (fun _ : byte * byte => 0) l = 0) as Hz0 by (clear; induction l; cbn; [done|]; by rewrite IHl).
  rewrite Hz0 in Hs.
  apply (gf_mul_eq_0 (/ (a0 + b0))); [|by apply gf_inv_neq_0].
  rewrite gf_mul_comm, <- (xor_0_r (_ * _)). apply Hs. set_solver.
Qed.
End LinearAlgebra.
