(* ===== verification/MatrixInvert.v ===== *)
(** * CDCodec::squareMatrixInverting

    Gauss-Jordan elimination over GF(256) on the flat k * k arrays
    [squareMatrix_] and [inverseMatrix_] (client/coding/CDCodec.cc), written
    cell by cell as the source does, with every array access checked.  The
    theorems relate it to the matrices of [LinearAlgebra]: it succeeds exactly
    on nonsingular matrices and then leaves the inverse. *)

From stdpp Require Import base list numbers sets.
From coqutil Require Import Byte.
From Stdlib Require Import Lia Field.
From S2P Require Import Prelude GaloisField LinearAlgebra.

(** The pair ([squareMatrix_], [inverseMatrix_]). *)
Abbreviation mats := (bytes * bytes)%type.

Section Inverting.
Context {GF : GaloisField}.
(** [k_] *)
Variable k : nat.

(** ** The code *)

(** [inverseMatrix_] = identity, with the source's test [i / k_ == i % k_]. *)
Definition initIdentity {R} (V : bytes) : res R bytes :=
  forN (k * k) 0 (fun i V =>
    aset V i (if (i / k =? i mod k)%nat then Byte.x01 else Byte.x00)) V.

(** [while (j < k_ && squareMatrix_[k_ * j + i] == 0) j++], from [j]; the
    loop makes at most [k - j] iterations. *)
Fixpoint findPivot {R} (fuel : nat) (S : bytes) (i j : nat) : res R nat :=
  match fuel with
  | O => Ok j
  | Datatypes.S fuel' =>
      if (j <? k)%nat then
        x ← aget S (k * j + i);
        if decide (x = Byte.x00) then findPivot fuel' S i (Datatypes.S j) else Ok j
      else Ok j
  end.

(** Exchange one cell of two rows of a matrix. *)
Definition swapCell {R} (M : bytes) (a b : nat) : res R bytes :=
  tmp ← aget M a; x ← aget M b; M1 ← aset M a x; aset M1 b tmp.

(** Swap rows [r1] and [r2] of both matrices. *)
Definition swapRows {R} (r1 r2 : nat) (SV : mats) : res R mats :=
  forN k 0 (fun h SV =>
    S' ← swapCell (fst SV) (k * r1 + h) (k * r2 + h);
    V' ← swapCell (snd SV) (k * r1 + h) (k * r2 + h);
    Ok (S', V')) SV.

(** [for l: M[r2][l] = f(M[r2][l], M[r1][l])], on both matrices or on
    [inverseMatrix_] only; the four row loops of the source are instances. *)
Definition cellOp {R} (f : byte -> byte -> byte) (r1 r2 l : nat) (M : bytes) : res R bytes :=
  x ← aget M (k * r2 + l); y ← aget M (k * r1 + l); aset M (k * r2 + l) (f x y).

Definition rowOp {R} (f : byte -> byte -> byte) (r1 r2 : nat) (SV : mats) : res R mats :=
  forN k 0 (fun l SV =>
    S' ← cellOp f r1 r2 l (fst SV);
    V' ← cellOp f r1 r2 l (snd SV);
    Ok (S', V')) SV.

Definition rowOpV {R} (f : byte -> byte -> byte) (r1 r2 : nat) (V : bytes) : res R bytes :=
  forN k 0 (fun l V => cellOp f r1 r2 l V) V.

(** [x ^= y] and [x ^= y * c]; [x = x * c]. *)
Definition addRow (c x y : byte) : byte :=
  if decide (c = Byte.x01) then byte.xor x y else byte.xor x (gf_mul y c).
Definition scaleRow (c x _ : byte) : byte := gf_mul x c.

(** Clear column [i] of row [j] below the diagonal. *)
Definition clearBelow {R} (i j : nat) (SV : mats) : res R mats :=
  x ← aget (fst SV) (k * j + i);
  if decide (x = Byte.x00) then Ok SV else rowOp (addRow x) i j SV.

(** One iteration of the first elimination loop. *)
Definition lowerStep (i : nat) (SV : mats) : res (bool * mats) mats :=
  d ← aget (fst SV) (k * i + i);
  SV ← (if decide (d = Byte.x00) then
          j ← findPivot (k - Datatypes.S i) (fst SV) i (Datatypes.S i);
          if (j =? k)%nat then Return (false, SV) else swapRows i j SV
        else Ok SV);
  tmp ← aget (fst SV) (k * i + i);
  SV ← (if decide (tmp = Byte.x01) then Ok SV
        else rowOp (scaleRow (gf_div Byte.x01 tmp)) i i SV);
  forN (k - Datatypes.S i) (Datatypes.S i) (clearBelow i) SV.

(** Clear column [i] of row [j] above the diagonal: only [inverseMatrix_]
    takes the row operation, [squareMatrix_] gets a plain 0. *)
Definition clearAbove {R} (i j : nat) (SV : mats) : res R mats :=
  x ← aget (fst SV) (k * j + i);
  if decide (x = Byte.x00) then Ok SV
  else
    V' ← rowOpV (addRow x) i j (snd SV);
    S' ← aset (fst SV) (k * j + i) Byte.x00;
    Ok (S', V').

Definition upperStep {R} (i : nat) (SV : mats) : res R mats :=
  forN i 0 (clearAbove i) SV.

Definition squareMatrixInverting {R} (S V : bytes) : res R (bool * mats) :=
  fn (V ← initIdentity V;
      SV ← forN k 0 lowerStep (S, V);
      SV ← forDown k upperStep SV;
      Ok (true, SV)).

(** ** Cells of a flat matrix *)

Definition mget (M : bytes) (i j : nat) : byte := M !!! (k * i + j).
Definition wf_mat (M : bytes) : Prop := length M = k * k.

Lemma idx_lt i j : i < k -> j < k -> k * i + j < k * k.
Proof. nia. Qed.

Lemma idx_inj i j i' j' : j < k -> j' < k -> k * i + j = k * i' + j' -> i = i' /\ j = j'.
Proof.
  intros Hj Hj' H. assert (i = i') as ->; [|lia].
  destruct (Nat.lt_trichotomy i i') as [Hl|[->|Hl]]; [nia|done|nia].
Qed.

Lemma aget_mat {R} M i j : wf_mat M -> i < k -> j < k ->
  aget (R := R) M (k * i + j) = Ok (mget M i j).
Proof.
  intros HM Hi Hj. apply aget_ok, list_lookup_lookup_total_lt.
  rewrite HM. by apply idx_lt.
Qed.

Lemma aset_mat {R} M i j x : wf_mat M -> i < k -> j < k ->
  exists M', aset (R := R) M (k * i + j) x = Ok M' /\ wf_mat M' /\
    (forall a b, b < k -> mget M' a b = if decide (a = i /\ b = j) then x else mget M a b).
Proof.
  intros HM Hi Hj. pose proof (idx_lt i j Hi Hj) as Hlt.
  exists (<[k * i + j := x]> M). split; [|split].
  - apply aset_ok. by rewrite HM.
  - unfold wf_mat. by rewrite length_insert.
  - intros a b Hb. unfold mget. case_decide as H.
    + destruct H as [-> ->]. apply list_lookup_total_insert_eq. by rewrite HM.
    + apply list_lookup_total_insert_ne. intros E. apply idx_inj in E as [-> ->]; naive_solver.
Qed.

Lemma cellOp_spec {R} f r1 r2 l M : wf_mat M -> r1 < k -> r2 < k -> l < k ->
  exists M', cellOp (R := R) f r1 r2 l M = Ok M' /\ wf_mat M' /\
    (forall a b, b < k -> mget M' a b =
      if decide (a = r2 /\ b = l) then f (mget M r2 l) (mget M r1 l) else mget M a b).
Proof.
  intros HM H1 H2 Hl. unfold cellOp.
  rewrite !aget_mat by done. cbn. by apply aset_mat.
Qed.

(** [M'] is [M] after the first [l] cells of a row loop. *)
Definition row_done (f : byte -> byte -> byte) (r1 r2 l : nat) (M M' : bytes) : Prop :=
  wf_mat M' /\
  forall a b, b < k -> mget M' a b =
    if decide (a = r2 /\ b < l) then f (mget M r2 b) (mget M r1 b) else mget M a b.

Lemma row_done_0 f r1 r2 M : wf_mat M -> row_done f r1 r2 0 M M.
Proof. split; [done|]. intros a b _. rewrite decide_False by lia. done. Qed.

Lemma row_done_step {R} f r1 r2 l M M' :
  row_done f r1 r2 l M M' -> r1 < k -> r2 < k -> l < k ->
  exists M'', cellOp (R := R) f r1 r2 l M' = Ok M'' /\ row_done f r1 r2 (S l) M M''.
Proof.
  intros [Hwf Hcell] H1 H2 Hl.
  destruct (cellOp_spec (R := R) f r1 r2 l M') as (M'' & E & Hwf'' & Hc); [done..|].
  exists M''. split; [done|]. split; [done|]. intros a b Hb. rewrite Hc by done.
  rewrite (Hcell r2 l), (Hcell r1 l), (Hcell a b) by lia.
  rewrite (decide_False (P := r2 = r2 /\ l < l)) by lia.
  rewrite (decide_False (P := r1 = r2 /\ l < l)) by lia.
  repeat case_decide; naive_solver lia.
Qed.

Lemma row_done_all f r1 r2 M M' a b :
  row_done f r1 r2 k M M' -> b < k ->
  mget M' a b = if decide (a = r2) then f (mget M r2 b) (mget M r1 b) else mget M a b.
Proof. intros [_ H] Hb. rewrite H by done. repeat case_decide; naive_solver lia. Qed.

Lemma rowOpV_spec {R} f r1 r2 M : wf_mat M -> r1 < k -> r2 < k ->
  exists M', rowOpV (R := R) f r1 r2 M = Ok M' /\ row_done f r1 r2 k M M'.
Proof.
  intros HM H1 H2. apply (forN_inv (fun l M' => row_done f r1 r2 l M M')).
  - by apply row_done_0.
  - intros l M' Hl Hd. apply row_done_step; [done..|lia].
Qed.

Lemma rowOp_spec {R} f r1 r2 SV : wf_mat SV.1 -> wf_mat SV.2 -> r1 < k -> r2 < k ->
  exists SV', rowOp (R := R) f r1 r2 SV = Ok SV' /\
    row_done f r1 r2 k SV.1 SV'.1 /\ row_done f r1 r2 k SV.2 SV'.2.
Proof.
  intros HS HV H1 H2.
  apply (forN_inv (fun l SV' => row_done f r1 r2 l SV.1 SV'.1 /\ row_done f r1 r2 l SV.2 SV'.2)).
  - split; by apply row_done_0.
  - intros l SV' Hl [HdS HdV].
    destruct (row_done_step (R := R) f r1 r2 l _ _ HdS) as (S' & -> & HS'); [done|done|lia|].
    destruct (row_done_step (R := R) f r1 r2 l _ _ HdV) as (V' & E & HV'); [done|done|lia|].
    cbn. rewrite E. cbn. eexists. split; [done|]. done.
Qed.

(** ** Swapping rows *)

(** [M'] is [M] after the first [h] cells of two rows have been exchanged. *)
Definition swap_done (r1 r2 h : nat) (M M' : bytes) : Prop :=
  wf_mat M' /\
  forall a b, b < k -> mget M' a b =
    if decide (b < h) then
      (if decide (a = r1) then mget M r2 b
       else if decide (a = r2) then mget M r1 b else mget M a b)
    else mget M a b.

Lemma swap_done_step {R} r1 r2 h M M' :
  swap_done r1 r2 h M M' -> r1 < k -> r2 < k -> r1 <> r2 -> h < k ->
  exists M'', swapCell (R := R) M' (k * r1 + h) (k * r2 + h) = Ok M'' /\
              swap_done r1 r2 (S h) M M''.
Proof.
  intros [Hwf Hc] H1 H2 Hne Hh. unfold swapCell. rewrite !aget_mat by done. cbn.
  destruct (aset_mat (R := R) M' r1 h (mget M' r2 h)) as (M1 & -> & Hwf1 & Hc1); [done..|]. cbn.
  destruct (aset_mat (R := R) M1 r2 h (mget M' r1 h)) as (M2 & -> & Hwf2 & Hc2); [done..|].
  exists M2. split; [done|]. split; [done|]. intros a b Hb.
  rewrite Hc2, Hc1, !Hc by done.
  rewrite !(decide_False (P := h < h)) by lia.
  repeat case_decide; simplify_eq; try done; naive_solver lia.
Qed.

Lemma swapRows_spec {R} r1 r2 SV :
  wf_mat SV.1 -> wf_mat SV.2 -> r1 < k -> r2 < k -> r1 <> r2 ->
  exists SV', swapRows (R := R) r1 r2 SV = Ok SV' /\
    swap_done r1 r2 k SV.1 SV'.1 /\ swap_done r1 r2 k SV.2 SV'.2.
Proof.
  intros HS HV H1 H2 Hne.
  apply (forN_inv (fun l SV' => swap_done r1 r2 l SV.1 SV'.1 /\ swap_done r1 r2 l SV.2 SV'.2)).
  - split; (split; [done|]); intros; by rewrite decide_False by lia.
  - intros l SV' Hl [HdS HdV].
    destruct (swap_done_step (R := R) r1 r2 l _ _ HdS) as (S' & -> & HS'); [done|done|done|lia|].
    destruct (swap_done_step (R := R) r1 r2 l _ _ HdV) as (V' & E & HV'); [done|done|done|lia|].
    cbn. rewrite E. cbn. eexists. split; [done|]. done.
Qed.

Lemma swap_done_all r1 r2 M M' a b :
  swap_done r1 r2 k M M' -> b < k ->
  mget M' a b = if decide (a = r1) then mget M r2 b
                else if decide (a = r2) then mget M r1 b else mget M a b.
Proof. intros [_ H] Hb. rewrite H by done. by rewrite decide_True. Qed.

(** ** The identity matrix and the pivot search *)

Lemma initIdentity_spec {R} V : wf_mat V ->
  exists V', initIdentity (R := R) V = Ok V' /\ wf_mat V' /\
    forall i j, i < k -> j < k -> mget V' i j = delta i j.
Proof.
  intros HV. unfold initIdentity.
  destruct (forN_inv (R := R) (fun l V' => wf_mat V' /\
      forall i, i < l -> V' !!! i = if (i / k =? i mod k)%nat then Byte.x01 else Byte.x00)
    (k * k) 0 (fun i V => aset V i (if (i / k =? i mod k)%nat then Byte.x01 else Byte.x00)) V)
    as (V' & E & Hwf & Hc).
  - split; [done|]. lia.
  - intros i V' Hi [Hwf Hc]. exists (<[i := if (i / k =? i mod k)%nat then Byte.x01 else Byte.x00]> V').
    split; [apply aset_ok; rewrite Hwf; lia|].
    split; [unfold wf_mat; by rewrite length_insert|].
    intros j Hj. destruct (decide (j = i)) as [->|Hne].
    + apply list_lookup_total_insert_eq. rewrite Hwf. lia.
    + rewrite list_lookup_total_insert_ne by done. apply Hc. lia.
  - exists V'. split; [done|]. split; [done|]. intros i j Hi Hj.
    unfold mget. rewrite Hc by (pose proof (idx_lt i j Hi Hj); lia).
    rewrite (Nat.mul_comm k i), Nat.div_add_l, Nat.div_small, Nat.add_0_r by lia.
    rewrite Nat.add_comm, Nat.Div0.mod_add, Nat.mod_small by done.
    unfold delta. case_decide; destruct (Nat.eqb_spec i j); congruence.
Qed.

Lemma findPivot_spec {R} fuel S i j :
  wf_mat S -> i < k -> fuel = k - j -> j <= k ->
  exists j', findPivot (R := R) fuel S i j = Ok j' /\ j <= j' <= k /\
    (forall r, j <= r < j' -> mget S r i = Byte.x00) /\
    (j' < k -> mget S j' i <> Byte.x00).
Proof.
  intros HS Hi. revert j. induction fuel as [|fuel IH]; intros j Hf Hj; cbn [findPivot].
  - exists j. split; [done|]. split; [lia|]. split; lia.
  - destruct (Nat.ltb_spec j k); [|exists j; split; [done|]; split; [lia|]; split; lia].
    rewrite aget_mat by done. cbn. case_decide as Hz.
    + destruct (IH (Datatypes.S j)) as (j' & -> & Hj' & Hzs & Hp); [lia|lia|].
      exists j'. split; [done|]. split; [lia|]. split; [|done].
      intros r Hr. destruct (decide (r = j)) as [->|]; [done|]. apply Hzs. lia.
    + exists j. split; [done|]. split; [lia|]. split; [lia|done].
Qed.
End Inverting.

(** ** Correctness *)

Section Correctness.
Context {GF : GaloisField} {LAWS : GaloisFieldLaws GF}.
Variable k : nat.
Local Open Scope gf_scope.

Add Field gf_field_mi : gf_field_theory (morphism gf_morph, constants [gf_cst]).

Abbreviation mget := (mget k).
Abbreviation wf_mat := (wf_mat k).

(** [inverseMatrix_] * (the initial [squareMatrix_]) = [squareMatrix_], and
    [inverseMatrix_] stays nonsingular. *)
Definition ginv (m0 : nat -> nat -> byte) (SV : mats) : Prop :=
  wf_mat SV.1 /\ wf_mat SV.2 /\ mat_mul_eq k (mget SV.2) m0 (mget SV.1) /\
  nonsing k (mget SV.2).

Lemma addRow_eq c x y : addRow c x y = x + y * c.
Proof. unfold addRow. case_decide as H; [subst c|]; ring. Qed.

(** A row operation on both matrices, as a linear combination and back. *)
Lemma row_done_add_comb c r1 r2 S S' V V' :
  (r1 < k)%nat -> (r2 < k)%nat ->
  row_done k (addRow c) r1 r2 k S S' -> row_done k (addRow c) r1 r2 k V V' ->
  row_comb2 k (mget V) (mget S) (mget V') (mget S').
Proof.
  intros H1 H2 HS HV i Hi. destruct (decide (i = r2)) as [->|Hne].
  - exists 1, r2, c, r1. split_and!; [done..| |]; intros j Hj;
      erewrite row_done_all by eauto; rewrite decide_True by done; rewrite addRow_eq; ring.
  - exists 1, i, 0, i. split_and!; [done..| |]; intros j Hj;
      erewrite row_done_all by eauto; rewrite decide_False by done; ring.
Qed.

Lemma row_done_add_undo c r1 r2 S S' :
  (r1 < k)%nat -> (r2 < k)%nat -> r1 <> r2 ->
  row_done k (addRow c) r1 r2 k S S' -> row_comb2 k (mget S') (mget S') (mget S) (mget S).
Proof.
  intros H1 H2 Hne12 HS i Hi.
  assert (forall j, (j < k)%nat -> mget S i j
            = 1 * mget S' i j + (if decide (i = r2) then c else 0) * mget S' r1 j) as H.
  { intros j Hj. rewrite !(row_done_all k _ _ _ _ _ _ j HS Hj).
    rewrite (decide_False (P := r1 = r2)) by done.
    case_decide; [subst i; rewrite addRow_eq|]; ring. }
  exists 1, i, (if decide (i = r2) then c else 0), r1. auto.
Qed.

Lemma row_done_scale_comb c r S S' V V' :
  (r < k)%nat ->
  row_done k (scaleRow c) r r k S S' -> row_done k (scaleRow c) r r k V V' ->
  row_comb2 k (mget V) (mget S) (mget V') (mget S').
Proof.
  intros H1 HS HV i Hi. destruct (decide (i = r)) as [->|Hne].
  - exists c, r, 0, r. split_and!; [done..| |]; intros j Hj;
      erewrite row_done_all by eauto; rewrite decide_True by done; unfold scaleRow; ring.
  - exists 1, i, 0, i. split_and!; [done..| |]; intros j Hj;
      erewrite row_done_all by eauto; rewrite decide_False by done; ring.
Qed.

Lemma row_done_scale_undo c r S S' :
  (r < k)%nat -> c <> 0 ->
  row_done k (scaleRow c) r r k S S' -> row_comb2 k (mget S') (mget S') (mget S) (mget S).
Proof.
  intros H1 Hc HS i Hi.
  assert (forall j, (j < k)%nat -> mget S i j
            = (if decide (i = r) then / c else 1) * mget S' i j + 0 * mget S' i j) as H.
  { intros j Hj. rewrite !(row_done_all k _ _ _ _ _ _ j HS Hj).
    case_decide; [subst i; unfold scaleRow|]; field; done. }
  eexists _, i, 0, i. eauto.
Qed.

Lemma swap_done_comb r1 r2 S S' V V' :
  (r1 < k)%nat -> (r2 < k)%nat ->
  swap_done k r1 r2 k S S' -> swap_done k r1 r2 k V V' ->
  row_comb2 k (mget V) (mget S) (mget V') (mget S').
Proof.
  intros H1 H2 HS HV i Hi.
  exists 1, (if decide (i = r1) then r2 else if decide (i = r2) then r1 else i), 0, i.
  split_and!; [repeat case_decide; lia|lia| |]; intros j Hj;
    erewrite swap_done_all by eauto; repeat case_decide; ring.
Qed.

Lemma swap_done_sym r1 r2 S S' :
  wf_mat S -> swap_done k r1 r2 k S S' -> swap_done k r1 r2 k S' S.
Proof.
  intros HS H. split; [done|]. intros a b Hb. rewrite decide_True by done.
  rewrite !(swap_done_all k _ _ _ _ _ b H Hb). repeat case_decide; congruence.
Qed.

(** *** The lower loop *)

Definition lower_inv (m0 : nat -> nat -> byte) (i : nat) (SV : mats) : Prop :=
  ginv m0 SV /\ unit_upper k i (mget SV.1) /\ (nonsing k m0 -> nonsing k (mget SV.1)).

Lemma lower_inv_op m0 i SV SV' :
  lower_inv m0 i SV -> wf_mat SV'.1 -> wf_mat SV'.2 ->
  row_comb2 k (mget SV.2) (mget SV.1) (mget SV'.2) (mget SV'.1) ->
  row_comb2 k (mget SV'.1) (mget SV'.1) (mget SV.1) (mget SV.1) ->
  row_comb2 k (mget SV'.2) (mget SV'.2) (mget SV.2) (mget SV.2) ->
  ginv m0 SV' /\ (nonsing k m0 -> nonsing k (mget SV'.1)).
Proof.
  intros [(HS & HV & Hm & HVn) [_ Hn]] HS' HV' Hc Hu Hu2. split.
  - split; [done|]. split; [done|]. split; [by eapply mat_mul_row_comb|].
    by eapply nonsing_row_comb.
  - intros H0. eapply nonsing_row_comb; eauto.
Qed.

(** Bring a nonzero element to the diagonal, or fail on a singular matrix. *)
Lemma pivot_step m0 i SV :
  lower_inv m0 i SV -> (i < k)%nat ->
  wp (d ← aget (fst SV) (k * i + i);
      (if decide (d = Byte.x00) then
         j ← findPivot k (k - S i) (fst SV) i (S i);
         if (j =? k)%nat then Return (false, SV) else swapRows k i j SV
       else Ok SV))
     (fun SV' => lower_inv m0 i SV' /\ mget SV'.1 i i <> 0)
     (fun r : bool * mats => r.1 = false /\ ~ nonsing k m0).
Proof.
  intros Hinv Hi. pose proof Hinv as [(HS & HV & Hm) [HU Hn]].
  rewrite aget_mat by done. cbn. case_decide as Hd; [|by split].
  destruct (findPivot_spec (R := bool * mats) k (k - S i) SV.1 i (S i))
    as (j & -> & Hj & Hz & Hp); [done|done|done|lia|]. cbn.
  destruct (Nat.eqb_spec j k) as [->|Hjk].
  - cbn. split; [done|]. intros H0. apply (no_pivot_singular k i (mget SV.1)); [done..| |auto].
    intros r Hr. destruct (decide (r = i)) as [->|]; [done|]. apply Hz. lia.
  - destruct (swapRows_spec (R := bool * mats) k i j SV)
      as (SV' & -> & HdS & HdV); [done|done|lia|lia|lia|]. cbn.
    assert (mget SV'.1 i i <> 0) as Hii.
    { erewrite swap_done_all by eauto. rewrite decide_True by done. apply Hp. lia. }
    split; [|done].
    destruct (lower_inv_op m0 i SV SV') as [Hg Hn'].
    + done.
    + by destruct HdS.
    + by destruct HdV.
    + apply (swap_done_comb i j); [lia|lia|done|done].
    + apply (swap_done_comb i j); [lia|lia| |]; by apply swap_done_sym.
    + apply (swap_done_comb i j); [lia|lia| |]; by apply swap_done_sym.
    + split; [done|]. split; [|done]. intros c Hc. destruct (HU c Hc) as [H1 H0].
      split.
      * erewrite swap_done_all by (eauto; lia). repeat case_decide; [lia|lia|done].
      * intros r Hr. erewrite swap_done_all by (eauto; lia).
        repeat case_decide; apply H0; lia.
Qed.

(** Divide the pivot row by the pivot. *)
Lemma scale_step m0 i SV :
  lower_inv m0 i SV -> (i < k)%nat -> mget SV.1 i i <> 0 ->
  wp (tmp ← aget (fst SV) (k * i + i);
      (if decide (tmp = Byte.x01) then Ok SV
       else rowOp k (scaleRow (gf_div Byte.x01 tmp)) i i SV))
     (fun SV' => lower_inv m0 i SV' /\ mget SV'.1 i i = 1)
     (fun r : bool * mats => r.1 = false /\ ~ nonsing k m0).
Proof.
  intros Hinv Hi Hnz. pose proof Hinv as [(HS & HV & Hm) [HU Hn]].
  rewrite aget_mat by done. cbn. case_decide as Hd; [by split|].
  change (gf_div Byte.x01 (mget SV.1 i i)) with (/ mget SV.1 i i).
  destruct (rowOp_spec (R := bool * mats) k (scaleRow (/ mget SV.1 i i)) i i SV)
    as (SV' & -> & HdS & HdV); [done..|]. cbn.
  destruct (lower_inv_op m0 i SV SV') as [Hg Hn'].
  - done.
  - by destruct HdS.
  - by destruct HdV.
  - eapply row_done_scale_comb; eauto.
  - eapply row_done_scale_undo; [done| |exact HdS]. by apply gf_inv_neq_0.
  - eapply row_done_scale_undo; [done| |exact HdV]. by apply gf_inv_neq_0.
  - split.
    + split; [done|]. split; [|done]. intros c Hc. destruct (HU c Hc) as [H1 H0]. split.
      * erewrite row_done_all by (eauto; lia). by rewrite decide_False by lia.
      * intros r Hr. erewrite row_done_all by (eauto; lia).
        case_decide; [subst r|by apply H0]. unfold scaleRow. rewrite H0 by done. ring.
    + erewrite row_done_all by (eauto; lia). rewrite decide_True by done.
      unfold scaleRow. field. done.
Qed.

(** Clear the column below the pivot. *)
Lemma clearBelow_step m0 i j SV :
  lower_inv m0 i SV -> (i < j < k)%nat -> mget SV.1 i i = 1 ->
  (forall r, (i < r < j)%nat -> mget SV.1 r i = 0) ->
  wp (clearBelow k i j SV)
     (fun SV' => lower_inv m0 i SV' /\ mget SV'.1 i i = 1 /\
              forall r, (i < r < S j)%nat -> mget SV'.1 r i = 0)
     (fun r : bool * mats => r.1 = false /\ ~ nonsing k m0).
Proof.
  intros Hinv Hij H1 Hz. pose proof Hinv as [(HS & HV & Hm) [HU Hn]].
  unfold clearBelow. rewrite aget_mat by (done || lia). cbn. case_decide as Hd.
  - split; [done|]. split; [done|]. intros r Hr.
    destruct (decide (r = j)) as [->|]; [done|]. apply Hz. lia.
  - destruct (rowOp_spec (R := bool * mats) k (addRow (mget SV.1 j i)) i j SV)
      as (SV' & -> & HdS & HdV); [done|done|lia|lia|]. cbn.
    destruct (lower_inv_op m0 i SV SV') as [Hg Hn'].
    + done.
    + by destruct HdS.
    + by destruct HdV.
    + eapply row_done_add_comb; [| |eauto..]; lia.
    + eapply row_done_add_undo; [| | |exact HdS]; lia.
    + eapply row_done_add_undo; [| | |exact HdV]; lia.
    + split; [split; [done|split; [|done]]|split].
      * intros c Hc. destruct (HU c Hc) as [Hc1 Hc0]. split.
        -- erewrite row_done_all by (eauto; lia). by rewrite decide_False by lia.
        -- intros r Hr. erewrite row_done_all by (eauto; lia).
           case_decide; [subst r|by apply Hc0].
           rewrite addRow_eq, (Hc0 j), (Hc0 i) by lia. ring.
      * erewrite row_done_all by (eauto; lia). by rewrite decide_False by lia.
      * intros r Hr. erewrite row_done_all by (eauto; lia). case_decide.
        -- rewrite addRow_eq, H1. ring.
        -- apply Hz. lia.
Qed.

Lemma lowerStep_spec m0 i SV :
  lower_inv m0 i SV -> (i < k)%nat ->
  wp (lowerStep k i SV) (lower_inv m0 (S i))
     (fun r => r.1 = false /\ ~ nonsing k m0).
Proof.
  intros Hinv Hi. unfold lowerStep. apply wp_bind.
  pose proof (pivot_step m0 i SV Hinv Hi) as Hp.
  rewrite aget_mat in Hp |- * by (apply Hinv || done). cbn in Hp |- *.
  apply wp_bind. eapply wp_mono; [exact Hp| |auto]. clear Hp.
  intros SV1 [Hinv1 Hnz]. apply wp_bind.
  pose proof (scale_step m0 i SV1 Hinv1 Hi Hnz) as Hsc.
  rewrite aget_mat in Hsc |- * by (apply Hinv1 || done). cbn in Hsc |- *.
  apply wp_bind. eapply wp_mono; [exact Hsc| |auto]. clear Hsc.
  intros SV2 [Hinv2 H1].
  eapply wp_mono; [apply (wp_forN (fun j SV => lower_inv m0 i SV /\ mget SV.1 i i = 1 /\
      forall r, (i < r < j)%nat -> mget SV.1 r i = 0)
      (fun r => r.1 = false /\ ~ nonsing k m0))| |auto].
  - split; [done|]. split; [done|]. lia.
  - intros j SV3 Hj (Hinv3 & H13 & Hz). apply clearBelow_step; [done|lia|done|done].
  - intros SV3 ((Hg & HU & Hn) & H13 & Hz). split; [done|]. split; [|done].
    intros c Hc. destruct (decide (c = i)) as [->|].
    + split; [done|]. intros r Hr. apply Hz. lia.
    + apply HU. lia.
Qed.

(** *** The upper loop *)

(** Columns [>= i] are those of the identity matrix. *)
Definition upper_inv (m0 : nat -> nat -> byte) (i : nat) (SV : mats) : Prop :=
  ginv m0 SV /\ unit_upper k k (mget SV.1) /\
  forall c r, (i <= c < k)%nat -> (r < c)%nat -> mget SV.1 r c = 0.

Lemma clearAbove_step {R} m0 i j SV :
  upper_inv m0 (S i) SV -> (j < i < k)%nat ->
  (forall r, (r < j)%nat -> mget SV.1 r i = 0) ->
  wp (clearAbove k i j SV)
     (fun SV' => upper_inv m0 (S i) SV' /\ forall r, (r < S j)%nat -> mget SV'.1 r i = 0)
     (fun _ : R => False).
Proof.
  intros [(HS & HV & Hm & HVn) [HU Hc]] Hij Hz. unfold clearAbove.
  rewrite aget_mat by (done || lia). cbn. case_decide as Hd.
  - split; [done|]. intros r Hr. destruct (decide (r = j)) as [->|]; [done|]. apply Hz. lia.
  - destruct (rowOpV_spec (R := R) k (addRow (mget SV.1 j i)) i j SV.2)
      as (V' & -> & HdV); [done|lia|lia|]. cbn.
    destruct (aset_mat (R := R) k SV.1 j i 0) as (S' & -> & HwS' & HcS'); [done|lia|lia|]. cbn.
    (* row i of squareMatrix_ is a unit vector, so the 0 is its row operation *)
    assert (forall b, (b < k)%nat -> mget SV.1 i b = delta i b) as Hrow.
    { intros b Hb. unfold delta. case_decide as E.
      - subst b. apply HU. lia.
      - destruct (decide (b < i)%nat); [apply HU; lia|apply Hc; lia]. }
    assert (row_done k (addRow (mget SV.1 j i)) i j k SV.1 S') as HdS.
    { split; [done|]. intros a b Hb. rewrite HcS', addRow_eq, Hrow by done. unfold delta.
      destruct (decide (a = j)) as [->|].
      - rewrite (decide_True (P := j = j /\ b < k)) by lia.
        destruct (decide (b = i)) as [->|].
        + rewrite !decide_True by lia. ring.
        + rewrite !decide_False by lia. ring.
      - by rewrite !decide_False by lia. }
    split; [split; [split; [done|]; split; [by destruct HdV|split]|split]|].
    + eapply mat_mul_row_comb; [|done]. eapply row_done_add_comb; [| |eauto..]; lia.
    + eapply nonsing_row_comb; [|done]. eapply row_done_add_undo; [| | |exact HdV]; lia.
    + intros c Hcc. cbn. split; [|intros r Hr]; rewrite HcS' by lia.
      * rewrite decide_False by lia. by apply HU.
      * rewrite decide_False by lia. by apply HU.
    + intros c r Hcc Hr. cbn. rewrite HcS' by lia. rewrite decide_False by lia. by apply Hc.
    + intros r Hr. cbn. rewrite HcS' by lia. case_decide; [done|]. apply Hz. lia.
Qed.

Lemma upperStep_spec {R} m0 i SV :
  upper_inv m0 (S i) SV -> (i < k)%nat ->
  exists SV', upperStep (R := R) k i SV = Ok SV' /\ upper_inv m0 i SV'.
Proof.
  intros Hinv Hi. unfold upperStep.
  assert (wp (forN i 0 (clearAbove k i) SV)
            (fun SV' => upper_inv m0 (S i) SV' /\ forall r, (r < 0 + i)%nat -> mget SV'.1 r i = 0)
            (fun _ : R => False)) as H.
  { apply (wp_forN (fun j SV => upper_inv m0 (S i) SV /\
      forall r, (r < j)%nat -> mget SV.1 r i = 0)).
    - split; [done|]. lia.
    - intros j SV' Hj [Hinv' Hz]. apply clearAbove_step; [done|lia|done]. }
  destruct (forN i 0 (clearAbove k i) SV) as [SV'| | | |]; cbn in H; [|done..].
  exists SV'. split; [done|]. destruct H as [(Hg & HU & Hc) Hz].
  split; [done|]. split; [done|]. intros c r Hcc Hr.
  destruct (decide (c = i)) as [->|]; [apply Hz; lia|apply Hc; lia].
Qed.

(** *** The whole function *)

Lemma squareMatrixInverting_spec {R} S V :
  wf_mat S -> wf_mat V ->
  exists b SV', squareMatrixInverting (R := R) k S V = Ok (b, SV') /\
    (b = false -> ~ nonsing k (mget S)) /\
    (b = true -> wf_mat SV'.1 /\ wf_mat SV'.2 /\ mat_mul_eq k (mget SV'.2) (mget S) delta /\
       mat_mul_eq k (mget S) (mget SV'.2) delta).
Proof.
  intros HS HV. unfold squareMatrixInverting.
  destruct (initIdentity_spec (R := bool * mats) k V HV) as (V0 & -> & HV0 & Hid). cbn.
  assert (wp (forN k 0 (lowerStep k) (S, V0)) (lower_inv (mget S) (0 + k))
            (fun r => r.1 = false /\ ~ nonsing k (mget S))) as Hl.
  { apply (wp_forN (lower_inv (mget S))).
    - split; [split; [done|split; [done|split]]|split; [|done]].
      + intros i j Hi Hj. cbn. rewrite (gsum_ext k _ (fun h => delta i h * mget S h j)).
        * by apply (gsum_delta_l k i (fun h => mget S h j)).
        * intros h Hh. by rewrite Hid.
      + eapply nonsing_ext; [|apply (delta_nonsing k)]. intros. by rewrite Hid.
      + intros c Hc. lia.
    - intros i SV Hi Hinv. apply lowerStep_spec; [done|lia]. }
  destruct (forN k 0 (lowerStep k) (S, V0)) as [SV1|[b SV1]| | |]; cbn in Hl; [|..|done|done|done].
  - destruct Hl as (Hg & HU & Hn). cbn [mbind res_bind].
    destruct (forDown_inv (R := bool * mats) (upper_inv (mget S)) k (upperStep k) SV1)
      as (SV2 & -> & (HwS & HwV & Hm & HVn) & HU2 & Hc2).
    + split; [done|]. split; [done|]. lia.
    + intros i SV Hi Hinv. by apply upperStep_spec.
    + cbn. exists true, SV2. split; [done|]. split; [done|]. intros _.
      split; [done|]. split; [done|].
      assert (mat_mul_eq k (mget SV2.2) (mget S) delta) as Hl.
      { intros i j Hi Hj. rewrite (Hm i j Hi Hj).
        unfold delta. case_decide as E; [subst j; by apply HU2|].
        destruct (decide (i < j)%nat); [apply Hc2; lia|apply HU2; lia]. }
      split; [done|]. by apply right_inverse.
  - cbn. destruct Hl as [-> Hn]. eexists _, _. split; [done|]. done.
Qed.
End Correctness.

(** ** Claims *)

Section Claims.
Context {GF : GaloisField} {LAWS : GaloisFieldLaws GF}.

(** C31: [squareMatrixInverting] never leaves its arrays, returns 1 exactly
    when [squareMatrix_] is invertible (only the zero vector is mapped to
    zero), and when it returns 1 the matrix left in [inverseMatrix_] is the
    inverse, on both sides, of the original [squareMatrix_]. *)
Theorem squareMatrixInverting_correct (k : nat) (S V : bytes) :
  length S = k * k -> length V = k * k ->
  exists b S' V',
    squareMatrixInverting (R := False) k S V = Ok (b, (S', V')) /\
    (b = true <-> nonsing k (mget k S)) /\
    (b = true -> mat_mul_eq k (mget k V') (mget k S) delta /\
                 mat_mul_eq k (mget k S) (mget k V') delta).
Proof.
  intros HS HV.
  destruct (squareMatrixInverting_spec (R := False) k S V HS HV) as (b & [S' V'] & E & Hf & Ht).
  exists b, S', V'. split; [done|]. split; [|intros; by apply Ht].
  destruct b.
  - split; [intros _|done]. by eapply left_inverse_nonsing, Ht.
  - split; [done|]. intros H. by destruct (Hf eq_refl).
Qed.
End Claims.

Module InvertWitness.
Import GF256.

(** Over GF(256): the matrix with rows 1 2 and 3 4. *)
Lemma squareMatrixInverting_correct_witness :
  exists b S' V',
    squareMatrixInverting (R := False) 2 [Byte.x01; Byte.x02; Byte.x03; Byte.x04]
      (replicate 4 Byte.x00) = Ok (b, (S', V')) /\
    (b = true <-> nonsing 2 (mget 2 [Byte.x01; Byte.x02; Byte.x03; Byte.x04])) /\
    (b = true -> mat_mul_eq 2 (mget 2 V') (mget 2 [Byte.x01; Byte.x02; Byte.x03; Byte.x04]) delta /\
                 mat_mul_eq 2 (mget 2 [Byte.x01; Byte.x02; Byte.x03; Byte.x04]) (mget 2 V') delta).
Proof.
  apply squareMatrixInverting_correct; reflexivity.
Defined.

(** The model runs: this matrix is inverted. *)
Example squareMatrixInverting_runs :
  exists SV, squareMatrixInverting (R := False) 2
    [Byte.x01; Byte.x02; Byte.x03; Byte.x04] (replicate 4 Byte.x00) = Ok (true, SV).
Proof. eexists. vm_compute. reflexivity. Qed.

End InvertWitness.
