(* ===== verification/CryptoPrimitive.v ===== *)
(** * CryptoPrimitive

    client/utils/CryptoPrimitive.cc (server/utils/CryptoPrimitive.cc is the
    same file): the wrapper around OpenSSL that supplies hash fingerprints and
    block encryption.  OpenSSL itself is the parameter [OpenSSL], with the
    facts its manual states as [OpenSSLLaws]; [CryptoOk] is what a wrapper
    object promises to [CDCodec] and to the deduplication cores, and is
    discharged here for the two cipher/hash pairs the client can choose. *)

From stdpp Require Import base list numbers.
From coqutil Require Import Byte.
From Stdlib Require Import Lia.
From S2P Require Import Prelude GaloisField.

Local Open Scope Z_scope.

(** [const EVP_MD*] and [const EVP_CIPHER*] as obtained from OpenSSL. *)
Inductive EVP_MD := EVP_sha256 | EVP_md5 | EVP_sha1.
Inductive EVP_CIPHER := EVP_aes_256_cbc | EVP_aes_128_cbc.

Definition EVP_MD_size (md : EVP_MD) : nat :=
  match md with EVP_sha256 => 32 | EVP_md5 => 16 | EVP_sha1 => 20 end.
Definition EVP_CIPHER_key_length (c : EVP_CIPHER) : nat :=
  match c with EVP_aes_256_cbc => 32 | EVP_aes_128_cbc => 16 end.
Definition EVP_CIPHER_block_size (c : EVP_CIPHER) : nat := 16.

Class OpenSSL := {
  (** [EVP_DigestInit_ex]; [EVP_DigestUpdate]; [EVP_DigestFinal_ex] *)
  EVP_Digest : EVP_MD -> bytes -> bytes;
  (** [EVP_EncryptInit_ex] with padding off; [EVP_EncryptUpdate]; [EVP_EncryptFinal_ex] *)
  EVP_Encrypt : EVP_CIPHER -> bytes -> bytes -> bytes -> bytes;
  (** the same for decryption; the arguments are key, iv and data *)
  EVP_Decrypt : EVP_CIPHER -> bytes -> bytes -> bytes -> bytes;
}.

Class OpenSSLLaws (SSL : OpenSSL) : Prop := {
  EVP_Digest_length md d : length (EVP_Digest md d) = EVP_MD_size md;
  EVP_Encrypt_length c key iv d :
    (length d mod EVP_CIPHER_block_size c = 0)%nat ->
    length (EVP_Encrypt c key iv d) = length d;
  EVP_Decrypt_length c key iv d :
    (length d mod EVP_CIPHER_block_size c = 0)%nat ->
    length (EVP_Decrypt c key iv d) = length d;
  EVP_Decrypt_Encrypt c key iv d :
    length key = EVP_CIPHER_key_length c ->
    length iv = EVP_CIPHER_block_size c ->
    (length d mod EVP_CIPHER_block_size c = 0)%nat ->
    EVP_Decrypt c key iv (EVP_Encrypt c key iv d) = d;
}.

(** Types of [CryptoPrimitive] (CryptoPrimitive.hh). *)
Definition HIGH_SEC_PAIR_TYPE : Z := 0.
Definition LOW_SEC_PAIR_TYPE : Z := 1.
Definition SHA256_TYPE : Z := 2.
Definition SHA1_TYPE : Z := 3.

(** The object; a member no branch of the constructor sets is [None]. *)
Record CryptoPrimitive := {
  cryptoType_ : Z;
  md_ : option EVP_MD;
  hashSize_ : option Z;
  cipher_ : option EVP_CIPHER;
  keySize_ : option Z;
  blockSize_ : option Z;
  iv_ : option bytes;
}.

(** Reading a member that was never initialised. *)
Definition init {R A} (x : option A) : res R A :=
  match x with Some a => Ok a | None => UB end.

Section Crypto.
Context {SSL : OpenSSL}.

(** The constructor; [lockSetup] says whether [opensslLockSetup()] has set
    the static [opensslLock_]. *)
Definition new_CryptoPrimitive {R} (lockSetup : bool) (cryptoType : Z) : res R CryptoPrimitive :=
  if negb lockSetup then Exit 1
  else if cryptoType =? HIGH_SEC_PAIR_TYPE then
    Ok {| cryptoType_ := cryptoType; md_ := Some EVP_sha256; hashSize_ := Some 32;
          cipher_ := Some EVP_aes_256_cbc; keySize_ := Some 32; blockSize_ := Some 16;
          iv_ := Some (replicate 16 Byte.x00) |}
  else if cryptoType =? LOW_SEC_PAIR_TYPE then
    Ok {| cryptoType_ := cryptoType; md_ := Some EVP_md5; hashSize_ := Some 16;
          cipher_ := Some EVP_aes_128_cbc; keySize_ := Some 16; blockSize_ := Some 16;
          iv_ := Some (replicate 16 Byte.x00) |}
  else if cryptoType =? SHA256_TYPE then
    Ok {| cryptoType_ := cryptoType; md_ := Some EVP_sha256; hashSize_ := Some 32;
          cipher_ := None; keySize_ := Some (-1); blockSize_ := Some (-1); iv_ := None |}
  else if cryptoType =? SHA1_TYPE then
    Ok {| cryptoType_ := cryptoType; md_ := Some EVP_sha1; hashSize_ := Some 20;
          cipher_ := None; keySize_ := Some (-1); blockSize_ := Some (-1); iv_ := None |}
  else
    Ok {| cryptoType_ := cryptoType; md_ := None; hashSize_ := None;
          cipher_ := None; keySize_ := None; blockSize_ := None; iv_ := None |}.

Definition getHashSize {R} (c : CryptoPrimitive) : res R Z := init (hashSize_ c).
Definition getKeySize {R} (c : CryptoPrimitive) : res R Z := init (keySize_ c).
Definition getBlockSize {R} (c : CryptoPrimitive) : res R Z := init (blockSize_ c).

(** [generateHash(dataBuffer, dataSize, hash)]: the return value and the
    bytes written at [hash]; [data] is [dataBuffer[0 .. dataSize)]. *)
Definition generateHash {R} (c : CryptoPrimitive) (data : bytes) : res R (bool * bytes) :=
  md ← init (md_ c);
  let hash := EVP_Digest md data in
  hashSize ← init (hashSize_ c);
  Ok (if Z.of_nat (length hash) =? hashSize then true else false, hash).

(** The two ciphers of [encryptWithKey] and [decryptWithKey]: the return
    value and the bytes written at the output buffer ([[]] if none). *)
Definition cipherWithKey {R} (evp : EVP_CIPHER -> bytes -> bytes -> bytes -> bytes)
    (c : CryptoPrimitive) (data key : bytes) : res R (bool * bytes) :=
  fn (blockSize ← init (blockSize_ c);
      if negb (Z.rem (Z.of_nat (length data)) blockSize =? 0) then Return (false, [])
      else
        cipher ← init (cipher_ c);
        iv ← init (iv_ c);
        key' ← rd key 0 (EVP_CIPHER_key_length cipher);
        let out := evp cipher key' iv data in
        Ok (if Z.of_nat (length out) =? Z.of_nat (length data) then true else false, out)).

Definition encryptWithKey {R} (c : CryptoPrimitive) (dataBuffer key : bytes)
  : res R (bool * bytes) := cipherWithKey EVP_Encrypt c dataBuffer key.

Definition decryptWithKey {R} (c : CryptoPrimitive) (ciphertext key : bytes)
  : res R (bool * bytes) := cipherWithKey EVP_Decrypt c ciphertext key.

(** ** What a wrapper promises to its clients

    [digest] and [encipher] are the values computed; [hs] is the hash (and
    key) size, [bs] the cipher block size. *)
Class CryptoOk (c : CryptoPrimitive) (hs bs : nat)
    (digest : bytes -> bytes) (encipher decipher : bytes -> bytes -> bytes) : Prop := {
  ok_hs_4 : (4 <= hs)%nat;
  ok_bs_pos : (0 < bs)%nat;
  ok_hs_bs : (hs mod bs = 0)%nat;
  ok_getHashSize R : getHashSize (R := R) c = Ok (Z.of_nat hs);
  ok_getKeySize R : getKeySize (R := R) c = Ok (Z.of_nat hs);
  ok_generateHash R d : generateHash (R := R) c d = Ok (true, digest d);
  ok_digest_length d : length (digest d) = hs;
  ok_encrypt R d key : length key = hs -> (length d mod bs = 0)%nat ->
    encryptWithKey (R := R) c d key = Ok (true, encipher d key);
  ok_encipher_length d key : (length d mod bs = 0)%nat -> length (encipher d key) = length d;
  ok_decrypt R d key : length key = hs -> (length d mod bs = 0)%nat ->
    decryptWithKey (R := R) c d key = Ok (true, decipher d key);
  ok_decipher d key : length key = hs -> (length d mod bs = 0)%nat ->
    decipher (encipher d key) key = d;
}.

(** What the deduplication cores rely on: [generateHash] delivers [hs] bytes. *)
Class HashOk (c : CryptoPrimitive) (hs : nat) (digest : bytes -> bytes) : Prop := {
  hash_generate R d : generateHash (R := R) c d = Ok (true, digest d);
  hash_length d : length (digest d) = hs;
}.

Context {SSLOK : OpenSSLLaws SSL}.

Lemma generateHash_ok {R} c md d :
  md_ c = Some md -> hashSize_ c = Some (Z.of_nat (EVP_MD_size md)) ->
  generateHash (R := R) c d = Ok (true, EVP_Digest md d).
Proof.
  intros Hmd Hs. unfold generateHash. rewrite Hmd, Hs. cbn.
  by rewrite EVP_Digest_length, Z.eqb_refl.
Qed.

Lemma cipherWithKey_ok {R} evp c ci iv d key :
  (forall d, (length d mod EVP_CIPHER_block_size ci = 0)%nat ->
     length (evp ci key iv d) = length d) ->
  cipher_ c = Some ci -> blockSize_ c = Some (Z.of_nat (EVP_CIPHER_block_size ci)) ->
  iv_ c = Some iv -> length key = EVP_CIPHER_key_length ci ->
  (length d mod EVP_CIPHER_block_size ci = 0)%nat ->
  cipherWithKey (R := R) evp c d key = Ok (true, evp ci key iv d).
Proof.
  intros Hl Hci Hb Hiv Hk Hd. unfold cipherWithKey. rewrite Hb, Hci, Hiv. cbn [init mbind res_bind].
  rewrite Z.rem_mod_nonneg by (unfold EVP_CIPHER_block_size; lia).
  rewrite <- Nat2Z.inj_mod, Hd. cbn [Z.of_nat Z.eqb negb].
  rewrite rd_ok by lia. cbn [mbind res_bind]. rewrite drop_0, take_ge by lia.
  rewrite Hl by exact Hd. by rewrite !Z.eqb_refl.
Qed.

(** Either cipher/hash pair keeps the promise. *)
Lemma pair_CryptoOk c md ci iv :
  md_ c = Some md -> hashSize_ c = Some (Z.of_nat (EVP_MD_size md)) ->
  cipher_ c = Some ci -> keySize_ c = Some (Z.of_nat (EVP_CIPHER_key_length ci)) ->
  blockSize_ c = Some (Z.of_nat (EVP_CIPHER_block_size ci)) ->
  iv_ c = Some iv -> length iv = EVP_CIPHER_block_size ci ->
  EVP_MD_size md = EVP_CIPHER_key_length ci ->
  CryptoOk c (EVP_MD_size md) (EVP_CIPHER_block_size ci) (EVP_Digest md)
    (fun d key => EVP_Encrypt ci key iv d) (fun d key => EVP_Decrypt ci key iv d).
Proof.
  intros Hmd Hhs Hci Hks Hbs Hiv Hivl Hsz. constructor.
  - destruct md; cbn; lia.
  - unfold EVP_CIPHER_block_size; lia.
  - rewrite Hsz. by destruct ci.
  - intros R. unfold getHashSize. by rewrite Hhs.
  - intros R. unfold getKeySize. by rewrite Hks, Hsz.
  - intros. by apply generateHash_ok.
  - intros. apply EVP_Digest_length.
  - intros R d key Hk Hd. apply cipherWithKey_ok; try done; [|by rewrite <- Hsz].
    intros. by apply EVP_Encrypt_length.
  - intros. by apply EVP_Encrypt_length.
  - intros R d key Hk Hd. apply cipherWithKey_ok; try done; [|by rewrite <- Hsz].
    intros. by apply EVP_Decrypt_length.
  - intros d key Hk Hd. apply EVP_Decrypt_Encrypt; [by rewrite <- Hsz|done|done].
Qed.

Lemma new_HIGH_ok :
  exists c, (forall R, new_CryptoPrimitive (R := R) true HIGH_SEC_PAIR_TYPE = Ok c) /\
    CryptoOk c 32 16 (EVP_Digest EVP_sha256)
      (fun d key => EVP_Encrypt EVP_aes_256_cbc key (replicate 16 Byte.x00) d)
      (fun d key => EVP_Decrypt EVP_aes_256_cbc key (replicate 16 Byte.x00) d).
Proof. eexists. split; [done|]. by eapply (pair_CryptoOk _ EVP_sha256 EVP_aes_256_cbc). Qed.

(** The object the server creates for each client. *)
Lemma new_SHA256_ok :
  exists c, (forall R, new_CryptoPrimitive (R := R) true SHA256_TYPE = Ok c) /\
    HashOk c 32 (EVP_Digest EVP_sha256).
Proof.
  eexists. split; [done|]. split; [intros; by apply generateHash_ok|].
  intros. apply EVP_Digest_length.
Qed.

Lemma new_LOW_ok :
  exists c, (forall R, new_CryptoPrimitive (R := R) true LOW_SEC_PAIR_TYPE = Ok c) /\
    CryptoOk c 16 16 (EVP_Digest EVP_md5)
      (fun d key => EVP_Encrypt EVP_aes_128_cbc key (replicate 16 Byte.x00) d)
      (fun d key => EVP_Decrypt EVP_aes_128_cbc key (replicate 16 Byte.x00) d).
Proof. eexists. split; [done|]. by eapply (pair_CryptoOk _ EVP_md5 EVP_aes_128_cbc). Qed.
End Crypto.

(** ** A concrete OpenSSL for executing the model

    Not a cryptographic one: a checksum that keeps the digest sizes, and the
    exclusive or with the repeated key. *)
Module SampleSSL.

Definition sum (d : bytes) : Z := fold_left (fun a b => (a * 31 + byte.unsigned b + 1) mod 65521) d 1.

Definition digest (md : EVP_MD) (d : bytes) : bytes :=
  map (fun i => byte.of_Z (sum d * (Z.of_nat i + 3) + sum d / 256)) (seq 0 (EVP_MD_size md)).

Definition cipher (c : EVP_CIPHER) (key iv d : bytes) : bytes :=
  imap (fun i b => byte.xor b (nth (i mod length key)%nat key Byte.x00)) d.

#[export] Instance sampleSSL : OpenSSL :=
  {| EVP_Digest := digest; EVP_Encrypt := cipher; EVP_Decrypt := cipher |}.

Lemma cipher_length c key iv d : length (cipher c key iv d) = length d.
Proof. apply length_imap. Qed.

Lemma cipher_involutive c key iv d : cipher c key iv (cipher c key iv d) = d.
Proof.
  unfold cipher. apply list_eq. intros i. rewrite !list_lookup_imap.
  destruct (d !! i); cbn; [|done]. by rewrite xor_cancel_r.
Qed.

#[export] Instance sampleSSL_laws : OpenSSLLaws sampleSSL.
Proof.
  constructor; cbn; intros.
  - unfold digest. by rewrite List.length_map, length_seq.
  - apply cipher_length.
  - apply cipher_length.
  - apply cipher_involutive.
Qed.

(** The object for the weaker pair, and its promise. *)
Definition lowCrypto : CryptoPrimitive :=
  {| cryptoType_ := LOW_SEC_PAIR_TYPE; md_ := Some EVP_md5; hashSize_ := Some 16;
     cipher_ := Some EVP_aes_128_cbc; keySize_ := Some 16; blockSize_ := Some 16;
     iv_ := Some (replicate 16 Byte.x00) |}.

Lemma lowCrypto_ok :
  CryptoOk lowCrypto 16 16 (digest EVP_md5)
    (fun d key => cipher EVP_aes_128_cbc key (replicate 16 Byte.x00) d)
    (fun d key => cipher EVP_aes_128_cbc key (replicate 16 Byte.x00) d).
Proof.
  exact (pair_CryptoOk (SSL := sampleSSL) lowCrypto EVP_md5 EVP_aes_128_cbc (replicate 16 Byte.x00)
    eq_refl eq_refl eq_refl eq_refl eq_refl eq_refl eq_refl eq_refl).
Qed.

(** The object for SHA-256 fingerprints, and its promise. *)
Definition shaCrypto : CryptoPrimitive :=
  {| cryptoType_ := SHA256_TYPE; md_ := Some EVP_sha256; hashSize_ := Some 32;
     cipher_ := None; keySize_ := Some (-1); blockSize_ := Some (-1); iv_ := None |}.

#[export] Instance shaCrypto_ok : HashOk shaCrypto 32 (digest EVP_sha256).
Proof.
  split; [intros; by apply (generateHash_ok (SSL := sampleSSL))|].
  intros. apply (EVP_Digest_length (SSL := sampleSSL)).
Qed.

End SampleSSL.
