(* ===== verification/CDCodec.v ===== *)
(** * CDCodec: convergent dispersal

    client/coding/CDCodec.cc: a secret is turned into n shares of which any
    k = n - m rebuild it.  Four schemes are implemented: CRSSS, AONT-RS, old
    CAONT-RS and CAONT-RS (the one the client uses).  This file holds the
    object, its constructor and all its methods; every buffer access is
    checked, so a result [Ok] includes the absence of buffer overflows.  The
    correctness proofs are in [ErasureCode] and [CDCodecProofs].

    Sizes and indices are naturals: the C++ ints involved are non-negative. *)

From stdpp Require Import base list numbers.
From coqutil Require Import Byte.
From Stdlib Require Import Lia.
From S2P Require Import Prelude GaloisField LinearAlgebra MatrixInvert CryptoPrimitive.

Definition CRSSS_TYPE : Z := 0.
Definition AONT_RS_TYPE : Z := 1.
Definition OLD_CAONT_RS_TYPE : Z := 2.
Definition CAONT_RS_TYPE : Z := 3.

(** [64 << 10], written with [Nat.pow] so that it stays folded in proofs. *)
Definition MAX_SECRET_SIZE : nat := 2 ^ 16.

(** The object.  Members that a constructor branch leaves uninitialised are 0
    or the empty buffer: any access to an empty buffer is [UB], and
    [secretWordsPerGroup_] and [bytesPerGroup_] are read by CRSSS only. *)
Record CDCodec := {
  CDType_ : Z;
  n_ : nat;
  m_ : nat;
  k_ : nat;
  r_ : nat;
  bytesPerSecretWord_ : nat;
  secretWordsPerGroup_ : nat;
  bytesPerGroup_ : nat;
  alignedSecretBufferSize_ : nat;
  erasureCodingDataSize_ : nat;
  alignedSizeConstant_ : bytes;
  distributionMatrix_ : bytes;
  cryptoObj_ : CryptoPrimitive;
  (* scratch buffers, overwritten by every call *)
  key_ : bytes;
  hashInputBuffer_ : bytes;
  rHashes_ : bytes;
  alignedSecretBuffer_ : bytes;
  wordForIndex_ : bytes;
  erasureCodingData_ : bytes;
  squareMatrix_ : bytes;
  inverseMatrix_ : bytes;
}.

(** The object after a call, with new contents of its scratch buffers. *)
Definition with_scratch (c : CDCodec) (key hashInput rHashes aligned word data square inverse : bytes)
  : CDCodec := {|
  CDType_ := CDType_ c; n_ := n_ c; m_ := m_ c; k_ := k_ c; r_ := r_ c;
  bytesPerSecretWord_ := bytesPerSecretWord_ c;
  secretWordsPerGroup_ := secretWordsPerGroup_ c; bytesPerGroup_ := bytesPerGroup_ c;
  alignedSecretBufferSize_ := alignedSecretBufferSize_ c;
  erasureCodingDataSize_ := erasureCodingDataSize_ c;
  alignedSizeConstant_ := alignedSizeConstant_ c;
  distributionMatrix_ := distributionMatrix_ c; cryptoObj_ := cryptoObj_ c;
  key_ := key; hashInputBuffer_ := hashInput; rHashes_ := rHashes;
  alignedSecretBuffer_ := aligned; wordForIndex_ := word; erasureCodingData_ := data;
  squareMatrix_ := square; inverseMatrix_ := inverse |}.

(** The four buffers every method works on. *)
Definition set_bufs (c : CDCodec) (key aligned word data : bytes) : CDCodec :=
  with_scratch c key (hashInputBuffer_ c) (rHashes_ c) aligned word data
    (squareMatrix_ c) (inverseMatrix_ c).
Definition set_mats (c : CDCodec) (SV : mats) : CDCodec :=
  with_scratch c (key_ c) (hashInputBuffer_ c) (rHashes_ c) (alignedSecretBuffer_ c)
    (wordForIndex_ c) (erasureCodingData_ c) (fst SV) (snd SV).
Definition set_crsss (c : CDCodec) (hashInput rHashes aligned data : bytes) : CDCodec :=
  with_scratch c (key_ c) hashInput rHashes aligned (wordForIndex_ c) data
    (squareMatrix_ c) (inverseMatrix_ c).

(** Results: return value, object, output buffer and (encoding) [*shareSize]. *)
Abbreviation encOut := (bool * CDCodec * bytes * nat)%type.
Abbreviation decOut := (bool * CDCodec * bytes)%type.

Section Codec.
Context {GF : GaloisField} {SSL : OpenSSL}.

(** [gfObj_.multiply_region.w32(&gfObj_, src + soff, dst + doff, coef, size, add)] *)
Definition multiply_region {R} (src : bytes) (soff : nat) (dst : bytes) (doff : nat)
    (coef : byte) (size : nat) (add : bool) : res R bytes :=
  s ← rd src soff size;
  d ← rd dst doff size;
  wr dst doff (if add then zip_with byte.xor d (gf_mul coef <$> s) else gf_mul coef <$> s).

(** The two nested region loops that multiply k blocks of [src] by the rows
    [base .. base + rows) of a matrix into the blocks of [dst] with the same
    numbers: RS and IDA encoding and decoding are instances. *)
Definition codeRow {R} (k : nat) (M : bytes) (row : nat) (src : bytes) (size : nat)
    (dst : bytes) : res R bytes :=
  forN k 0 (fun j dst =>
    coef ← aget M (k * row + j);
    multiply_region src (size * j) dst (size * row) coef size (0 <? j)) dst.

Definition codeRows {R} (k : nat) (M : bytes) (base rows : nat) (src : bytes) (size : nat)
    (dst : bytes) : res R bytes :=
  forN rows 0 (fun i dst => codeRow k M (base + i) src size dst) dst.

(** ** Constructor *)

(** Cells [sum = i ^ (base + j)] and [1 / sum] of a Cauchy matrix, stored at row [off + i]. *)
Definition initCauchy {R} (k rows off base : nat) (D : bytes) : res R bytes :=
  forN rows 0 (fun i D =>
    forN k 0 (fun j D =>
      sum ← gf_word (Z.lxor (Z.of_nat i) (Z.of_nat (base + j)));
      aset D (k * (off + i) + j) (gf_div Byte.x01 sum)) D) D.

(** The k * k identity in the first rows. *)
Definition initUnit {R} (k : nat) (D : bytes) : res R bytes :=
  forN k 0 (fun i D =>
    forN k 0 (fun j D =>
      aset D (k * i + j) (if (i =? j)%nat then Byte.x01 else Byte.x00)) D) D.

(** [alignedSizeConstant_[i] = i & 0xff] *)
Definition initSizeConstant {R} (size : nat) (A : bytes) : res R bytes :=
  forN size 0 (fun i A => aset A i (byte.of_Z (Z.land (Z.of_nat i) 0xff))) A.

(** The parameter checks both branches start with. *)
Definition checkParams {R} (n m : Z) : res R unit :=
  if (n <=? 0)%Z then Exit 1
  else if ((m <=? 0) || (m >=? n))%Z then Exit 1
  else if (n - m <=? 1)%Z then Exit 1
  else Ok tt.

(** [malloc i size] is the content of the [i]-th allocation; [gfInit] is the
    result of [gf_init_easy]. *)
Definition new_CRSSS {R} (malloc : nat -> nat -> bytes) (gfInit : bool) (n m r : Z)
    (crypto : CryptoPrimitive) : res R CDCodec :=
  _ ← checkParams n m;
  if ((r <=? 0) || (r >=? n - m))%Z then Exit 1
  else
    hs ← getHashSize crypto;
    let n' := Z.to_nat n in let k' := Z.to_nat (n - m) in let r' := Z.to_nat r in
    let bps := Z.to_nat hs in
    let swpg := k' - r' in
    let abs := MAX_SECRET_SIZE + bps * swpg in
    let ecs := bps * (abs / (bps * swpg)) * k' in
    if negb gfInit then Exit 1
    else
      D ← initCauchy k' n' 0 n' (malloc 4 (n' * k'));
      Ok {| CDType_ := CRSSS_TYPE; n_ := n'; m_ := Z.to_nat m; k_ := k'; r_ := r';
            bytesPerSecretWord_ := bps; secretWordsPerGroup_ := swpg;
            bytesPerGroup_ := bps * swpg;
            alignedSecretBufferSize_ := abs; erasureCodingDataSize_ := ecs;
            alignedSizeConstant_ := []; distributionMatrix_ := D; cryptoObj_ := crypto;
            key_ := []; hashInputBuffer_ := malloc 0 (bps * swpg + 1);
            rHashes_ := malloc 1 (bps * r'); alignedSecretBuffer_ := malloc 2 abs;
            wordForIndex_ := []; erasureCodingData_ := malloc 3 ecs;
            squareMatrix_ := malloc 5 (k' * k'); inverseMatrix_ := malloc 6 (k' * k') |}.

Definition new_AONT {R} (malloc : nat -> nat -> bytes) (gfInit : bool) (CDType n m r : Z)
    (crypto : CryptoPrimitive) : res R CDCodec :=
  _ ← checkParams n m;
  if negb (r =? n - m - 1)%Z then Exit 1
  else
    hs ← getHashSize crypto;
    ks ← getKeySize crypto;
    if negb (hs =? ks)%Z then Exit 1
    else
      let n' := Z.to_nat n in let m' := Z.to_nat m in let k' := Z.to_nat (n - m) in
      let bps := Z.to_nat hs in
      let abs := MAX_SECRET_SIZE + bps * k' in
      W ← (if ((CDType =? AONT_RS_TYPE) || (CDType =? OLD_CAONT_RS_TYPE))%Z
           then memset (malloc 2 bps) 0 Byte.x00 bps else Ok []);
      C ← (if (CDType =? CAONT_RS_TYPE)%Z then initSizeConstant abs (malloc 3 abs) else Ok []);
      let ecs := bps * ((abs / bps + 1) / k') * k' in
      if negb gfInit then Exit 1
      else
        D ← initUnit k' (malloc 5 (n' * k'));
        D ← initCauchy k' m' k' m' D;
        Ok {| CDType_ := CDType; n_ := n'; m_ := m'; k_ := k'; r_ := Z.to_nat r;
              bytesPerSecretWord_ := bps; secretWordsPerGroup_ := 0; bytesPerGroup_ := 0;
              alignedSecretBufferSize_ := abs; erasureCodingDataSize_ := ecs;
              alignedSizeConstant_ := C; distributionMatrix_ := D; cryptoObj_ := crypto;
              key_ := malloc 0 bps; hashInputBuffer_ := []; rHashes_ := [];
              alignedSecretBuffer_ := malloc 1 abs; wordForIndex_ := W;
              erasureCodingData_ := malloc 4 ecs;
              squareMatrix_ := malloc 6 (k' * k'); inverseMatrix_ := malloc 7 (k' * k') |}.

Definition new_CDCodec {R} (malloc : nat -> nat -> bytes) (gfInit : bool) (CDType n m r : Z)
    (cryptoObj : option CryptoPrimitive) : res R CDCodec :=
  match cryptoObj with
  | None => Exit 1
  | Some crypto =>
      if (CDType =? CRSSS_TYPE)%Z then new_CRSSS malloc gfInit n m r crypto
      else if ((CDType =? AONT_RS_TYPE) || (CDType =? OLD_CAONT_RS_TYPE)
               || (CDType =? CAONT_RS_TYPE))%Z
      then new_AONT malloc gfInit CDType n m r crypto
      else Ok {| CDType_ := CDType; n_ := 0; m_ := 0; k_ := 0; r_ := 0;
                 bytesPerSecretWord_ := 0; secretWordsPerGroup_ := 0; bytesPerGroup_ := 0;
                 alignedSecretBufferSize_ := 0; erasureCodingDataSize_ := 0;
                 alignedSizeConstant_ := []; distributionMatrix_ := []; cryptoObj_ := crypto;
                 key_ := []; hashInputBuffer_ := []; rHashes_ := []; alignedSecretBuffer_ := [];
                 wordForIndex_ := []; erasureCodingData_ := []; squareMatrix_ := [];
                 inverseMatrix_ := [] |}
  end.

(** ** Pieces shared by the schemes *)

(** [generateHash(data, ..., buf + off)] and [encryptWithKey(data, ..., key, buf + off)]. *)
Definition hashTo {R} (c : CDCodec) (data buf : bytes) (off : nat) : res R (bool * bytes) :=
  '(ok, h) ← generateHash (cryptoObj_ c) data;
  b ← wr buf off h;
  Ok (ok, b).

Definition encTo {R} (c : CDCodec) (data key buf : bytes) (off : nat) : res R (bool * bytes) :=
  '(ok, ct) ← encryptWithKey (cryptoObj_ c) data key;
  b ← wr buf off ct;
  Ok (ok, b).

(** Copy the secret to [alignedSecretBuffer_] and pad it with zeros. *)
Definition copyAligned {R} (A secretBuffer : bytes) (secretSize alignedSecretSize : nat)
  : res R bytes :=
  A ← memcpy A 0 secretBuffer 0 secretSize;
  if (alignedSecretSize =? secretSize)%nat then Ok A
  else memset A secretSize Byte.x00 (alignedSecretSize - secretSize).

(** The size of the aligned secret in the three AONT schemes. *)
Definition alignedSize (bps k secretSize : nat) : nat :=
  if ((secretSize + bps) mod (bps * k) =? 0)%nat then secretSize
  else bps * k * ((secretSize + bps) / (bps * k) + 1) - bps.

(** The k rows of the distribution matrix for the given shares. *)
Definition selectRows {R} (k : nat) (D : bytes) (kShareIDList : list nat) (S : bytes)
  : res R bytes :=
  forN k 0 (fun i S =>
    forN k 0 (fun j S =>
      id ← aget kShareIDList i;
      x ← aget D (k * id + j);
      aset S (k * i + j) x) S) S.

(** [wordForIndex_[0..3] = i], least significant byte first. *)
Definition setIndex {R} (W : bytes) (i : nat) : res R bytes :=
  W ← aset W 0 (byte.of_Z (Z.of_nat i));
  W ← aset W 1 (byte.of_Z (Z.shiftr (Z.of_nat i) 8));
  W ← aset W 2 (byte.of_Z (Z.shiftr (Z.of_nat i) 16));
  aset W 3 (byte.of_Z (Z.shiftr (Z.of_nat i) 24)).

(** ** Encoding *)

(** Step 2 of the AONT schemes: the package is the first k shares, the other
    m shares are its combinations. *)
Definition rsShares {R} (c : CDCodec) (E : bytes) (alignedSecretSize shareSize : nat)
    (shareBuffer : bytes) : res R bytes :=
  B ← memcpy shareBuffer 0 E 0 (alignedSecretSize + bytesPerSecretWord_ c);
  codeRows (k_ c) (distributionMatrix_ c) (k_ c) (m_ c) E shareSize B.

(** The words of an AONT package: each secret word is masked with the
    encryption of its index.  The loop of AONT-RS and old CAONT-RS, over
    ([wordForIndex_], output buffer); [fail] is the value returned when the
    encryption fails. *)
Definition maskWords {R} (c : CDCodec) (key src : bytes) (numOfSecretWords : nat)
    (fail : bytes -> bytes -> R) (W out : bytes) : res R (bytes * bytes) :=
  let bps := bytesPerSecretWord_ c in
  forN numOfSecretWords 0 (fun i WE =>
    W ← setIndex (fst WE) i;
    w ← rd W 0 bps;
    '(ok, E) ← encTo c w key (snd WE) (bps * i);
    if negb ok then Return (fail W E)
    else
      E ← multiply_region src (bps * i) E (bps * i) Byte.x01 bps true;
      Ok (W, E)) (W, out).

(** The last word of the package: the hash of the others, masked with the key. *)
Definition tailWord {R} (c : CDCodec) (key E : bytes) (alignedSecretSize : nat)
    (fail : bytes -> R) : res R bytes :=
  d ← rd E 0 alignedSecretSize;
  '(ok, E) ← hashTo c d E alignedSecretSize;
  if negb ok then Return (fail E)
  else multiply_region key 0 E alignedSecretSize Byte.x01 (bytesPerSecretWord_ c) true.

(** [randomKey] stands for the bytes [lrand48() % 256] drawn by the call. *)
Definition aontRSEncoding {R} (c : CDCodec) (randomKey : nat -> byte) (secretBuffer : bytes)
    (secretSize : nat) (shareBuffer : bytes) (shareSize0 : nat) : res R encOut :=
  fn (let bps := bytesPerSecretWord_ c in
      let alignedSecretSize := alignedSize bps (k_ c) secretSize in
      if alignedSecretBufferSize_ c <? alignedSecretSize
      then Return (false, c, shareBuffer, shareSize0)
      else
        let numOfSecretWords := alignedSecretSize / bps in
        let shareSize := bps * ((numOfSecretWords + 1) / k_ c) in
        A ← copyAligned (alignedSecretBuffer_ c) secretBuffer secretSize alignedSecretSize;
        K ← forN bps 0 (fun i K => aset K i (randomKey i)) (key_ c);
        '(W, E) ← maskWords c K A numOfSecretWords
                    (fun W E => (false, set_bufs c K A W E, shareBuffer, shareSize))
                    (wordForIndex_ c) (erasureCodingData_ c);
        E ← tailWord c K E alignedSecretSize
              (fun E => (false, set_bufs c K A W E, shareBuffer, shareSize));
        B ← rsShares c E alignedSecretSize shareSize shareBuffer;
        Ok (true, set_bufs c K A W E, B, shareSize)).

Definition caontRSOldEncoding {R} (c : CDCodec) (secretBuffer : bytes) (secretSize : nat)
    (shareBuffer : bytes) (shareSize0 : nat) : res R encOut :=
  fn (let bps := bytesPerSecretWord_ c in
      let alignedSecretSize := alignedSize bps (k_ c) secretSize in
      if alignedSecretBufferSize_ c <? alignedSecretSize
      then Return (false, c, shareBuffer, shareSize0)
      else
        let numOfSecretWords := alignedSecretSize / bps in
        let shareSize := bps * ((numOfSecretWords + 1) / k_ c) in
        A ← copyAligned (alignedSecretBuffer_ c) secretBuffer secretSize alignedSecretSize;
        d ← rd A 0 alignedSecretSize;
        '(ok, K) ← hashTo c d (key_ c) 0;
        if negb ok
        then Return (false, set_bufs c K A (wordForIndex_ c) (erasureCodingData_ c),
                     shareBuffer, shareSize)
        else
          '(W, E) ← maskWords c K A numOfSecretWords
                      (fun W E => (false, set_bufs c K A W E, shareBuffer, shareSize))
                      (wordForIndex_ c) (erasureCodingData_ c);
          E ← tailWord c K E alignedSecretSize
                (fun E => (false, set_bufs c K A W E, shareBuffer, shareSize));
          B ← rsShares c E alignedSecretSize shareSize shareBuffer;
          Ok (true, set_bufs c K A W E, B, shareSize)).

Definition caontRSEncoding {R} (c : CDCodec) (secretBuffer : bytes) (secretSize : nat)
    (shareBuffer : bytes) (shareSize0 : nat) : res R encOut :=
  fn (let bps := bytesPerSecretWord_ c in
      let alignedSecretSize := alignedSize bps (k_ c) secretSize in
      if alignedSecretBufferSize_ c <? alignedSecretSize
      then Return (false, c, shareBuffer, shareSize0)
      else
        let shareSize := bps * ((alignedSecretSize / bps + 1) / k_ c) in
        A ← copyAligned (alignedSecretBuffer_ c) secretBuffer secretSize alignedSecretSize;
        d ← rd A 0 alignedSecretSize;
        '(ok, K) ← hashTo c d (key_ c) 0;
        if negb ok
        then Return (false, set_bufs c K A (wordForIndex_ c) (erasureCodingData_ c),
                     shareBuffer, shareSize)
        else
          s ← rd (alignedSizeConstant_ c) 0 alignedSecretSize;
          '(ok, E) ← encTo c s K (erasureCodingData_ c) 0;
          if negb ok
          then Return (false, set_bufs c K A (wordForIndex_ c) E, shareBuffer, shareSize)
          else
            E ← multiply_region A 0 E 0 Byte.x01 alignedSecretSize true;
            E ← tailWord c K E alignedSecretSize
                  (fun E => (false, set_bufs c K A (wordForIndex_ c) E, shareBuffer, shareSize));
            B ← rsShares c E alignedSecretSize shareSize shareBuffer;
            Ok (true, set_bufs c K A (wordForIndex_ c) E, B, shareSize)).

(** ** Decoding *)

(** The size checks at the start of the AONT decoders; the last one is
    [secretSize > alignedSecretSize], where the int [alignedSecretSize] is
    negative for an empty share. *)
Definition decodeChecks (c : CDCodec) (shareSize secretSize : nat) : bool :=
  let bps := bytesPerSecretWord_ c in
  let alignedSecretSize := shareSize * k_ c - bps in
  negb (negb (shareSize mod bps =? 0) || (erasureCodingDataSize_ c <? shareSize * k_ c)
        || (alignedSecretBufferSize_ c <? alignedSecretSize)
        || (shareSize * k_ c <? secretSize + bps)).

(** Rebuild the k data blocks in [erasureCodingData_]; false when the
    submatrix is not invertible. *)
Definition rsDecode {R} (c : CDCodec) (shareBuffer : bytes) (kShareIDList : list nat)
    (shareSize : nat) : res R (bool * CDCodec) :=
  S ← selectRows (k_ c) (distributionMatrix_ c) kShareIDList (squareMatrix_ c);
  '(ok, SV) ← squareMatrixInverting (k_ c) S (inverseMatrix_ c);
  if negb ok then Ok (false, set_mats c SV)
  else
    E ← codeRows (k_ c) (snd SV) 0 (k_ c) shareBuffer shareSize (erasureCodingData_ c);
    let c := set_mats c SV in
    Ok (true, set_bufs c (key_ c) (alignedSecretBuffer_ c) (wordForIndex_ c) E).

(** The key: the hash of the main part of the package, unmasked with its tail. *)
Definition recoverKey {R} (c : CDCodec) (alignedSecretSize : nat) (fail : bytes -> R)
  : res R bytes :=
  d ← rd (erasureCodingData_ c) 0 alignedSecretSize;
  '(ok, K) ← hashTo c d (key_ c) 0;
  if negb ok then Return (fail K)
  else multiply_region (erasureCodingData_ c) alignedSecretSize K 0 Byte.x01
         (bytesPerSecretWord_ c) true.

(** The integrity check of the two convergent schemes, and the output. *)
Definition checkAndOutput {R} (c : CDCodec) (K A W : bytes) (alignedSecretSize secretSize : nat)
    (secretBuffer : bytes) : res R decOut :=
  d ← rd A 0 alignedSecretSize;
  '(ok, E) ← hashTo c d (erasureCodingData_ c) 0;
  if negb ok then Ok (false, set_bufs c K A W E, secretBuffer)
  else
    h ← rd E 0 (bytesPerSecretWord_ c);
    k ← rd K 0 (bytesPerSecretWord_ c);
    if decide (h = k) then
      B ← memcpy secretBuffer 0 A 0 secretSize;
      Ok (true, set_bufs c K A W E, B)
    else Ok (false, set_bufs c K A W E, secretBuffer).

Definition aontRSDecoding {R} (c : CDCodec) (shareBuffer : bytes) (kShareIDList : list nat)
    (shareSize secretSize : nat) (secretBuffer : bytes) : res R decOut :=
  fn (if negb (decodeChecks c shareSize secretSize) then Return (false, c, secretBuffer)
      else
        let bps := bytesPerSecretWord_ c in
        let alignedSecretSize := shareSize * k_ c - bps in
        '(ok, c) ← rsDecode c shareBuffer kShareIDList shareSize;
        if negb ok then Return (false, c, secretBuffer)
        else
          let E := erasureCodingData_ c in
          K ← recoverKey c alignedSecretSize
                (fun K => (false, set_bufs c K (alignedSecretBuffer_ c) (wordForIndex_ c) E,
                        secretBuffer));
          '(W, A) ← maskWords c K E (alignedSecretSize / bps)
                      (fun W A => (false, set_bufs c K A W E, secretBuffer))
                      (wordForIndex_ c) (alignedSecretBuffer_ c);
          B ← memcpy secretBuffer 0 A 0 secretSize;
          Ok (true, set_bufs c K A W E, B)).

Definition caontRSOldDecoding {R} (c : CDCodec) (shareBuffer : bytes) (kShareIDList : list nat)
    (shareSize secretSize : nat) (secretBuffer : bytes) : res R decOut :=
  fn (if negb (decodeChecks c shareSize secretSize) then Return (false, c, secretBuffer)
      else
        let bps := bytesPerSecretWord_ c in
        let alignedSecretSize := shareSize * k_ c - bps in
        '(ok, c) ← rsDecode c shareBuffer kShareIDList shareSize;
        if negb ok then Return (false, c, secretBuffer)
        else
          let E := erasureCodingData_ c in
          K ← recoverKey c alignedSecretSize
                (fun K => (false, set_bufs c K (alignedSecretBuffer_ c) (wordForIndex_ c) E,
                        secretBuffer));
          '(W, A) ← maskWords c K E (alignedSecretSize / bps)
                      (fun W A => (false, set_bufs c K A W E, secretBuffer))
                      (wordForIndex_ c) (alignedSecretBuffer_ c);
          checkAndOutput c K A W alignedSecretSize secretSize secretBuffer).

Definition caontRSDecoding {R} (c : CDCodec) (shareBuffer : bytes) (kShareIDList : list nat)
    (shareSize secretSize : nat) (secretBuffer : bytes) : res R decOut :=
  fn (if negb (decodeChecks c shareSize secretSize) then Return (false, c, secretBuffer)
      else
        let alignedSecretSize := shareSize * k_ c - bytesPerSecretWord_ c in
        '(ok, c) ← rsDecode c shareBuffer kShareIDList shareSize;
        if negb ok then Return (false, c, secretBuffer)
        else
          let E := erasureCodingData_ c in
          K ← recoverKey c alignedSecretSize
                (fun K => (false, set_bufs c K (alignedSecretBuffer_ c) (wordForIndex_ c) E,
                        secretBuffer));
          s ← rd (alignedSizeConstant_ c) 0 alignedSecretSize;
          '(ok, A) ← encTo c s K (alignedSecretBuffer_ c) 0;
          if negb ok then Return (false, set_bufs c K A (wordForIndex_ c) E, secretBuffer)
          else
            A ← multiply_region E 0 A 0 Byte.x01 alignedSecretSize true;
            checkAndOutput c K A (wordForIndex_ c) alignedSecretSize secretSize secretBuffer).

(** ** CRSSS *)

(** [rHashes_[j] = hash(group i, j)] for one [j]; the state is
    ([hashInputBuffer_], [rHashes_]). *)
Definition groupHash {R} (c : CDCodec) (A : bytes) (i j : nat) (HR : bytes * bytes)
  : res R (bool * (bytes * bytes)) :=
  H ← memcpy (fst HR) 0 A (bytesPerGroup_ c * i) (bytesPerGroup_ c);
  H ← aset H (bytesPerGroup_ c) (byte.of_Z (Z.of_nat j));
  d ← rd H 0 (bytesPerGroup_ c + 1);
  '(ok, r) ← hashTo c d (snd HR) (bytesPerSecretWord_ c * j);
  Ok (ok, (H, r)).

(** One group: its r hashes, then its words and hashes appended to the k
    data blocks.  The state is ([hashInputBuffer_], [rHashes_],
    [erasureCodingData_]). *)
Definition crsssGroup {R} (c : CDCodec) (A : bytes) (shareSize i : nat)
    (fail : bytes -> bytes -> bytes -> R) (HRE : bytes * bytes * bytes)
  : res R (bytes * bytes * bytes) :=
  let bps := bytesPerSecretWord_ c in
  HR ← forN (r_ c) 0 (fun j HR =>
         '(ok, HR) ← groupHash c A i j HR;
         if negb ok then Return (fail (fst HR) (snd HR) (snd HRE)) else Ok HR) (fst HRE);
  E ← forN (secretWordsPerGroup_ c) 0 (fun j E =>
         memcpy E (shareSize * j + bps * i) A (bytesPerGroup_ c * i + bps * j) bps) (snd HRE);
  E ← forN (r_ c) 0 (fun j E =>
         memcpy E (shareSize * (secretWordsPerGroup_ c + j) + bps * i)
           (snd HR) (bps * j) bps) E;
  Ok (HR, E).

Definition crsssEncoding {R} (c : CDCodec) (secretBuffer : bytes) (secretSize : nat)
    (shareBuffer : bytes) (shareSize0 : nat) : res R encOut :=
  fn (let bpg := bytesPerGroup_ c in
      let alignedSecretSize :=
        if (secretSize mod bpg =? 0)%nat then secretSize
        else bpg * (secretSize / bpg + 1) in
      if alignedSecretBufferSize_ c <? alignedSecretSize
      then Return (false, c, shareBuffer, shareSize0)
      else
        let numOfGroups := alignedSecretSize / bpg in
        let shareSize := bytesPerSecretWord_ c * numOfGroups in
        if erasureCodingDataSize_ c <? shareSize * k_ c
        then Return (false, c, shareBuffer, shareSize)
        else
          A ← copyAligned (alignedSecretBuffer_ c) secretBuffer secretSize alignedSecretSize;
          '(H, r, E) ← forN numOfGroups 0 (fun i HRE =>
              crsssGroup c A shareSize i
                (fun H r E => (false, set_crsss c H r A E, shareBuffer, shareSize)) HRE)
            (hashInputBuffer_ c, rHashes_ c, erasureCodingData_ c);
          B ← codeRows (k_ c) (distributionMatrix_ c) 0 (n_ c) E shareSize shareBuffer;
          Ok (true, set_crsss c H r A E, B, shareSize)).

(** One group of the decoder: restore its words in [alignedSecretBuffer_],
    then recompute and compare each of its r hashes. *)
Definition crsssCheckGroup {R} (c : CDCodec) (E : bytes) (shareSize i : nat)
    (fail : bytes -> bytes -> bytes -> R) (HRA : bytes * bytes * bytes)
  : res R (bytes * bytes * bytes) :=
  let bps := bytesPerSecretWord_ c in
  A ← forN (secretWordsPerGroup_ c) 0 (fun j A =>
         memcpy A (bytesPerGroup_ c * i + bps * j) E (shareSize * j + bps * i) bps) (snd HRA);
  HR ← forN (r_ c) 0 (fun j HR =>
         '(ok, HR) ← groupHash c A i j HR;
         if negb ok then Return (fail (fst HR) (snd HR) A)
         else
           stored ← rd E (shareSize * (secretWordsPerGroup_ c + j) + bps * i) bps;
           h ← rd (snd HR) (bps * j) bps;
           if decide (stored = h) then Ok HR
           else Return (fail (fst HR) (snd HR) A)) (fst HRA);
  Ok (HR, A).

Definition crsssDecoding {R} (c : CDCodec) (shareBuffer : bytes) (kShareIDList : list nat)
    (shareSize secretSize : nat) (secretBuffer : bytes) : res R decOut :=
  fn (let bps := bytesPerSecretWord_ c in
      let numOfGroups := shareSize / bps in
      let alignedSecretSize := bytesPerGroup_ c * numOfGroups in
      if negb (shareSize mod bps =? 0) then Return (false, c, secretBuffer)
      else if erasureCodingDataSize_ c <? shareSize * k_ c then Return (false, c, secretBuffer)
      else if alignedSecretBufferSize_ c <? alignedSecretSize
      then Return (false, c, secretBuffer)
      else if alignedSecretSize <? secretSize then Return (false, c, secretBuffer)
      else
        '(ok, c) ← rsDecode c shareBuffer kShareIDList shareSize;
        if negb ok then Return (false, c, secretBuffer)
        else
          let E := erasureCodingData_ c in
          '(H, r, A) ← forN numOfGroups 0 (fun i HRA =>
              crsssCheckGroup c E shareSize i
                (fun H r A => (false, set_crsss c H r A E, secretBuffer)) HRA)
            (hashInputBuffer_ c, rHashes_ c, alignedSecretBuffer_ c);
          B ← memcpy secretBuffer 0 A 0 secretSize;
          Ok (true, set_crsss c H r A E, B)).

(** ** Dispatch on [CDType_]

    In the source each of the four [if]s assigns [success]; at most one of
    them is taken because [CDType_] is not changed by the calls. *)
Definition encoding {R} (c : CDCodec) (randomKey : nat -> byte) (secretBuffer : bytes)
    (secretSize : nat) (shareBuffer : bytes) (shareSize0 : nat) : res R encOut :=
  if (CDType_ c =? CRSSS_TYPE)%Z
  then crsssEncoding c secretBuffer secretSize shareBuffer shareSize0
  else if (CDType_ c =? AONT_RS_TYPE)%Z
  then aontRSEncoding c randomKey secretBuffer secretSize shareBuffer shareSize0
  else if (CDType_ c =? OLD_CAONT_RS_TYPE)%Z
  then caontRSOldEncoding c secretBuffer secretSize shareBuffer shareSize0
  else if (CDType_ c =? CAONT_RS_TYPE)%Z
  then caontRSEncoding c secretBuffer secretSize shareBuffer shareSize0
  else Ok (false, c, shareBuffer, shareSize0).

Definition decoding {R} (c : CDCodec) (shareBuffer : bytes) (kShareIDList : list nat)
    (shareSize secretSize : nat) (secretBuffer : bytes) : res R decOut :=
  if (CDType_ c =? CRSSS_TYPE)%Z
  then crsssDecoding c shareBuffer kShareIDList shareSize secretSize secretBuffer
  else if (CDType_ c =? AONT_RS_TYPE)%Z
  then aontRSDecoding c shareBuffer kShareIDList shareSize secretSize secretBuffer
  else if (CDType_ c =? OLD_CAONT_RS_TYPE)%Z
  then caontRSOldDecoding c shareBuffer kShareIDList shareSize secretSize secretBuffer
  else if (CDType_ c =? CAONT_RS_TYPE)%Z
  then caontRSDecoding c shareBuffer kShareIDList shareSize secretSize secretBuffer
  else Ok (false, c, secretBuffer).

End Codec.
