(* ===== verification/ErasureCode.v ===== *)
(** * The erasure code of CDCodec

    The matrix part of the codec: the distribution matrices the constructor
    builds are MDS (any k rows are nonsingular), the region loops compute
    linear combinations of blocks, and [rsDecode] rebuilds the k data blocks
    from any k shares. *)

From stdpp Require Import base list numbers sets.
From coqutil Require Import Byte.
From Stdlib Require Import Lia Field.
From S2P Require Import Prelude GaloisField LinearAlgebra MatrixInvert CryptoPrimitive CDCodec.

(** ** Blocks of a buffer *)

(** The [i]-th block of [size] bytes of [b]. *)
Definition blk (b : bytes) (size i : nat) : bytes := take size (drop (size * i) b).

Lemma blk_length b size i : size * i + size <= length b -> length (blk b size i) = size.
Proof. intros. unfold blk. lens. Qed.

Lemma blk_lookup b size i p :
  p < size -> blk b size i !! p = b !! (size * i + p).
Proof. intros. unfold blk. by rewrite lookup_take_lt, lookup_drop. Qed.

Lemma blk_lookup_total b size i p :
  p < size -> blk b size i !!! p = b !!! (size * i + p).
Proof. intros. rewrite !list_lookup_total_alt. by rewrite blk_lookup. Qed.

(** A prefix is determined by its blocks. *)
Lemma take_blk_eq b b' size n :
  (forall i, i < n -> blk b size i = blk b' size i) -> take (size * n) b = take (size * n) b'.
Proof.
  intros H. induction n as [|n IH]; [by rewrite Nat.mul_0_r|].
  replace (size * S n) with (size * n + size) by lia.
  rewrite <- !take_take_drop. f_equal; [apply IH; intros; apply H; lia|]. apply (H n). lia.
Qed.

Lemma blk_take b size n i : i < n -> blk (take (size * n) b) size i = blk b size i.
Proof.
  intros Hi. unfold blk. rewrite skipn_firstn_comm, take_take. f_equal. nia.
Qed.

Section Fill.
Context {R : Type} (k : nat).

(** Two nested loops that set the cells of the rows [off .. off + rows). *)
Lemma fillRows_spec (off rows n : nat) (f : nat -> nat -> byte)
    (body : nat -> nat -> bytes -> res R bytes) (D : bytes) :
  off + rows <= n -> length D = n * k ->
  (forall i j D, i < rows -> j < k -> length D = n * k ->
     body i j D = aset D (k * (off + i) + j) (f i j)) ->
  exists D', forN rows 0 (fun i D => forN k 0 (fun j D => body i j D) D) D = Ok D' /\
    length D' = n * k /\
    forall a b, b < k ->
      mget k D' a b = if decide (off <= a < off + rows) then f (a - off) b else mget k D a b.
Proof.
  intros Hn HD Hb.
  refine (forN_inv (R := R) (fun i D' => length D' = n * k /\ forall a b, b < k ->
      mget k D' a b = if decide (off <= a < off + i) then f (a - off) b else mget k D a b)
      rows 0 (fun i D => forN k 0 (fun j D => body i j D) D) D _ _).
  { split; [done|]. intros. by rewrite decide_False by lia. }
  intros i D1 Hi [HD1 H1].
  destruct (forN_inv (R := R) (fun j D' => length D' = n * k /\ forall a b, b < k ->
      mget k D' a b = if decide (a = off + i /\ b < j) then f i b else mget k D1 a b)
      k 0 (fun j D => body i j D) D1) as (D2 & E & HD2 & H2).
  { split; [done|]. intros. by rewrite decide_False by lia. }
  { intros j D2 Hj [HD2 H2]. rewrite Hb by (done || lia).
    exists (<[k * (off + i) + j := f i j]> D2). split; [apply aset_ok; nia|].
    split; [by rewrite length_insert|]. intros a b Hbk. unfold mget in *.
    destruct (decide (a = off + i /\ b = j)) as [[Ha Hb']|Hne]; [subst a b|].
    - rewrite decide_True by lia. apply list_lookup_total_insert_eq. nia.
    - rewrite list_lookup_total_insert_ne, H2 by
        (done || (intros E; apply idx_inj in E; lia)).
      by destruct (decide (a = off + i /\ b < j)), (decide (a = off + i /\ b < S j));
        try lia. }
  exists D2. split; [done|]. split; [done|]. intros a b Hbk. rewrite H2, H1 by done.
  cbn [Nat.add] in *.
  destruct (decide (a = off + i /\ b < k)), (decide (off <= a < off + i)),
    (decide (off <= a < off + S i)); try lia; try done.
  f_equal. lia.
Qed.
End Fill.

Section Erasure.
Context {GF : GaloisField} {LAWS : GaloisFieldLaws GF}.
Local Open Scope gf_scope.

Add Field gf_field_ec : gf_field_theory (morphism gf_morph, constants [gf_cst]).

(** ** The distribution matrices *)

(** Byte of a small index. *)
Definition ib (i : nat) : byte := byte.of_Z (Z.of_nat i).

Lemma ib_inj i j : (i < 256)%nat -> (j < 256)%nat -> ib i = ib j -> i = j.
Proof. intros Hi Hj H. apply of_Z_inj_small in H; lia. Qed.

(** [\[I; C\]] with the Cauchy rows [1 / (i ^ (m + j))] (AONT schemes). *)
Definition rsCell (k m i j : nat) : byte :=
  if decide (i < k)%nat then delta i j else / (ib (i - k) + ib (m + j)).

(** The n * k Cauchy matrix [1 / (i ^ (n + j))] (CRSSS). *)
Definition idaCell (n i j : nat) : byte := / (ib i + ib (n + j)).

(** Any k rows of [d] form a nonsingular matrix. *)
Definition MDS (n k : nat) (d : nat -> nat -> byte) : Prop :=
  forall ids, NoDup ids -> length ids = k -> Forall (fun i => i < n)%nat ids ->
    nonsing k (fun i j => d (ids !!! i) j).

(** A Cauchy system with as many rows as columns has only the zero solution. *)
Lemma cauchy_columns (rows cols : list nat) (fa fb : nat -> byte) (x : nat -> byte) :
  length rows = length cols -> NoDup rows -> NoDup cols ->
  (forall i i', i ∈ rows -> i' ∈ rows -> fa i = fa i' -> i = i') ->
  (forall j j', j ∈ cols -> j' ∈ cols -> fb j = fb j' -> j = j') ->
  (forall i j, i ∈ rows -> j ∈ cols -> fa i <> fb j) ->
  (forall i, i ∈ rows -> lsum (fun j => / (fa i + fb j) * x j) cols = 0) ->
  forall j, j ∈ cols -> x j = 0.
Proof.
  intros Hlen Hr Hc Hfa Hfb Hab Hs j Hj.
  assert (Forall (fun p => p.2 = 0) ((fun j => (fb j, x j)) <$> cols)) as Hz.
  { apply (cauchy_kernel (fa <$> rows)).
    - by rewrite !length_fmap.
    - apply NoDup_fmap_2_strong; [intros; by apply Hfa|done].
    - rewrite <- list_fmap_compose. apply NoDup_fmap_2_strong; [intros; by apply Hfb|done].
    - intros a p (i & -> & Hi)%list_elem_of_fmap (j' & -> & Hj')%list_elem_of_fmap E.
      apply xor_eq_0 in E. by apply (Hab i j').
    - intros a (i & -> & Hi)%list_elem_of_fmap. unfold csum.
      rewrite lsum_fmap. rewrite <- (Hs i Hi). apply lsum_ext. intros. cbn. ring. }
  rewrite Forall_fmap, Forall_forall in Hz. by apply (Hz j).
Qed.

Lemma ib_disjoint i j b : (i < b)%nat -> (b + j < 256)%nat -> ib i <> ib (b + j).
Proof. intros Hi Hj E. apply ib_inj in E; lia. Qed.

Theorem idaCell_MDS n k : (0 < n)%nat -> (n + k <= 256)%nat -> MDS n k (idaCell n).
Proof.
  intros Hn0 Hn ids Hnd Hlen Hall x Hx j Hj. rewrite Forall_forall in Hall.
  apply (cauchy_columns ids (seq 0 k) ib (fun j => ib (n + j)) x).
  - by rewrite length_seq.
  - done.
  - apply NoDup_seq.
  - intros i i' Hi Hi'. apply Hall in Hi, Hi'. apply ib_inj; lia.
  - intros i i' Hi%elem_of_seq Hi'%elem_of_seq E. apply ib_inj in E; lia.
  - intros i i' Hi%Hall Hi'%elem_of_seq. apply ib_disjoint; lia.
  - intros i Hi. apply list_elem_of_lookup_1 in Hi as [p Hp].
    rewrite <- gsum_lsum, <- (Hx p); [|apply lookup_lt_Some in Hp; lia].
    by rewrite (list_lookup_total_correct _ _ _ Hp).
  - apply elem_of_seq. lia.
Qed.

(** The parity rows are as many as the data columns that are missing. *)
Lemma parity_count k ids :
  NoDup ids -> length ids = k ->
  length (filter (fun i => ~ i < k)%nat ids) = length (filter (fun j => j ∉ ids) (seq 0 k)).
Proof.
  intros Hnd Hlen.
  assert (filter (fun i => i < k)%nat ids ≡ₚ filter (fun j => j ∈ ids) (seq 0 k)) as Hp.
  { apply NoDup_Permutation; [by apply NoDup_filter|apply NoDup_filter, NoDup_seq|].
    intros i. rewrite !list_elem_of_filter, elem_of_seq. split; intros [? ?]; repeat split; (done || lia). }
  apply Permutation_length in Hp.
  pose proof (Permutation_length (filter_app_complement (fun i => i < k)%nat ids)) as H1.
  pose proof (Permutation_length (filter_app_complement (fun j => j ∈ ids) (seq 0 k))) as H2.
  rewrite length_app in H1, H2. rewrite length_seq in H2. lia.
Qed.

(** The data rows among [ids] give the corresponding unknowns directly; the
    parity rows are a Cauchy system in the others. *)
Theorem rsCell_MDS k m : (k + m <= 256)%nat -> MDS (k + m) k (rsCell k m).
Proof.
  intros Hn ids Hnd Hlen Hall x Hx j Hj. rewrite Forall_forall in Hall.
  assert (forall i, i ∈ ids -> lsum (fun j => rsCell k m i j * x j) (seq 0 k) = 0) as Hrow.
  { intros i Hi. apply list_elem_of_lookup_1 in Hi as [p Hp].
    rewrite <- gsum_lsum, <- (Hx p); [|apply lookup_lt_Some in Hp; lia].
    by rewrite (list_lookup_total_correct _ _ _ Hp). }
  assert (forall j, (j < k)%nat -> j ∈ ids -> x j = 0) as Hdata.
  { intros i Hi Hin. rewrite <- (Hrow i Hin), <- gsum_lsum, <- (gsum_delta_l k i x Hi).
    apply gsum_ext. intros. unfold rsCell. by rewrite decide_True. }
  destruct (decide (j ∈ ids)) as [Hin|Hin]; [by apply Hdata|].
  apply (cauchy_columns (filter (fun i => ~ i < k)%nat ids) (filter (fun j => j ∉ ids) (seq 0 k))
           (fun i => ib (i - k)) (fun j => ib (m + j)) x).
  - by apply parity_count.
  - by apply NoDup_filter.
  - apply NoDup_filter, NoDup_seq.
  - intros i i' [? ?%Hall]%list_elem_of_filter [? ?%Hall]%list_elem_of_filter E.
    apply ib_inj in E; lia.
  - intros i i' [_ ?%elem_of_seq]%list_elem_of_filter [_ ?%elem_of_seq]%list_elem_of_filter E.
    apply ib_inj in E; lia.
  - intros i i' [? ?%Hall]%list_elem_of_filter [_ ?%elem_of_seq]%list_elem_of_filter.
    apply ib_disjoint; lia.
  - intros i [Hik Hi]%list_elem_of_filter. rewrite <- (Hrow i Hi).
    rewrite (lsum_filter (fun j => j ∉ ids) _ (seq 0 k)).
    + apply lsum_ext. intros. unfold rsCell. by rewrite decide_False.
    + intros a Ha%elem_of_seq Hn'. rewrite Hdata; [ring|lia|].
      by destruct (decide (a ∈ ids)).
  - apply list_elem_of_filter. split; [done|]. apply elem_of_seq. lia.
Qed.

(** ** Region arithmetic *)

(** The combination of the first [k] blocks of [src] with coefficients [coef]. *)
Definition comb (k : nat) (coef : nat -> byte) (src : bytes) (size : nat) : bytes :=
  (fun p => gsum k (fun j => coef j * src !!! (size * j + p)%nat)) <$> seq 0 size.

Lemma comb_length k coef src size : length (comb k coef src size) = size.
Proof. unfold comb. by rewrite length_fmap, length_seq. Qed.

Lemma comb_lookup k coef src size p :
  (p < size)%nat ->
  comb k coef src size !! p = Some (gsum k (fun j => coef j * src !!! (size * j + p)%nat)).
Proof.
  intros. unfold comb. rewrite list_lookup_fmap, lookup_seq_lt by done. done.
Qed.

Lemma comb_lookup_total k coef src size p :
  (p < size)%nat ->
  comb k coef src size !!! p = gsum k (fun j => coef j * src !!! (size * j + p)%nat).
Proof. intros. by apply list_lookup_total_correct, comb_lookup. Qed.

(** A combination depends only on the blocks and the coefficients. *)
Lemma comb_ext k coef coef' src src' size :
  (forall j, (j < k)%nat -> coef j = coef' j) ->
  (forall j, (j < k)%nat -> blk src size j = blk src' size j) ->
  comb k coef src size = comb k coef' src' size.
Proof.
  intros Hc Hs. unfold comb. apply list_fmap_ext. intros i p [-> Hi]%lookup_seq.
  apply gsum_ext. intros j Hj. rewrite Hc by done. f_equal.
  rewrite <- !blk_lookup_total by lia. by rewrite Hs.
Qed.

(** The combination with a unit vector is a block. *)
Lemma comb_delta k i src size :
  (i < k)%nat -> (size * k <= length src)%nat -> comb k (delta i) src size = blk src size i.
Proof.
  intros Hi Hl. apply list_eq_same_length with size; [apply blk_length; nia|apply comb_length|].
  intros p x y Hp Hx Hy. rewrite comb_lookup in Hx by done. simplify_eq.
  rewrite blk_lookup in Hy by done. rewrite (gsum_delta_l k i (fun j => src !!! (size * j + p)%nat) Hi).
  by apply list_lookup_total_correct.
Qed.

Lemma multiply_region_ok {R} src soff dst doff coef size add s d :
  rd (R := R) src soff size = Ok s -> rd (R := R) dst doff size = Ok d ->
  multiply_region (R := R) src soff dst doff coef size add
  = wr dst doff (if add then zip_with byte.xor d (gf_mul coef <$> s) else gf_mul coef <$> s).
Proof. unfold multiply_region. intros -> ->. done. Qed.

(** One more term of a combination, as [multiply_region] adds it. *)
Lemma comb_S k coef src size :
  (size * k + size <= length src)%nat ->
  (if (0 <? k)%nat
   then zip_with byte.xor (comb k coef src size) (gf_mul (coef k) <$> blk src size k)
   else gf_mul (coef k) <$> blk src size k) = comb (S k) coef src size.
Proof.
  intros Hl. apply list_eq_same_length with size.
  - apply comb_length.
  - pose proof (comb_length k coef src size). pose proof (blk_length src size k Hl).
    destruct (0 <? k)%nat; lens.
  - intros p x y Hp Hx Hy. rewrite comb_lookup in Hy by done. simplify_eq. cbn [gsum].
    assert ((gf_mul (coef k) <$> blk src size k) !! p = Some (coef k * src !!! (size * k + p)%nat))
      as Hb.
    { rewrite list_lookup_fmap, blk_lookup by done.
      by rewrite list_lookup_lookup_total_lt by lia. }
    destruct (0 <? k)%nat eqn:Hk.
    + rewrite lookup_zip_with, comb_lookup, Hb in Hx by done. cbn in Hx. by simplify_eq.
    + rewrite Hb in Hx. simplify_eq. apply Nat.ltb_ge in Hk. replace k with 0%nat by lia.
      cbn [gsum]. by rewrite xor_0_l.
Qed.

(** [codeRow] overwrites block [row] of [dst] with the combination of row [row]. *)
Lemma codeRow_spec {R} k M row src size dst :
  (0 < k)%nat -> (k * row + k <= length M)%nat -> (size * k <= length src)%nat ->
  (size * row + size <= length dst)%nat ->
  codeRow (R := R) k M row src size dst
  = Ok (take (size * row) dst ++ comb k (mget k M row) src size ++ drop (size * row + size) dst).
Proof.
  intros Hk HM Hs Hd. unfold codeRow.
  destruct (forN_inv (R := R) (fun j dst' => dst' = take (size * row) dst
      ++ (if (0 <? j)%nat then comb j (mget k M row) src size else blk dst size row)
      ++ drop (size * row + size) dst) k 0
      (fun j dst => coef ← aget M (k * row + j);
         multiply_region src (size * j) dst (size * row) coef size (0 <? j)%nat) dst)
    as (dst' & -> & ->).
  - cbn. unfold blk. rewrite <- (drop_drop dst size (size * row)), take_drop, take_drop. done.
  - intros j dst' Hj ->.
    rewrite (aget_ok _ _ (mget k M row j)) by (apply list_lookup_lookup_total_lt; lia).
    cbn [mbind res_bind].
    assert (length (if (0 <? j)%nat then comb j (mget k M row) src size else blk dst size row)
            = size) as Hl.
    { destruct (0 <? j)%nat; [apply comb_length|apply blk_length; lia]. }
    rewrite (multiply_region_ok _ _ _ _ _ _ _ (blk src size j)
      (if (0 <? j)%nat then comb j (mget k M row) src size else blk dst size row)).
    + rewrite (wr_mid _ (if (0 <? j)%nat then comb j (mget k M row) src size
                         else blk dst size row)).
      * eexists. split; [done|]. cbn [Nat.ltb Nat.leb]. rewrite <- comb_S by nia.
        by destruct j.
      * lens.
      * rewrite Hl. assert (length (blk src size j) = size) by (apply blk_length; nia). destruct (0 <? j)%nat; lens.
    + apply rd_ok. nia.
    + apply rd_mid; [lens|done].
  - cbn. by destruct k; [lia|].
Qed.

(** The combinations of the rows [base .. base + rows), one after the other. *)
Definition combs (k : nat) (d : nat -> nat -> byte) (base rows : nat) (src : bytes) (size : nat)
  : bytes := mjoin ((fun r => comb k (d r) src size) <$> seq base rows).

Lemma combs_S k d base rows src size :
  combs k d base (S rows) src size
  = combs k d base rows src size ++ comb k (d (base + rows)%nat) src size.
Proof. unfold combs. rewrite seq_S, fmap_app, join_app. cbn. by rewrite app_nil_r. Qed.

Lemma combs_length k d base rows src size :
  length (combs k d base rows src size) = (size * rows)%nat.
Proof.
  induction rows as [|rows IH]; [by rewrite Nat.mul_0_r|].
  rewrite combs_S, length_app, IH, comb_length. lia.
Qed.

Lemma combs_blk k d base rows src size i rest :
  (i < rows)%nat ->
  blk (combs k d base rows src size ++ rest) size i = comb k (d (base + i)%nat) src size.
Proof.
  revert rest. induction rows as [|rows IH]; intros rest Hi; [lia|].
  rewrite combs_S, <- app_assoc. destruct (decide (i = rows)) as [->|Hne]; [|apply IH; lia].
  unfold blk. rewrite drop_app_length' by by rewrite combs_length.
  by rewrite take_app_length' by by rewrite comb_length.
Qed.

(** [codeRows] overwrites the blocks [base .. base + rows) of [dst]. *)
Lemma codeRows_spec {R} k M base rows src size dst :
  (0 < k)%nat -> (k * (base + rows) <= length M)%nat -> (size * k <= length src)%nat ->
  (size * (base + rows) <= length dst)%nat ->
  codeRows (R := R) k M base rows src size dst
  = Ok (take (size * base) dst ++ combs k (mget k M) base rows src size
        ++ drop (size * (base + rows)) dst).
Proof.
  intros Hk HM Hs Hd. unfold codeRows.
  destruct (forN_inv (R := R) (fun i dst' => dst' = take (size * base) dst
      ++ combs k (mget k M) base i src size ++ drop (size * (base + i)) dst) rows 0
      (fun i dst => codeRow k M (base + i) src size dst) dst) as (dst' & -> & ->); [| |done].
  - cbn. by rewrite Nat.add_0_r, take_drop.
  - intros i dst' Hi ->. pose proof (combs_length k (mget k M) base i src size) as Hc.
    rewrite codeRow_spec; [|done|nia|done|lens; nia].
    eexists. split; [done|]. rewrite combs_S, app_assoc, !app_assoc.
    rewrite (take_app_length' (_ ++ _)) by lens. rewrite <- !app_assoc. do 3 f_equal.
    rewrite app_assoc, drop_app_ge by lens. lens. rewrite drop_drop. f_equal. nia.
Qed.

(** ** Decoding *)

(** If the blocks of [sh] are the combinations [u] of those of [src], the
    combinations of [sh] with a left inverse of [u] are the blocks of [src]. *)
Lemma decode_blocks k u v src size i sh :
  mat_mul_eq k v u delta -> (i < k)%nat -> (size * k <= length src)%nat ->
  (forall j, (j < k)%nat -> blk sh size j = comb k (u j) src size) ->
  comb k (v i) sh size = blk src size i.
Proof.
  intros Hv Hi Hl Hsh. rewrite <- (comb_delta k i src size Hi Hl).
  apply list_eq_same_length with size; [apply comb_length..|].
  intros p x y Hp Hx Hy. rewrite comb_lookup in Hx, Hy by done. simplify_eq.
  rewrite <- (mat_mul_vec k v _ delta (fun j => src !!! (size * j + p)%nat) i Hv Hi).
  apply gsum_ext. intros j Hj. f_equal.
  by rewrite <- blk_lookup_total, Hsh, comb_lookup_total.
Qed.

Lemma selectRows_spec {R} k n D ids S :
  length D = (n * k)%nat -> length S = (k * k)%nat -> length ids = k ->
  Forall (fun i => i < n)%nat ids ->
  exists S', selectRows (R := R) k D ids S = Ok S' /\ wf_mat k S' /\
    forall a b, (a < k)%nat -> (b < k)%nat -> mget k S' a b = mget k D (ids !!! a) b.
Proof.
  intros HD HS Hlen Hall.
  destruct (fillRows_spec (R := R) k 0 k k (fun a b => mget k D (ids !!! a) b)
    (fun i j S => id ← aget ids i; x ← aget D (k * id + j); aset S (k * i + j) x) S)
    as (S' & E & HS' & H); [done|done| |].
  - intros i j S0 Hi Hj _. rewrite (aget_ok ids i (ids !!! i)) by
      (apply list_lookup_lookup_total_lt; lia). cbn [mbind res_bind].
    assert (ids !!! i < n)%nat as Hid.
    { rewrite Forall_lookup in Hall. apply (Hall i).
      apply list_lookup_lookup_total_lt. lia. }
    by rewrite (aget_ok D _ (mget k D (ids !!! i) j)) by
      (apply list_lookup_lookup_total_lt; nia).
  - exists S'. split; [done|]. split; [done|]. intros a b Ha Hb.
    rewrite H by done. rewrite decide_True by lia. by rewrite Nat.sub_0_r.
Qed.

(** The matrix part of a codec: k data blocks, n shares, and a distribution
    matrix any k rows of which are nonsingular. *)
Record wf_matrices (c : CDCodec) : Prop := {
  wf_k_pos : (1 < k_ c)%nat;
  wf_n : n_ c = (k_ c + m_ c)%nat;
  wf_dist_len : length (distributionMatrix_ c) = (n_ c * k_ c)%nat;
  wf_dist_mds : MDS (n_ c) (k_ c) (mget (k_ c) (distributionMatrix_ c));
  wf_square : length (squareMatrix_ c) = (k_ c * k_ c)%nat;
  wf_inverse : length (inverseMatrix_ c) = (k_ c * k_ c)%nat;
}.

(** Share [i] of a package. *)
Definition shareOf (c : CDCodec) (pkg : bytes) (size i : nat) : bytes :=
  comb (k_ c) (mget (k_ c) (distributionMatrix_ c) i) pkg size.

(** [sh] starts with the shares [ids] of the package [pkg]. *)
Definition holdsShares (c : CDCodec) (pkg : bytes) (size : nat) (ids : list nat) (sh : bytes)
  : Prop :=
  (size * k_ c <= length sh)%nat /\
  forall j, (j < k_ c)%nat -> blk sh size j = shareOf c pkg size (ids !!! j).

(** [rsDecode] always finds the data blocks of which the k given blocks are
    the shares. *)
Lemma rsDecode_any {R} c size ids sh :
  wf_matrices c -> NoDup ids -> length ids = k_ c -> Forall (fun i => i < n_ c)%nat ids ->
  (size * k_ c <= length sh)%nat -> (size * k_ c <= length (erasureCodingData_ c))%nat ->
  exists SV X, length SV.1 = (k_ c * k_ c)%nat /\ length SV.2 = (k_ c * k_ c)%nat /\
    length X = (size * k_ c)%nat /\ holdsShares c X size ids sh /\
    (forall pkg, length pkg = (size * k_ c)%nat -> holdsShares c pkg size ids sh -> X = pkg) /\
    rsDecode (R := R) c sh ids size
    = Ok (true, set_bufs (set_mats c SV) (key_ c) (alignedSecretBuffer_ c) (wordForIndex_ c)
                  (X ++ drop (size * k_ c) (erasureCodingData_ c))).
Proof.
  intros Hwf Hnd Hlen Hall Hsl HE. unfold rsDecode.
  destruct (selectRows_spec (R := R) (k_ c) (n_ c) (distributionMatrix_ c) ids (squareMatrix_ c))
    as (S & -> & HS & HSd); [by apply Hwf|by apply Hwf|done|done|]. cbn [mbind res_bind].
  destruct (squareMatrixInverting_spec (R := R) (k_ c) S (inverseMatrix_ c) HS)
    as (b & SV & -> & Hf & Ht); [by apply Hwf|]. cbn [mbind res_bind].
  set (d := fun a => mget (k_ c) (distributionMatrix_ c) (ids !!! a)).
  assert (nonsing (k_ c) (mget (k_ c) S)) as Hns.
  { eapply nonsing_ext; [|by apply (wf_dist_mds c Hwf ids)]. intros. by rewrite HSd. }
  destruct b; [|by destruct (Hf eq_refl)]. destruct (Ht eq_refl) as (HS1 & HV & Hl & Hr).
  assert (mat_mul_eq (k_ c) (mget (k_ c) SV.2) d delta) as Hl'.
  { intros a b Ha Hb. rewrite <- Hl by done. apply gsum_ext. intros. by rewrite HSd. }
  assert (mat_mul_eq (k_ c) d (mget (k_ c) SV.2) delta) as Hr'.
  { intros a b Ha Hb. rewrite <- Hr by done. apply gsum_ext. intros. by rewrite HSd. }
  cbn [negb]. pose proof (wf_k_pos c Hwf).
  set (X := combs (k_ c) (mget (k_ c) SV.2) 0 (k_ c) sh size).
  assert (length X = size * k_ c)%nat as HX by apply combs_length.
  assert (forall i, (i < k_ c)%nat -> blk X size i = comb (k_ c) (mget (k_ c) SV.2 i) sh size)
    as HXb.
  { intros i Hi. rewrite <- (app_nil_r X). unfold X. by rewrite combs_blk. }
  exists SV, X. split; [done|]. split; [done|]. split; [done|]. split; [|split].
  - split; [done|]. intros j Hj. symmetry.
    apply (decode_blocks _ (mget (k_ c) SV.2) d); (done || lia).
  - intros pkg Hpkg [_ Hsh]. rewrite <- (take_ge X (size * k_ c)) by lia.
    rewrite <- (take_ge pkg (size * k_ c)) by lia. apply take_blk_eq. intros i Hi.
    rewrite HXb by done. apply (decode_blocks _ d); (done || lia).
  - rewrite codeRows_spec; [|lia|rewrite HV; lia|done|done].
    by rewrite Nat.mul_0_r.
Qed.

(** From any k shares of a package, [rsDecode] rebuilds the package. *)
Lemma rsDecode_spec {R} c pkg size ids sh :
  wf_matrices c -> NoDup ids -> length ids = k_ c -> Forall (fun i => i < n_ c)%nat ids ->
  length pkg = (size * k_ c)%nat -> holdsShares c pkg size ids sh ->
  (size * k_ c <= length (erasureCodingData_ c))%nat ->
  exists SV, length SV.1 = (k_ c * k_ c)%nat /\ length SV.2 = (k_ c * k_ c)%nat /\
    rsDecode (R := R) c sh ids size
    = Ok (true, set_bufs (set_mats c SV) (key_ c) (alignedSecretBuffer_ c) (wordForIndex_ c)
                  (pkg ++ drop (size * k_ c) (erasureCodingData_ c))).
Proof.
  intros Hwf Hnd Hlen Hall Hpkg Hsh HE.
  destruct (rsDecode_any (R := R) c size ids sh) as (SV & X & H1 & H2 & _ & _ & HX & E);
    [done..|by apply Hsh|done|].
  exists SV. by rewrite E, (HX pkg Hpkg Hsh).
Qed.

(** ** The constructor's matrices *)

Lemma initCauchy_spec {R} k rows off base n D :
  (off + rows <= n)%nat -> length D = (n * k)%nat -> (rows <= 256)%nat ->
  (base + k <= 256)%nat ->
  exists D', initCauchy (R := R) k rows off base D = Ok D' /\ length D' = (n * k)%nat /\
    forall a b, (b < k)%nat ->
      mget k D' a b = if decide (off <= a < off + rows)%nat
                      then / (ib (a - off) + ib (base + b)) else mget k D a b.
Proof.
  intros Hn HD Hr Hb.
  refine (fillRows_spec (R := R) k off rows n (fun i j => / (ib i + ib (base + j)%nat))
    (fun i j D => sum ← gf_word (Z.lxor (Z.of_nat i) (Z.of_nat (base + j)));
       aset D (k * (off + i) + j) (gf_div Byte.x01 sum)) D Hn HD _).
  intros i j D0 Hi Hj _. rewrite gf_word_ok by (apply lxor_byte_range; lia). cbn.
  by rewrite of_Z_lxor by lia.
Qed.

Lemma initUnit_spec {R} k n D :
  (k <= n)%nat -> length D = (n * k)%nat ->
  exists D', initUnit (R := R) k D = Ok D' /\ length D' = (n * k)%nat /\
    forall a b, (b < k)%nat ->
      mget k D' a b = if decide (0 <= a < 0 + k)%nat then delta (a - 0) b else mget k D a b.
Proof.
  intros Hn HD.
  refine (fillRows_spec (R := R) k 0 k n delta
    (fun i j D => aset D (k * i + j) (if (i =? j)%nat then Byte.x01 else Byte.x00)) D Hn HD _).
  intros i j D0 Hi Hj _. cbn. f_equal. unfold delta.
  by destruct (Nat.eqb_spec i j), (decide (i = j)).
Qed.

Lemma MDS_ext n k d d' :
  (forall i j, (i < n)%nat -> (j < k)%nat -> d i j = d' i j) -> MDS n k d -> MDS n k d'.
Proof.
  intros H Hm ids Hnd Hl Hall. eapply nonsing_ext; [|by apply (Hm ids)].
  intros i j Hi Hj. cbn. apply H; [|done].
  rewrite Forall_lookup in Hall. apply (Hall i), list_lookup_lookup_total_lt. lia.
Qed.

(** The AONT branch: the identity on top of m Cauchy rows. *)
Lemma rsMatrix_spec {R} k m D :
  length D = ((k + m) * k)%nat -> (k + m <= 256)%nat ->
  exists D1 D2, initUnit (R := R) k D = Ok D1 /\
    initCauchy (R := R) k m k m D1 = Ok D2 /\ length D2 = ((k + m) * k)%nat /\
    forall a b, (a < k + m)%nat -> (b < k)%nat -> mget k D2 a b = rsCell k m a b.
Proof.
  intros HD Hn.
  destruct (initUnit_spec (R := R) k (k + m) D) as (D1 & E1 & HD1 & H1); [lia|done|].
  destruct (initCauchy_spec (R := R) k m k m (k + m) D1) as (D2 & E2 & HD2 & H2); [lia|done|lia..|].
  exists D1, D2. split; [done|]. split; [done|]. split; [done|]. intros a b Ha Hb.
  rewrite H2, H1 by done. unfold rsCell. rewrite Nat.sub_0_r.
  repeat case_decide; try lia; done.
Qed.

(** The CRSSS branch: an n * k Cauchy matrix. *)
Lemma idaMatrix_spec {R} k n D :
  length D = (n * k)%nat -> (n + k <= 256)%nat ->
  exists D', initCauchy (R := R) k n 0 n D = Ok D' /\ length D' = (n * k)%nat /\
    forall a b, (a < n)%nat -> (b < k)%nat -> mget k D' a b = idaCell n a b.
Proof.
  intros HD Hn.
  destruct (initCauchy_spec (R := R) k n 0 n n D) as (D' & E & HD' & H); [lia|done|lia..|].
  exists D'. split; [done|]. split; [done|]. intros a b Ha Hb. rewrite H by done.
  rewrite decide_True by lia. by rewrite Nat.sub_0_r.
Qed.

(** ** More on combinations *)

Lemma combs_app k d base r1 r2 src size :
  combs k d base (r1 + r2) src size
  = combs k d base r1 src size ++ combs k d (base + r1) r2 src size.
Proof. unfold combs. by rewrite seq_app, fmap_app, join_app. Qed.

(** Unit rows reproduce the data. *)
Lemma combs_unit k d src size :
  (forall i j, (i < k)%nat -> (j < k)%nat -> d i j = delta i j) ->
  length src = (size * k)%nat -> combs k d 0 k src size = src.
Proof.
  intros Hd Hl.
  rewrite <- (take_ge (combs _ _ _ _ _ _) (size * k)) by by rewrite combs_length.
  rewrite <- (take_ge src (size * k)) at 2 by lia. apply take_blk_eq. intros i Hi.
  rewrite <- (app_nil_r (combs _ _ _ _ _ _)), combs_blk by done. cbn [Nat.add].
  rewrite <- (comb_delta k i src size) by lia. apply comb_ext; [|done]. intros. by apply Hd.
Qed.

End Erasure.
