(* ===== verification/AontSchemes.v ===== *)
(** * The AONT schemes of CDCodec

    Functional specification of AONT-RS, old CAONT-RS and CAONT-RS, the
    invariant [wf_aont] of a codec object of one of these types, and the proofs
    that each encoder computes the shares of the specified package and that
    each decoder rebuilds the secret from any k of them. *)

From stdpp Require Import base list numbers sets.
From coqutil Require Import Byte.
From Stdlib Require Import Lia.
From S2P Require Import Prelude GaloisField LinearAlgebra MatrixInvert CryptoPrimitive CDCodec ErasureCode.

(** ** Exclusive or of buffers *)

Abbreviation xors := (zip_with byte.xor).

Lemma xors_cancel a b : length a = length b -> xors a (xors a b) = b.
Proof.
  revert b. induction a as [|x a IH]; intros [|y b] H; try discriminate; [done|].
  cbn. rewrite xor_cancel_l, IH by (cbn in H; lia). done.
Qed.

(** A loop that sets every cell of a buffer. *)
Lemma fill_ok {R} (n : nat) (f : nat -> byte) (b : bytes) :
  length b = n -> forN (R := R) n 0 (fun i b => aset b i (f i)) b = Ok (f <$> seq 0 n).
Proof.
  intros Hl.
  destruct (forN_inv (R := R) (fun i b' => length b' = n /\
    forall p, p < n -> b' !! p = if decide (p < i) then Some (f p) else b !! p)
    n 0 (fun i b => aset b i (f i)) b) as (b' & -> & Hl' & H).
  - split; [done|]. intros. by rewrite decide_False by lia.
  - intros i b' Hi [Hl' H]. rewrite aset_ok by lia. eexists. split; [done|].
    split; [by rewrite length_insert|]. intros p Hp.
    destruct (decide (p = i)) as [->|Hne].
    + rewrite list_lookup_insert_eq by lia. by rewrite decide_True by lia.
    + rewrite list_lookup_insert_ne, H by done. by repeat case_decide; try lia.
  - f_equal. apply list_eq_same_length with n; [by rewrite length_fmap, length_seq|done|].
    intros p x y Hp Hx Hy. rewrite H, decide_True in Hx by done.
    rewrite list_lookup_fmap, lookup_seq_lt in Hy by done. cbn in Hx, Hy. by simplify_eq.
Qed.

(** ** The size of the aligned secret *)

Section Align.
Variables (bps k secretSize : nat).
Hypothesis Hb : 0 < bps.
Hypothesis Hk : 1 < k.

(** The package fills k shares of [q] words. *)
Lemma alignedSize_words :
  exists q, 0 < q /\ alignedSize bps k secretSize + bps = bps * k * q /\
    secretSize <= alignedSize bps k secretSize.
Proof.
  unfold alignedSize. pose proof (Nat.div_mod_eq (secretSize + bps) (bps * k)) as Hd.
  assert (0 < bps * k) as Hbk by nia.
  pose proof (Nat.mod_upper_bound (secretSize + bps) (bps * k) ltac:(lia)) as Hm.
  destruct (Nat.eqb_spec ((secretSize + bps) mod (bps * k)) 0) as [E|E].
  - exists ((secretSize + bps) / (bps * k)). split; [|lia].
    apply Nat.div_str_pos_iff; [lia|]. rewrite E in Hd.
    destruct ((secretSize + bps) / (bps * k)); lia.
  - exists ((secretSize + bps) / (bps * k) + 1). split; [lia|].
    set (d := (secretSize + bps) / (bps * k)) in *. nia.
Qed.

Lemma words_of_aligned a q : a + bps = bps * k * q -> 0 < q -> a / bps = k * q - 1.
Proof. intros H Hq. symmetry. apply (Nat.div_unique_exact); nia. Qed.

Lemma aligned_mod_bps : alignedSize bps k secretSize mod bps = 0.
Proof.
  destruct alignedSize_words as (q & Hq & H & _).
  apply Nat.Div0.div_exact. rewrite (words_of_aligned _ q) by done. nia.
Qed.

(** The share size the encoders deduce, and the words it stands for. *)
Definition shareSizeOf : nat := bps * ((alignedSize bps k secretSize / bps + 1) / k).

Lemma shareSize_eq : alignedSize bps k secretSize + bps = shareSizeOf * k.
Proof.
  destruct alignedSize_words as (q & Hq & H & _). unfold shareSizeOf.
  rewrite (words_of_aligned _ q) by done.
  replace (k * q - 1 + 1) with (q * k) by nia. rewrite Nat.div_mul by lia. nia.
Qed.

Lemma shareSize_mod : shareSizeOf mod bps = 0.
Proof. unfold shareSizeOf. rewrite Nat.mul_comm. apply Nat.Div0.mod_mul. Qed.

(** The package fits in the buffer the constructor allocates. *)
Lemma aligned_fits abs :
  alignedSize bps k secretSize <= abs ->
  alignedSize bps k secretSize + bps <= bps * ((abs / bps + 1) / k) * k.
Proof.
  intros Ha. destruct alignedSize_words as (q & Hq & H & _).
  assert (q <= (abs / bps + 1) / k) as Hle.
  { apply Nat.div_le_lower_bound; [lia|].
    assert (k * q - 1 <= abs / bps); [|lia].
    rewrite <- (words_of_aligned _ q H Hq). by apply Nat.Div0.div_le_mono. }
  rewrite H. nia.
Qed.

Lemma secret_le_aligned : secretSize <= alignedSize bps k secretSize.
Proof. by destruct alignedSize_words as (q & _ & _ & ?). Qed.
End Align.

(** ** Specification *)

Section Spec.
Context {GF : GaloisField}.
Variables (digest : bytes -> bytes) (encipher : bytes -> bytes -> bytes).

(** The secret padded with zeros. *)
Definition padded (secret : bytes) (a : nat) : bytes :=
  secret ++ replicate (a - length secret) Byte.x00.

(** [alignedSizeConstant_] *)
Definition sizeConstant (n : nat) : bytes :=
  (fun i => byte.of_Z (Z.land (Z.of_nat i) 0xff)) <$> seq 0 n.

(** The word that stands for index [i]: little endian on 4 bytes, then zeros. *)
Definition indexWord (bps i : nat) : bytes :=
  [byte.of_Z (Z.of_nat i); byte.of_Z (Z.shiftr (Z.of_nat i) 8);
   byte.of_Z (Z.shiftr (Z.of_nat i) 16); byte.of_Z (Z.shiftr (Z.of_nat i) 24)]
  ++ replicate (bps - 4) Byte.x00.

(** The main part of the package under key [K]: word by word ... *)
Definition maskedWords (bps : nat) (K A : bytes) (n : nat) : bytes :=
  mjoin ((fun i => xors (encipher (indexWord bps i) K) (blk A bps i)) <$> seq 0 n).

(** ... or in one go. *)
Definition maskedAll (K A : bytes) : bytes := xors (encipher (sizeConstant (length A)) K) A.

(** The package: the main part and the key hidden by its hash. *)
Definition package (K body : bytes) : bytes := body ++ xors (digest body) K.
End Spec.

(** ** The invariant of a codec object *)

(** [c'] is [c] with other contents of the scratch buffers. *)
Definition same_static (c c' : CDCodec) : Prop :=
  exists key h r a w d s i, c' = with_scratch c key h r a w d s i.

Section Aont.
Context {GF : GaloisField} {LAWS : GaloisFieldLaws GF} {SSL : OpenSSL}.
Context {bs : nat} {digest : bytes -> bytes} {encipher decipher : bytes -> bytes -> bytes}.

Abbreviation CryptoFor c := (CryptoOk (cryptoObj_ c) (bytesPerSecretWord_ c) bs
                               digest encipher decipher).

(** A usable [wordForIndex_]: one word whose bytes after the index are zero. *)
Definition wf_word (bps : nat) (W : bytes) : Prop :=
  length W = bps /\ drop 4 W = replicate (bps - 4) Byte.x00.

Record wf_aont (c : CDCodec) : Prop := {
  wa_mats : wf_matrices c;
  wa_unit : forall i j, i < k_ c -> j < k_ c ->
    mget (k_ c) (distributionMatrix_ c) i j = delta i j;
  wa_crypto : CryptoFor c;
  wa_key : length (key_ c) = bytesPerSecretWord_ c;
  wa_aligned : length (alignedSecretBuffer_ c) = alignedSecretBufferSize_ c;
  wa_data : length (erasureCodingData_ c) = erasureCodingDataSize_ c;
  wa_data_size : erasureCodingDataSize_ c
    = bytesPerSecretWord_ c
      * ((alignedSecretBufferSize_ c / bytesPerSecretWord_ c + 1) / k_ c) * k_ c;
  wa_word : CDType_ c = AONT_RS_TYPE \/ CDType_ c = OLD_CAONT_RS_TYPE ->
    wf_word (bytesPerSecretWord_ c) (wordForIndex_ c);
  wa_const : CDType_ c = CAONT_RS_TYPE ->
    alignedSizeConstant_ c = sizeConstant (alignedSecretBufferSize_ c);
}.

(** ** The pieces *)

Lemma hashTo_ok {R} c d pre old post off :
  CryptoFor c -> length old = bytesPerSecretWord_ c -> off = length pre ->
  hashTo (R := R) c d (pre ++ old ++ post) off = Ok (true, pre ++ digest d ++ post).
Proof.
  intros HC Hl ->. unfold hashTo. rewrite (ok_generateHash R d). cbn [mbind res_bind].
  rewrite (wr_mid pre old) by (done || by rewrite ok_digest_length). done.
Qed.

Lemma encTo_ok {R} c d key pre old post off :
  CryptoFor c -> length key = bytesPerSecretWord_ c -> length d mod bs = 0 ->
  length old = length d -> off = length pre ->
  encTo (R := R) c d key (pre ++ old ++ post) off
  = Ok (true, pre ++ encipher d key ++ post).
Proof.
  intros HC Hk Hd Hl ->. unfold encTo. rewrite (ok_encrypt R d key) by done. cbn [mbind res_bind].
  rewrite (wr_mid pre old) by (done || by rewrite ok_encipher_length). done.
Qed.

Lemma gf_mul_1_fmap (s : bytes) : gf_mul Byte.x01 <$> s = s.
Proof. induction s as [|x s IH]; [done|]. cbn. by rewrite gf_mul_1_l, IH. Qed.

(** [multiply_region] with coefficient 1 and [add] is exclusive or. *)
Lemma xorRegion_ok {R} src soff s pre d post off n :
  rd (R := R) src soff n = Ok s -> length s = n -> length d = n -> off = length pre ->
  multiply_region (R := R) src soff (pre ++ d ++ post) off Byte.x01 n true
  = Ok (pre ++ xors d s ++ post).
Proof.
  intros Hs Hl Hd ->. rewrite (multiply_region_ok _ _ _ _ _ _ _ s d) by (done || by apply rd_mid).
  rewrite gf_mul_1_fmap. apply wr_mid; [done|]. lens.
Qed.

Lemma hashTo_front {R} c d buf :
  CryptoFor c -> bytesPerSecretWord_ c <= length buf ->
  hashTo (R := R) c d buf 0 = Ok (true, digest d ++ drop (bytesPerSecretWord_ c) buf).
Proof.
  intros HC Hl. rewrite <- (take_drop (bytesPerSecretWord_ c) buf) at 1.
  apply (hashTo_ok c d []); [done|lens|done].
Qed.

Lemma encTo_front {R} c d key buf :
  CryptoFor c -> length key = bytesPerSecretWord_ c -> length d mod bs = 0 ->
  length d <= length buf ->
  encTo (R := R) c d key buf 0 = Ok (true, encipher d key ++ drop (length d) buf).
Proof.
  intros HC Hk Hd Hl. rewrite <- (take_drop (length d) buf) at 1.
  apply (encTo_ok c d key []); [done..|lens|done].
Qed.

Lemma xorRegion_front {R} src soff s d post n :
  rd (R := R) src soff n = Ok s -> length s = n -> length d = n ->
  multiply_region (R := R) src soff (d ++ post) 0 Byte.x01 n true = Ok (xors d s ++ post).
Proof. intros. by apply (xorRegion_ok src soff s [] d post 0 n). Qed.

Lemma copyAligned_ok {R} A secret n a :
  n <= length secret -> n <= a -> a <= length A ->
  copyAligned (R := R) A secret n a = Ok (padded (take n secret) a ++ drop a A).
Proof.
  intros Hn Ha HA. unfold copyAligned. rewrite memcpy_ok by lia. cbn [mbind res_bind Nat.add].
  rewrite drop_0, take_0. cbn [app]. unfold padded. rewrite length_take, Nat.min_l by lia.
  destruct (Nat.eqb_spec a n) as [->|Hne].
  - by rewrite Nat.sub_diag, app_nil_r.
  - unfold memset. rewrite <- (take_drop (a - n) (drop n A)), drop_drop.
    replace (n + (a - n)) with a by lia.
          rewrite (wr_mid _ (take (a - n) (drop n A))); [by rewrite app_assoc|lens..].
Qed.

Lemma padded_length secret a : length secret <= a -> length (padded secret a) = a.
Proof. intros. unfold padded. lens. Qed.

Lemma padded_prefix secret a : take (length secret) (padded secret a) = secret.
Proof. apply take_app_length. Qed.

Lemma setIndex_ok {R} bps W i :
  4 <= bps -> wf_word bps W ->
  setIndex (R := R) W i = Ok (indexWord bps i) /\ wf_word bps (indexWord bps i).
Proof.
  intros Hb [Hl Hd]. destruct W as [|w0 [|w1 [|w2 [|w3 W]]]]; cbn in Hl; try lia.
  cbn in Hd. rewrite drop_0 in Hd. split.
  - unfold setIndex, indexWord. rewrite <- Hd.
    do 4 (rewrite aset_ok by (cbn; lia); cbn [mbind res_bind insert list_insert]). done.
  - unfold wf_word, indexWord. split; [lens|]. cbn. by rewrite drop_0.
Qed.

(** *** The masked words *)

Section Masks.
Variables (bps : nat) (K : bytes).
Hypothesis Henc : forall i, length (encipher (indexWord bps i) K) = bps.

Lemma maskedWords_S A n :
  maskedWords encipher bps K A (S n)
  = maskedWords encipher bps K A n ++ xors (encipher (indexWord bps n) K) (blk A bps n).
Proof.
  unfold maskedWords. rewrite seq_S, fmap_app, join_app. cbn. by rewrite app_nil_r.
Qed.

Lemma maskedWords_length A n :
  bps * n <= length A -> length (maskedWords encipher bps K A n) = bps * n.
Proof.
  induction n as [|n IH]; intros Hl; [cbn; lia|].
  rewrite maskedWords_S, length_app, IH by lia.
  rewrite length_zip_with, Henc, blk_length by lia. lia.
Qed.

Lemma maskedWords_blk A n i rest :
  bps * n <= length A -> i < n ->
  blk (maskedWords encipher bps K A n ++ rest) bps i
  = xors (encipher (indexWord bps i) K) (blk A bps i).
Proof.
  revert rest. induction n as [|n IH]; intros rest Hl Hi; [lia|].
  rewrite maskedWords_S, <- app_assoc.
  destruct (decide (i = n)) as [->|Hne]; [|apply IH; lia].
  unfold blk at 1. rewrite drop_app_length' by (rewrite maskedWords_length; lia).
  apply take_app_length'. rewrite length_zip_with, Henc, blk_length by lia. lia.
Qed.

(** Masking twice gives the words back. *)
Lemma maskedWords_twice A n rest :
  bps * n <= length A ->
  maskedWords encipher bps K (maskedWords encipher bps K A n ++ rest) n = take (bps * n) A.
Proof.
  intros Hl.
  assert (bps * n <= length (maskedWords encipher bps K A n ++ rest)) as Hl'.
  { rewrite length_app, maskedWords_length by done. lia. }
  rewrite <- (take_ge (maskedWords _ _ _ (_ ++ _) _) (bps * n))
    by (rewrite maskedWords_length; lia).
  apply take_blk_eq. intros i Hi.
  rewrite <- (app_nil_r (maskedWords _ _ _ (_ ++ _) _)).
  rewrite maskedWords_blk, maskedWords_blk by done.
  apply xors_cancel. rewrite Henc, blk_length; nia.
Qed.
End Masks.

Lemma indexWord_length bps i : 4 <= bps -> length (indexWord bps i) = bps.
Proof. intros. unfold indexWord. lens. Qed.

Lemma index_encipher_length c K i :
  CryptoFor c ->
  length (encipher (indexWord (bytesPerSecretWord_ c) i) K) = bytesPerSecretWord_ c.
Proof.
  intros HC. pose proof ok_hs_4 as H4. pose proof ok_hs_bs as Hm.
  rewrite ok_encipher_length; rewrite indexWord_length; done.
Qed.

Lemma maskWords_ok {R} c K src n fail W out :
  CryptoFor c -> length K = bytesPerSecretWord_ c -> wf_word (bytesPerSecretWord_ c) W ->
  bytesPerSecretWord_ c * n <= length src -> bytesPerSecretWord_ c * n <= length out ->
  exists W', wf_word (bytesPerSecretWord_ c) W' /\
    maskWords (R := R) c K src n fail W out
    = Ok (W', maskedWords encipher (bytesPerSecretWord_ c) K src n
              ++ drop (bytesPerSecretWord_ c * n) out).
Proof.
  intros HC HK HW Hs Ho. unfold maskWords. set (bps := bytesPerSecretWord_ c) in *.
  pose proof (ok_hs_4 : 4 <= bps) as H4.
  assert (forall i, length (encipher (indexWord bps i) K) = bps) as Henc
    by (intros; by apply index_encipher_length).
  match goal with |- context [forN n 0 ?b ?s] =>
    destruct (forN_inv (R := R) (fun i WE => wf_word bps (fst WE) /\
      snd WE = maskedWords encipher bps K src i ++ drop (bps * i) out) n 0 b s)
      as ([W' E'] & -> & HW' & HE') end.
  - split; [done|]. by rewrite Nat.mul_0_r.
  - intros i [W1 E1] Hi [HW1 HE1]. cbn [fst snd] in *. subst E1.
    destruct (setIndex_ok (R := R) bps W1 i H4 HW1) as [-> HWi]. cbn [mbind res_bind].
    rewrite rd_ok, drop_0, take_ge by (rewrite indexWord_length; lia). cbn [mbind res_bind].
    rewrite <- (take_drop bps (drop (bps * i) out)), drop_drop.
    assert (bps * i = length (maskedWords encipher bps K src i)) as HM
      by (rewrite (maskedWords_length _ _ Henc); nia).
    rewrite encTo_ok.
    + cbn [mbind res_bind negb].
      assert (length (blk src bps i) = bps) as Hb by (apply blk_length; nia).
      rewrite (xorRegion_ok src (bps * i) (blk src bps i)); [|apply rd_ok; nia|done|done|done].
      eexists. split; [done|]. cbn [fst snd]. split; [done|].
      rewrite maskedWords_S, <- app_assoc. do 3 f_equal. lia.
    + done.
    + done.
    + rewrite indexWord_length by done. apply (ok_hs_bs (hs := bps)).
    + rewrite indexWord_length by done. lens. nia.
    + done.
  - exists W'. cbn [Nat.add fst snd] in *. by rewrite HE'.
Qed.

(** *** The end of the encoders *)

Lemma tailWord_ok {R} c K body old rest a fail :
  CryptoFor c -> length K = bytesPerSecretWord_ c -> length body = a ->
  length old = bytesPerSecretWord_ c ->
  tailWord (R := R) c K (body ++ old ++ rest) a fail = Ok (package digest K body ++ rest).
Proof.
  intros HC HK Hb Ho. unfold tailWord. rewrite rd_front by done. cbn [mbind res_bind].
  rewrite hashTo_ok by done. cbn [mbind res_bind negb].
  rewrite (xorRegion_ok K 0 K) by
    (done || apply ok_digest_length || (rewrite rd_ok by lia; by rewrite drop_0, take_ge by lia)).
  unfold package. by rewrite <- app_assoc.
Qed.

Lemma package_length c K body :
  CryptoFor c -> length K = bytesPerSecretWord_ c ->
  length (package digest K body) = length body + bytesPerSecretWord_ c.
Proof.
  intros HC HK. unfold package. rewrite length_app, length_zip_with, ok_digest_length. lia.
Qed.

(** The n shares of a package. *)
Definition sharesOf (c : CDCodec) (pkg : bytes) (size : nat) : bytes :=
  combs (k_ c) (mget (k_ c) (distributionMatrix_ c)) 0 (n_ c) pkg size.

Lemma sharesOf_length c pkg size : length (sharesOf c pkg size) = size * n_ c.
Proof. apply combs_length. Qed.

Lemma sharesOf_blk c pkg size i rest :
  i < n_ c -> blk (sharesOf c pkg size ++ rest) size i = shareOf c pkg size i.
Proof. intros. unfold sharesOf. by rewrite combs_blk. Qed.

Lemma rsShares_ok {R} c pkg rest a size B :
  wf_aont c -> length pkg = size * k_ c -> a + bytesPerSecretWord_ c = size * k_ c ->
  size * n_ c <= length B ->
  rsShares (R := R) c (pkg ++ rest) a size B
  = Ok (sharesOf c pkg size ++ drop (size * n_ c) B).
Proof.
  intros Hwf Hp Ha HB. pose proof (wa_mats c Hwf) as Hm.
  pose proof (wf_k_pos c Hm) as Hk. pose proof (wf_n c Hm) as Hn.
  pose proof (wf_dist_len c Hm) as HD. unfold rsShares. rewrite Ha.
  unfold memcpy. rewrite rd_front by done. cbn [mbind res_bind].
  rewrite wr_ok by nia. cbn [mbind res_bind take app Nat.add]. rewrite Hp.
  rewrite codeRows_spec; [|lia|rewrite HD; nia|lens|lens; nia]. f_equal.
  unfold sharesOf. rewrite Hn, combs_app, (combs_unit _ _ pkg); [|by apply Hwf|done].
  rewrite take_0. cbn [app Nat.add].
  rewrite take_app_length' by done. rewrite <- app_assoc. f_equal. f_equal.
  - apply (f_equal mjoin). apply list_fmap_ext. intros i r [-> Hr]%lookup_seq.
    apply comb_ext; [done|]. intros j Hj. rewrite <- (blk_take (pkg ++ rest) size (k_ c) j Hj).
    by rewrite take_app_length' by done.
  - rewrite drop_app_ge by nia. rewrite drop_drop. f_equal. nia.
Qed.

(** *** Preservation of the invariant *)

Lemma wf_aont_static c c' :
  wf_aont c -> same_static c c' ->
  length (key_ c') = bytesPerSecretWord_ c ->
  length (alignedSecretBuffer_ c') = alignedSecretBufferSize_ c ->
  length (erasureCodingData_ c') = erasureCodingDataSize_ c ->
  length (squareMatrix_ c') = k_ c * k_ c -> length (inverseMatrix_ c') = k_ c * k_ c ->
  (CDType_ c = AONT_RS_TYPE \/ CDType_ c = OLD_CAONT_RS_TYPE ->
   wf_word (bytesPerSecretWord_ c) (wordForIndex_ c')) ->
  wf_aont c'.
Proof.
  intros [[] ? ? ? ? ? ? ? ?] (? & ? & ? & ? & ? & ? & ? & ? & ->).
  cbn. intros. do 2 (constructor; cbn; try done).
Qed.

Lemma wf_aont_bufs c K A W E :
  wf_aont c -> length K = bytesPerSecretWord_ c -> length A = alignedSecretBufferSize_ c ->
  length E = erasureCodingDataSize_ c ->
  (CDType_ c = AONT_RS_TYPE \/ CDType_ c = OLD_CAONT_RS_TYPE ->
   wf_word (bytesPerSecretWord_ c) W) ->
  wf_aont (set_bufs c K A W E).
Proof.
  intros Hwf. intros. apply (wf_aont_static c); cbn; try done; try by apply Hwf.
  by repeat eexists.
Qed.

Lemma wf_aont_mats c SV :
  wf_aont c -> length SV.1 = k_ c * k_ c -> length SV.2 = k_ c * k_ c ->
  wf_aont (set_mats c SV).
Proof.
  intros Hwf. intros. apply (wf_aont_static c); cbn; try done; try by apply Hwf.
  by repeat eexists.
Qed.

Lemma same_static_bufs c K A W E : same_static c (set_bufs c K A W E).
Proof. by repeat eexists. Qed.

Lemma same_static_mats_bufs c SV K A W E : same_static c (set_bufs (set_mats c SV) K A W E).
Proof. by repeat eexists. Qed.

Lemma same_static_trans c1 c2 c3 : same_static c1 c2 -> same_static c2 c3 -> same_static c1 c3.
Proof.
  intros (? & ? & ? & ? & ? & ? & ? & ? & ->) (? & ? & ? & ? & ? & ? & ? & ? & ->).
  by repeat eexists.
Qed.

(** *** The encoders *)

Lemma sizeConstant_length n : length (sizeConstant n) = n.
Proof. unfold sizeConstant. by rewrite length_fmap, length_seq. Qed.

Lemma sizeConstant_take n m : n <= m -> take n (sizeConstant m) = sizeConstant n.
Proof.
  intros. unfold sizeConstant. rewrite <- fmap_take, take_seq. do 2 f_equal. lia.
Qed.

Lemma mod_trans a b d : a mod b = 0 -> b mod d = 0 -> a mod d = 0.
Proof.
  intros Ha Hb. apply Nat.Div0.mod_divides in Ha as [x ->].
  apply Nat.Div0.mod_divides in Hb as [y ->].
  apply Nat.Div0.mod_divides. exists (y * x). lia.
Qed.

(** The requirements of an encoding call: the secret is in its buffer, its
    aligned size is accepted, and the n shares fit in [shareBuffer]. *)
Record enc_pre (c : CDCodec) (secretBuffer : bytes) (secretSize : nat) (shareBuffer : bytes)
  : Prop := {
  ep_secret : secretSize <= length secretBuffer;
  ep_aligned : alignedSize (bytesPerSecretWord_ c) (k_ c) secretSize
               <= alignedSecretBufferSize_ c;
  ep_shares : shareSizeOf (bytesPerSecretWord_ c) (k_ c) secretSize * n_ c
              <= length shareBuffer;
}.

(** The aligned secret. *)
Definition alignedSecret (c : CDCodec) (secretBuffer : bytes) (secretSize : nat) : bytes :=
  padded (take secretSize secretBuffer)
    (alignedSize (bytesPerSecretWord_ c) (k_ c) secretSize).

Lemma alignedSecret_length c b s :
  wf_aont c -> s <= length b ->
  length (alignedSecret c b s) = alignedSize (bytesPerSecretWord_ c) (k_ c) s.
Proof.
  intros Hwf Hs. pose proof (wa_crypto c Hwf). pose proof ok_hs_4.
  pose proof (wf_k_pos c (wa_mats c Hwf)).
  apply padded_length. rewrite length_take, Nat.min_l by done. apply secret_le_aligned; lia.
Qed.

(** What an encoder delivers: success, the n shares of [pkg] at the start of
    [shareBuffer], the share size, and an object that is still well formed. *)
Definition encodes (c : CDCodec) (secretSize : nat) (shareBuffer : bytes) (pkg : bytes)
    (o : encOut) : Prop :=
  let size := shareSizeOf (bytesPerSecretWord_ c) (k_ c) secretSize in
  exists c', o = (true, c', sharesOf c pkg size ++ drop (size * n_ c) shareBuffer, size) /\
    wf_aont c' /\ same_static c c'.

(** The end of every encoder. *)
Lemma encode_finish c secretSize B K A W E0 body fail :
  wf_aont c -> length K = bytesPerSecretWord_ c -> length A = alignedSecretBufferSize_ c ->
  length E0 = erasureCodingDataSize_ c ->
  (CDType_ c = AONT_RS_TYPE \/ CDType_ c = OLD_CAONT_RS_TYPE ->
   wf_word (bytesPerSecretWord_ c) W) ->
  let a := alignedSize (bytesPerSecretWord_ c) (k_ c) secretSize in
  let size := shareSizeOf (bytesPerSecretWord_ c) (k_ c) secretSize in
  length body = a -> a <= alignedSecretBufferSize_ c -> size * n_ c <= length B ->
  exists o,
    (E ← tailWord c K (body ++ drop a E0) a fail;
     B ← rsShares c E a size B;
     Ok (true, set_bufs c K A W E, B, size)) = Ok (R := encOut) o /\
    encodes c secretSize B (package digest K body) o.
Proof.
  intros Hwf HK HA HE HW a size Hb Ha HB. pose proof (wa_crypto c Hwf) as HC.
  pose proof ok_hs_4 as H4. pose proof (wf_k_pos c (wa_mats c Hwf)) as Hk.
  assert (a + bytesPerSecretWord_ c = size * k_ c) as Hsz by (apply shareSize_eq; lia).
  assert (a + bytesPerSecretWord_ c <= length E0) as Hfit.
  { rewrite HE, (wa_data_size c Hwf). apply aligned_fits; [lia..|done]. }
  rewrite <- (take_drop (bytesPerSecretWord_ c) (drop a E0)), drop_drop.
  rewrite tailWord_ok by (done || lens). cbn [mbind res_bind].
  rewrite rsShares_ok; [|done|rewrite (package_length c) by done; lia|done|done].
  cbn [mbind res_bind]. eexists. split; [done|]. eexists. split; [done|].
  split; [|apply same_static_bufs]. apply wf_aont_bufs; try done.
  rewrite length_app, (package_length c) by done. lens.
Qed.

Lemma caontRSEncoding_spec {R} c b s B sz0 :
  wf_aont c -> CDType_ c = CAONT_RS_TYPE -> enc_pre c b s B ->
  let A := alignedSecret c b s in
  exists o, caontRSEncoding (R := R) c b s B sz0 = Ok o /\
    encodes c s B (package digest (digest A) (maskedAll encipher (digest A) A)) o.
Proof.
  intros Hwf HT [Hb Ha HB] A. pose proof (wa_crypto c Hwf) as HC.
  pose proof ok_hs_4 as H4. pose proof (wf_k_pos c (wa_mats c Hwf)) as Hk.
  pose proof (alignedSecret_length c b s Hwf Hb : length A = _) as HA.
  pose proof (wa_aligned c Hwf) as HAl. pose proof (wa_key c Hwf) as HKl.
  pose proof (wa_data c Hwf) as HEl.
  unfold caontRSEncoding. fold (shareSizeOf (bytesPerSecretWord_ c) (k_ c) s).
  set (a := alignedSize (bytesPerSecretWord_ c) (k_ c) s) in *.
  assert (a mod bs = 0) as Hmod.
  { apply (mod_trans _ (bytesPerSecretWord_ c)); [apply aligned_mod_bps; lia|apply ok_hs_bs]. }
  assert (a + bytesPerSecretWord_ c <= erasureCodingDataSize_ c) as Hfit.
  { rewrite (wa_data_size c Hwf). apply aligned_fits; [lia..|done]. }
  rewrite (proj2 (Nat.ltb_ge _ _) Ha).
  rewrite copyAligned_ok; [|done|apply secret_le_aligned; lia|lia]. change (padded (take s b) a) with A.
  cbn [mbind res_bind]. rewrite rd_front by done. cbn [mbind res_bind].
  rewrite hashTo_front by (done || lia). cbn [mbind res_bind negb app].
  rewrite drop_ge, app_nil_r by lia. rewrite (wa_const c Hwf HT).
  rewrite rd_ok, drop_0, sizeConstant_take by (rewrite ?sizeConstant_length; lia).
  cbn [mbind res_bind].
  rewrite encTo_front; [|done|by apply ok_digest_length|by rewrite sizeConstant_length
     |rewrite sizeConstant_length; lia].
  cbn [mbind res_bind negb app]. rewrite sizeConstant_length.
  rewrite (xorRegion_front _ 0 A);
    [|by apply rd_front|done
     |by rewrite ok_encipher_length, sizeConstant_length by by rewrite sizeConstant_length].
  cbn [mbind res_bind app].
  replace (xors (encipher (sizeConstant a) (digest A)) A) with (maskedAll encipher (digest A) A)
    by (unfold maskedAll; by rewrite HA).
      match goal with |- context [tailWord c (digest A) _ a ?f] =>
    destruct (encode_finish c s B (digest A) (A ++ drop a (alignedSecretBuffer_ c))
      (wordForIndex_ c) (erasureCodingData_ c) (maskedAll encipher (digest A) A) f)
      as (o & E & Ho) end; try done.
  - apply ok_digest_length.
  - lens.
  - by apply Hwf.
  - unfold maskedAll. rewrite length_zip_with, ok_encipher_length, sizeConstant_length; [lia|].
    by rewrite sizeConstant_length, HA.
  - fold a in E. rewrite E. cbn. eauto.
Qed.

Lemma maskedWords_app bps K A rest n :
  bps * n <= length A ->
  maskedWords encipher bps K (A ++ rest) n = maskedWords encipher bps K A n.
Proof.
  intros Hl. unfold maskedWords. f_equal. apply list_fmap_ext. intros i w [-> Hi]%lookup_seq.
  f_equal. cbn [Nat.add]. rewrite <- (blk_take (A ++ rest) bps n i) by done.
  rewrite <- (blk_take A bps n i) by done. by rewrite take_app_le.
Qed.

(** The word-by-word schemes after the choice of the key. *)
Lemma encode_words c b s B K f g :
  wf_aont c -> CDType_ c = AONT_RS_TYPE \/ CDType_ c = OLD_CAONT_RS_TYPE -> enc_pre c b s B ->
  length K = bytesPerSecretWord_ c ->
  let bps := bytesPerSecretWord_ c in
  let a := alignedSize bps (k_ c) s in
  let size := shareSizeOf bps (k_ c) s in
  let A := alignedSecret c b s in
  let A' := A ++ drop a (alignedSecretBuffer_ c) in
  exists o,
    ('(W, E) ← maskWords c K A' (a / bps) f (wordForIndex_ c) (erasureCodingData_ c);
     E ← tailWord c K E a (g W);
     B ← rsShares c E a size B;
     Ok (true, set_bufs c K A' W E, B, size)) = Ok (R := encOut) o /\
    encodes c s B (package digest K (maskedWords encipher bps K A (a / bps))) o.
Proof.
  intros Hwf HT [Hb Ha HB] HK bps a size A A'. change (a <= alignedSecretBufferSize_ c) in Ha.
  pose proof (wa_crypto c Hwf) as HC.
  pose proof (ok_hs_4 : 4 <= bps) as H4. pose proof (wf_k_pos c (wa_mats c Hwf)) as Hk.
  pose proof (alignedSecret_length c b s Hwf Hb : length A = a) as HA.
  pose proof (wa_aligned c Hwf) as HAl. pose proof (wa_data c Hwf) as HEl.
  assert (a + bps <= erasureCodingDataSize_ c) as Hfit.
  { rewrite (wa_data_size c Hwf). apply aligned_fits; [lia..|done]. }
  assert (bps * (a / bps) = a) as Hw.
  { symmetry. apply Nat.Div0.div_exact, aligned_mod_bps; lia. }
  destruct (maskWords_ok (R := encOut) c K A' (a / bps) f (wordForIndex_ c)
    (erasureCodingData_ c)) as (W & HW & ->); fold bps; rewrite ?Hw.
  - done.
  - done.
  - by apply Hwf.
  - unfold A'. lens.
  - lia.
  - cbn [mbind res_bind]. unfold A'. rewrite (maskedWords_app bps K A) by lia. fold A'.
    apply encode_finish; try done; [unfold A'; lens|].
    rewrite maskedWords_length; [done| |lia]. intros. by apply index_encipher_length.
Qed.

Lemma caontRSOldEncoding_spec {R} c b s B sz0 :
  wf_aont c -> CDType_ c = OLD_CAONT_RS_TYPE -> enc_pre c b s B ->
  let A := alignedSecret c b s in
  exists o, caontRSOldEncoding (R := R) c b s B sz0 = Ok o /\
    encodes c s B (package digest (digest A) (maskedWords encipher (bytesPerSecretWord_ c)
      (digest A) A (length A / bytesPerSecretWord_ c))) o.
Proof.
  intros Hwf HT Hpre A. pose proof Hpre as [Hb Ha HB]. pose proof (wa_crypto c Hwf) as HC.
  pose proof ok_hs_4 as H4. pose proof (wf_k_pos c (wa_mats c Hwf)) as Hk.
  pose proof (alignedSecret_length c b s Hwf Hb : length A = _) as HA.
  pose proof (wa_aligned c Hwf) as HAl. pose proof (wa_key c Hwf) as HKl.
  unfold caontRSOldEncoding. rewrite (proj2 (Nat.ltb_ge _ _) Ha).
  rewrite copyAligned_ok; [|done|apply secret_le_aligned; lia|lia].
  fold (alignedSecret c b s). fold A.
  cbn [mbind res_bind]. rewrite rd_front by done. cbn [mbind res_bind].
  rewrite hashTo_front by (done || lia). cbn [mbind res_bind negb app].
  rewrite drop_ge, app_nil_r by lia. rewrite HA.
  match goal with |- context [maskWords c (digest A) _ _ ?f _ _] =>
    destruct (encode_words c b s B (digest A) f (fun W E => f W E)) as (o & E & Ho) end;
    [done|by right|done|by apply ok_digest_length|].
  unfold shareSizeOf in E. fold A in E. rewrite E. cbn. eauto.
Qed.

(** AONT-RS draws its key from [lrand48]. *)
Lemma aontRSEncoding_spec {R} c rand b s B sz0 :
  wf_aont c -> CDType_ c = AONT_RS_TYPE -> enc_pre c b s B ->
  let A := alignedSecret c b s in
  let K := rand <$> seq 0 (bytesPerSecretWord_ c) in
  exists o, aontRSEncoding (R := R) c rand b s B sz0 = Ok o /\
    encodes c s B (package digest K (maskedWords encipher (bytesPerSecretWord_ c) K A
      (length A / bytesPerSecretWord_ c))) o.
Proof.
  intros Hwf HT Hpre A K. pose proof Hpre as [Hb Ha HB]. pose proof (wa_crypto c Hwf) as HC.
  pose proof ok_hs_4 as H4. pose proof (wf_k_pos c (wa_mats c Hwf)) as Hk.
  pose proof (alignedSecret_length c b s Hwf Hb : length A = _) as HA.
  pose proof (wa_aligned c Hwf) as HAl.
  unfold aontRSEncoding. rewrite (proj2 (Nat.ltb_ge _ _) Ha).
  rewrite copyAligned_ok; [|done|apply secret_le_aligned; lia|lia].
  fold (alignedSecret c b s). fold A. cbn [mbind res_bind].
  rewrite (fill_ok _ _ _ (wa_key c Hwf)). fold K. cbn [mbind res_bind]. rewrite HA.
  match goal with |- context [maskWords c K _ _ ?f _ _] =>
    destruct (encode_words c b s B K f (fun W E => f W E)) as (o & E & Ho) end;
    [done|by left|done|unfold K; by rewrite length_fmap, length_seq|].
  unfold shareSizeOf in E. fold A in E. rewrite E. cbn. eauto.
Qed.

(** *** The decoders *)

Lemma recoverKey_ok {R} c K body rest fail :
  CryptoFor c -> length K = bytesPerSecretWord_ c -> length (key_ c) = bytesPerSecretWord_ c ->
  erasureCodingData_ c = package digest K body ++ rest ->
  recoverKey (R := R) c (length body) fail = Ok K.
Proof.
  intros HC HK Hk HE. unfold recoverKey. rewrite HE. unfold package. rewrite <- app_assoc.
  rewrite rd_front by done. cbn [mbind res_bind].
  rewrite hashTo_front by (done || lia). cbn [mbind res_bind negb].
  assert (length (digest body) = bytesPerSecretWord_ c) as Hd by apply ok_digest_length.
  rewrite (xorRegion_front _ _ (xors (digest body) K)); [|apply rd_mid; [done|lens]|lens|done].
  rewrite drop_ge, app_nil_r, xors_cancel by lia. done.
Qed.

(** What a decoder delivers: success, the secret at the start of [secretBuffer]. *)
Definition decodes (c : CDCodec) (secret secretBuffer : bytes) (o : decOut) : Prop :=
  exists c', o = (true, c', secret ++ drop (length secret) secretBuffer) /\
    wf_aont c' /\ same_static c c'.

Lemma output_ok {R} s (A out : bytes) :
  s <= length A -> s <= length out ->
  memcpy (R := R) out 0 A 0 s = Ok (take s A ++ drop s out).
Proof. intros. rewrite memcpy_ok by lia. cbn [Nat.add]. by rewrite take_0, drop_0. Qed.

(** The integrity check succeeds when the key is the hash of the aligned secret. *)
Lemma checkAndOutput_ok {R} c A rest W s out :
  wf_aont c -> length (A ++ rest) = alignedSecretBufferSize_ c ->
  bytesPerSecretWord_ c <= erasureCodingDataSize_ c ->
  (CDType_ c = AONT_RS_TYPE \/ CDType_ c = OLD_CAONT_RS_TYPE ->
   wf_word (bytesPerSecretWord_ c) W) ->
  s <= length A -> s <= length out ->
  exists o, checkAndOutput (R := R) c (digest A) (A ++ rest) W (length A) s out = Ok o /\
    decodes c (take s A) out o.
Proof.
  intros Hwf HA HE HW Hs Ho. pose proof (wa_crypto c Hwf) as HC.
  pose proof (wa_data c Hwf) as HEl.
  assert (length (digest A) = bytesPerSecretWord_ c) as Hd by apply ok_digest_length.
  unfold checkAndOutput. rewrite rd_front by done. cbn [mbind res_bind].
  rewrite hashTo_front by (done || lia). cbn [mbind res_bind negb].
  rewrite rd_front by done. cbn [mbind res_bind].
  rewrite (rd_ok (digest A)), drop_0, take_ge by lia. cbn [mbind res_bind].
  rewrite decide_True by done. rewrite output_ok by lens. cbn [mbind res_bind].
  eexists. split; [done|]. eexists. split.
  - rewrite length_take, Nat.min_l by done. by rewrite take_app_le.
  - split; [|apply same_static_bufs]. apply wf_aont_bufs; try done. lens.
Qed.

(** The shares [ids] of one secret, for a decoder with [k] of them. *)
Definition good_ids (c : CDCodec) (ids : list nat) : Prop :=
  NoDup ids /\ length ids = k_ c /\ Forall (fun i => i < n_ c) ids.

(** The beginning of every decoder. *)
Lemma decode_start {R} c s K body ids sh :
  wf_aont c ->
  let a := alignedSize (bytesPerSecretWord_ c) (k_ c) s in
  let size := shareSizeOf (bytesPerSecretWord_ c) (k_ c) s in
  a <= alignedSecretBufferSize_ c -> length body = a -> length K = bytesPerSecretWord_ c ->
  good_ids c ids -> holdsShares c (package digest K body) size ids sh ->
  decodeChecks c size s = true /\ size * k_ c - bytesPerSecretWord_ c = length body /\
  bytesPerSecretWord_ c <= erasureCodingDataSize_ c /\
  exists c1, rsDecode (R := R) c sh ids size = Ok (true, c1) /\ wf_aont c1 /\
    same_static c c1 /\
    erasureCodingData_ c1
    = package digest K body ++ drop (size * k_ c) (erasureCodingData_ c).
Proof.
  intros Hwf a size Ha Hb HK (Hnd & Hlen & Hall) Hsh. pose proof (wa_crypto c Hwf) as HC.
  pose proof ok_hs_4 as H4. pose proof (wa_mats c Hwf) as Hm. pose proof (wf_k_pos c Hm) as Hk.
  pose proof (wa_data c Hwf) as HEl.
  assert (a + bytesPerSecretWord_ c = size * k_ c) as Hsz by (apply shareSize_eq; lia).
  assert (a + bytesPerSecretWord_ c <= erasureCodingDataSize_ c) as Hfit.
  { rewrite (wa_data_size c Hwf). apply aligned_fits; [lia..|done]. }
  assert (s <= a) as Hs by (apply secret_le_aligned; lia).
  assert (size mod bytesPerSecretWord_ c = 0) as Hmod by apply shareSize_mod.
  assert (length (package digest K body) = size * k_ c) as Hp
    by (rewrite (package_length c) by done; lia).
  split; [|split; [lia|split; [lia|]]].
  - unfold decodeChecks. rewrite Hmod. cbn [Nat.eqb negb orb].
    rewrite !(proj2 (Nat.ltb_ge _ _)) by lia. done.
  - destruct (rsDecode_spec (R := R) c (package digest K body) size ids sh)
      as (SV & HS & HV & ->); [done..|lia|].
    eexists. split; [done|]. split; [|split]; [|by apply same_static_mats_bufs|done].
    apply wf_aont_bufs; [by apply wf_aont_mats|by apply Hwf|by apply Hwf| |by apply Hwf].
    cbn. lens.
Qed.

Lemma decodes_trans c c1 secret out o :
  same_static c c1 -> decodes c1 secret out o -> decodes c secret out o.
Proof.
  intros Hst (c' & -> & Hwf & Hst'). exists c'. split; [done|]. split; [done|].
  by eapply same_static_trans.
Qed.

(** The requirements of a decoding call: k distinct shares of the package
    with key [K] and main part [body], made from a secret of [s] bytes. *)
Record dec_pre (c : CDCodec) (s : nat) (K body : bytes) (ids : list nat) (sh out : bytes)
  : Prop := {
  dp_aligned : alignedSize (bytesPerSecretWord_ c) (k_ c) s <= alignedSecretBufferSize_ c;
  dp_body : length body = alignedSize (bytesPerSecretWord_ c) (k_ c) s;
  dp_key : length K = bytesPerSecretWord_ c;
  dp_ids : good_ids c ids;
  dp_shares : holdsShares c (package digest K body)
                (shareSizeOf (bytesPerSecretWord_ c) (k_ c) s) ids sh;
  dp_out : s <= length out;
}.

Lemma static_eqs c c1 :
  same_static c c1 -> bytesPerSecretWord_ c1 = bytesPerSecretWord_ c /\
    alignedSecretBufferSize_ c1 = alignedSecretBufferSize_ c /\ CDType_ c1 = CDType_ c /\
    erasureCodingDataSize_ c1 = erasureCodingDataSize_ c /\ k_ c1 = k_ c /\ n_ c1 = n_ c.
Proof. by intros (? & ? & ? & ? & ? & ? & ? & ? & ->). Qed.

Lemma caontRSDecoding_spec {R} c s A ids sh out :
  wf_aont c -> CDType_ c = CAONT_RS_TYPE -> length A mod bs = 0 ->
  dec_pre c s (digest A) (maskedAll encipher (digest A) A) ids sh out ->
  exists o, caontRSDecoding (R := R) c sh ids
              (shareSizeOf (bytesPerSecretWord_ c) (k_ c) s) s out = Ok o /\
    decodes c (take s A) out o.
Proof.
  intros Hwf HT Hmod [Ha Hb HK Hids Hsh Ho]. pose proof (wa_crypto c Hwf) as HC.
  destruct (decode_start (R := decOut) c s _ _ ids sh Hwf Ha Hb HK Hids Hsh)
    as (Hck & Hsz & Hfit & c1 & Hrs & Hwf1 & Hst & HE1).
  destruct (static_eqs c c1 Hst) as (Eb & Ea & Et & Ee & _).
  unfold caontRSDecoding. rewrite Hck, Hrs, Hsz. cbn [mbind res_bind negb].
  assert (length (encipher (sizeConstant (length A)) (digest A)) = length A) as Henc
    by (rewrite ok_encipher_length, sizeConstant_length; rewrite ?sizeConstant_length; done).
  assert (length (maskedAll encipher (digest A) A) = length A) as Hl
    by (unfold maskedAll; lens).
  pose proof (wa_crypto c1 Hwf1) as HC1. pose proof (wa_aligned c1 Hwf1) as HA1.
  rewrite (recoverKey_ok c1 (digest A) (maskedAll encipher (digest A) A)
    (drop (shareSizeOf (bytesPerSecretWord_ c) (k_ c) s * k_ c) (erasureCodingData_ c))); [|done|by rewrite Eb|by apply Hwf1|done].
  cbn [mbind res_bind]. rewrite (wa_const c1 Hwf1) by by rewrite Et.
  rewrite rd_ok, drop_0, sizeConstant_take by (rewrite ?sizeConstant_length; lia).
  rewrite Hl. cbn [mbind res_bind].
  rewrite encTo_front; [|done|by rewrite Eb|by rewrite sizeConstant_length
                        |rewrite sizeConstant_length; lia].
  cbn [mbind res_bind negb]. rewrite sizeConstant_length.
  rewrite (xorRegion_front _ 0 (maskedAll encipher (digest A) A)) by
    (done || (rewrite HE1; unfold package; rewrite <- app_assoc; by apply rd_front)).
  unfold maskedAll at 1. rewrite xors_cancel by done. cbn [mbind res_bind].
  destruct (checkAndOutput_ok (R := decOut) c1 A (drop (length A) (alignedSecretBuffer_ c1))
    (wordForIndex_ c1) s out) as (o & -> & Hdo); [done|lens|lia|by apply Hwf1| |done|].
  - rewrite <- Hl, Hb. pose proof ok_hs_4. pose proof (wf_k_pos c (wa_mats c Hwf)).
    apply secret_le_aligned; lia.
  - cbn. eauto using decodes_trans.
Qed.

(** The word-by-word schemes up to the unmasked words. *)
Lemma decode_words {R} c s K A ids sh out f :
  wf_aont c -> CDType_ c = AONT_RS_TYPE \/ CDType_ c = OLD_CAONT_RS_TYPE ->
  length A = alignedSize (bytesPerSecretWord_ c) (k_ c) s ->
  let nw := length A / bytesPerSecretWord_ c in
  let body := maskedWords encipher (bytesPerSecretWord_ c) K A nw in
  dec_pre c s K body ids sh out ->
  length body = length A /\ s <= length A /\
  exists c1 W rest, decodeChecks c (shareSizeOf (bytesPerSecretWord_ c) (k_ c) s) s = true /\
    rsDecode (R := R) c sh ids (shareSizeOf (bytesPerSecretWord_ c) (k_ c) s) = Ok (true, c1) /\
    wf_aont c1 /\ same_static c c1 /\ wf_word (bytesPerSecretWord_ c1) W /\
    length (A ++ rest) = alignedSecretBufferSize_ c1 /\
    bytesPerSecretWord_ c1 <= erasureCodingDataSize_ c1 /\
    (forall g, recoverKey (R := R) c1 (length A) g = Ok K) /\
    maskWords (R := R) c1 K (erasureCodingData_ c1) nw (f c1) (wordForIndex_ c1)
      (alignedSecretBuffer_ c1) = Ok (W, A ++ rest).
Proof.
  intros Hwf HT HA nw body [Ha Hb HK Hids Hsh Ho]. pose proof (wa_crypto c Hwf) as HC.
  pose proof ok_hs_4 as H4. pose proof (wf_k_pos c (wa_mats c Hwf)) as Hk.
  destruct (decode_start (R := R) c s _ _ ids sh Hwf Ha Hb HK Hids Hsh)
    as (Hck & Hsz & Hfit & c1 & Hrs & Hwf1 & Hst & HE1).
  destruct (static_eqs c c1 Hst) as (Eb & Ea & Et & Ee & _).
  assert (forall i, length (encipher (indexWord (bytesPerSecretWord_ c) i) K)
                    = bytesPerSecretWord_ c) as Henc by (intros; by apply index_encipher_length).
  assert (bytesPerSecretWord_ c * nw = length A) as Hw.
  { symmetry. apply Nat.Div0.div_exact. rewrite HA. apply aligned_mod_bps; lia. }
  assert (length body = length A) as Hl by lia.
  split; [done|]. split; [rewrite HA; apply secret_le_aligned; lia|].
  pose proof (wa_crypto c1 Hwf1) as HC1. pose proof (wa_aligned c1 Hwf1) as HA1.
  destruct (maskWords_ok (R := R) c1 K (erasureCodingData_ c1) nw (f c1) (wordForIndex_ c1)
    (alignedSecretBuffer_ c1)) as (W & HW & EW).
  - done.
  - by rewrite Eb.
  - apply (wa_word c1 Hwf1). by rewrite Et.
  - rewrite Eb, HE1. unfold package. lens.
  - rewrite Eb, HA1. lia.
  - exists c1, W, (drop (length A) (alignedSecretBuffer_ c1)).
    split; [done|]. split; [done|]. split; [done|]. split; [done|]. split; [done|].
    split; [lens|]. split; [lia|]. split.
    + intros g. rewrite <- Hl. eapply recoverKey_ok; [done|by rewrite Eb|by apply Hwf1|done].
    + rewrite EW, Eb, HE1. unfold package, body. rewrite <- app_assoc.
      rewrite (maskedWords_twice (bytesPerSecretWord_ c)), Hw, take_ge by (done || lia). done.
Qed.

Lemma caontRSOldDecoding_spec {R} c s A ids sh out :
  wf_aont c -> CDType_ c = OLD_CAONT_RS_TYPE ->
  length A = alignedSize (bytesPerSecretWord_ c) (k_ c) s ->
  dec_pre c s (digest A) (maskedWords encipher (bytesPerSecretWord_ c) (digest A) A
    (length A / bytesPerSecretWord_ c)) ids sh out ->
  exists o, caontRSOldDecoding (R := R) c sh ids
              (shareSizeOf (bytesPerSecretWord_ c) (k_ c) s) s out = Ok o /\
    decodes c (take s A) out o.
Proof.
  intros Hwf HT HA Hpre. pose proof (wa_crypto c Hwf) as HC.
  pose proof ok_hs_4 as H4. pose proof (wf_k_pos c (wa_mats c Hwf)) as Hk.
  destruct (decode_words (R := decOut) c s (digest A) A ids sh out (fun c1 W A' =>
    (false, set_bufs c1 (digest A) A' W (erasureCodingData_ c1), out)) Hwf (or_intror HT) HA Hpre)
    as (Hl & Hs & c1 & W & rest & Hck & Hrs & Hwf1 & Hst & HW & HA1 & Hfit & Hkey & Hmask).
  unfold caontRSOldDecoding. rewrite Hck, Hrs. cbn [mbind res_bind negb].
  replace (shareSizeOf (bytesPerSecretWord_ c) (k_ c) s * k_ c - bytesPerSecretWord_ c)
    with (length A) by (rewrite <- shareSize_eq; lia).
  rewrite Hkey. cbn [mbind res_bind]. rewrite Hmask. cbn [mbind res_bind].
  destruct (checkAndOutput_ok (R := decOut) c1 A rest W s out) as (o & -> & Hdo);
    [done..|by apply Hpre|]. cbn. eauto using decodes_trans.
Qed.

Lemma aontRSDecoding_spec {R} c s K A ids sh out :
  wf_aont c -> CDType_ c = AONT_RS_TYPE ->
  length A = alignedSize (bytesPerSecretWord_ c) (k_ c) s ->
  dec_pre c s K (maskedWords encipher (bytesPerSecretWord_ c) K A
    (length A / bytesPerSecretWord_ c)) ids sh out ->
  exists o, aontRSDecoding (R := R) c sh ids
              (shareSizeOf (bytesPerSecretWord_ c) (k_ c) s) s out = Ok o /\
    decodes c (take s A) out o.
Proof.
  intros Hwf HT HA Hpre. pose proof (wa_crypto c Hwf) as HC.
  pose proof ok_hs_4 as H4. pose proof (wf_k_pos c (wa_mats c Hwf)) as Hk.
  destruct (decode_words (R := decOut) c s K A ids sh out (fun c1 W A =>
    (false, set_bufs c1 K A W (erasureCodingData_ c1), out)) Hwf (or_introl HT) HA Hpre)
    as (Hl & Hs & c1 & W & rest & Hck & Hrs & Hwf1 & Hst & HW & HA1 & Hfit & Hkey & Hmask).
  destruct (static_eqs c c1 Hst) as (Eb & Ea & Et & Ee & _).
  unfold aontRSDecoding. rewrite Hck, Hrs. cbn [mbind res_bind negb].
  replace (shareSizeOf (bytesPerSecretWord_ c) (k_ c) s * k_ c - bytesPerSecretWord_ c)
    with (length A) by (rewrite <- shareSize_eq; lia).
  rewrite Hkey. cbn [mbind res_bind]. rewrite Hmask. cbn [mbind res_bind].
  rewrite output_ok by (rewrite ?length_app; pose proof (dp_out _ _ _ _ _ _ _ Hpre); lia).
  cbn [mbind res_bind fn]. eexists. split; [done|]. apply (decodes_trans c c1); [done|].
  eexists. split.
  - rewrite length_take, Nat.min_l by done. by rewrite take_app_le.
  - split; [|apply same_static_bufs].
    apply wf_aont_bufs; [done|rewrite Eb; by apply Hpre|done|by apply Hwf1|done].
Qed.

(** *** Integrity of the convergent decoding *)

(** Any k blocks decode to some package [body ++ tail], and the key the
    decoder recovers hides behind its tail. *)
Lemma decode_any {R} c size s ids sh :
  wf_aont c -> good_ids c ids -> size * k_ c <= length sh -> decodeChecks c size s = true ->
  exists c1 K body, length body = size * k_ c - bytesPerSecretWord_ c /\
    length K = bytesPerSecretWord_ c /\ s <= length body /\
    length body mod bs = 0 /\ length body <= alignedSecretBufferSize_ c /\
    rsDecode (R := R) c sh ids size = Ok (true, c1) /\ wf_aont c1 /\ same_static c c1 /\
    erasureCodingData_ c1
    = package digest K body ++ drop (size * k_ c) (erasureCodingData_ c) /\
    holdsShares c (package digest K body) size ids sh.
Proof.
  intros Hwf (Hnd & Hlen & Hall) Hsl Hck. pose proof (wa_crypto c Hwf) as HC.
  pose proof ok_hs_4 as H4. pose proof (wa_data c Hwf) as HEl.
  unfold decodeChecks in Hck. rewrite negb_true_iff, !orb_false_iff, negb_false_iff in Hck.
  destruct Hck as [[[Hmod%Nat.eqb_eq H1%Nat.ltb_ge] H2%Nat.ltb_ge] H3%Nat.ltb_ge].
  destruct (rsDecode_any (R := R) c size ids sh) as (SV & X & HS & HV & HX & Hsh & _ & E);
    [by apply Hwf|done..|lia|].
  set (a := size * k_ c - bytesPerSecretWord_ c) in *.
  set (body := take a X). set (K := xors (digest body) (drop a X)).
  assert (length body = a) as Hb by (unfold body; lens).
  assert (length (digest body) = bytesPerSecretWord_ c) as Hd by apply ok_digest_length.
  assert (X = package digest K body) as HXp.
  { unfold package, K. rewrite xors_cancel by lens. unfold body. by rewrite take_drop. }
  eexists _, K, body. split; [done|]. split; [unfold K; lens|]. split; [lia|].
  split; [|split; [lia|]].
  { rewrite Hb. apply (mod_trans _ (bytesPerSecretWord_ c)); [|apply ok_hs_bs].
    apply Nat.Div0.mod_divides in Hmod as [q Hq]. apply Nat.Div0.mod_divides.
    exists (q * k_ c - 1). unfold a. rewrite Hq. nia. }
  split; [exact E|]. split; [|split; [by apply same_static_mats_bufs|]].
  - apply wf_aont_bufs; [by apply wf_aont_mats|by apply Hwf|by apply Hwf| |by apply Hwf].
    cbn. lens.
  - cbn. by rewrite <- HXp.
Qed.

(** A successful CAONT-RS decoding has checked the whole package. *)
Lemma caontRSDecoding_any {R} c size s ids sh out :
  wf_aont c -> CDType_ c = CAONT_RS_TYPE -> good_ids c ids ->
  size * k_ c <= length sh -> s <= length out ->
  exists ok c' out', caontRSDecoding (R := R) c sh ids size s out = Ok (ok, c', out') /\
    (ok = false -> out' = out) /\
    (ok = true -> exists A, out' = take s A ++ drop s out /\ s <= length A /\
       holdsShares c (package digest (digest A) (maskedAll encipher (digest A) A)) size ids sh).
Proof.
  intros Hwf HT Hids Hsl Ho. unfold caontRSDecoding.
  destruct (decodeChecks c size s) eqn:Hck; cbn [negb]; [|by eexists _, _, _].
  destruct (decode_any (R := decOut) c size s ids sh Hwf Hids Hsl Hck)
    as (c1 & K & body & Hb & HK & Hs & Hmod & Hab & -> & Hwf1 & Hst & HE1 & Hsh).
  destruct (static_eqs c c1 Hst) as (Eb & Ea & Et & Ee & _).
  pose proof (wa_crypto c1 Hwf1) as HC1. pose proof (wa_aligned c1 Hwf1) as HA1.
  cbn [mbind res_bind negb]. rewrite <- Hb.
  rewrite (recoverKey_ok c1 K body (drop (size * k_ c) (erasureCodingData_ c))); [|done|by rewrite Eb|by apply Hwf1|done].
  cbn [mbind res_bind]. rewrite (wa_const c1 Hwf1) by by rewrite Et.
  rewrite rd_ok, drop_0, sizeConstant_take by (rewrite ?sizeConstant_length; lia).
  cbn [mbind res_bind].
  rewrite encTo_front; [|done|by rewrite Eb|by rewrite sizeConstant_length
                        |rewrite sizeConstant_length; lia].
  cbn [mbind res_bind negb]. rewrite sizeConstant_length.
  assert (length (encipher (sizeConstant (length body)) K) = length body) as Henc
    by (rewrite ok_encipher_length, sizeConstant_length; rewrite ?sizeConstant_length; done).
  rewrite (xorRegion_front _ 0 body) by
    (done || (rewrite HE1; unfold package; rewrite <- app_assoc; by apply rd_front)).
  cbn [mbind res_bind]. set (A := xors (encipher (sizeConstant (length body)) K) body).
  assert (length A = length body) as HA by (unfold A; lens).
  unfold checkAndOutput. rewrite rd_front by done. cbn [mbind res_bind].
  pose proof (wa_data c1 Hwf1) as HEl1. rewrite HE1 in HEl1.
  rewrite hashTo_front; [|done|rewrite HE1, length_app, (package_length c1); [lia|done|lia]].
  cbn [mbind res_bind negb].
  rewrite rd_front by (symmetry; apply ok_digest_length). cbn [mbind res_bind].
  rewrite (rd_ok K), drop_0, take_ge by lia. cbn [mbind res_bind].
  case_decide as Hk; [|by eexists _, _, _].
  rewrite output_ok by lens. cbn [mbind res_bind fn]. eexists _, _, _. split; [done|].
  split; [done|]. intros _. exists A. split; [by rewrite take_app_le by lia|]. split; [lia|].
  rewrite Hk. unfold maskedAll. rewrite HA. unfold A. by rewrite xors_cancel.
Qed.
End Aont.
