(* ===== verification/CodecTheorems.v ===== *)
(** * CDCodec: the theorems for clients

    The constructor establishes the invariant of the AONT schemes, whatever the
    allocator returns; [encoding] and [decoding] then satisfy the round trip
    from any k shares, the shares of the convergent schemes depend on the
    secret alone, and a successful convergent decoding has checked the
    integrity of the whole package. *)

From stdpp Require Import base list numbers sets.
From coqutil Require Import Byte.
From Stdlib Require Import Lia.
From S2P Require Import Prelude GaloisField LinearAlgebra MatrixInvert CryptoPrimitive CDCodec ErasureCode AontSchemes.

(** ** Construction *)

(** A matrix given by its cells, as a flat array. *)
Definition matOf (n k : nat) (cell : nat -> nat -> byte) : bytes :=
  (fun p => cell (p / k) (p mod k)) <$> seq 0 (n * k).

Lemma matOf_eq n k cell D :
  length D = n * k -> (forall i j, i < n -> j < k -> mget k D i j = cell i j) ->
  D = matOf n k cell.
Proof.
  intros HD H. apply list_eq_same_length with (n * k).
  - unfold matOf. by rewrite length_fmap, length_seq.
  - done.
  - intros p x y Hp Hx Hy. unfold matOf in Hy.
    rewrite list_lookup_fmap, lookup_seq_lt in Hy by done. cbn in Hy. simplify_eq.
    assert (k <> 0) as Hk by nia.
    assert (p / k < n) by (apply Nat.Div0.div_lt_upper_bound; lia).
    assert (p mod k < k) by (by apply Nat.mod_upper_bound).
    rewrite <- H by done.
    unfold mget. rewrite <- Nat.div_mod_eq. symmetry. by apply list_lookup_total_correct.
Qed.

(** [malloc]: the i-th allocation of a call, of the given size. *)
Definition mallocOk (malloc : nat -> nat -> bytes) : Prop := forall i s, length (malloc i s) = s.

#[local] Opaque MAX_SECRET_SIZE.

Section Construct.
Context {GF : GaloisField} {LAWS : GaloisFieldLaws GF} {SSL : OpenSSL}.
Context {bs : nat} {digest : bytes -> bytes} {encipher decipher : bytes -> bytes -> bytes}.

Lemma sizeConstant_init {R} n A :
  length A = n -> initSizeConstant (R := R) n A = Ok (sizeConstant n).
Proof. intros. by apply fill_ok. Qed.

(** The parameters the AONT branch accepts, with n small enough for the field. *)
Record aont_params (T n m r : Z) : Prop := {
  ap_type : T = AONT_RS_TYPE \/ T = OLD_CAONT_RS_TYPE \/ T = CAONT_RS_TYPE;
  ap_m : (0 < m < n)%Z;
  ap_k : (1 < n - m)%Z;
  ap_r : (r = n - m - 1)%Z;
  ap_n : (n <= 256)%Z;
}.

Lemma checkParams_ok {R} n m :
  (0 < m < n)%Z -> (1 < n - m)%Z -> checkParams (R := R) n m = Ok tt.
Proof.
  intros. unfold checkParams.
  destruct (Z.leb_spec n 0), (Z.leb_spec m 0), (Z.geb_spec m n), (Z.leb_spec (n - m) 1);
    try lia; done.
Qed.

(** The static part of a new object. *)
Definition built (c : CDCodec) (T : Z) (n m hs : nat) (crypto : CryptoPrimitive) : Prop :=
  CDType_ c = T /\ n_ c = n /\ m_ c = m /\ k_ c = n - m /\ bytesPerSecretWord_ c = hs /\
  alignedSecretBufferSize_ c = MAX_SECRET_SIZE + hs * (n - m) /\ cryptoObj_ c = crypto /\
  distributionMatrix_ c = matOf n (n - m) (rsCell (n - m) m).

Lemma new_AONT_spec {R} malloc T n m r crypto hs :
  mallocOk malloc -> aont_params T n m r ->
  CryptoOk crypto hs bs digest encipher decipher ->
  exists c, new_CDCodec (R := R) malloc true T n m r (Some crypto) = Ok c /\
    wf_aont (bs := bs) (digest := digest) (encipher := encipher) (decipher := decipher) c /\
    built c T (Z.to_nat n) (Z.to_nat m) hs crypto.
Proof.
  intros Hmal [HT Hm Hk Hr Hn] HC. unfold new_CDCodec.
  assert ((T =? CRSSS_TYPE)%Z = false) as -> by (destruct HT as [->|[->| ->]]; done).
  assert (((T =? AONT_RS_TYPE) || (T =? OLD_CAONT_RS_TYPE) || (T =? CAONT_RS_TYPE))%Z = true)
    as -> by (destruct HT as [->|[->| ->]]; done).
  unfold new_AONT. rewrite checkParams_ok by done. cbn [mbind res_bind].
  rewrite (proj2 (Z.eqb_eq _ _) Hr). cbn [negb].
  rewrite ok_getHashSize. cbn [mbind res_bind]. rewrite ok_getKeySize. cbn [mbind res_bind].
  rewrite Z.eqb_refl. cbn [negb]. rewrite Nat2Z.id.
  set (k := Z.to_nat (n - m)). set (m' := Z.to_nat m).
  assert (Z.to_nat n = k + m') as Hnk by lia.
  set (abs := MAX_SECRET_SIZE + hs * k).
  pose proof (ok_hs_4 : 4 <= hs) as H4.
  assert (forall R, exists W, (if ((T =? AONT_RS_TYPE) || (T =? OLD_CAONT_RS_TYPE))%Z
            then memset (malloc 2 hs) 0 Byte.x00 hs else Ok (R := R) []) = Ok W /\
            (T = AONT_RS_TYPE \/ T = OLD_CAONT_RS_TYPE -> wf_word hs W)) as HW.
  { intros R'. destruct ((T =? AONT_RS_TYPE) || (T =? OLD_CAONT_RS_TYPE))%Z eqn:E.
    - exists (replicate hs Byte.x00). split.
      + unfold memset. rewrite wr_ok by (rewrite Hmal; lens).
        rewrite take_0, drop_ge by (rewrite Hmal; lens). by rewrite app_nil_r.
      + intros _. split; [lens|]. by rewrite drop_replicate.
    - exists []. split; [done|]. by intros [-> | ->]. }
  destruct (HW R) as (W & -> & HWok). cbn [mbind res_bind]. clear HW.
  assert (forall R, exists C, (if (T =? CAONT_RS_TYPE)%Z
            then initSizeConstant abs (malloc 3 abs) else Ok (R := R) []) = Ok C /\
            (T = CAONT_RS_TYPE -> C = sizeConstant abs)) as HCn.
  { intros R'. destruct (Z.eqb_spec T CAONT_RS_TYPE) as [->|Hne].
    - rewrite sizeConstant_init by done. eauto.
    - by exists []. }
  destruct (HCn R) as (C & -> & HCok). cbn [mbind res_bind]. clear HCn.
  destruct (rsMatrix_spec (R := R) k m' (malloc 5 (Z.to_nat n * k)))
    as (D1 & D2 & E1 & E2 & HD2 & HD); [by rewrite Hmal, Hnk|lia|].
  rewrite E1. cbn [mbind res_bind]. rewrite E2. cbn [mbind res_bind].
  eexists. split; [done|]. split.
  - assert (1 < k) as Hk1 by lia.
    constructor; cbn; try done; try (by rewrite Hmal); [|].
    + constructor; cbn; try done; try (by rewrite Hmal).
      * by rewrite Hnk.
      * rewrite Hnk. apply (MDS_ext _ _ (rsCell k m')); [|apply rsCell_MDS; lia].
        intros. symmetry. by apply HD.
    + intros i j Hi Hj. change (D2 !!! (k * i + j)) with (mget k D2 i j). rewrite HD by lia. unfold rsCell. by rewrite decide_True.
  - unfold built; cbn. replace (Z.to_nat n - m') with k by lia.
    split_and!; try done. rewrite Hnk. by apply matOf_eq.
Qed.
End Construct.

(** ** Encoding and decoding through the dispatch *)

Section Dispatch.
Context {GF : GaloisField} {LAWS : GaloisFieldLaws GF} {SSL : OpenSSL}.
Context {bs : nat} {digest : bytes -> bytes} {encipher decipher : bytes -> bytes -> bytes}.

Abbreviation wf := (wf_aont (bs := bs) (digest := digest) (encipher := encipher)
                      (decipher := decipher)).

Definition aont_type (T : Z) : Prop :=
  T = AONT_RS_TYPE \/ T = OLD_CAONT_RS_TYPE \/ T = CAONT_RS_TYPE.

(** The key: random for AONT-RS, the hash of the aligned secret otherwise. *)
Definition keyFor (T : Z) (bps : nat) (rand : nat -> byte) (A : bytes) : bytes :=
  if decide (T = AONT_RS_TYPE) then rand <$> seq 0 bps else digest A.

Definition bodyFor (T : Z) (bps : nat) (K A : bytes) : bytes :=
  if decide (T = CAONT_RS_TYPE) then maskedAll encipher K A
  else maskedWords encipher bps K A (length A / bps).

Definition packageFor (T : Z) (bps : nat) (rand : nat -> byte) (A : bytes) : bytes :=
  package digest (keyFor T bps rand A) (bodyFor T bps (keyFor T bps rand A) A).

Lemma encoding_spec {R} c rand b s B sz0 :
  wf c -> aont_type (CDType_ c) -> enc_pre c b s B ->
  exists o, encoding (R := R) c rand b s B sz0 = Ok o /\
    encodes (bs := bs) (digest := digest) (encipher := encipher) (decipher := decipher)
      c s B (packageFor (CDType_ c) (bytesPerSecretWord_ c) rand (alignedSecret c b s)) o.
Proof.
  intros Hwf HT Hpre. unfold encoding, packageFor, keyFor, bodyFor.
  destruct HT as [HT|[HT|HT]]; rewrite HT; cbn [Z.eqb].
  - by apply aontRSEncoding_spec.
  - by apply caontRSOldEncoding_spec.
  - by apply caontRSEncoding_spec.
Qed.

Lemma keyFor_length c rand A :
  wf c -> length (keyFor (CDType_ c) (bytesPerSecretWord_ c) rand A) = bytesPerSecretWord_ c.
Proof.
  intros Hwf. pose proof (wa_crypto c Hwf). unfold keyFor.
  case_decide; [by rewrite length_fmap, length_seq|apply ok_digest_length].
Qed.

Lemma bodyFor_length c K A s :
  wf c -> length A = alignedSize (bytesPerSecretWord_ c) (k_ c) s ->
  length (bodyFor (CDType_ c) (bytesPerSecretWord_ c) K A) = length A.
Proof.
  intros Hwf HA. pose proof (wa_crypto c Hwf) as HC. pose proof ok_hs_4.
  pose proof (wf_k_pos c (wa_mats c Hwf)).
  assert (length A mod bytesPerSecretWord_ c = 0) as Hm
    by (rewrite HA; apply aligned_mod_bps; lia).
  unfold bodyFor. case_decide.
  - unfold maskedAll. rewrite length_zip_with, ok_encipher_length, sizeConstant_length; [lia|].
    rewrite sizeConstant_length. apply (mod_trans _ _ _ Hm), ok_hs_bs.
  - rewrite maskedWords_length; [by symmetry; apply Nat.Div0.div_exact| |].
    + intros. by eapply index_encipher_length.
    + apply Nat.Div0.mul_div_le.
Qed.

Lemma decoding_spec {R} c s rand A ids sh out :
  wf c -> aont_type (CDType_ c) ->
  length A = alignedSize (bytesPerSecretWord_ c) (k_ c) s ->
  alignedSize (bytesPerSecretWord_ c) (k_ c) s <= alignedSecretBufferSize_ c ->
  good_ids c ids -> s <= length out ->
  holdsShares c (packageFor (CDType_ c) (bytesPerSecretWord_ c) rand A)
    (shareSizeOf (bytesPerSecretWord_ c) (k_ c) s) ids sh ->
  exists o, decoding (R := R) c sh ids (shareSizeOf (bytesPerSecretWord_ c) (k_ c) s) s out
            = Ok o /\
    decodes (bs := bs) (digest := digest) (encipher := encipher) (decipher := decipher)
      c (take s A) out o.
Proof.
  intros Hwf HT HA Ha Hids Ho Hsh. pose proof (wa_crypto c Hwf) as HC.
  pose proof ok_hs_4 as H4. pose proof (wf_k_pos c (wa_mats c Hwf)) as Hk.
  assert (dec_pre (digest := digest) c s (keyFor (CDType_ c) (bytesPerSecretWord_ c) rand A)
    (bodyFor (CDType_ c) (bytesPerSecretWord_ c)
      (keyFor (CDType_ c) (bytesPerSecretWord_ c) rand A) A) ids sh out) as Hpre.
  { constructor; try done; [|by apply keyFor_length]. rewrite <- HA. by eapply bodyFor_length. }
  unfold decoding. unfold keyFor, bodyFor in Hpre.
  destruct HT as [HT|[HT|HT]]; rewrite HT in *; cbn [Z.eqb].
  - by apply (aontRSDecoding_spec c s (rand <$> seq 0 (bytesPerSecretWord_ c)) A).
  - by apply caontRSOldDecoding_spec.
  - apply caontRSDecoding_spec; try done. rewrite HA.
    apply (mod_trans _ (bytesPerSecretWord_ c)); [apply aligned_mod_bps; lia|apply ok_hs_bs].
Qed.

(** A secret of at most 64 KB is always accepted. *)
Lemma aligned_le_max bps k s :
  0 < bps -> 1 < k -> s <= MAX_SECRET_SIZE -> alignedSize bps k s <= MAX_SECRET_SIZE + bps * k.
Proof.
  intros Hb Hk Hs. unfold alignedSize.
  pose proof (Nat.Div0.mul_div_le (s + bps) (bps * k)).
  destruct (Nat.eqb_spec ((s + bps) mod (bps * k)) 0); lia.
Qed.
End Dispatch.

(** ** Claims *)

Section Claims.
Context {GF : GaloisField} {LAWS : GaloisFieldLaws GF} {SSL : OpenSSL}.
Context {bs : nat} {digest : bytes -> bytes} {encipher decipher : bytes -> bytes -> bytes}.

(** Objects built with the same parameters encode a secret alike. *)
Lemma built_shares c c' T n m hs crypto pkg size :
  built c T n m hs crypto -> built c' T n m hs crypto ->
  sharesOf c pkg size = sharesOf c' pkg size.
Proof.
  intros (_ & Hn & _ & Hk & _ & _ & _ & HD) (_ & Hn' & _ & Hk' & _ & _ & _ & HD').
  unfold sharesOf. by rewrite Hn, Hk, HD, Hn', Hk', HD'.
Qed.

Lemma built_holdsShares c c' T n m hs crypto pkg size ids sh rest :
  built c T n m hs crypto -> built c' T n m hs crypto -> good_ids c' ids ->
  size * k_ c' <= length sh ->
  (forall j, j < k_ c' -> blk sh size j = blk (sharesOf c pkg size ++ rest) size (ids !!! j)) ->
  holdsShares c' pkg size ids sh.
Proof.
  intros Hb Hb' (_ & Hl & Hall) Hsh H. split; [done|]. intros j Hj. rewrite H by done.
  rewrite (built_shares c c' T n m hs crypto) by done. apply sharesOf_blk.
  rewrite Forall_lookup in Hall. apply (Hall j), list_lookup_lookup_total_lt. lia.
Qed.

(** C2: the round trip of the dispersal.  For each of AONT-RS, old CAONT-RS
    and CAONT-RS, any valid (n, m, r) with n <= 256, any contents of fresh
    memory and any secret of at most 64 KB: encoding with one new object
    succeeds, and decoding any k distinct shares of the result, in any order,
    with another new object succeeds and restores the secret, without
    touching the rest of the output buffer. *)
Theorem codec_roundtrip (T n m r : Z) (crypto : CryptoPrimitive) (hs : nat)
    (malloc malloc' : nat -> nat -> bytes) (rand : nat -> byte)
    (secret shareBuffer out : bytes) (s shareSize0 : nat) (ids : list nat) :
  mallocOk malloc -> mallocOk malloc' -> aont_params T n m r ->
  CryptoOk crypto hs bs digest encipher decipher ->
  s <= length secret -> s <= MAX_SECRET_SIZE -> s <= length out ->
  shareSizeOf hs (Z.to_nat (n - m)) s * Z.to_nat n <= length shareBuffer ->
  NoDup ids -> length ids = Z.to_nat (n - m) -> Forall (fun i => i < Z.to_nat n) ids ->
  exists c c' c1 shares size,
    new_CDCodec (R := False) malloc true T n m r (Some crypto) = Ok c /\
    new_CDCodec (R := False) malloc' true T n m r (Some crypto) = Ok c' /\
    encoding (R := False) c rand secret s shareBuffer shareSize0
      = Ok (true, c1, shares, size) /\
    forall sh, size * k_ c <= length sh ->
      (forall j, j < k_ c -> blk sh size j = blk shares size (ids !!! j)) ->
      exists c2, decoding (R := False) c' sh ids size s out
                 = Ok (true, c2, take s secret ++ drop s out).
Proof.
  intros Hm1 Hm2 Hp HC Hs Hmax Ho HB Hnd Hl Hall.
  destruct (new_AONT_spec (R := False) malloc T n m r crypto hs Hm1 Hp HC) as (c & E1 & W1 & B1).
  destruct (new_AONT_spec (R := False) malloc' T n m r crypto hs Hm2 Hp HC) as (c' & E2 & W2 & B2).
  pose proof B1 as (HT & Hn & _ & Hk & Hbps & Habs & _).
  pose proof B2 as (HT' & Hn' & _ & Hk' & Hbps' & Habs' & _).
  destruct Hp as [Hty Hmn Hkk _ _]. pose proof (ok_hs_4 : 4 <= hs) as H4.
  assert (k_ c = Z.to_nat (n - m)) as Hkz by lia. assert (k_ c' = Z.to_nat (n - m)) as Hkz' by lia.
  assert (alignedSize hs (Z.to_nat (n - m)) s <= MAX_SECRET_SIZE + hs * (Z.to_nat (n - m)))
    as Ha by (apply aligned_le_max; [lia|lia|done]).
  assert (enc_pre c secret s shareBuffer) as Hep.
  { constructor; rewrite ?Hbps, ?Hkz; [done|rewrite Habs, <- Hk, Hkz; done|by rewrite Hn]. }
  destruct (encoding_spec (R := False) c rand secret s shareBuffer shareSize0 W1)
    as (o & Eo & c1 & -> & _); [by rewrite HT|done|].
  exists c, c', c1. eexists _, _. split; [done|]. split; [done|]. split; [exact Eo|].
  intros sh Hsl Hsh. rewrite Hbps, Hkz, <- Hbps', <- Hkz' in *.
  assert (alignedSecret c secret s = alignedSecret c' secret s) as HA
    by (unfold alignedSecret; congruence).
  rewrite HT, <- HT', HA in Hsh.
  destruct (decoding_spec (R := False) c' s rand (alignedSecret c' secret s) ids sh out W2)
    as (o & Ed & c2 & -> & _).
  - by rewrite HT'.
  - by eapply alignedSecret_length.
  - by rewrite Habs', <- Hk'.
  - split; [done|]. split; [done|]. by rewrite Hn'.
  - done.
  - eapply built_holdsShares; [exact B1|exact B2| | |exact Hsh]; [|done].
    split; [done|]. split; [done|]. by rewrite Hn'.
  - exists c2. rewrite Ed. unfold alignedSecret.
    assert (take s (padded (take s secret) (alignedSize (bytesPerSecretWord_ c') (k_ c') s))
            = take s secret) as ->.
    { replace s with (length (take s secret)) at 1 by (rewrite length_take; lia).
      apply padded_prefix. }
    by rewrite length_take, Nat.min_l by done.
Qed.

Lemma checkParams_bad {R} n m :
  ~ ((0 < m < n) /\ (1 < n - m))%Z -> checkParams (R := R) n m = Exit 1.
Proof.
  intros. unfold checkParams.
  destruct (Z.leb_spec n 0), (Z.leb_spec m 0), (Z.geb_spec m n), (Z.leb_spec (n - m) 1);
    try lia; done.
Qed.


(** C25: convergence.  Two objects built with the same parameters, with any
    history (any contents of their scratch buffers), encode the same secret
    with a convergent scheme (old CAONT-RS, CAONT-RS) into identical shares,
    and both stay well formed: deduplication can work on shares. *)
Theorem codec_convergent (c c' : CDCodec) (T : Z) (n m hs : nat) (crypto : CryptoPrimitive)
    (rand rand' : nat -> byte) (b b' B B' : bytes) (s z z' : nat) :
  built c T n m hs crypto -> built c' T n m hs crypto ->
  wf_aont (bs := bs) (digest := digest) (encipher := encipher) (decipher := decipher) c ->
  wf_aont (bs := bs) (digest := digest) (encipher := encipher) (decipher := decipher) c' ->
  T = OLD_CAONT_RS_TYPE \/ T = CAONT_RS_TYPE ->
  enc_pre c b s B -> enc_pre c' b' s B' -> take s b = take s b' ->
  exists c1 c1' out out' size,
    encoding (R := False) c rand b s B z = Ok (true, c1, out, size) /\
    encoding (R := False) c' rand' b' s B' z' = Ok (true, c1', out', size) /\
    take (size * n) out = take (size * n) out' /\
    wf_aont (bs := bs) (digest := digest) (encipher := encipher) (decipher := decipher) c1 /\
    same_static c c1.
Proof.
  intros Hb Hb' Hw Hw' HT Hp Hp' Heq.
  pose proof Hb as (HTc & Hn & _ & Hk & Hbps & _).
  pose proof Hb' as (HTc' & Hn' & _ & Hk' & Hbps' & _).
  destruct (encoding_spec (R := False) c rand b s B z Hw) as (o & E & c1 & -> & W1 & S1);
    [rewrite HTc; by right|done|].
  destruct (encoding_spec (R := False) c' rand' b' s B' z' Hw') as (o & E' & c1' & -> & _);
    [rewrite HTc'; by right|done|].
  exists c1, c1'. eexists _, _, _. split; [exact E|]. split.
  - by rewrite E', Hbps, Hbps', Hk, Hk'.
  - split; [|done].
    assert (alignedSecret c b s = alignedSecret c' b' s) as HA
      by (unfold alignedSecret; congruence).
    rewrite ?Hbps, ?Hk, ?HTc, ?Hbps', ?Hk', ?HTc', ?HA, ?Hn'.
    rewrite !take_app_length' by (rewrite sharesOf_length; congruence).
    rewrite (built_shares c c' T n m hs crypto) by done. f_equal.
    unfold packageFor, keyFor. by destruct HT as [-> | ->].
Qed.

End Claims.

(** ** Instances

    (4, 1) dispersal with CAONT-RS over GF(256) and the sample primitives. *)

Module CodecWitness.
Import GF256 SampleSSL.

Definition mem (b : byte) : nat -> nat -> bytes := fun _ s => replicate s b.

Lemma mem_ok b : mallocOk (mem b).
Proof. intros i s. apply length_replicate. Qed.

Lemma params_ok : aont_params CAONT_RS_TYPE 4 1 2.
Proof. constructor; [by right; right|lia..]. Qed.

Definition secret : bytes := [Byte.x6d; Byte.x65; Byte.x74; Byte.x61].

Lemma codec_roundtrip_witness :
  exists c c' c1 shares size,
    new_CDCodec (R := False) (mem Byte.x00) true CAONT_RS_TYPE 4 1 2 (Some lowCrypto) = Ok c /\
    new_CDCodec (R := False) (mem Byte.xff) true CAONT_RS_TYPE 4 1 2 (Some lowCrypto) = Ok c' /\
    encoding (R := False) c (fun _ => Byte.x00) secret 4 (replicate 80 Byte.x00) 0
      = Ok (true, c1, shares, size) /\
    forall sh, size * k_ c <= length sh ->
      (forall j, j < k_ c -> blk sh size j = blk shares size ([3; 0; 2] !!! j)) ->
      exists c2, decoding (R := False) c' sh [3; 0; 2] size 4 (replicate 9 Byte.x00)
                 = Ok (true, c2, take 4 secret ++ drop 4 (replicate 9 Byte.x00)).
Proof.
  eapply (codec_roundtrip CAONT_RS_TYPE 4 1 2 lowCrypto 16 (mem Byte.x00) (mem Byte.xff)
           (fun _ => Byte.x00) secret (replicate 80 Byte.x00) (replicate 9 Byte.x00) 4 0 [3; 0; 2]).
  - apply mem_ok.
  - apply mem_ok.
  - apply params_ok.
  - apply lowCrypto_ok.
  - cbn. lia.
  - apply Nat.leb_le. vm_compute. reflexivity.
  - cbn. lia.
  - apply Nat.leb_le. vm_compute. reflexivity.
  - apply (bool_decide_unpack _). vm_compute. exact I.
  - reflexivity.
  - apply (bool_decide_unpack _). vm_compute. exact I.
Defined.


Lemma codec_convergent_witness :
  exists c c1 c1' out out' size,
    new_CDCodec (R := False) (mem Byte.x00) true CAONT_RS_TYPE 4 1 2 (Some lowCrypto) = Ok c /\
    encoding (R := False) c (fun _ => Byte.x00) secret 4 (replicate 80 Byte.x00) 0
      = Ok (true, c1, out, size) /\
    encoding (R := False) c (fun _ => Byte.x01) secret 4 (replicate 80 Byte.xff) 7
      = Ok (true, c1', out', size) /\
    take (size * 4) out = take (size * 4) out'.
Proof.
  destruct (new_AONT_spec (R := False) (mem Byte.x00) CAONT_RS_TYPE 4 1 2 lowCrypto 16
    (mem_ok _) params_ok lowCrypto_ok) as (c & E & W & B).
  pose proof B as (_ & Hn & _ & Hk & Hb & Ha & _).
  assert (forall x, enc_pre c secret 4 (replicate 80 x)) as Hp.
  { intros x. constructor; rewrite ?Hb, ?Hk, ?Ha, ?Hn; apply Nat.leb_le; vm_compute; reflexivity. }
  destruct (codec_convergent c c CAONT_RS_TYPE 4 1 16 lowCrypto (fun _ => Byte.x00)
    (fun _ => Byte.x01) secret secret (replicate 80 Byte.x00) (replicate 80 Byte.xff) 4 0 7
    B B W W (or_intror eq_refl) (Hp _) (Hp _) eq_refl)
    as (c1 & c1' & out & out' & size & E1 & E2 & Ho & _).
  exists c, c1, c1', out, out', size. exact (conj E (conj E1 (conj E2 Ho))).
Defined.


End CodecWitness.
