(* ===== verification/Crsss.v ===== *)
(** * The CRSSS scheme of CDCodec

    The secret is cut into groups of k - r words; every group gets r hashes, and the
    words and hashes of all groups are laid out as k data blocks that Rabin's IDA turns
    into n shares.  Any k shares give the secret back. *)

From stdpp Require Import base list numbers sets.
From coqutil Require Import Byte.
From Stdlib Require Import Lia.
From S2P Require Import Prelude GaloisField LinearAlgebra MatrixInvert CryptoPrimitive CDCodec ErasureCode AontSchemes CodecTheorems.

#[local] Opaque MAX_SECRET_SIZE.

(** ** Words of a buffer *)

Lemma wr_blk {R} dst v dst' bps p :
  wr (R := R) dst (bps * p) v = Ok dst' -> length v = bps ->
  length dst' = length dst /\ forall q, blk dst' bps q = if decide (q = p) then v else blk dst bps q.
Proof.
  intros E Hv. split; [by eapply wr_length|]. intros q. apply list_eq. intros x. destruct (decide (x < bps)) as [Hx|Hx].
  - rewrite blk_lookup, (wr_lookup _ _ _ _ _ E), Hv by done. case_decide as H1; case_decide as H2.
    + subst. f_equal. lia.
    + exfalso. apply H2. nia.
    + subst. exfalso. apply H1. lia.
    + by rewrite blk_lookup.
  - rewrite (lookup_ge_None_2 (blk _ _ _)) by (unfold blk; lens). symmetry. apply lookup_ge_None_2. case_decide; [lia|unfold blk; lens].
Qed.

(** A loop that copies words from [src] to distinct places of [dst] *)
Lemma copyWords {R} bps src cnt (f g : nat -> nat) (body : nat -> bytes -> res R bytes) dst :
  (forall j d, j < cnt -> length d = length dst -> body j d = memcpy d (bps * f j) src (bps * g j) bps) ->
  (forall j, j < cnt -> bps * f j + bps <= length dst /\ bps * g j + bps <= length src) ->
  (forall j j', j < cnt -> j' < cnt -> f j = f j' -> j = j') ->
  exists dst', forN cnt 0 body dst = Ok dst' /\ length dst' = length dst /\
    (forall j, j < cnt -> blk dst' bps (f j) = blk src bps (g j)) /\
    (forall p, (forall j, j < cnt -> p <> f j) -> blk dst' bps p = blk dst bps p).
Proof.
  intros Hb Hr Hi.
  destruct (forN_inv (R := R) (fun i d => length d = length dst /\ (forall j, j < i -> blk d bps (f j) = blk src bps (g j)) /\
    (forall p, (forall j, j < i -> p <> f j) -> blk d bps p = blk dst bps p)) cnt 0 body dst) as (d & E & HP); [| |by exists d].
  - split; [done|]. split; [lia|done].
  - intros i d Hlt (Hl & Hd & Ho). rewrite Hb by lia. destruct (Hr i) as [Hf Hg]; [lia|]. unfold memcpy. rewrite rd_ok by lia. cbn [mbind res_bind].
    assert (length (take bps (drop (bps * g i) src)) = bps) as Hv by (rewrite length_take, length_drop; lia).
    destruct (wr (R := R) d (bps * f i) (take bps (drop (bps * g i) src))) as [d'| | | |] eqn:E;
      [|unfold wr in E; case_decide; [done|]; try done; lia..].
    destruct (wr_blk _ _ _ _ _ E Hv) as [Hl' Hd']. exists d'. split; [done|]. split; [lia|]. split.
    + intros j Hj. rewrite Hd'. case_decide as Hji.
      * apply Hi in Hji; [|lia|lia]. by subst.
      * apply Hd. assert (j <> i) by congruence. lia.
    + intros p Hp. rewrite Hd', decide_False by (apply Hp; lia). apply Ho. intros. apply Hp. lia.
Qed.

(** A group is given by its words. *)
Lemma blk_words (a b : bytes) bps w i : (forall j, j < w -> blk a bps (w * i + j) = blk b bps (w * i + j)) -> blk a (bps * w) i = blk b (bps * w) i.
Proof.
  intros H. unfold blk at 1 2. apply take_blk_eq. intros j Hj. pose proof (H j Hj) as E. unfold blk in *. rewrite !drop_drop.
  replace (bps * w * i + bps * j) with (bps * (w * i + j)) by lia. exact E.
Qed.

Section Crsss.
Context {GF : GaloisField} {LAWS : GaloisFieldLaws GF} {SSL : OpenSSL} {digest : bytes -> bytes}.

Abbreviation HashFor c := (HashOk (cryptoObj_ c) (bytesPerSecretWord_ c) digest).

Record wf_crsss (c : CDCodec) : Prop := {
  wc_type : CDType_ c = CRSSS_TYPE;
  wc_mats : wf_matrices c;
  wc_hash : HashFor c;
  wc_word : 0 < bytesPerSecretWord_ c;
  wc_r : 0 < r_ c;
  wc_w : 0 < secretWordsPerGroup_ c;
  wc_k : secretWordsPerGroup_ c + r_ c = k_ c;
  wc_group : bytesPerGroup_ c = bytesPerSecretWord_ c * secretWordsPerGroup_ c;
  wc_input : length (hashInputBuffer_ c) = bytesPerGroup_ c + 1;
  wc_hashes : length (rHashes_ c) = bytesPerSecretWord_ c * r_ c;
  wc_aligned : length (alignedSecretBuffer_ c) = alignedSecretBufferSize_ c;
  wc_coding : length (erasureCodingData_ c) = erasureCodingDataSize_ c;
  wc_coding_size : erasureCodingDataSize_ c = bytesPerSecretWord_ c * (alignedSecretBufferSize_ c / bytesPerGroup_ c) * k_ c;
}.

(** The word of block [j] that belongs to group [i] *)
Definition crsssWord (c : CDCodec) (A : bytes) (i j : nat) : bytes :=
  if decide (j < secretWordsPerGroup_ c) then blk A (bytesPerSecretWord_ c) (secretWordsPerGroup_ c * i + j)
  else digest (blk A (bytesPerGroup_ c) i ++ [byte.of_Z (Z.of_nat (j - secretWordsPerGroup_ c))]).

(** The hash [j] of a group *)
Lemma groupHash_ok {R} c A i j HR :
  HashFor c -> length HR.1 = bytesPerGroup_ c + 1 -> bytesPerGroup_ c * i + bytesPerGroup_ c <= length A ->
  bytesPerSecretWord_ c * j + bytesPerSecretWord_ c <= length HR.2 ->
  exists HR', groupHash (R := R) c A i j HR = Ok (true, HR') /\ length HR'.1 = bytesPerGroup_ c + 1 /\ length HR'.2 = length HR.2 /\
    forall q, blk HR'.2 (bytesPerSecretWord_ c) q =
      if decide (q = j) then digest (blk A (bytesPerGroup_ c) i ++ [byte.of_Z (Z.of_nat j)]) else blk HR.2 (bytesPerSecretWord_ c) q.
Proof.
  destruct HR as [H0 R0]. cbn [fst snd]. intros HH HL HA HR. unfold groupHash. cbn [fst snd]. rewrite memcpy_ok by lia. cbn [mbind res_bind].
  change (take 0 H0) with (@nil byte). cbn [app].
  set (G := take (bytesPerGroup_ c) (drop (bytesPerGroup_ c * i) A)).
  assert (length G = bytesPerGroup_ c) as LG by (unfold G; rewrite length_take, length_drop; lia).
  rewrite aset_ok by (rewrite length_app, length_drop; lia). cbn [mbind res_bind].
  assert (exists x, drop (0 + bytesPerGroup_ c) H0 = [x]) as [x Ex].
  { assert (length (drop (0 + bytesPerGroup_ c) H0) = 1) as L1 by (rewrite length_drop; lia). destruct (drop _ H0) as [|x [|]]; [done|by exists x|done]. }
  rewrite Ex. rewrite insert_app_r_alt, LG, Nat.sub_diag by lia. cbn [insert list_insert].
  rewrite rd_ok by (rewrite length_app; cbn; lia). cbn [mbind res_bind]. rewrite drop_0, take_ge by (rewrite length_app; cbn; lia).
  unfold hashTo. rewrite hash_generate. cbn [mbind res_bind].
  assert (length (digest (G ++ [byte.of_Z (Z.of_nat j)])) = bytesPerSecretWord_ c) as LD by apply hash_length.
  destruct (wr (R := R) R0 (bytesPerSecretWord_ c * j) (digest (G ++ [byte.of_Z (Z.of_nat j)]))) as [R1| | | |] eqn:E;
    [|unfold wr in E; case_decide; [done|]; try done; lia..].
  destruct (wr_blk _ _ _ _ _ E LD) as [LR HB]. cbn [mbind res_bind]. eexists. split; [reflexivity|]. cbn [fst snd].
  split_and!; [rewrite length_app, LG; done|done|exact HB].
Qed.

(** ** Encoding *)

Section Encode.
Context (c : CDCodec) (W : wf_crsss c) (G : nat).
Abbreviation bps := (bytesPerSecretWord_ c).
Abbreviation w := (secretWordsPerGroup_ c).

Lemma groupHashes_ok {R} A i (fail : bytes * bytes -> R) HR :
  length HR.1 = bytesPerGroup_ c + 1 -> length HR.2 = bps * r_ c -> bytesPerGroup_ c * i + bytesPerGroup_ c <= length A ->
  exists HR', forN (r_ c) 0 (fun j HR => '(ok, HR) ← groupHash c A i j HR; if negb ok then Return (fail HR) else Ok HR) HR = Ok HR' /\
    length HR'.1 = bytesPerGroup_ c + 1 /\ length HR'.2 = bps * r_ c /\
    forall j, j < r_ c -> blk HR'.2 bps j = crsssWord c A i (w + j).
Proof.
  intros L1 L2 HA. destruct (forN_inv (R := R) (fun j HR => length HR.1 = bytesPerGroup_ c + 1 /\ length HR.2 = bps * r_ c /\
    forall j', j' < j -> blk HR.2 bps j' = crsssWord c A i (w + j')) (r_ c) 0
    (fun j HR => '(ok, HR) ← groupHash c A i j HR; if negb ok then Return (fail HR) else Ok HR) HR) as (HR' & E & HP); [split; [done|split; [done|lia]]| |by exists HR'].
  intros j HR1 Hj (H1 & H2 & H3). destruct (groupHash_ok (R := R) c A i j HR1) as (HR2 & -> & K1 & K2 & K3); [apply W|done|done|nia|].
  cbn [mbind res_bind negb]. exists HR2. split; [done|]. split; [done|]. split; [lia|]. intros j' Hj'. rewrite K3. case_decide as Ej.
  - subst. unfold crsssWord. rewrite decide_False by lia. by rewrite Nat.add_comm, Nat.add_sub.
  - apply H3. lia.
Qed.

(** The data blocks with the first [i] groups *)
Definition laidOut (A E : bytes) (i : nat) : Prop :=
  forall i' j, i' < i -> j < k_ c -> blk E bps (G * j + i') = crsssWord c A i' j.

Lemma place_inj i j i' j' : i < G -> i' < G -> G * j + i = G * j' + i' -> j = j' /\ i = i'.
Proof. apply idx_inj. Qed.

Lemma crsssGroup_ok {R} A i fail HRE :
  i < G -> bytesPerGroup_ c * G <= length A -> length HRE.1.1 = bytesPerGroup_ c + 1 -> length HRE.1.2 = bps * r_ c ->
  bps * G * k_ c <= length HRE.2 -> laidOut A HRE.2 i ->
  exists HRE', crsssGroup (R := R) c A (bps * G) i fail HRE = Ok HRE' /\ length HRE'.1.1 = bytesPerGroup_ c + 1 /\ length HRE'.1.2 = bps * r_ c /\
    length HRE'.2 = length HRE.2 /\ laidOut A HRE'.2 (S i).
Proof.
  destruct HRE as [HR E0]. cbn [fst snd]. intros Hi HA L1 L2 LE HO. unfold crsssGroup. cbn [fst snd].
  pose proof (wc_group _ W) as EG. pose proof (wc_k _ W) as EK. pose proof (wc_w _ W) as Hw.
  assert (bytesPerGroup_ c * i + bytesPerGroup_ c <= length A) as HAi by nia.
  destruct (groupHashes_ok (R := R) A i (fun HR => fail HR.1 HR.2 E0) HR L1 L2 HAi) as (HR' & -> & K1 & K2 & K3). cbn [mbind res_bind].
  destruct (copyWords (R := R) bps A w (fun j => G * j + i) (fun j => w * i + j)
    (fun j E => memcpy E (bps * G * j + bps * i) A (bytesPerGroup_ c * i + bps * j) bps) E0) as (E1 & -> & LE1 & M1 & O1).
  { intros j d _ _. rewrite EG. f_equal; lia. }
  { intros j Hj. rewrite EG in HA. nia. }
  { intros j j' _ _ Ej. by apply place_inj in Ej as [? _]. }
  cbn [mbind res_bind].
  destruct (copyWords (R := R) bps HR'.2 (r_ c) (fun j => G * (w + j) + i) (fun j => j)
    (fun j E => memcpy E (bps * G * (w + j) + bps * i) HR'.2 (bps * j) bps) E1) as (E2 & -> & LE2 & M2 & O2).
  { intros j d _ _. f_equal; lia. }
  { intros j Hj. nia. }
  { intros j j' _ _ Ej. apply place_inj in Ej as [? _]; [lia|done|done]. }
  cbn [mbind res_bind]. eexists. split; [reflexivity|]. cbn [fst snd]. split_and!; [done|done|lia|].
  intros i' j Hi' Hj. destruct (decide (i' = i)) as [->|Hne].
  - destruct (decide (j < w)) as [Hjw|Hjw].
    + rewrite O2 by (intros j' Hj' Ej; apply place_inj in Ej as [? _]; lia). rewrite M1 by done. unfold crsssWord. by rewrite decide_True.
    + replace j with (w + (j - w)) by lia. rewrite M2, K3 by lia. done.
  - rewrite O2 by (intros j' Hj' Ej; apply place_inj in Ej as [_ ?]; lia). rewrite O1 by (intros j' Hj' Ej; apply place_inj in Ej as [_ ?]; lia).
    apply HO; lia.
Qed.

Lemma crsssGroups_ok {R} A fail HRE :
  bytesPerGroup_ c * G <= length A -> length HRE.1.1 = bytesPerGroup_ c + 1 -> length HRE.1.2 = bps * r_ c -> bps * G * k_ c <= length HRE.2 ->
  exists HRE', forN G 0 (fun i HRE => crsssGroup (R := R) c A (bps * G) i fail HRE) HRE = Ok HRE' /\
    length HRE'.1.1 = bytesPerGroup_ c + 1 /\ length HRE'.1.2 = bps * r_ c /\ length HRE'.2 = length HRE.2 /\ laidOut A HRE'.2 G.
Proof.
  intros HA L1 L2 LE. destruct (forN_inv (R := R) (fun i HRE' => length HRE'.1.1 = bytesPerGroup_ c + 1 /\ length HRE'.1.2 = bps * r_ c /\
    length HRE'.2 = length HRE.2 /\ laidOut A HRE'.2 i) G 0 (fun i HRE => crsssGroup (R := R) c A (bps * G) i fail HRE) HRE) as (HRE' & E & HP).
  - split_and!; try done. intros i' j Hi'. lia.
  - intros i HRE1 Hi (K1 & K2 & K3 & K4). destruct (crsssGroup_ok (R := R) A i fail HRE1) as (HRE2 & E2 & M1 & M2 & M3 & M4); [lia|done|done|done|lia|done|].
    exists HRE2. split; [exact E2|]. split_and!; try done. lia.
  - by exists HRE'.
Qed.
End Encode.

(** The number of groups of a secret *)
Definition groupsOf (bpg s : nat) : nat := (if (s mod bpg =? 0)%nat then s else bpg * (s / bpg + 1)) / bpg.

Lemma groupsOf_aligned bpg s : 0 < bpg ->
  (if (s mod bpg =? 0)%nat then s else bpg * (s / bpg + 1)) = bpg * groupsOf bpg s /\ s <= bpg * groupsOf bpg s <= s + bpg.
Proof.
  intros Hp. unfold groupsOf. pose proof (Nat.div_mod_eq s bpg) as E. pose proof (Nat.mod_upper_bound s bpg) as U.
  destruct (Nat.eqb_spec (s mod bpg) 0) as [E0|E0].
  - split; lia.
  - rewrite (Nat.mul_comm bpg (s / bpg + 1)), Nat.div_mul by lia. split; nia.
Qed.

Lemma combs_ext k d base rows src src' size : (forall j, j < k -> blk src size j = blk src' size j) -> combs k d base rows src size = combs k d base rows src' size.
Proof. intros H. unfold combs. f_equal. apply list_fmap_ext. intros i j _. by apply comb_ext. Qed.

Lemma laidOut_take c G A E size : size = bytesPerSecretWord_ c * G -> laidOut c G A E G -> laidOut c G A (take (size * k_ c) E) G.
Proof.
  intros -> HO i j Hi Hj. rewrite <- (HO i j Hi Hj). rewrite <- Nat.mul_assoc. apply blk_take. nia.
Qed.

Lemma crsssEncoding_ok {R} c b s B sz0 : let size := bytesPerSecretWord_ c * groupsOf (bytesPerGroup_ c) s in
  wf_crsss c -> s <= length b -> bytesPerGroup_ c * groupsOf (bytesPerGroup_ c) s <= alignedSecretBufferSize_ c -> size * n_ c <= length B ->
  exists c1 A pkg, crsssEncoding (R := R) c b s B sz0 = Ok (true, c1, sharesOf c pkg size ++ drop (size * n_ c) B, size) /\
    length pkg = size * k_ c /\ bytesPerGroup_ c * groupsOf (bytesPerGroup_ c) s <= length A /\ take s A = take s b /\ laidOut c (groupsOf (bytesPerGroup_ c) s) A pkg (groupsOf (bytesPerGroup_ c) s).
Proof.
  intros size W Hs Ha HB. pose proof (wc_group _ W) as EG. pose proof (wc_word _ W) as Hb. pose proof (wc_w _ W) as Hw.
  assert (0 < bytesPerGroup_ c) as Hg by nia. destruct (groupsOf_aligned (bytesPerGroup_ c) s Hg) as (Ea & Hsa & _). set (G := groupsOf (bytesPerGroup_ c) s) in *.
  assert (size * k_ c <= erasureCodingDataSize_ c) as HE.
  { rewrite (wc_coding_size _ W). assert (G <= alignedSecretBufferSize_ c / bytesPerGroup_ c) by (apply Nat.div_le_lower_bound; lia). unfold size.
    by apply Nat.mul_le_mono_r, Nat.mul_le_mono_l. }
  unfold crsssEncoding. rewrite Ea. rewrite (proj2 (Nat.ltb_ge _ _) Ha).
  replace (bytesPerGroup_ c * G / bytesPerGroup_ c) with G by (rewrite Nat.mul_comm, Nat.div_mul; lia). fold size. rewrite (proj2 (Nat.ltb_ge _ _) HE).
  rewrite copyAligned_ok by (rewrite ?(wc_aligned _ W); lia). cbn [mbind res_bind].
  set (A := padded (take s b) (bytesPerGroup_ c * G) ++ drop (bytesPerGroup_ c * G) (alignedSecretBuffer_ c)).
  assert (length A = alignedSecretBufferSize_ c) as LA by (unfold A; rewrite length_app, padded_length, length_drop, (wc_aligned _ W) by lens; lia).
  destruct (crsssGroups_ok (R := bool * CDCodec * bytes * nat) c W G A (fun H r E => (false, set_crsss c H r A E, B, size)) (hashInputBuffer_ c, rHashes_ c, erasureCodingData_ c))
    as ([[H1 R1] E1] & EF & _ & _ & LE & HO); [lia|apply W|apply W|cbn; rewrite (wc_coding _ W); done|].
  fold size in EF. rewrite EF. cbn [mbind res_bind fst snd] in *. rewrite (wc_coding _ W) in LE. pose proof (wc_mats _ W) as M. pose proof (wf_k_pos _ M) as Hk.
  rewrite codeRows_spec by (try (rewrite (wf_dist_len _ M)); lia). cbn [mbind res_bind Nat.add fn]. rewrite Nat.mul_0_r. cbn [take app].
  eexists _, A, (take (size * k_ c) E1). split; [|split_and!].
  - unfold sharesOf. rewrite (combs_ext _ _ _ _ E1 (take (size * k_ c) E1)); [reflexivity|]. intros j Hj. symmetry. by apply blk_take.
  - rewrite length_take. lia.
  - lia.
  - unfold A. assert (s = length (take s b)) as Es by (rewrite length_take; lia).
    rewrite take_app_le by (rewrite padded_length by lens; lia). rewrite Es at 1. apply padded_prefix.
  - by apply laidOut_take.
Qed.

(** ** Decoding *)

Lemma checkGroup_ok {R} c G A E i fail HRA : wf_crsss c -> laidOut c G A E G -> i < G ->
  bytesPerSecretWord_ c * G * k_ c <= length E -> bytesPerGroup_ c * G <= length HRA.2 ->
  length HRA.1.1 = bytesPerGroup_ c + 1 -> length HRA.1.2 = bytesPerSecretWord_ c * r_ c ->
  (forall p, p < secretWordsPerGroup_ c * i -> blk HRA.2 (bytesPerSecretWord_ c) p = blk A (bytesPerSecretWord_ c) p) ->
  exists HRA', crsssCheckGroup (R := R) c E (bytesPerSecretWord_ c * G) i fail HRA = Ok HRA' /\
    length HRA'.1.1 = bytesPerGroup_ c + 1 /\ length HRA'.1.2 = bytesPerSecretWord_ c * r_ c /\ length HRA'.2 = length HRA.2 /\
    forall p, p < secretWordsPerGroup_ c * S i -> blk HRA'.2 (bytesPerSecretWord_ c) p = blk A (bytesPerSecretWord_ c) p.
Proof.
  destruct HRA as [HR A0]. cbn [fst snd]. intros W HO Hi LE LA L1 L2 HA. unfold crsssCheckGroup. cbn [fst snd].
  set (bps := bytesPerSecretWord_ c) in *. set (w := secretWordsPerGroup_ c) in *.
  pose proof (wc_group _ W) as EG. pose proof (wc_k _ W) as EK. fold bps w in EG, EK.
  destruct (copyWords (R := R) bps E w (fun j => w * i + j) (fun j => G * j + i)
    (fun j A => memcpy A (bytesPerGroup_ c * i + bps * j) E (bps * G * j + bps * i) bps) A0) as (A1 & -> & LA1 & M1 & O1).
  { intros j d _ _. rewrite EG. f_equal; lia. }
  { intros j Hj. rewrite EG in LA. nia. }
  { intros. lia. }
  cbn [mbind res_bind].
  assert (forall j, j < w -> blk A1 bps (w * i + j) = blk A bps (w * i + j)) as HW.
  { intros j Hj. rewrite M1 by done. etrans; [apply (HO i j Hi); lia|]. unfold crsssWord. by rewrite decide_True. }
  assert (blk A1 (bytesPerGroup_ c) i = blk A (bytesPerGroup_ c) i) as HG by (rewrite EG; by apply blk_words).
  destruct (forN_inv (R := R) (fun _ HR => length HR.1 = bytesPerGroup_ c + 1 /\ length HR.2 = bps * r_ c) (r_ c) 0 (fun j HR =>
         '(ok, HR) ← groupHash c A1 i j HR;
         if negb ok then Return (fail (fst HR) (snd HR) A1)
         else
           stored ← rd E (bps * G * (w + j) + bps * i) bps;
           h ← rd (snd HR) (bps * j) bps;
           if decide (stored = h) then Ok HR
           else Return (fail (fst HR) (snd HR) A1)) HR) as (HR' & -> & K1 & K2); [done| |].
  - intros j HR1 Hj [H1 H2]. destruct (groupHash_ok (R := R) c A1 i j HR1) as (HR2 & -> & K1 & K2 & K3); [apply W|done|nia|unfold bps in *; nia|].
    cbn [mbind res_bind negb]. rewrite rd_ok by nia. cbn [mbind res_bind]. rewrite rd_ok by (unfold bps in *; nia). cbn [mbind res_bind].
    rewrite decide_True; [exists HR2; split; [done|]; split; [done|lia]|].
    change (take bps (drop (bps * j) HR2.2)) with (blk HR2.2 bps j). etrans; [|symmetry; apply K3]. rewrite decide_True by done.
    replace (bps * G * (w + j) + bps * i) with (bps * (G * (w + j) + i)) by lia. change (blk E bps (G * (w + j) + i) = digest (blk A1 (bytesPerGroup_ c) i ++ [byte.of_Z (Z.of_nat j)])).
    etrans; [apply (HO i (w + j)); lia|]. unfold crsssWord. fold w. rewrite decide_False by lia. rewrite HG. do 4 f_equal. lia.
  - cbn [mbind res_bind]. eexists. split; [reflexivity|]. cbn [fst snd]. split_and!; try done. intros p Hp.
    destruct (decide (p < w * i)) as [Hlt|Hge].
    + rewrite O1 by (intros; lia). by apply HA.
    + replace p with (w * i + (p - w * i)) by lia. apply HW. lia.
Qed.

Lemma wf_crsss_decoded c SV E : wf_crsss c -> length SV.1 = k_ c * k_ c -> length SV.2 = k_ c * k_ c -> length E = erasureCodingDataSize_ c ->
  wf_crsss (set_bufs (set_mats c SV) (key_ c) (alignedSecretBuffer_ c) (wordForIndex_ c) E).
Proof. intros [? [? ? ? ? ? ?] ? ? ? ? ? ? ? ? ? ? ?] L1 L2 LE. by split. Qed.

Lemma crsssDecoding_ok {R} c G A pkg ids sh s out : let size := bytesPerSecretWord_ c * G in
  wf_crsss c -> laidOut c G A pkg G -> length pkg = size * k_ c -> s <= bytesPerGroup_ c * G <= alignedSecretBufferSize_ c -> s <= length out ->
  NoDup ids -> length ids = k_ c -> Forall (fun i => i < n_ c) ids -> holdsShares c pkg size ids sh ->
  exists c2, crsssDecoding (R := R) c sh ids size s out = Ok (true, c2, take s A ++ drop s out).
Proof.
  intros size W HO Lp [Hs Ha] Ho Hnd Hl Hall Hsh. pose proof (wc_group _ W) as EG. pose proof (wc_word _ W) as Hb. pose proof (wc_w _ W) as Hw.
  assert (0 < bytesPerGroup_ c) as Hg by nia.
  assert (size * k_ c <= erasureCodingDataSize_ c) as HE.
  { rewrite (wc_coding_size _ W). assert (G <= alignedSecretBufferSize_ c / bytesPerGroup_ c) by (apply Nat.div_le_lower_bound; lia). unfold size.
    by apply Nat.mul_le_mono_r, Nat.mul_le_mono_l. }
  unfold crsssDecoding. replace (size mod bytesPerSecretWord_ c) with 0 by (unfold size; rewrite Nat.mul_comm, Nat.Div0.mod_mul; done).
  replace (size / bytesPerSecretWord_ c) with G by (unfold size; rewrite Nat.mul_comm, Nat.div_mul; lia). cbn [Nat.eqb negb].
  rewrite (proj2 (Nat.ltb_ge _ _) HE), (proj2 (Nat.ltb_ge _ _) Ha), (proj2 (Nat.ltb_ge _ _) Hs).
  destruct (rsDecode_spec (R := decOut) c pkg size ids sh) as (SV & S1 & S2 & ->); [apply W|done|done|done|done|done|rewrite (wc_coding _ W); lia|].
  cbn [mbind res_bind negb].
  set (E := pkg ++ drop (size * k_ c) (erasureCodingData_ c)).
  assert (length E = erasureCodingDataSize_ c) as LE by (unfold E; rewrite length_app, length_drop, (wc_coding _ W); lia).
  set (c' := set_bufs _ _ _ _ E). pose proof (wf_crsss_decoded c SV E W S1 S2 LE : wf_crsss c') as W'.
  assert (laidOut c' G A E G) as HO'.
  { intros i j Hi Hj. etrans; [|exact (HO i j Hi Hj)]. change (k_ c') with (k_ c) in Hj. change (bytesPerSecretWord_ c') with (bytesPerSecretWord_ c).
    rewrite <- (blk_take E _ (G * k_ c)) by nia. f_equal. unfold E. rewrite take_app_length' by (unfold size in Lp; lia). done. }
  destruct (forN_inv (R := decOut) (fun i HRA => length HRA.1.1 = bytesPerGroup_ c + 1 /\ length HRA.1.2 = bytesPerSecretWord_ c * r_ c /\
    length HRA.2 = alignedSecretBufferSize_ c /\ forall p, p < secretWordsPerGroup_ c * i -> blk HRA.2 (bytesPerSecretWord_ c) p = blk A (bytesPerSecretWord_ c) p) G 0
    (fun i HRA => crsssCheckGroup c' E size i (fun H r A => (false, set_crsss c' H r A E, out)) HRA)
    (hashInputBuffer_ c, rHashes_ c, alignedSecretBuffer_ c)) as ([[H1 R1] A1] & EF & _ & _ & LA & HA).
  { split_and!; [apply W|apply W|apply W|lia]. }
  { intros i HRA Hi (K1 & K2 & K3 & K4).
    destruct (checkGroup_ok (R := decOut) c' G A E i (fun H r A => (false, set_crsss c' H r A E, out)) HRA W' HO') as (HRA' & E1 & M1 & M2 & M3 & M4);
      [lia|cbn; fold size; lia|cbn; lia|done|done|done|]. exists HRA'. split; [exact E1|]. split_and!; [done|done|lia|done]. }
  change (erasureCodingData_ c') with E. change (hashInputBuffer_ c') with (hashInputBuffer_ c). change (rHashes_ c') with (rHashes_ c).
  change (alignedSecretBuffer_ c') with (alignedSecretBuffer_ c). rewrite EF. cbn [mbind res_bind]. cbn [snd] in LA, HA.
  rewrite memcpy_ok by lia. cbn [mbind res_bind fn]. eexists. rewrite drop_0. cbn [take app Nat.add].
  assert (take (bytesPerSecretWord_ c * (secretWordsPerGroup_ c * G)) A1 = take (bytesPerSecretWord_ c * (secretWordsPerGroup_ c * G)) A) as ET by by apply take_blk_eq.
  apply (f_equal (take s)) in ET. rewrite !take_take, !Nat.min_l in ET by nia. rewrite ET. reflexivity.
Qed.

(** ** Construction *)

Lemma new_CRSSS_ok {R} malloc n m r crypto hs :
  mallocOk malloc -> (0 < m < n)%Z -> (1 < n - m)%Z -> (0 < r < n - m)%Z -> (n + (n - m) <= 256)%Z ->
  HashOk crypto hs digest -> 0 < hs -> (forall R, getHashSize (R := R) crypto = Ok (Z.of_nat hs)) ->
  let k := Z.to_nat (n - m) in let w := k - Z.to_nat r in
  exists c, new_CDCodec (R := R) malloc true CRSSS_TYPE n m r (Some crypto) = Ok c /\ wf_crsss c /\
    n_ c = Z.to_nat n /\ k_ c = k /\ bytesPerSecretWord_ c = hs /\ secretWordsPerGroup_ c = w /\ bytesPerGroup_ c = hs * w /\
    alignedSecretBufferSize_ c = MAX_SECRET_SIZE + hs * w /\ distributionMatrix_ c = matOf (Z.to_nat n) k (idaCell (Z.to_nat n)).
Proof.
  intros Hmal Hm Hk Hr Hn HH Hhs EH k w. unfold new_CDCodec. cbn [Z.eqb CRSSS_TYPE]. unfold new_CRSSS. rewrite checkParams_ok by done. cbn [mbind res_bind].
  assert (((r <=? 0) || (r >=? n - m))%Z = false) as -> by (apply orb_false_iff; split; [apply Z.leb_gt; lia|rewrite Z.geb_leb; apply Z.leb_gt; lia]).
  rewrite EH. cbn [mbind res_bind]. rewrite Nat2Z.id. fold k. fold w.
  destruct (idaMatrix_spec (R := R) k (Z.to_nat n) (malloc 4 (Z.to_nat n * k))) as (D & ED & LD & HD); [by rewrite Hmal|lia|].
  rewrite ED. cbn [mbind res_bind negb]. eexists. split; [reflexivity|]. split.
  - assert (1 < k) as Hk1 by lia. split; cbn; try done; try (by rewrite Hmal); try lia.
    split; cbn; try done; try (by rewrite Hmal); [lia|]. apply (MDS_ext _ _ (idaCell (Z.to_nat n))); [intros; symmetry; by apply HD|apply idaCell_MDS; lia].
  - cbn. split_and!; try done. by apply matOf_eq.
Qed.

(** ** The round trip *)

(** Objects of the same parameters lay out words alike. *)
Lemma laidOut_same c c' G A E i : bytesPerSecretWord_ c' = bytesPerSecretWord_ c -> secretWordsPerGroup_ c' = secretWordsPerGroup_ c ->
  bytesPerGroup_ c' = bytesPerGroup_ c -> k_ c' = k_ c -> laidOut c G A E i -> laidOut c' G A E i.
Proof. intros E1 E2 E3 E4 HO i' j Hi Hj. rewrite E4 in Hj. rewrite E1, (HO i' j Hi Hj). unfold crsssWord. by rewrite E1, E2, E3. Qed.

(** C23: the round trip of CRSSS.  For any valid (n, m, r) with 2n - m <= 256, any contents
    of fresh memory and any secret of at most 64 KB: encoding with one new object succeeds,
    and decoding any k distinct shares of the result, in any order, with another new object
    finds all hashes right and restores the secret, without touching the rest of the output
    buffer. *)
Theorem crsss_roundtrip (n m r : Z) (crypto : CryptoPrimitive) (hs : nat) (malloc malloc' : nat -> nat -> bytes) (rand : nat -> byte)
    (secret shareBuffer out : bytes) (s shareSize0 : nat) (ids : list nat) :
  mallocOk malloc -> mallocOk malloc' -> (0 < m < n)%Z -> (1 < n - m)%Z -> (0 < r < n - m)%Z -> (n + (n - m) <= 256)%Z ->
  HashOk crypto hs digest -> 0 < hs -> (forall R, getHashSize (R := R) crypto = Ok (Z.of_nat hs)) ->
  s <= length secret -> s <= MAX_SECRET_SIZE -> s <= length out ->
  hs * groupsOf (hs * (Z.to_nat (n - m) - Z.to_nat r)) s * Z.to_nat n <= length shareBuffer ->
  NoDup ids -> length ids = Z.to_nat (n - m) -> Forall (fun i => i < Z.to_nat n) ids ->
  exists c c' c1 shares size,
    new_CDCodec (R := False) malloc true CRSSS_TYPE n m r (Some crypto) = Ok c /\
    new_CDCodec (R := False) malloc' true CRSSS_TYPE n m r (Some crypto) = Ok c' /\
    encoding (R := False) c rand secret s shareBuffer shareSize0 = Ok (true, c1, shares, size) /\
    forall sh, size * k_ c <= length sh -> (forall j, j < k_ c -> blk sh size j = blk shares size (ids !!! j)) ->
      exists c2, decoding (R := False) c' sh ids size s out = Ok (true, c2, take s secret ++ drop s out).
Proof.
  intros Hm1 Hm2 Hm Hk Hr Hn HH Hhs EH Hs Hmax Ho HB Hnd Hl Hall.
  destruct (new_CRSSS_ok (R := False) malloc n m r crypto hs Hm1 Hm Hk Hr Hn HH Hhs EH) as (c & E1 & W1 & N1 & K1 & B1 & S1 & P1 & A1 & D1).
  destruct (new_CRSSS_ok (R := False) malloc' n m r crypto hs Hm2 Hm Hk Hr Hn HH Hhs EH) as (c' & E2 & W2 & N2 & K2 & B2 & S2 & P2 & A2 & D2).
  assert (0 < bytesPerGroup_ c) as Hg by (rewrite P1; nia).
  destruct (groupsOf_aligned (bytesPerGroup_ c) s Hg) as (_ & Hsa & Ha). rewrite <- P1, <- B1, <- N1 in HB. rewrite <- P1 in A1.
  destruct (crsssEncoding_ok (R := False) c secret s shareBuffer shareSize0 W1 Hs ltac:(lia) HB) as (c1 & A & pkg & EE & LP & LA & EA & HO).
  set (G := groupsOf (bytesPerGroup_ c) s) in *. exists c, c', c1. eexists _, _. split; [exact E1|]. split; [exact E2|].
  split; [unfold encoding; rewrite (wc_type _ W1); exact EE|]. intros sh Hsl Hsh. unfold decoding. rewrite (wc_type _ W2). cbn [Z.eqb CRSSS_TYPE].
  rewrite <- EA. assert (bytesPerSecretWord_ c = bytesPerSecretWord_ c') as EB by congruence. rewrite EB in *.
  apply (crsssDecoding_ok c' G A pkg ids sh s out W2).
  - apply (laidOut_same c); congruence || done.
  - rewrite K2, <- K1. exact LP.
  - rewrite P2, A2, <- P1. lia.
  - done.
  - done.
  - congruence.
  - by rewrite N2.
  - split; [by rewrite K2, <- K1|]. intros j Hj. rewrite K2, <- K1 in Hj. rewrite (Hsh j Hj), sharesOf_blk.
    + unfold shareOf. congruence.
    + rewrite N1. apply (proj1 (list.Forall_lookup _ _) Hall j), list_lookup_lookup_total_lt. lia.
Qed.
End Crsss.

(** A (4, 1) dispersal with one hash for every two words *)
Module CrsssWitness.
Import GF256 SampleSSL CodecWitness.

Lemma lowHash : HashOk lowCrypto 16 (EVP_Digest EVP_md5).
Proof. split; [intros R d; apply (ok_generateHash (CryptoOk := lowCrypto_ok))|intros d; apply (ok_digest_length (CryptoOk := lowCrypto_ok))]. Qed.

Lemma crsss_roundtrip_witness :
  exists c c' c1 shares size,
    new_CDCodec (R := False) (mem Byte.x00) true CRSSS_TYPE 4 1 1 (Some lowCrypto) = Ok c /\
    new_CDCodec (R := False) (mem Byte.xff) true CRSSS_TYPE 4 1 1 (Some lowCrypto) = Ok c' /\
    encoding (R := False) c (fun _ => Byte.x00) secret 4 (replicate 64 Byte.x00) 0 = Ok (true, c1, shares, size) /\
    forall sh, size * k_ c <= length sh -> (forall j, j < k_ c -> blk sh size j = blk shares size ([3; 0; 2] !!! j)) ->
      exists c2, decoding (R := False) c' sh [3; 0; 2] size 4 (replicate 9 Byte.x00) = Ok (true, c2, take 4 secret ++ drop 4 (replicate 9 Byte.x00)).
Proof.
  apply (crsss_roundtrip (digest := EVP_Digest EVP_md5) 4 1 1 lowCrypto 16 (mem Byte.x00) (mem Byte.xff) (fun _ => Byte.x00) secret (replicate 64 Byte.x00) (replicate 9 Byte.x00) 4 0 [3; 0; 2]).
  - apply mem_ok.
  - apply mem_ok.
  - lia.
  - lia.
  - lia.
  - lia.
  - exact lowHash.
  - lia.
  - reflexivity.
  - cbn. lia.
  - apply Nat.leb_le. vm_compute. reflexivity.
  - cbn. lia.
  - apply Nat.leb_le. vm_compute. reflexivity.
  - apply (bool_decide_unpack _). vm_compute. exact I.
  - reflexivity.
  - apply (bool_decide_unpack _). vm_compute. exact I.
Defined.
End CrsssWitness.
