(* ===== verification/Chunker.v ===== *)
(** * Chunker

    client/chunking/chunker.cc: division of a buffer into fixed-size chunks or,
    with a rolling hash, into content-defined chunks.  The C++ ints are
    integers whose additions are checked for overflow ([sint]), the [uint32_t]
    fingerprints wrap around ([u32]), and every array access is checked.  The
    theorems relate the code to a reference chunker that recomputes the
    polynomial hash of every window. *)

From stdpp Require Import base list numbers.
From coqutil Require Import Byte.
From Stdlib Require Import Lia.
From S2P Require Import Prelude.

Local Open Scope Z_scope.

(** ** Array accesses *)

(** [b[i]] and [b[i] = x] with an [int] index. *)
Definition zget {R A} (b : list A) (i : Z) : res R A :=
  if decide (0 <= i) then aget b (Z.to_nat i) else UB.
Definition zset {R A} (b : list A) (i : Z) (x : A) : res R (list A) :=
  if decide (0 <= i) then aset b (Z.to_nat i) x else UB.

(** ** The object *)

Definition FIX_SIZE_TYPE : bool := false.
Definition VAR_SIZE_TYPE : bool := true.

(** Members a constructor branch leaves uninitialised (those of the
    variable-size chunker, for a fixed-size one) are 0 or empty and not read. *)
Record Chunker := {
  chunkerType_ : bool;
  avgChunkSize_ : Z;
  minChunkSize_ : Z;
  maxChunkSize_ : Z;
  slidingWinSize_ : Z;
  polyBase_ : Z;
  polyMOD_ : Z;
  powerLUT_ : list Z;
  removeLUT_ : list Z;
  anchorMask_ : Z;
  anchorValue_ : Z;
}.

(** ** Constructor *)

(** [powerLUT_\[i\] = (powerLUT_\[i - 1\] * polyBase_) & (polyMOD_ - 1)] *)
Definition initPowerLUT {R} (win : Z) (base md : Z) (lut : list Z) : res R (list Z) :=
  lut ← aset lut 0 1;
  forN (Z.to_nat win - 1) 1 (fun i lut =>
    p ← aget lut (i - 1);
    aset lut i (Z.land (u32 (p * base)) (md - 1))) lut.

(** [removeLUT_\[i\] = (- i * powerLUT_\[slidingWinSize_ - 1\]) mod polyMOD_] *)
Definition initRemoveLUT {R} (win md : Z) (power lut : list Z) : res R (list Z) :=
  forN 256 0 (fun i lut =>
    p ← zget power (win - 1);
    let v := Z.land (u32 (Z.of_nat i * p)) (md - 1) in
    lut ← aset lut i v;
    if v =? 0 then Ok lut else aset lut i (u32 (md - v))) lut.

(** [while ((avgChunkSize_ >> numOfMaskBits) != 1) numOfMaskBits++] from
    [nb]; a shift by 32 or more is undefined, so [32 - nb] rounds are enough. *)
Fixpoint maskBits {R} (fuel : nat) (avg nb : Z) : res R Z :=
  match fuel with
  | O => UB
  | S fuel' => if Z.shiftr avg nb =? 1 then Ok nb else maskBits fuel' avg (nb + 1)
  end.

(** [malloc i size] is the content of the [i]-th table allocated. *)
Definition new_Chunker {R} (malloc : nat -> nat -> list Z) (chunkerType : bool)
    (avgChunkSize minChunkSize maxChunkSize slidingWinSize : Z) : res R Chunker :=
  if eqb chunkerType FIX_SIZE_TYPE then
    Ok {| chunkerType_ := chunkerType; avgChunkSize_ := avgChunkSize; minChunkSize_ := 0;
          maxChunkSize_ := 0; slidingWinSize_ := 0; polyBase_ := 0; polyMOD_ := 0;
          powerLUT_ := []; removeLUT_ := []; anchorMask_ := 0; anchorValue_ := 0 |}
  else if minChunkSize >=? avgChunkSize then Exit 1
  else if maxChunkSize <=? avgChunkSize then Exit 1
  else
    let base := 257 in
    let md := 2 ^ 23 in
    power ← initPowerLUT slidingWinSize base md (malloc 0%nat (Z.to_nat slidingWinSize));
    remove ← initRemoveLUT slidingWinSize md power (malloc 1%nat 256%nat);
    nb ← maskBits 31 avgChunkSize 1;
    mask ← sint (2 ^ nb - 1);
    Ok {| chunkerType_ := chunkerType; avgChunkSize_ := avgChunkSize;
          minChunkSize_ := minChunkSize; maxChunkSize_ := maxChunkSize;
          slidingWinSize_ := slidingWinSize; polyBase_ := base; polyMOD_ := md;
          powerLUT_ := power; removeLUT_ := remove; anchorMask_ := mask; anchorValue_ := 0 |}.

(** ** Chunking *)

(** The tail of the buffer, the same in both chunkers. *)
Definition tailChunk {R} (bufferSize : Z) (ends : list Z) (num : nat) : res R (list Z * nat) :=
  tail ← (if (num =? 0)%nat then Ok true
          else last ← aget ends (num - 1); Ok (negb (last =? bufferSize - 1)));
  if (tail : bool) then ends ← aset ends num (bufferSize - 1); Ok (ends, S num)
  else Ok (ends, num).

(** The loop over [chunkEndIndex], [chunkEndIndexList] and [*numOfChunks].
    Each round writes the next cell of [chunkEndIndexList], so it makes at most
    as many rounds as the list has cells before it leaves the list. *)
Fixpoint fixLoop {R} (fuel : nat) (c : Chunker) (bufferSize chunkEndIndex : Z)
    (ends : list Z) (num : nat) : res R (list Z * nat) :=
  match fuel with
  | O => UB
  | S fuel' =>
      if chunkEndIndex <? bufferSize then
        ends ← aset ends num chunkEndIndex;
        next ← sint (chunkEndIndex + avgChunkSize_ c);
        fixLoop fuel' c bufferSize next ends (S num)
      else Ok (ends, num)
  end.

Definition fixSizeChunking {R} (c : Chunker) (buffer : bytes) (bufferSize : Z) (ends : list Z)
  : res R (list Z * nat) :=
  first ← sint (-1 + avgChunkSize_ c);
  '(ends, num) ← fixLoop (S (length ends)) c bufferSize first ends 0;
  tailChunk bufferSize ends num.

(** The fingerprint of the window that ends at [chunkEndIndex]. *)
Definition firstFp {R} (c : Chunker) (buffer : bytes) (chunkEndIndex : Z) : res R Z :=
  fp ← forN (Z.to_nat (slidingWinSize_ c)) 0 (fun i fp =>
         b ← zget buffer (chunkEndIndex - Z.of_nat i);
         p ← aget (powerLUT_ c) i;
         Ok (u32 (fp + Z.land (u32 (byte.unsigned b * p)) (polyMOD_ c - 1)))) 0;
  Ok (Z.land fp (polyMOD_ c - 1)).

(** One step of the rolling hash. *)
Definition rollFp {R} (c : Chunker) (buffer : bytes) (chunkEndIndex winFp : Z) : res R Z :=
  old ← zget buffer (chunkEndIndex - slidingWinSize_ c);
  r ← aget (removeLUT_ c) (Z.to_nat (byte.unsigned old));
  new ← zget buffer chunkEndIndex;
  Ok (Z.land (u32 (u32 (u32 (winFp + r) * polyBase_ c) + byte.unsigned new)) (polyMOD_ c - 1)).

(** The inner loop: move the window forward until it is an anchor or the limit
    is reached; [fuel] is the distance to the limit. *)
Fixpoint findAnchor {R} (fuel : nat) (c : Chunker) (buffer : bytes) (limit chunkEndIndex winFp : Z)
  : res R Z :=
  if negb (Z.land winFp (anchorMask_ c) =? anchorValue_ c) && (chunkEndIndex <? limit) then
    match fuel with
    | O => UB
    | S fuel' =>
        fp ← rollFp c buffer (chunkEndIndex + 1) winFp;
        findAnchor fuel' c buffer limit (chunkEndIndex + 1) fp
    end
  else Ok chunkEndIndex.

Fixpoint varLoop {R} (fuel : nat) (c : Chunker) (buffer : bytes)
    (bufferSize chunkEndIndex chunkEndIndexLimit : Z) (ends : list Z) (num : nat)
  : res R (list Z * nat) :=
  match fuel with
  | O => UB
  | S fuel' =>
      if chunkEndIndex <? bufferSize then
        let limit := if chunkEndIndexLimit >=? bufferSize then bufferSize - 1
                     else chunkEndIndexLimit in
        winFp ← firstFp c buffer chunkEndIndex;
        e ← findAnchor (Z.to_nat (limit - chunkEndIndex)) c buffer limit chunkEndIndex winFp;
        ends ← aset ends num e;
        next ← sint (e + minChunkSize_ c);
        nextLimit ← sint (e + maxChunkSize_ c);
        varLoop fuel' c buffer bufferSize next nextLimit ends (S num)
      else Ok (ends, num)
  end.

Definition varSizeChunking {R} (c : Chunker) (buffer : bytes) (bufferSize : Z) (ends : list Z)
  : res R (list Z * nat) :=
  first ← sint (-1 + minChunkSize_ c);
  firstLimit ← sint (-1 + maxChunkSize_ c);
  '(ends, num) ← varLoop (S (length ends)) c buffer bufferSize first firstLimit ends 0;
  tailChunk bufferSize ends num.

(** [chunking(buffer, bufferSize, chunkEndIndexList, numOfChunks)]: the new
    contents of [chunkEndIndexList] and [*numOfChunks]. *)
Definition chunking {R} (c : Chunker) (buffer : bytes) (bufferSize : Z) (ends : list Z)
  : res R (list Z * nat) :=
  if eqb (chunkerType_ c) FIX_SIZE_TYPE then fixSizeChunking c buffer bufferSize ends
  else varSizeChunking c buffer bufferSize ends.

(** ** Arithmetic modulo 2^23 *)

Abbreviation M23 := (2 ^ 23).

(** Congruence modulo [polyMOD_]; the wrap-around of [uint32_t] respects it. *)
Inductive eqm23 (x y : Z) : Prop :=
| eqm23_intro : x mod M23 = y mod M23 -> eqm23 x y.

Local Notation "x ≡23 y" := (eqm23 x y) (at level 70).

Lemma eqm_iff x y : x ≡23 y <-> x mod M23 = y mod M23.
Proof. split; [by intros []|apply eqm23_intro]. Qed.

#[export] Instance eqm23_equiv : Equivalence eqm23.
Proof.
  split.
  - intros x. by apply eqm_iff.
  - intros x y. rewrite !eqm_iff. done.
  - intros x y z. rewrite !eqm_iff. congruence.
Qed.

#[export] Instance eqm23_add : Proper (eqm23 ==> eqm23 ==> eqm23) Z.add.
Proof. intros x x' Hx y y' Hy. rewrite !eqm_iff in *. by apply Zdiv.Zplus_eqm. Qed.

#[export] Instance eqm23_mul : Proper (eqm23 ==> eqm23 ==> eqm23) Z.mul.
Proof. intros x x' Hx y y' Hy. rewrite !eqm_iff in *. by apply Zdiv.Zmult_eqm. Qed.

Lemma u32_eqm x : u32 x ≡23 x.
Proof. apply eqm_iff. unfold u32. apply Z.mod_mod_divide. by exists (2 ^ 9). Qed.

Lemma land_mask x : Z.land x (M23 - 1) = x mod M23.
Proof. apply (Z.land_ones x 23). lia. Qed.

Lemma mod_eqm x : x mod M23 ≡23 x.
Proof. apply eqm_iff. by rewrite Z.mod_mod by lia. Qed.

(** ** The reference chunker *)

(** f 0 + ... + f (n - 1) *)
Fixpoint zsum (n : nat) (f : nat -> Z) : Z :=
  match n with O => 0 | S n' => zsum n' f + f n' end.

(** The polynomial hash of the [win] bytes that end at index [e]. *)
Definition windowHash (win : nat) (data : bytes) (e : nat) : Z :=
  zsum win (fun i => byte.unsigned (data !!! (e - i)%nat) * 257 ^ Z.of_nat i) mod M23.

Lemma zsum_ext n f g : (forall i, (i < n)%nat -> f i = g i) -> zsum n f = zsum n g.
Proof. induction n as [|n IH]; intros H; cbn; [done|]. rewrite IH, H by eauto. done. Qed.

(** Horner's rule: drop the oldest term, shift, add a new one. *)
Lemma zsum_shift n f : zsum (S n) f = f O + zsum n (fun i => f (S i)).
Proof. induction n as [|n IH]; [cbn; lia|]. cbn [zsum] in *. lia. Qed.

Lemma zsum_scale n c f : zsum n (fun i => c * f i) = c * zsum n f.
Proof. induction n as [|n IH]; cbn; lia. Qed.

Lemma zsum_roll n (b : nat -> Z) e :
  (S n <= S e)%nat ->
  zsum (S n) (fun i => b (S e - i)%nat * 257 ^ Z.of_nat i)
  = (zsum (S n) (fun i => b (e - i)%nat * 257 ^ Z.of_nat i)
     - b (e - n)%nat * 257 ^ Z.of_nat n) * 257 + b (S e).
Proof.
  intros He. rewrite zsum_shift, Nat.sub_0_r.
  rewrite (zsum_ext n (fun i => b (S e - S i)%nat * 257 ^ Z.of_nat (S i))
             (fun i => 257 * (b (e - i)%nat * 257 ^ Z.of_nat i))).
  2: { intros i Hi. rewrite Nat.sub_succ, Nat2Z.inj_succ, Z.pow_succ_r by lia. lia. }
  rewrite zsum_scale. cbn [zsum]. change (257 ^ Z.of_nat 0) with 1. lia.
Qed.

(** Is the window an anchor? *)
Definition isAnchor (c : Chunker) (h : Z) : bool := Z.land h (anchorMask_ c) =? anchorValue_ c.

(** The first index from [e] on whose window is an anchor, at most [n] further. *)
Fixpoint refSearch (c : Chunker) (win n : nat) (data : bytes) (e : nat) : nat :=
  if isAnchor c (windowHash win data e) then e
  else match n with O => e | S n' => refSearch c win n' data (S e) end.

(** The size of the first chunk of [rest], which has at least [mn] bytes. *)
Definition cut (c : Chunker) (win mn mx : nat) (rest : bytes) : nat :=
  S (refSearch c win (Nat.min mx (length rest) - mn) rest (mn - 1)).

(** The sizes of the chunks, without the tail of less than [mn] bytes. *)
Fixpoint cuts (fuel : nat) (c : Chunker) (win mn mx : nat) (rest : bytes) : list nat :=
  match fuel with
  | O => []
  | S fuel' =>
      if (length rest <? mn)%nat then []
      else cut c win mn mx rest :: cuts fuel' c win mn mx (drop (cut c win mn mx rest) rest)
  end.

(** All chunk sizes; an empty buffer has one empty chunk. *)
Definition refSizes (c : Chunker) (win mn mx : nat) (data : bytes) : list nat :=
  let l := cuts (length data) c win mn mx data in
  if decide (l <> [] /\ sum_list l = length data) then l
  else l ++ [(length data - sum_list l)%nat].

(** End indices of consecutive chunks from position [start]. *)
Fixpoint endsFrom (start : nat) (sizes : list nat) : list Z :=
  match sizes with
  | [] => []
  | n :: l => Z.of_nat (start + n) - 1 :: endsFrom (start + n) l
  end.

(** ** The tables the constructor builds *)

(** A chunker built by the VAR_SIZE branch, with a window inside the smallest chunk. *)
Record wf_chunker (c : Chunker) (win mn mx : nat) : Prop := {
  wc_type : chunkerType_ c = VAR_SIZE_TYPE;
  wc_win : slidingWinSize_ c = Z.of_nat win;
  wc_win_pos : (0 < win)%nat;
  wc_min : minChunkSize_ c = Z.of_nat mn;
  wc_max : maxChunkSize_ c = Z.of_nat mx;
  wc_win_min : (win <= mn)%nat;
  wc_min_max : (mn <= mx)%nat;
  wc_base : polyBase_ c = 257;
  wc_mod : polyMOD_ c = M23;
  wc_power : forall i, (i < win)%nat ->
    powerLUT_ c !! i = Some (257 ^ Z.of_nat i mod M23);
  wc_remove : forall i, (i < 256)%nat ->
    removeLUT_ c !! i = Some ((- (Z.of_nat i * 257 ^ Z.of_nat (win - 1))) mod M23);
}.

Lemma zget_ok {R A} (b : list A) (i : nat) x : b !! i = Some x -> zget (R := R) b (Z.of_nat i) = Ok x.
Proof. intros H. unfold zget. rewrite decide_True by lia. rewrite Nat2Z.id. by apply aget_ok. Qed.

Lemma lookup_total_ok {A} `{Inhabited A} (b : list A) i :
  (i < length b)%nat -> b !! i = Some (b !!! i).
Proof. intros. by apply list_lookup_lookup_total_lt. Qed.

Section Rolling.
Context (c : Chunker) (win mn mx : nat) (Hwf : wf_chunker c win mn mx).

Lemma firstFp_spec {R} buffer e :
  (win <= S e)%nat -> (e < length buffer)%nat ->
  firstFp (R := R) c buffer (Z.of_nat e) = Ok (windowHash win buffer e).
Proof.
  intros Hw He. unfold firstFp. rewrite (wc_win _ _ _ _ Hwf), Nat2Z.id, (wc_mod _ _ _ _ Hwf).
  match goal with |- context [forN win 0 ?b ?s] =>
    destruct (forN_inv (R := R) (fun i fp =>
      fp ≡23 zsum i (fun i => byte.unsigned (buffer !!! (e - i)%nat) * 257 ^ Z.of_nat i))
      win 0 b s) as (fp & -> & Hfp) end.
  - reflexivity.
  - intros i fp Hi Hfp. replace (Z.of_nat e - Z.of_nat i) with (Z.of_nat (e - i)) by lia.
    rewrite (zget_ok _ _ (buffer !!! (e - i)%nat)) by (apply lookup_total_ok; lia).
    cbn [mbind res_bind]. rewrite (aget_ok _ _ _ (wc_power _ _ _ _ Hwf i ltac:(lia))).
    cbn [mbind res_bind]. eexists. split; [done|]. cbn [zsum].
    rewrite u32_eqm, land_mask, mod_eqm, u32_eqm, mod_eqm. by rewrite Hfp.
  - cbn [mbind res_bind Nat.add]. rewrite land_mask. f_equal. unfold windowHash. apply eqm_iff in Hfp. exact Hfp.
Qed.

Lemma rollFp_spec {R} buffer e :
  (win <= S e)%nat -> (S e < length buffer)%nat ->
  rollFp (R := R) c buffer (Z.of_nat (S e)) (windowHash win buffer e)
  = Ok (windowHash win buffer (S e)).
Proof.
  intros Hw He. pose proof (wc_win_pos _ _ _ _ Hwf) as Hpos.
  unfold rollFp. rewrite (wc_win _ _ _ _ Hwf), (wc_mod _ _ _ _ Hwf), (wc_base _ _ _ _ Hwf).
  replace (Z.of_nat (S e) - Z.of_nat win) with (Z.of_nat (e - (win - 1))) by lia.
  rewrite (zget_ok buffer (e - (win - 1)) (buffer !!! (e - (win - 1))%nat)) by (apply lookup_total_ok; lia).
  cbn [mbind res_bind]. set (old := buffer !!! (e - (win - 1))%nat).
  pose proof (byte.unsigned_range old).
  rewrite (aget_ok _ _ _ (wc_remove _ _ _ _ Hwf (Z.to_nat (byte.unsigned old)) ltac:(lia))).
  cbn [mbind res_bind]. rewrite Z2Nat.id by lia.
  rewrite (zget_ok buffer (S e) (buffer !!! S e)) by (apply lookup_total_ok; lia).
  cbn [mbind res_bind]. f_equal. rewrite land_mask. unfold windowHash at 2. apply (proj1 (eqm_iff _ _)).
  rewrite u32_eqm, u32_eqm, u32_eqm, mod_eqm. unfold windowHash. rewrite mod_eqm.
  replace win with (S (win - 1)) at 3 by lia.
  rewrite (zsum_roll (win - 1) (fun i => byte.unsigned (buffer !!! i))) by lia.
  replace (S (win - 1)) with win by lia. fold old. apply (proj2 (eqm_iff _ _)). by f_equal.
Qed.
End Rolling.

Section Chunks.
Context (c : Chunker) (win mn mx : nat) (Hwf : wf_chunker c win mn mx).

Lemma refSearch_range n data e : (e <= refSearch c win n data e <= e + n)%nat.
Proof.
  revert e. induction n as [|n IH]; intros e; cbn [refSearch]; destruct (isAnchor _ _); try lia.
  specialize (IH (S e)). lia.
Qed.

Lemma cut_range rest :
  (mn <= length rest)%nat ->
  (mn <= cut c win mn mx rest <= mx)%nat /\ (cut c win mn mx rest <= length rest)%nat.
Proof.
  intros H. unfold cut. destruct Hwf.
  pose proof (refSearch_range (Nat.min mx (length rest) - mn) rest (mn - 1)). lia.
Qed.

(** The reference search only looks at the chunk itself: it can be done on the
    whole buffer. *)
Lemma windowHash_drop data p e :
  (win <= S e)%nat -> windowHash win (drop p data) e = windowHash win data (p + e).
Proof.
  intros H. unfold windowHash. f_equal. apply zsum_ext. intros i Hi.
  rewrite list_lookup_total_alt, lookup_drop, <- list_lookup_total_alt.
  do 4 f_equal. lia.
Qed.

Lemma refSearch_drop n data p e :
  (win <= S e)%nat -> (p + refSearch c win n (drop p data) e)%nat = refSearch c win n data (p + e).
Proof.
  revert e. induction n as [|n IH]; intros e He; cbn [refSearch]; rewrite windowHash_drop by done;
    destruct (isAnchor _ _); try done.
  rewrite IH by lia. f_equal. lia.
Qed.

Lemma windowHash_app data slack e :
  (e < length data)%nat -> windowHash win (data ++ slack) e = windowHash win data e.
Proof.
  intros H. unfold windowHash. f_equal. apply zsum_ext. intros i Hi.
  by rewrite lookup_total_app_l by lia.
Qed.

Lemma findAnchor_spec {R} data slack n e :
  (win <= S e)%nat -> (e + n < length data)%nat ->
  findAnchor (R := R) n c (data ++ slack) (Z.of_nat (e + n)) (Z.of_nat e) (windowHash win data e)
  = Ok (Z.of_nat (refSearch c win n data e)).
Proof.
  revert e. induction n as [|n IH]; intros e Hw He; cbn [findAnchor refSearch];
    fold (isAnchor c (windowHash win data e)); destruct (isAnchor _ _); cbn [negb andb]; try done.
  - by rewrite (proj2 (Z.ltb_ge _ _)) by lia.
  - rewrite (proj2 (Z.ltb_lt _ _)) by lia.
    replace (Z.of_nat e + 1) with (Z.of_nat (S e)) by lia.
    rewrite <- (windowHash_app data slack e) by lia.
    rewrite (rollFp_spec c win mn mx Hwf) by (rewrite ?length_app; lia). cbn [mbind res_bind].
    rewrite windowHash_app by lia. replace (e + S n)%nat with (S e + n)%nat by lia.
    apply IH; lia.
Qed.

Lemma endsFrom_length p l : length (endsFrom p l) = length l.
Proof. revert p. induction l as [|n l IH]; intros p; cbn; [done|]. by rewrite IH. Qed.

(** The main loop writes the ends of the reference chunks. *)
Lemma varLoop_spec {R} fuel k data slack p ends num :
  (p <= length data)%nat -> (length data - p <= k)%nat ->
  Z.of_nat (length data + mx) < 2 ^ 31 ->
  let l := cuts k c win mn mx (drop p data) in
  (num + length l <= length ends)%nat -> (length l < fuel)%nat ->
  varLoop (R := R) fuel c (data ++ slack) (Z.of_nat (length data))
    (Z.of_nat (p + mn) - 1) (Z.of_nat (p + mx) - 1) ends num
  = Ok (take num ends ++ endsFrom p l ++ drop (num + length l) ends, (num + length l)%nat).
Proof.
  revert k p ends num. induction fuel as [|fuel IH]; intros k p ends num Hp Hk Hov l Hl Hf; [lia|].
  cbn [varLoop]. pose proof Hwf as [_ Hwin Hpos Hmn Hmx Hwm Hmm _ _ _ _].
  assert (l = if (length (drop p data) <? mn)%nat then []
              else cut c win mn mx (drop p data)
                   :: cuts (k - 1) c win mn mx (drop (cut c win mn mx (drop p data)) (drop p data)))
    as El.
  { unfold l. destruct k as [|k]; cbn [cuts]; [|by rewrite Nat.sub_succ, Nat.sub_0_r].
    by rewrite (proj2 (Nat.ltb_lt _ _)) by (rewrite length_drop; lia). }
  rewrite length_drop in El. destruct (Nat.ltb_spec (length data - p) mn) as [Hlt|Hge].
  - rewrite El in *. rewrite (proj2 (Z.ltb_ge _ _)) by lia.
    cbn [length endsFrom app]. by rewrite Nat.add_0_r, take_drop.
  - rewrite (proj2 (Z.ltb_lt _ _)) by lia.
    set (m := Nat.min mx (length data - p)).
    assert ((if Z.of_nat (p + mx) - 1 >=? Z.of_nat (length data) then Z.of_nat (length data) - 1
             else Z.of_nat (p + mx) - 1) = Z.of_nat (p + mn - 1 + (m - mn))) as ->.
    { destruct (Z.geb_spec (Z.of_nat (p + mx) - 1) (Z.of_nat (length data))); lia. }
    replace (Z.of_nat (p + mn) - 1) with (Z.of_nat (p + mn - 1)) by lia.
    rewrite (firstFp_spec c win mn mx Hwf) by (rewrite ?length_app; lia). cbn [mbind res_bind].
    rewrite windowHash_app by lia.
    replace (Z.to_nat (Z.of_nat (p + mn - 1 + (m - mn)) - Z.of_nat (p + mn - 1)))%nat
      with (m - mn)%nat by lia.
    rewrite findAnchor_spec by lia. cbn [mbind res_bind].
    replace (p + mn - 1)%nat with (p + (mn - 1))%nat by lia.
    rewrite <- refSearch_drop by lia.
    pose proof (cut_range (drop p data)) as Hcr. rewrite length_drop in Hcr.
    assert (refSearch c win (m - mn) (drop p data) (mn - 1)
            = (cut c win mn mx (drop p data) - 1)%nat) as ->.
    { unfold cut. rewrite length_drop. fold m. lia. }
    set (n := cut c win mn mx (drop p data)) in *. destruct (Hcr Hge) as [Hn Hn'].
    rewrite El in Hl, Hf |- *. cbn [length endsFrom] in *.
    rewrite aset_ok by lia. cbn [mbind res_bind].
    rewrite Hmn, Hmx, !sint_ok by lia. cbn [mbind res_bind].
    replace (Z.of_nat (p + (n - 1)) + Z.of_nat mn) with (Z.of_nat (p + n + mn) - 1) by lia.
    replace (Z.of_nat (p + (n - 1)) + Z.of_nat mx) with (Z.of_nat (p + n + mx) - 1) by lia.
    rewrite drop_drop in Hl, Hf |- *.
    rewrite (IH (k - 1)%nat) by (rewrite ?length_insert; lia).
    f_equal. f_equal; [|lia].
    replace (Z.of_nat (p + (n - 1))) with (Z.of_nat (p + n) - 1) by lia.
    rewrite (take_S_r (<[num:=Z.of_nat (p + n) - 1]> ends) num (Z.of_nat (p + n) - 1))
      by (apply list_lookup_insert_eq; lia).
    rewrite take_insert_ge, drop_insert_lt by lia. rewrite <- app_assoc. cbn [app]. do 3 f_equal. f_equal. lia.
Qed.

Lemma endsFrom_app p l1 l2 : endsFrom p (l1 ++ l2) = endsFrom p l1 ++ endsFrom (p + sum_list l1) l2.
Proof.
  revert p. induction l1 as [|n l IH]; intros p; cbn; [by rewrite Nat.add_0_r|].
  rewrite IH. do 3 f_equal. lia.
Qed.

Lemma endsFrom_last p l n :
  endsFrom p (l ++ [n]) !! length l = Some (Z.of_nat (p + sum_list l + n) - 1).
Proof.
  rewrite endsFrom_app, lookup_app_r by (by rewrite endsFrom_length).
  by rewrite endsFrom_length, Nat.sub_diag.
Qed.

Lemma sum_list_app l1 l2 : sum_list (l1 ++ l2) = (sum_list l1 + sum_list l2)%nat.
Proof. apply sum_list_with_app. Qed.

Lemma sum_list_cons (n : nat) l : sum_list (n :: l) = (n + sum_list l)%nat.
Proof. done. Qed.

Lemma cuts_sum k rest : (sum_list (cuts k c win mn mx rest) <= length rest)%nat.
Proof.
  revert rest. induction k as [|k IH]; intros rest; cbn [cuts]; [cbn; lia|].
  destruct (Nat.ltb_spec (length rest) mn); [cbn; lia|]. rewrite sum_list_cons.
  pose proof (cut_range rest ltac:(lia)). specialize (IH (drop (cut c win mn mx rest) rest)).
  rewrite length_drop in IH. lia.
Qed.

Lemma cuts_sizes k rest : Forall (fun n => mn <= n <= mx)%nat (cuts k c win mn mx rest).
Proof.
  revert rest. induction k as [|k IH]; intros rest; cbn [cuts]; [constructor|].
  destruct (Nat.ltb_spec (length rest) mn); constructor; [|apply IH].
  by apply cut_range.
Qed.

(** What is left when no chunk of [mn] bytes fits any more. *)
Lemma cuts_rest k rest :
  (length rest <= k)%nat -> (length rest - sum_list (cuts k c win mn mx rest) < mn)%nat.
Proof.
  pose proof (wc_win_pos _ _ _ _ Hwf). pose proof (wc_win_min _ _ _ _ Hwf).
  revert rest. induction k as [|k IH]; intros rest Hk; cbn [cuts]; [cbn; lia|].
  destruct (Nat.ltb_spec (length rest) mn); [cbn; lia|]. rewrite sum_list_cons.
  pose proof (cut_range rest ltac:(lia)). specialize (IH (drop (cut c win mn mx rest) rest)).
  rewrite length_drop in IH. lia.
Qed.

Lemma tailChunk_spec {R} (data : bytes) l rest :
  (sum_list l <= length data)%nat -> (length l < length (endsFrom 0 l ++ rest))%nat ->
  let sizes := if decide (l <> [] /\ sum_list l = length data) then l
               else l ++ [(length data - sum_list l)%nat] in
  tailChunk (R := R) (Z.of_nat (length data)) (endsFrom 0 l ++ rest) (length l)
  = Ok (endsFrom 0 sizes ++ drop (length sizes - length l) rest, length sizes).
Proof.
  intros Hs Hl sizes. unfold tailChunk.
  assert ((if (length l =? 0)%nat then Ok (R := R) true
           else last ← aget (endsFrom 0 l ++ rest) (length l - 1);
                Ok (negb (last =? Z.of_nat (length data) - 1)))
          = Ok (negb (bool_decide (l <> [] /\ sum_list l = length data)))) as ->.
  { destruct l as [|n l _] using rev_ind.
    - by rewrite bool_decide_false by (by intros []).
    - rewrite length_app. cbn [length]. rewrite Nat.add_1_r. cbn [Nat.eqb].
      rewrite (aget_ok _ _ (Z.of_nat (0 + sum_list l + n) - 1)).
      2: { rewrite Nat.sub_succ, Nat.sub_0_r, lookup_app_l; [apply endsFrom_last|].
           rewrite endsFrom_length, length_app. cbn. lia. }
      cbn [mbind res_bind Nat.add].
      replace (sum_list (l ++ [n])) with (sum_list l + n)%nat
        by (rewrite sum_list_app, sum_list_cons; cbn; lia).
      destruct (Z.eqb_spec (Z.of_nat (sum_list l + n) - 1) (Z.of_nat (length data) - 1)) as [E|E];
        cbn [negb].
      + rewrite bool_decide_true; [done|]. split; [by destruct l|lia].
      + by rewrite bool_decide_false by lia. }
  cbn [mbind res_bind]. unfold sizes. rewrite bool_decide_decide.
  case_decide as Hd; cbn [negb]; [by rewrite Nat.sub_diag|].
  rewrite aset_ok by done. cbn [mbind res_bind]. rewrite length_app, Nat.add_1_r.
  f_equal. f_equal. rewrite endsFrom_app. cbn [endsFrom Nat.add].
  rewrite length_app, endsFrom_length in Hl. destruct rest as [|x rest]; [cbn in Hl; lia|].
  rewrite insert_app_r_alt by (by rewrite endsFrom_length).
  rewrite endsFrom_length, Nat.sub_diag. cbn [insert list_insert length].
  replace (S (length l) - length l)%nat with 1%nat by lia. cbn [drop].
  rewrite drop_0, <- app_assoc. cbn [app]. do 3 f_equal. lia.
Qed.
End Chunks.

Section VarSize.
Context (c : Chunker) (win mn mx : nat) (Hwf : wf_chunker c win mn mx).

Lemma cuts_length k rest : (length (cuts k c win mn mx rest) * mn <= length rest)%nat.
Proof.
  pose proof (cuts_sum c win mn mx Hwf k rest) as Hs.
  pose proof (cuts_sizes c win mn mx Hwf k rest) as Hf.
  enough (length (cuts k c win mn mx rest) * mn <= sum_list (cuts k c win mn mx rest))%nat by lia.
  clear Hs. induction Hf as [|n l [Hn _] Hf IH]; [done|]. rewrite sum_list_cons. cbn [length]. lia.
Qed.

(** Room for the ends of the chunks of [n] bytes. *)
Definition enough_room (n : nat) (ends : list Z) : Prop := (n / mn < length ends)%nat.

Lemma varSizeChunking_spec {R} data slack ends :
  Z.of_nat (length data + mx) < 2 ^ 31 -> enough_room (length data) ends ->
  let sizes := refSizes c win mn mx data in
  varSizeChunking (R := R) c (data ++ slack) (Z.of_nat (length data)) ends
  = Ok (endsFrom 0 sizes ++ drop (length sizes) ends, length sizes).
Proof.
  intros Hov Hroom sizes. unfold varSizeChunking.
  pose proof Hwf as [_ _ Hpos Hmn Hmx Hwm Hmm _ _ _ _].
  rewrite Hmn, Hmx, !sint_ok by lia. cbn [mbind res_bind].
  set (l := cuts (length data) c win mn mx data).
  assert (length l < length ends)%nat as Hl.
  { eapply Nat.le_lt_trans; [|exact Hroom]. apply Nat.div_le_lower_bound; [lia|].
    rewrite Nat.mul_comm. apply cuts_length. }
  replace (-1 + Z.of_nat mn) with (Z.of_nat (0 + mn) - 1) by lia.
  replace (-1 + Z.of_nat mx) with (Z.of_nat (0 + mx) - 1) by lia.
  rewrite (varLoop_spec c win mn mx Hwf _ (length data)) by (rewrite ?drop_0; fold l; lia).
  rewrite drop_0, take_0. fold l. cbn [mbind res_bind app Nat.add].
  rewrite tailChunk_spec;
    [|by apply cuts_sum|rewrite length_app, endsFrom_length, length_drop; lia].
  change (if decide (l <> [] /\ sum_list l = length data) then l
          else l ++ [(length data - sum_list l)%nat]) with sizes.
  rewrite drop_drop. do 3 f_equal.
  assert (length l <= length sizes)%nat; [|f_equal; lia].
  unfold sizes, refSizes. fold l. case_decide; rewrite ?length_app; lia.
Qed.

(** The reference chunks are a partition of the data, within the size limits. *)
Lemma refSizes_sum data : sum_list (refSizes c win mn mx data) = length data.
Proof.
  unfold refSizes. pose proof (cuts_sum c win mn mx Hwf (length data) data).
  case_decide as H1; [by destruct H1|]. rewrite sum_list_app, sum_list_cons. cbn. lia.
Qed.

Lemma refSizes_shape data :
  exists l n, refSizes c win mn mx data = l ++ [n] /\
    Forall (fun n => mn <= n <= mx)%nat l /\ (n <= mx)%nat /\ (data <> [] -> 0 < n)%nat.
Proof.
  pose proof (cuts_sizes c win mn mx Hwf (length data) data) as Hf.
  pose proof (cuts_rest c win mn mx Hwf (length data) data (Nat.le_refl _)) as Hr.
  pose proof (cuts_sum c win mn mx Hwf (length data) data) as Hs.
  pose proof Hwf as [_ _ Hpos _ _ Hwm Hmm _ _ _ _].
  unfold refSizes. case_decide as Hd.
  - destruct Hd as [Hne _]. destruct (cuts _ _ _ _ _ _) as [|n l _] using rev_ind; [done|].
    apply Forall_app in Hf as [Hf Hn]. apply Forall_inv in Hn. cbn beta in Hn.
    exists l, n. split; [done|]. split; [done|]. split; [lia|]. intros _. lia.
  - eexists _, _. split; [done|]. split; [done|]. split; [lia|]. intros Hne.
    destruct (decide (cuts (length data) c win mn mx data = [])) as [E|E].
    + rewrite E. cbn. destruct data; [done|]. cbn. lia.
    + assert (sum_list (cuts (length data) c win mn mx data) <> length data)%nat by tauto. lia.
Qed.

(** *** Resynchronisation *)

Lemma cuts_fuel k k' rest :
  (length rest <= k)%nat -> (length rest <= k')%nat ->
  cuts k c win mn mx rest = cuts k' c win mn mx rest.
Proof.
  pose proof Hwf as [_ _ Hpos _ _ Hwm _ _ _ _ _].
  revert k' rest. induction k as [|k IH]; intros k' rest Hk Hk'.
  - destruct k' as [|k']; cbn [cuts]; [done|]. by rewrite (proj2 (Nat.ltb_lt _ _)) by lia.
  - destruct k' as [|k']; cbn [cuts]; [by rewrite (proj2 (Nat.ltb_lt _ _)) by lia|].
    destruct (Nat.ltb_spec (length rest) mn); [done|]. f_equal.
    pose proof (cut_range c win mn mx Hwf rest ltac:(lia)). apply IH; rewrite length_drop; lia.
Qed.

(** The reference chunker, one chunk at a time. *)
Lemma refSizes_unfold data :
  refSizes c win mn mx data
  = if (length data <? mn)%nat then [length data]
    else cut c win mn mx data ::
         (if decide (drop (cut c win mn mx data) data = []) then []
          else refSizes c win mn mx (drop (cut c win mn mx data) data)).
Proof.
  pose proof Hwf as [_ _ Hpos _ _ Hwm _ _ _ _ _]. unfold refSizes at 1.
  destruct (Nat.ltb_spec (length data) mn) as [Hlt|Hge].
  - assert (cuts (length data) c win mn mx data = []) as ->.
    { destruct (length data) eqn:E; cbn [cuts]; [done|].
      by rewrite (proj2 (Nat.ltb_lt _ _)) by lia. }
    rewrite decide_False by (by intros []). by rewrite Nat.sub_0_r.
  - pose proof (cut_range c win mn mx Hwf data Hge) as [Hc1 Hc2].
    set (n := cut c win mn mx data) in *. set (d := drop n data).
    assert (length d = length data - n)%nat as Hd by apply length_drop.
    assert (cuts (length data) c win mn mx data = n :: cuts (length d) c win mn mx d) as ->.
    { destruct (length data) as [|k] eqn:E; cbn [cuts]; [lia|].
      rewrite E, (proj2 (Nat.ltb_ge _ _)) by lia. f_equal. apply cuts_fuel; [fold d|]; lia. }
    rewrite sum_list_cons. pose proof (cuts_sum c win mn mx Hwf (length d) d) as Hs.
    destruct (decide (d = [])) as [E|Hne].
    + assert (length d = 0)%nat as Hd0 by by rewrite E.
      rewrite Hd0 in Hs |- *. cbn [cuts]. rewrite decide_True; [done|].
      split; [done|]. change (sum_list []) with 0%nat. lia.
    + assert (0 < length d)%nat by (destruct d; [done|cbn; lia]).
      unfold refSizes. set (l := cuts (length d) c win mn mx d) in *.
      destruct (decide (n :: l <> [] /\ n + sum_list l = length data)%nat) as [[_ H1]|H1].
      * rewrite decide_True; [done|]. split; [|lia]. intros El.
        rewrite El in H1. change (sum_list []) with 0%nat in H1. lia.
      * rewrite decide_False; [rewrite <- app_comm_cons; do 3 f_equal; lia|]. intros [_ H2]. apply H1.
        split; [done|lia].
Qed.

(** Once a chunk boundary is at the start of [t], what precedes is forgotten. *)
Lemma refSizes_resync x t s r :
  t <> [] -> refSizes c win mn mx (x ++ t) = s ++ r -> sum_list s = length x ->
  r = refSizes c win mn mx t.
Proof.
  pose proof Hwf as [_ _ Hpos _ _ Hwm _ _ _ _ _]. intros Ht.
  assert (0 < length t)%nat as Hl by (destruct t; [done|cbn; lia]).
  revert x. induction s as [|n s IH]; intros x E Hs.
  - destruct x; [done|]. cbn in Hs. lia.
  - rewrite sum_list_cons in Hs. rewrite refSizes_unfold in E. rewrite length_app in E.
    destruct (Nat.ltb_spec (length x + length t) mn) as [Hlt|Hge].
    + cbn in E. simplify_eq. lia.
    + cbn [app] in E. injection E as En E. rewrite <- En in *.
      set (n' := cut c win mn mx (x ++ t)) in *.
      assert (drop n' (x ++ t) = drop n' x ++ t) as Hd by (apply drop_app_le; lia).
      rewrite Hd in E. rewrite decide_False in E by (by intros [_ ?]%app_eq_nil).
      apply (IH (drop n' x)); [done|]. rewrite length_drop. lia.
Qed.
End VarSize.

Lemma endsFrom_inj p l l' : endsFrom p l = endsFrom p l' -> l = l'.
Proof.
  revert p l'. induction l as [|n l IH]; intros p [|n' l'] H; cbn in H; try discriminate; [done|].
  injection H as Hn Hl. assert (n = n') as -> by lia. f_equal. by apply (IH (p + n')%nat).
Qed.

(** ** The constructor *)

Lemma initPowerLUT_spec {R} (win : nat) lut :
  (0 < win)%nat -> length lut = win ->
  exists lut', initPowerLUT (R := R) (Z.of_nat win) 257 M23 lut = Ok lut' /\
    length lut' = win /\
    forall i, (i < win)%nat -> lut' !! i = Some (257 ^ Z.of_nat i mod M23).
Proof.
  intros Hw Hl. unfold initPowerLUT. rewrite aset_ok by lia. cbn [mbind res_bind].
  rewrite Nat2Z.id.
  match goal with |- context [forN _ 1 ?b ?s] =>
    destruct (forN_inv (R := R) (fun n lut' => length lut' = win /\
      forall i, (i < n)%nat -> lut' !! i = Some (257 ^ Z.of_nat i mod M23)) (win - 1) 1 b s)
      as (lut' & -> & Hl' & H) end.
  - split; [by rewrite length_insert|]. intros i Hi. replace i with 0%nat by lia.
    by rewrite list_lookup_insert_eq by lia.
  - intros i lut' Hi [Hl' H]. rewrite (aget_ok _ _ _ (H (i - 1)%nat ltac:(lia))).
    cbn [mbind res_bind]. rewrite aset_ok by lia. eexists. split; [done|].
    split; [by rewrite length_insert|]. intros j Hj.
    destruct (decide (j = i)) as [->|Hne].
    + rewrite list_lookup_insert_eq by lia. f_equal. rewrite land_mask.
      apply (proj1 (eqm_iff _ _)). rewrite u32_eqm, mod_eqm.
      replace (Z.of_nat i) with (Z.succ (Z.of_nat (i - 1))) by lia.
      by rewrite Z.pow_succ_r, Z.mul_comm by lia.
    + rewrite list_lookup_insert_ne by done. apply H. lia.
  - exists lut'. split; [done|]. split; [done|]. intros i Hi. apply H. lia.
Qed.

Lemma initRemoveLUT_spec {R} (win : nat) power lut :
  (0 < win)%nat -> length lut = 256%nat ->
  power !! (win - 1)%nat = Some (257 ^ Z.of_nat (win - 1) mod M23) ->
  exists lut', initRemoveLUT (R := R) (Z.of_nat win) M23 power lut = Ok lut' /\
    forall i, (i < 256)%nat ->
      lut' !! i = Some ((- (Z.of_nat i * 257 ^ Z.of_nat (win - 1))) mod M23).
Proof.
  intros Hw Hl Hp. unfold initRemoveLUT.
  match goal with |- context [forN 256 0 ?b ?s] =>
    destruct (forN_inv (R := R) (fun n lut' => length lut' = 256%nat /\
      forall i, (i < n)%nat ->
        lut' !! i = Some ((- (Z.of_nat i * 257 ^ Z.of_nat (win - 1))) mod M23)) 256 0 b s)
      as (lut' & E & Hl' & H) end.
  - split; [done|]. lia.
  - intros i lut' Hi [Hl' H].
    replace (Z.of_nat win - 1) with (Z.of_nat (win - 1)) by lia.
    rewrite (zget_ok _ _ _ Hp). cbn [mbind res_bind]. rewrite aset_ok by lia. cbn [mbind res_bind].
    set (x := Z.of_nat i * 257 ^ Z.of_nat (win - 1)).
    assert (Z.land (u32 (Z.of_nat i * (257 ^ Z.of_nat (win - 1) mod M23))) (M23 - 1) = x mod M23)
      as ->.
    { rewrite land_mask. apply (proj1 (eqm_iff _ _)). by rewrite u32_eqm, mod_eqm. }
    assert (0 <= x mod M23 < M23) as Hx by (apply Z.mod_pos_bound; lia).
    assert (forall v lut1, v = (- x) mod M23 -> length lut1 = 256%nat ->
      (forall j, (j < i)%nat -> lut1 !! j = lut' !! j) -> lut1 !! i = Some v ->
      length lut1 = 256%nat /\ forall j, (j < S i)%nat ->
        lut1 !! j = Some ((- (Z.of_nat j * 257 ^ Z.of_nat (win - 1))) mod M23)) as Hdone.
    { intros v lut1 -> Hl1 Hlo Hi1. split; [done|]. intros j Hj.
      destruct (decide (j = i)) as [->|]; [done|]. rewrite Hlo, H by lia. done. }
    destruct (Z.eqb_spec (x mod M23) 0) as [E|E].
    + eexists. split; [done|]. apply (Hdone (x mod M23)).
      * by rewrite Z.mod_opp_l_z by lia.
      * by rewrite length_insert.
      * intros j Hj. by rewrite list_lookup_insert_ne by lia.
      * by rewrite list_lookup_insert_eq by lia.
    + rewrite aset_ok by (rewrite length_insert; lia). eexists. split; [done|].
      apply (Hdone (u32 (M23 - x mod M23))).
      * rewrite Z.mod_opp_l_nz by lia. unfold u32. apply Z.mod_small. lia.
      * by rewrite !length_insert.
      * intros j Hj. by rewrite !list_lookup_insert_ne by lia.
      * by rewrite list_lookup_insert_eq by (rewrite length_insert; lia).
  - rewrite E. exists lut'. split; [done|]. intros i Hi. apply H. lia.
Qed.

(** The mask has as many bits as the binary logarithm of the average size. *)
Lemma maskBits_spec {R} fuel avg nb :
  1 <= nb <= Z.log2 avg -> Z.log2 avg < nb + Z.of_nat fuel -> 0 < avg ->
  maskBits (R := R) fuel avg nb = Ok (Z.log2 avg).
Proof.
  revert nb. induction fuel as [|fuel IH]; intros nb Hnb Hf Ha; [lia|]. cbn [maskBits].
  rewrite Z.shiftr_div_pow2 by lia. pose proof (Z.log2_spec avg Ha) as [Hlo Hhi].
  destruct (decide (nb = Z.log2 avg)) as [->|Hne].
  - assert (avg / 2 ^ Z.log2 avg = 1) as ->; [|done].
    symmetry. apply Z.div_unique with (avg - 2 ^ Z.log2 avg); [|lia].
    rewrite Z.pow_succ_r in Hhi by lia. lia.
  - destruct (Z.eqb_spec (avg / 2 ^ nb) 1) as [E|E]; [|apply IH; lia].
    assert (2 ^ (nb + 1) <= avg) as Hle.
    { etransitivity; [|exact Hlo]. apply Z.pow_le_mono_r; lia. }
    rewrite Z.pow_add_r in Hle by lia.
    assert (2 <= avg / 2 ^ nb); [|lia]. apply Z.div_le_lower_bound; lia.
Qed.

Lemma new_Chunker_ok {R} (malloc : nat -> nat -> list Z) (avg : Z) (win mn mx : nat) :
  (forall i n, length (malloc i n) = n) -> 2 <= avg < 2 ^ 31 -> (0 < win <= mn)%nat ->
  Z.of_nat mn < avg < Z.of_nat mx ->
  exists c, new_Chunker (R := R) malloc VAR_SIZE_TYPE avg (Z.of_nat mn) (Z.of_nat mx)
              (Z.of_nat win) = Ok c /\
    wf_chunker c win mn mx /\ anchorMask_ c = 2 ^ Z.log2 avg - 1 /\ anchorValue_ c = 0.
Proof.
  intros Hmal Havg Hwin Hord. unfold new_Chunker. cbn [eqb VAR_SIZE_TYPE FIX_SIZE_TYPE].
  destruct (Z.geb_spec (Z.of_nat mn) avg) as [H1|H1]; [lia|].
  destruct (Z.leb_spec (Z.of_nat mx) avg) as [H2|H2]; [lia|].
  rewrite Nat2Z.id.
  destruct (initPowerLUT_spec (R := R) win (malloc 0%nat win)) as (p & -> & Hpl & Hp);
    [lia|done|]. cbn [mbind res_bind].
  destruct (initRemoveLUT_spec (R := R) win p (malloc 1%nat 256%nat)) as (r & -> & Hr);
    [lia|done|apply Hp; lia|]. cbn [mbind res_bind].
  assert (1 <= Z.log2 avg < 31).
  { split; [apply (Z.log2_le_mono 2 avg); lia|]. apply Z.log2_lt_pow2; lia. }
  rewrite maskBits_spec by lia. cbn [mbind res_bind].
  assert (0 < 2 ^ Z.log2 avg <= 2 ^ 31) by (split; [lia|apply Z.pow_le_mono_r; lia]).
  rewrite sint_ok by lia. cbn [mbind res_bind].
  eexists. split; [done|]. split; [|done]. constructor; cbn; try done; lia.
Qed.

(** ** Fixed-size chunks *)

(** The sizes of fixed-size chunks: an empty buffer has one empty chunk. *)
Definition fixSizes (avg n : nat) : list nat :=
  replicate (n / avg) avg
  ++ (if decide (0 < n /\ n mod avg = 0)%nat then [] else [(n mod avg)%nat]).

Lemma sum_list_replicate n a : sum_list (replicate n a) = (n * a)%nat.
Proof. induction n as [|n IH]; [done|]. cbn [replicate]. rewrite sum_list_cons, IH. lia. Qed.

Lemma fixLoop_spec {R} fuel c (avg n p : nat) ends num :
  (0 < avg)%nat -> avgChunkSize_ c = Z.of_nat avg -> (p <= n)%nat ->
  Z.of_nat (n + avg) < 2 ^ 31 ->
  let q := ((n - p) / avg)%nat in
  (num + q <= length ends)%nat -> (q < fuel)%nat ->
  fixLoop (R := R) fuel c (Z.of_nat n) (Z.of_nat (p + avg) - 1) ends num
  = Ok (take num ends ++ endsFrom p (replicate q avg) ++ drop (num + q) ends, (num + q)%nat).
Proof.
  intros Ha Havg. revert p ends num.
  induction fuel as [|fuel IH]; intros p ends num Hp Hov q Hl Hf; [lia|]. cbn [fixLoop].
  destruct (Z.ltb_spec (Z.of_nat (p + avg) - 1) (Z.of_nat n)) as [Hlt|Hge].
  - assert (q = S ((n - (p + avg)) / avg))%nat as Hq.
    { unfold q. replace (n - p)%nat with (1 * avg + (n - (p + avg)))%nat by lia.
      rewrite Nat.div_add_l by lia. lia. }
    rewrite aset_ok by lia. cbn [mbind res_bind]. rewrite Havg, sint_ok by lia.
    cbn [mbind res_bind].
    replace (Z.of_nat (p + avg) - 1 + Z.of_nat avg) with (Z.of_nat (p + avg + avg) - 1) by lia.
    rewrite IH by (rewrite ?length_insert; lia).
    rewrite Hq. cbn [replicate endsFrom]. f_equal. f_equal; [|lia].
    rewrite (take_S_r _ num (Z.of_nat (p + avg) - 1)) by (apply list_lookup_insert_eq; lia).
    rewrite take_insert_ge, drop_insert_lt by lia. rewrite <- app_assoc. cbn [app].
    do 3 f_equal. f_equal. lia.
  - assert (q = 0)%nat as -> by (apply Nat.div_small; lia).
    cbn [replicate endsFrom app]. by rewrite Nat.add_0_r, take_drop.
Qed.

(** ** Claims *)

(** The chunks of [data] with the given sizes. *)
Fixpoint chunksOf (sizes : list nat) (data : bytes) : list bytes :=
  match sizes with
  | [] => []
  | n :: l => take n data :: chunksOf l (drop n data)
  end.

Lemma chunksOf_concat sizes data :
  sum_list sizes = length data -> mjoin (chunksOf sizes data) = data.
Proof.
  revert data. induction sizes as [|n l IH]; intros data H.
  - cbn in H. by destruct data.
  - rewrite sum_list_cons in H. cbn. rewrite IH; [apply take_drop|]. rewrite length_drop. lia.
Qed.

(** C32: the rolling hash is exact.  The variable-size chunker, which updates a
    32-bit fingerprint byte by byte with two lookup tables and wrap-around
    arithmetic, reads and writes inside its arrays, terminates, and returns
    exactly the chunk ends of the reference chunker, which evaluates the
    polynomial hash modulo 2^23 of every window from scratch. *)
Theorem varSizeChunking_reference (c : Chunker) (win mn mx : nat) (data slack : bytes)
    (ends : list Z) :
  wf_chunker c win mn mx -> Z.of_nat (length data + mx) < 2 ^ 31 ->
  enough_room mn (length data) ends ->
  chunking (R := False) c (data ++ slack) (Z.of_nat (length data)) ends
  = Ok (endsFrom 0 (refSizes c win mn mx data)
          ++ drop (length (refSizes c win mn mx data)) ends,
        length (refSizes c win mn mx data)).
Proof.
  intros Hwf Hov Hr. unfold chunking. rewrite (wc_type _ _ _ _ Hwf). cbn [eqb].
  by apply varSizeChunking_spec.
Qed.

(** C38: the chunks partition the data: their concatenation is the data, no
    chunk is larger than maxChunkSize_, every chunk except the last has at
    least minChunkSize_ bytes, and no chunk of a non-empty buffer is empty. *)
Theorem varSizeChunking_partition (c : Chunker) (win mn mx : nat) (data slack : bytes)
    (ends : list Z) :
  wf_chunker c win mn mx -> Z.of_nat (length data + mx) < 2 ^ 31 ->
  enough_room mn (length data) ends ->
  exists sizes l n, sizes = l ++ [n] /\
    chunking (R := False) c (data ++ slack) (Z.of_nat (length data)) ends
    = Ok (endsFrom 0 sizes ++ drop (length sizes) ends, length sizes) /\
    mjoin (chunksOf sizes data) = data /\
    Forall (fun n => mn <= n <= mx)%nat l /\ (n <= mx)%nat /\ (data <> [] -> 0 < n)%nat.
Proof.
  intros Hwf Hov Hr. destruct (refSizes_shape c win mn mx Hwf data) as (l & n & E & Hl & Hn & Hp).
  exists (refSizes c win mn mx data), l, n. split; [done|]. split; [|split; [|done]].
  - unfold chunking. rewrite (wc_type _ _ _ _ Hwf). cbn [eqb]. by apply varSizeChunking_spec.
  - apply chunksOf_concat. by apply (refSizes_sum c win mn mx).
Qed.


(** C39: chunk boundaries are defined by content.  Take two buffers that end
    with the same bytes [t] and whose chunkings both have a boundary at the
    start of [t] (the chunks [s1] and [s2] cover exactly what precedes): from
    there on the two chunkings are the same, so an insertion or deletion in
    front of [t] does not move the boundaries inside [t]. *)
Theorem chunking_content_defined (c : Chunker) (win mn mx : nat) (x y t : bytes)
    (s1 r1 s2 r2 : list nat) (ends1 ends2 d1 d2 : list Z) :
  wf_chunker c win mn mx -> t <> [] ->
  Z.of_nat (length (x ++ t) + mx) < 2 ^ 31 -> Z.of_nat (length (y ++ t) + mx) < 2 ^ 31 ->
  enough_room mn (length (x ++ t)) ends1 -> enough_room mn (length (y ++ t)) ends2 ->
  chunking (R := False) c (x ++ t) (Z.of_nat (length (x ++ t))) ends1
    = Ok (endsFrom 0 (s1 ++ r1) ++ d1, length (s1 ++ r1)) ->
  chunking (R := False) c (y ++ t) (Z.of_nat (length (y ++ t))) ends2
    = Ok (endsFrom 0 (s2 ++ r2) ++ d2, length (s2 ++ r2)) ->
  sum_list s1 = length x -> sum_list s2 = length y ->
  r1 = r2.
Proof.
  intros Hwf Ht Ho1 Ho2 Hr1 Hr2 E1 E2 Hs1 Hs2.
  assert (forall z s r ends d, Z.of_nat (length (z ++ t) + mx) < 2 ^ 31 ->
    enough_room mn (length (z ++ t)) ends ->
    chunking (R := False) c (z ++ t) (Z.of_nat (length (z ++ t))) ends
      = Ok (endsFrom 0 (s ++ r) ++ d, length (s ++ r)) ->
    sum_list s = length z -> r = refSizes c win mn mx t) as H.
  { intros z s r ends d Ho Hr E Hs. apply (refSizes_resync c win mn mx Hwf z t s r Ht); [|done].
    unfold chunking in E. rewrite (wc_type _ _ _ _ Hwf) in E. cbn [eqb] in E.
    pose proof (varSizeChunking_spec (R := False) c win mn mx Hwf (z ++ t) [] ends Ho Hr) as Sp.
    rewrite app_nil_r in Sp. rewrite Sp in E. cbv zeta in E.
    injection E as E El. apply (endsFrom_inj 0).
    apply app_inj_1 in E as [E _]; [done|]. by rewrite !endsFrom_length. }
  by rewrite (H x s1 r1 ends1 d1), (H y s2 r2 ends2 d2).
Qed.

(** The fixed-size chunker.  It terminates inside its arrays and cuts the
    buffer into n / avgChunkSize_ chunks of exactly avgChunkSize_ bytes and, when
    something is left (or the buffer is empty), one smaller chunk. *)
Theorem fixSizeChunking_correct (c : Chunker) (avg : nat) (data slack : bytes) (ends : list Z) :
  chunkerType_ c = FIX_SIZE_TYPE -> avgChunkSize_ c = Z.of_nat avg -> (0 < avg)%nat ->
  Z.of_nat (length data + avg) < 2 ^ 31 -> (length data / avg < length ends)%nat ->
  let sizes := fixSizes avg (length data) in
  chunking (R := False) c (data ++ slack) (Z.of_nat (length data)) ends
    = Ok (endsFrom 0 sizes ++ drop (length sizes) ends, length sizes) /\
  mjoin (chunksOf sizes data) = data.
Proof.
  intros HT Havg Ha Hov Hl sizes.
  assert (0 + sum_list (replicate (length data / avg) avg) + length data mod avg = length data)%nat
    as Hsum by (rewrite sum_list_replicate; pose proof (Nat.div_mod_eq (length data) avg); lia).
  assert (sizes = if decide (replicate (length data / avg) avg <> [] /\
                   sum_list (replicate (length data / avg) avg) = length data)
                  then replicate (length data / avg) avg
                  else replicate (length data / avg) avg
                       ++ [(length data - sum_list (replicate (length data / avg) avg))%nat]) as Hsz.
  { unfold sizes, fixSizes. destruct (decide (0 < length data /\ length data mod avg = 0)%nat) as [H|H].
    - rewrite decide_True; [by rewrite app_nil_r|]. split; [|lia]. intros E.
      rewrite E in Hsum. cbn in Hsum. lia.
    - rewrite decide_False; [do 3 f_equal; lia|]. intros [H1 H2].
      assert (length data = 0 \/ length data mod avg <> 0)%nat as [H3|H3] by lia; [|lia].
      apply H1. by rewrite H3, Nat.Div0.div_0_l. }
  split.
  - unfold chunking. rewrite HT. cbn [eqb]. unfold fixSizeChunking.
    rewrite Havg, sint_ok by lia. cbn [mbind res_bind].
    replace (-1 + Z.of_nat avg) with (Z.of_nat (0 + avg) - 1) by lia.
    rewrite (fixLoop_spec _ c avg) by (rewrite ?Nat.sub_0_r; lia).
    rewrite Nat.sub_0_r, take_0. cbn [mbind res_bind app Nat.add].
    pose proof (length_replicate (length data / avg) avg) as Hrl.
    rewrite <- Hrl at 2. rewrite <- Hrl at 3.
    rewrite tailChunk_spec; [|lia|rewrite length_app, endsFrom_length, length_drop; lia].
    rewrite <- Hsz, drop_drop. do 3 f_equal. rewrite Hrl.
    assert (length data / avg <= length sizes)%nat; [|f_equal; lia].
    rewrite <- Hrl. unfold sizes, fixSizes. rewrite length_app. lia.
  - apply chunksOf_concat. rewrite Hsz. case_decide; [tauto|].
    rewrite sum_list_app, sum_list_cons. cbn. lia.
Qed.

(** ** Instances *)

Module ChunkerWitness.

Definition mem : nat -> nat -> list Z := fun _ n => replicate n 7.

(** Windows of 2 bytes, chunks of 3 to 6 bytes, 4 on average. *)
Definition small : Chunker :=
  match new_Chunker (R := False) mem VAR_SIZE_TYPE 4 3 6 2 with
  | Ok c => c
  | _ => {| chunkerType_ := FIX_SIZE_TYPE; avgChunkSize_ := 4; minChunkSize_ := 0;
            maxChunkSize_ := 0; slidingWinSize_ := 0; polyBase_ := 0; polyMOD_ := 0;
            powerLUT_ := []; removeLUT_ := []; anchorMask_ := 0; anchorValue_ := 0 |}
  end.

Lemma small_wf : wf_chunker small 2 3 6.
Proof.
  destruct (new_Chunker_ok (R := False) mem 4 2 3 6) as (c & E & H & _); [|lia..|].
  - intros. apply length_replicate.
  - unfold small. change 3 with (Z.of_nat 3). change 6 with (Z.of_nat 6).
    change 2 with (Z.of_nat 2). by rewrite E.
Qed.

Definition text : bytes := byte.of_Z <$> [5; 9; 130; 17; 44; 200; 31; 7; 90; 66; 12; 250; 3; 8].

Lemma small_room : enough_room 3 (length text) (replicate 10 0).
Proof. apply Nat.ltb_lt. vm_compute. reflexivity. Qed.

Lemma varSizeChunking_reference_witness :
  chunking (R := False) small (text ++ [Byte.x00]) (Z.of_nat (length text)) (replicate 10 0)
  = Ok (endsFrom 0 (refSizes small 2 3 6 text)
          ++ drop (length (refSizes small 2 3 6 text)) (replicate 10 0),
        length (refSizes small 2 3 6 text)).
Proof.
  apply (varSizeChunking_reference small 2 3 6); [apply small_wf|vm_compute; reflexivity|].
  apply small_room.
Defined.

Lemma varSizeChunking_partition_witness :
  exists sizes l n, sizes = l ++ [n] /\
    chunking (R := False) small (text ++ []) (Z.of_nat (length text)) (replicate 10 0)
    = Ok (endsFrom 0 sizes ++ drop (length sizes) (replicate 10 0), length sizes) /\
    mjoin (chunksOf sizes text) = text /\
    Forall (fun n => 3 <= n <= 6)%nat l /\ (n <= 6)%nat /\ (text <> [] -> 0 < n)%nat.
Proof.
  apply (varSizeChunking_partition small 2 3 6); [apply small_wf|vm_compute; reflexivity|].
  apply small_room.
Defined.


(** The last 8 bytes of [text], after its first chunk or after three zeros. *)
Lemma chunking_content_defined_witness :
  exists r1 r2, r1 = r2 /\
    chunking (R := False) small (take 6 text ++ drop 6 text) 14 (replicate 10 0)
      = Ok (endsFrom 0 ([6%nat] ++ r1) ++ replicate 7 0, length ([6%nat] ++ r1)) /\
    chunking (R := False) small (replicate 3 Byte.x00 ++ drop 6 text) 11 (replicate 10 0)
      = Ok (endsFrom 0 ([3%nat] ++ r2) ++ replicate 7 0, length ([3%nat] ++ r2)).
Proof.
  exists [4; 4]%nat, [4; 4]%nat. split; [|split; vm_compute; reflexivity].
  apply (chunking_content_defined small 2 3 6 (take 6 text) (replicate 3 Byte.x00) (drop 6 text)
    [6%nat] [4; 4]%nat [3%nat] [4; 4]%nat (replicate 10 0) (replicate 10 0)
    (replicate 7 0) (replicate 7 0) small_wf);
    try (vm_compute; reflexivity); try (apply Nat.ltb_lt; vm_compute; reflexivity).
  vm_compute. discriminate.
Defined.

Lemma fixSizeChunking_correct_witness :
  exists c, new_Chunker (R := False) mem FIX_SIZE_TYPE 4 0 0 0 = Ok c /\
    chunking (R := False) c (text ++ []) (Z.of_nat (length text)) (replicate 10 0)
      = Ok (endsFrom 0 (fixSizes 4 (length text))
              ++ drop (length (fixSizes 4 (length text))) (replicate 10 0),
            length (fixSizes 4 (length text))) /\
    mjoin (chunksOf (fixSizes 4 (length text)) text) = text.
Proof.
  eexists. split; [reflexivity|].
  apply (fixSizeChunking_correct _ 4 text [] (replicate 10 0)); try reflexivity.
  - lia.
  - apply Nat.ltb_lt. vm_compute. reflexivity.
Defined.

End ChunkerWitness.
