(* ===== verification/Structs.v ===== *)
(** * Structs

    server/dedup/dataStruct.hh: the structures the server keeps in buffers,
    recipe files and database values, at their x86-64 layout.  A structure is
    read and written in place in a byte buffer, field by field, the way the
    code casts a buffer address to a structure pointer: [int] is 4 and [long]
    8 bytes, little-endian, two's complement, aligned to their size. *)

From stdpp Require Import base list numbers.
From coqutil Require Import Byte Word.LittleEndianList.
From Stdlib Require Import Lia.
From S2P Require Import Prelude.

Local Open Scope Z_scope.

(** ** Integers in memory *)

(** The value of [n] bytes read as a signed integer. *)
Definition signedOf (bits x : Z) : Z := (x + 2 ^ (bits - 1)) mod 2 ^ bits - 2 ^ (bits - 1).

Definition le32 (x : Z) : bytes := le_split 4 x.
Definition le64 (x : Z) : bytes := le_split 8 x.

Definition getI32 {R} (b : bytes) (off : nat) : res R Z :=
  l ← rd b off 4; Ok (signedOf 32 (le_combine l)).
Definition setI32 {R} (b : bytes) (off : nat) (x : Z) : res R bytes := wr b off (le32 x).
Definition getI64 {R} (b : bytes) (off : nat) : res R Z :=
  l ← rd b off 8; Ok (signedOf 64 (le_combine l)).
Definition setI64 {R} (b : bytes) (off : nat) (x : Z) : res R bytes := wr b off (le64 x).

(** [htonl]: the bytes of a 32-bit value in network order. *)
Definition htonl (x : Z) : bytes := rev (le32 x).

(** The ranges of [int] and [long]. *)
Definition int32 (x : Z) : Prop := - 2 ^ 31 <= x < 2 ^ 31.
Definition int64 (x : Z) : Prop := - 2 ^ 63 <= x < 2 ^ 63.

#[global] Instance int64_dec x : Decision (int64 x).
Proof. unfold int64. apply _. Defined.

(** The result of a [long] operation. *)
Definition slong {R} (x : Z) : res R Z := if decide (int64 x) then Ok x else UB.

Lemma slong_ok {R} x : int64 x -> slong (R := R) x = Ok x.
Proof. intros. unfold slong. by rewrite decide_True. Qed.

(** ** C strings *)

(** The bytes before the first NUL; no NUL in the array is a read outside it. *)
Fixpoint cstr {R} (b : bytes) : res R bytes :=
  match b with
  | [] => UB
  | x :: b' => if decide (x = Byte.x00) then Ok [] else s ← cstr b'; Ok (x :: s)
  end.

(** [strcmp(a, b) == 0] *)
Definition strcmpEq {R} (a b : bytes) : res R bool :=
  s ← cstr a; t ← cstr b; Ok (bool_decide (s = t)).

(** ** Structures *)

Definition FP_SIZE : nat := 32.
Definition KEY_SIZE : nat := FP_SIZE + 1.
Definition INTERNAL_FILE_NAME_SIZE : nat := 16.

(** [fileShareMDHead_t]: fullNameSize @0, fileSize @8, numOfPastSecrets @16,
    sizeOfPastSecrets @24, numOfComingSecrets @32, sizeOfComingSecrets @40. *)
Definition fileShareMDHeadSize_ : nat := 48.
(** [shareMDEntry_t]: shareFP @0, secretID @32, secretSize @36, shareSize @40. *)
Definition shareMDEntrySize_ : nat := 44.
(** [shareIndexValueHead_t]: shareContainerName @0, shareContainerOffset @16,
    shareSize @20, numOfUsers @24. *)
Definition shareIndexValueHeadSize_ : nat := 28.
(** [shareUserRefEntry_t]: userID @0, refCnt @4. *)
Definition shareUserRefEntrySize_ : nat := 8.
(** [fileRecipeHead_t]: userID @0, fileSize @8, numOfShares @16. *)
Definition fileRecipeHeadSize_ : nat := 24.
(** [fileRecipeEntry_t]: shareFP @0, secretID @32, secretSize @36. *)
Definition fileRecipeEntrySize_ : nat := 40.
(** [shareFileHead_t]: fileSize @0, numOfShares @8. *)
Definition shareFileHeadSize_ : nat := 16.
(** [shareEntry_t]: secretID @0, secretSize @4, shareSize @8. *)
Definition shareEntrySize_ : nat := 12.

(** The sizes of the buffers.  The code is modelled for any values of these
    macros; [dataStruct] holds the values of the header. *)
Class Limits := {
  RECIPE_BUFFER_SIZE : nat;
  CONTAINER_BUFFER_SIZE : nat;
  SHARE_FILE_BUFFER_SIZE : nat;
  NUM_OF_CACHED_CONTAINERS : nat;
  (** in the unit of the clock, microseconds *)
  MAX_BUFFER_WAIT : Z;
}.

Definition dataStruct : Limits := {|
  RECIPE_BUFFER_SIZE := Z.to_nat (Z.shiftl 4 20);
  CONTAINER_BUFFER_SIZE := Z.to_nat (Z.shiftl 4 20);
  SHARE_FILE_BUFFER_SIZE := Z.to_nat (Z.shiftl 4 20);
  NUM_OF_CACHED_CONTAINERS := 4;
  MAX_BUFFER_WAIT := 18 * 1000000;
|}.

(** ** Reading back what was written *)

Lemma length_le32 x : length (le32 x) = 4%nat.
Proof. apply length_le_split. Qed.
Lemma length_le64 x : length (le64 x) = 8%nat.
Proof. apply length_le_split. Qed.
Lemma length_htonl x : length (htonl x) = 4%nat.
Proof. unfold htonl. by rewrite length_rev, length_le32. Qed.

#[export] Hint Rewrite length_le32 length_le64 length_htonl @length_rev : meta_rw.

Lemma signedOf_mod bits x :
  0 < bits -> - 2 ^ (bits - 1) <= x < 2 ^ (bits - 1) -> signedOf bits (x mod 2 ^ bits) = x.
Proof.
  intros Hb Hx. unfold signedOf.
  assert (2 ^ bits = 2 * 2 ^ (bits - 1)) as Hp.
  { replace bits with (Z.succ (bits - 1)) at 1 by lia. by rewrite Z.pow_succ_r by lia. }
  rewrite Zplus_mod_idemp_l. rewrite Z.mod_small; lia.
Qed.

Lemma signedOf_le32 x : int32 x -> signedOf 32 (le_combine (le32 x)) = x.
Proof. intros Hx. unfold le32. rewrite le_combine_split. by apply (signedOf_mod 32). Qed.

Lemma signedOf_le64 x : int64 x -> signedOf 64 (le_combine (le64 x)) = x.
Proof. intros Hx. unfold le64. rewrite le_combine_split. by apply (signedOf_mod 64). Qed.

(** A field of a buffer, given what lies before and after it. *)
Lemma getI32_at {R} pre x post b off :
  b = pre ++ le32 x ++ post -> off = length pre -> int32 x -> getI32 (R := R) b off = Ok x.
Proof.
  intros -> -> Hx. unfold getI32. rewrite rd_mid by lens. cbn [mbind res_bind].
  by rewrite signedOf_le32.
Qed.

Lemma getI64_at {R} pre x post b off :
  b = pre ++ le64 x ++ post -> off = length pre -> int64 x -> getI64 (R := R) b off = Ok x.
Proof.
  intros -> -> Hx. unfold getI64. rewrite rd_mid by lens. cbn [mbind res_bind].
  by rewrite signedOf_le64.
Qed.

Lemma setI32_at {R} pre old post b off x :
  b = pre ++ old ++ post -> off = length pre -> length old = 4%nat ->
  setI32 (R := R) b off x = Ok (pre ++ le32 x ++ post).
Proof. intros -> -> Ho. unfold setI32. apply wr_mid; [done|]. by rewrite length_le32. Qed.

Lemma setI64_at {R} pre old post b off x :
  b = pre ++ old ++ post -> off = length pre -> length old = 8%nat ->
  setI64 (R := R) b off x = Ok (pre ++ le64 x ++ post).
Proof. intros -> -> Ho. unfold setI64. apply wr_mid; [done|]. by rewrite length_le64. Qed.

(** Reading a field of a part of a buffer. *)
Lemma getI32_shift {R} pre b off :
  getI32 (R := R) (pre ++ b) (length pre + off) = getI32 b off.
Proof.
  unfold getI32, rd. rewrite length_app.
  destruct (decide (off + 4 <= length b)%nat).
  - rewrite !decide_True by lia. by rewrite <- drop_drop, drop_app_length.
  - rewrite !decide_False by lia. done.
Qed.

Lemma getI32_int32 {R} b off x : getI32 (R := R) b off = Ok x -> int32 x.
Proof.
  unfold getI32. intros H. apply bind_ok_inv in H as (l & _ & H). simplify_eq.
  unfold signedOf, int32. change (2 ^ (32 - 1)) with (2 ^ 31).
  pose proof (Z.mod_pos_bound (le_combine l + 2 ^ 31) (2 ^ 32)). lia.
Qed.

Lemma cstr_app {R} s post :
  Byte.x00 ∉ s -> cstr (R := R) (s ++ Byte.x00 :: post) = Ok s.
Proof.
  induction s as [|x s IH]; intros Hs; cbn; [done|].
  rewrite not_elem_of_cons in Hs. destruct Hs as [Hx Hs].
  rewrite decide_False by congruence. by rewrite (IH Hs).
Qed.
