(* ===== verification/FileNames.v ===== *)
(** * File names

    The name handling of the server (server/dedup/minDedupCore.cc; DedupCore.cc
    has the same functions): directory and file names, the counter that names
    containers, and index keys.  A [std::string] is the list of its bytes. *)

From stdpp Require Import base list numbers.
From coqutil Require Import Byte.
From Stdlib Require Import Lia.
From S2P Require Import Prelude Structs.

Definition slash : byte := Byte.x2f.
Definition dot : byte := Byte.x2e.
Definition letter_a : byte := Byte.x61.
Definition letter_z : byte := Byte.x7a.

(** ** The functions *)

(** [None] stands for [return 0], [Some name] for [return 1] with the new name. *)
Definition formatFullFileName_ (fullFileName : bytes) : option bytes :=
  match fullFileName with
  | [] => None
  | c :: _ =>
      if decide (c = slash) then Some fullFileName
      else if decide (take 2 fullFileName = [dot; slash] \/ take 3 fullFileName = [dot; dot; slash])
      then None
      else Some (slash :: fullFileName)
  end.

Definition formatDirName_ (dirName : bytes) : option bytes :=
  match dirName !! (length dirName - 1) with
  | None => None
  | Some c => Some (if decide (c = slash) then dirName else dirName ++ [slash])
  end.

Definition addPrefixDir_ (prefixDirName name : bytes) : option bytes :=
  if decide (take 1 name = [slash] \/ take 2 name = [dot; slash]
             \/ take 3 name = [dot; dot; slash])
  then None
  else Some (prefixDirName ++ name).

(** The last index below [n] whose letter is not 'z'. *)
Fixpoint lastNotZ {R} (fileName : bytes) (n : nat) : res R (option nat) :=
  match n with
  | O => Ok None
  | S i => c ← aget fileName i;
           if decide (c = letter_z) then lastNotZ fileName i else Ok (Some i)
  end.

Definition incrGlobalFileName_ {R} (fileName : bytes) (validLen : nat) : res R (bool * bytes) :=
  i ← lastNotZ fileName validLen;
  match i with
  | None => Ok (false, fileName)
  | Some i =>
      c ← aget fileName i;
      fileName ← aset fileName i (byte.of_Z (byte.unsigned c + 1));
      fileName ← forN (validLen - S i) (S i) (fun i f => aset f i letter_a) fileName;
      Ok (true, fileName)
  end.

(** The key of a share: '1' and the fingerprint. *)
Definition shareFP2IndexKey_ (shareFP : bytes) : bytes := Byte.x31 :: shareFP.

(** ** Names as numbers *)

Local Open Scope Z_scope.

Definition isLetter (c : byte) : Prop := 97 <= byte.unsigned c <= 122.
Definition digitOf (c : byte) : Z := byte.unsigned c - 97.

(** The number a name of letters denotes in base 26, first letter most significant. *)
Fixpoint nameVal (l : bytes) : Z :=
  match l with
  | [] => 0
  | c :: l' => digitOf c * 26 ^ Z.of_nat (length l') + nameVal l'
  end.

Lemma nameVal_app l1 l2 :
  nameVal (l1 ++ l2) = nameVal l1 * 26 ^ Z.of_nat (length l2) + nameVal l2.
Proof.
  induction l1 as [|c l1 IH]; cbn [app nameVal]; [lia|].
  rewrite IH, length_app, Nat2Z.inj_add, Z.pow_add_r by lia. lia.
Qed.

Lemma nameVal_bound l : Forall isLetter l -> 0 <= nameVal l < 26 ^ Z.of_nat (length l).
Proof.
  induction 1 as [|c l Hc _ IH]; cbn [nameVal length]; [done|].
  unfold isLetter, digitOf in *. rewrite Nat2Z.inj_succ, Z.pow_succ_r by lia. nia.
Qed.

Lemma nameVal_inj l1 l2 :
  Forall isLetter l1 -> Forall isLetter l2 -> length l1 = length l2 ->
  nameVal l1 = nameVal l2 -> l1 = l2.
Proof.
  intros H1. revert l2. induction H1 as [|c l1 Hc H1 IH]; intros l2 H2 Hl Hv.
  - by destruct l2.
  - destruct l2 as [|d l2]; [done|]. inv H2. cbn [nameVal] in Hv.
    rewrite Hl in Hv. pose proof (nameVal_bound l1 H1) as B1.
    pose proof (nameVal_bound l2 ltac:(done)) as B2. rewrite Hl in B1.
    assert (digitOf c = digitOf d) as Hd by nia.
    assert (c = d) as ->.
    { rewrite <- (byte.of_Z_unsigned c), <- (byte.of_Z_unsigned d).
      f_equal. unfold digitOf in Hd. lia. }
    f_equal. apply IH; [done..|lia].
Qed.

Lemma nameVal_z m : nameVal (replicate m letter_z) = 26 ^ Z.of_nat m - 1.
Proof.
  induction m as [|m IH]; [done|]. cbn [replicate nameVal].
  rewrite IH, length_replicate, Nat2Z.inj_succ, Z.pow_succ_r by lia.
  change (digitOf letter_z) with 25. lia.
Qed.

Lemma nameVal_a m : nameVal (replicate m letter_a) = 0.
Proof. induction m as [|m IH]; [done|]. cbn [replicate nameVal]. rewrite IH. by cbn. Qed.

(** ** The counter *)

Lemma name_cases (pre : bytes) :
  pre = replicate (length pre) letter_z \/
  exists p c m, pre = p ++ c :: replicate m letter_z /\ c <> letter_z.
Proof.
  induction pre as [|c pre IH] using rev_ind; [by left|].
  destruct (decide (c = letter_z)) as [->|Hc]; [|right; by exists pre, c, 0%nat].
  destruct IH as [E|(p & d & m & -> & Hd)].
  - left. rewrite length_app, Nat.add_1_r, replicate_S_end. by rewrite <- E.
  - right. exists p, d, (S m). by rewrite replicate_S_end, <- app_assoc.
Qed.

Lemma lastNotZ_skip {R} pre m post :
  lastNotZ (R := R) (pre ++ replicate m letter_z ++ post) (length pre + m)
  = lastNotZ (pre ++ replicate m letter_z ++ post) (length pre).
Proof.
  revert post. induction m as [|m IH]; intros post; [by rewrite Nat.add_0_r|].
  rewrite Nat.add_succ_r. cbn [lastNotZ].
  rewrite (aget_ok _ _ letter_z).
  - cbn [mbind res_bind]. rewrite decide_True by done.
    rewrite replicate_S_end, <- app_assoc. apply IH.
  - rewrite lookup_app_r, Nat.add_comm, Nat.add_sub by lia.
    rewrite lookup_app_l by lens. apply lookup_replicate_2. lia.
Qed.

Lemma fill_a {R} pre mid post :
  forN (R := R) (length mid) (length pre) (fun i f => aset f i letter_a) (pre ++ mid ++ post)
  = Ok (pre ++ replicate (length mid) letter_a ++ post).
Proof.
  revert pre. induction mid as [|c mid IH]; intros pre; [done|]. cbn [length forN].
  rewrite aset_ok by lens. cbn [mbind res_bind].
  rewrite insert_app_r_alt, Nat.sub_diag by lia. cbn [app replicate].
  specialize (IH (pre ++ [letter_a])). rewrite length_app, Nat.add_1_r, <- !app_assoc in IH.
  exact IH.
Qed.

Lemma incr_step {R} p c m post :
  c <> letter_z ->
  incrGlobalFileName_ (R := R) ((p ++ c :: replicate m letter_z) ++ post)
    (length (p ++ c :: replicate m letter_z))
  = Ok (true, (p ++ byte.of_Z (byte.unsigned c + 1) :: replicate m letter_a) ++ post).
Proof.
  intros Hc. unfold incrGlobalFileName_. rewrite cons_middle, !app_assoc.
  rewrite length_app, length_replicate, <- app_assoc, lastNotZ_skip.
  rewrite length_app, Nat.add_1_r. cbn [lastNotZ]. rewrite <- app_assoc. cbn [app].
  rewrite (aget_ok _ _ c) by (by rewrite list_lookup_middle). cbn [mbind res_bind].
  rewrite decide_False by done. cbn [mbind res_bind].
  rewrite (aget_ok _ _ c) by (by rewrite list_lookup_middle). cbn [mbind res_bind].
  rewrite aset_ok by lens. cbn [mbind res_bind].
  rewrite insert_app_r_alt, Nat.sub_diag by lia. cbn [app].
  change (<[0%nat:=?x]> (?a :: ?l)) with (x :: l).
  pose proof (fill_a (R := R) (p ++ [byte.of_Z (byte.unsigned c + 1)])
                (replicate m letter_z) post) as F.
  rewrite length_app, Nat.add_1_r, length_replicate, <- !app_assoc in F. cbn [app] in F.
  replace (S (length p) + m - S (length p))%nat with m by lia.
  cbn. rewrite F. cbn. by rewrite <- app_assoc.
Qed.

Lemma incr_last {R} m post :
  incrGlobalFileName_ (R := R) (replicate m letter_z ++ post) m
  = Ok (false, replicate m letter_z ++ post).
Proof.
  unfold incrGlobalFileName_. pose proof (lastNotZ_skip (R := R) [] m post) as E.
  cbn in E. by rewrite E.
Qed.

(** On a name of letters the counter counts: it fails exactly on the last name
    and otherwise produces the name of the next number. *)
Lemma incr_spec {R} (name post : bytes) :
  Forall isLetter name ->
  (nameVal name = 26 ^ Z.of_nat (length name) - 1 /\
   incrGlobalFileName_ (R := R) (name ++ post) (length name) = Ok (false, name ++ post)) \/
  (nameVal name < 26 ^ Z.of_nat (length name) - 1 /\
   exists name', incrGlobalFileName_ (R := R) (name ++ post) (length name)
                 = Ok (true, name' ++ post) /\
     Forall isLetter name' /\ length name' = length name /\ nameVal name' = nameVal name + 1).
Proof.
  intros Hl. destruct (name_cases name) as [E|(p & c & m & -> & Hc)].
  - left. rewrite E, length_replicate. split; [apply nameVal_z|apply incr_last].
  - right. apply Forall_app in Hl as [Hp Hl]. inv Hl.
    assert (byte.unsigned c <> 122) as Hne.
    { intros E. apply Hc. rewrite <- (byte.of_Z_unsigned c), E. done. }
    assert (isLetter (byte.of_Z (byte.unsigned c + 1)) /\
            digitOf (byte.of_Z (byte.unsigned c + 1)) = digitOf c + 1) as [Hc' Hd].
    { unfold isLetter, digitOf in *. rewrite byte.unsigned_of_Z. unfold byte.wrap.
      rewrite Z.mod_small by lia. lia. }
    rewrite incr_step by done.
    assert (length (p ++ byte.of_Z (byte.unsigned c + 1) :: replicate m letter_a)
            = length (p ++ c :: replicate m letter_z)) as Hlen by (rewrite !length_app; cbn [length]; by rewrite !length_replicate).
    assert (nameVal (p ++ byte.of_Z (byte.unsigned c + 1) :: replicate m letter_a)
            = nameVal (p ++ c :: replicate m letter_z) + 1) as Hval.
    { rewrite !nameVal_app. cbn [nameVal length]. rewrite nameVal_a, nameVal_z, !length_replicate, Hd.
      lia. }
    assert (Forall isLetter (p ++ byte.of_Z (byte.unsigned c + 1) :: replicate m letter_a)) as HF.
    { apply Forall_app. split; [done|]. constructor; [done|].
      apply Forall_replicate. by unfold isLetter. }
    split; [|by eexists].
    pose proof (nameVal_bound _ HF). rewrite Hlen in *. lia.
Qed.

(** ** Internal file names *)

Definition postfix_sc : bytes := [dot; Byte.x73; Byte.x63].
Definition postfix_rf : bytes := [dot; Byte.x72; Byte.x66].

(** The kinds of internal files, and the endings of their names. *)
Inductive fileKind := ContainerFile | RecipeFile.
Definition postfixOf (kind : fileKind) : bytes :=
  match kind with ContainerFile => postfix_sc | RecipeFile => postfix_rf end.

Lemma postfixOf_length kind : length (postfixOf kind) = 3%nat.
Proof. by destruct kind. Qed.

Lemma postfixOf_nul kind : Byte.x00 ∉ postfixOf kind.
Proof. intros H. apply list_elem_of_In in H. destruct kind; cbn in H; naive_solver. Qed.

(** The [n]-th internal name: 12 letters that denote [n], and the ending. *)
Definition isInternalName (kind : fileKind) (n : Z) (name : bytes) : Prop :=
  exists l, name = l ++ postfixOf kind /\ Forall isLetter l /\ length l = 12%nat /\ nameVal l = n.
Abbreviation isContainerName := (isInternalName ContainerFile).
Abbreviation isRecipeName := (isInternalName RecipeFile).

Section InternalNames.
Context {kind : fileKind}.

Lemma containerName_inj n m name :
  isInternalName kind n name -> isInternalName kind m name -> n = m.
Proof.
  intros (l & -> & _ & Hl & <-) (l' & E & _ & Hl' & <-).
  apply app_inj_2 in E as [-> _]; [done|done].
Qed.

Lemma containerName_length n name : isInternalName kind n name -> length name = 15%nat.
Proof. intros (l & -> & _ & Hl & _). by rewrite length_app, Hl, postfixOf_length. Qed.

Lemma letter_nonzero c : isLetter c -> c <> Byte.x00 /\ c <> slash /\ c <> dot.
Proof. unfold isLetter. intros H. split_and!; intros ->; cbn in H; lia. Qed.

Lemma containerName_cstr {R} n name rest :
  isInternalName kind n name -> cstr (R := R) (name ++ Byte.x00 :: rest) = Ok name.
Proof.
  intros (l & -> & Hl & _). apply cstr_app. intros H.
  apply elem_of_app in H as [H|H]; [|by apply (postfixOf_nul kind)].
  rewrite list.Forall_forall in Hl. by destruct (letter_nonzero _ (Hl _ H)) as [? _].
Qed.

Lemma containerName_prefix n name dir :
  isInternalName kind n name -> addPrefixDir_ dir name = Some (dir ++ name).
Proof.
  intros (l & -> & Hl & H12 & _). destruct l as [|c l]; [done|]. inv Hl.
  destruct (letter_nonzero c) as (_ & Hs & Hd); [done|].
  unfold addPrefixDir_. rewrite decide_False; [done|].
  intros [E|[E|E]]; cbn in E; congruence.
Qed.

Lemma containerName_incr {R} n name :
  isInternalName kind n name -> n < 26 ^ 12 - 1 ->
  exists name', incrGlobalFileName_ (R := R) name 12 = Ok (true, name') /\
    isInternalName kind (n + 1) name'.
Proof.
  intros (l & -> & Hl & H12 & Hn) Hb.
  destruct (incr_spec (R := R) l (postfixOf kind) Hl) as [[E _]|(_ & l' & E & Hl' & Hlen & Hv)].
  - rewrite H12 in E. lia.
  - rewrite H12 in E. rewrite E. eexists. split; [done|]. exists l'. split_and!; [done..|lia|lia].
Qed.
End InternalNames.

(** Containers and recipe files have different paths. *)
Lemma recipe_not_container dir dir' n m name name' :
  isRecipeName n name -> isContainerName m name' -> dir ++ name <> dir' ++ name'.
Proof.
  intros (l & -> & _) (l' & -> & _) E. apply (f_equal (fun x => head (rev x))) in E.
  rewrite !rev_app_distr in E. done.
Qed.
