(* ===== verification/World.v ===== *)
(** * The environment of the server

    The database (LevelDB), the file system, the clock and the socket are not
    part of the program.  [World] lists the operations the program uses on them;
    [WorldLaws] states what it relies on, through a [View] of the environment:
    the contents of the database, the files and what was sent.  Operations can
    fail; a failed database write is atomic, a failed file write leaves the file
    with an arbitrary content.  [ReliableWorld] adds that nothing fails. *)

From stdpp Require Import base list numbers gmap.
From coqutil Require Import Byte.
From Stdlib Require Import Lia.
From S2P Require Import Prelude.

(** [leveldb::Status] of [DB::Get] *)
Inductive GetStatus :=
| GetOk (value : bytes)
| GetNotFound
| GetCorruption
| GetIOError.

(** A call recorded in a [leveldb::WriteBatch] *)
Inductive BatchOp :=
| BDelete (key : bytes)
| BPut (key value : bytes).

Class World (W : Type) := {
  db_Get : W -> bytes -> GetStatus;
  (** [leveldb::DB::Open(...).ok()] *)
  db_Open : W -> bytes -> bool * W;
  (** [db_->Put(...).ok()] and [db_->Write(batch).ok()] *)
  db_Put : W -> bytes -> bytes -> bool * W;
  db_Write : W -> list BatchOp -> bool * W;
  (** [fopen(name, "wb") != NULL] *)
  fopen_wb : W -> bytes -> bool * W;
  (** [fwrite(data, length data, 1, fp) == 1] on the file opened under the name *)
  fwrite : W -> bytes -> bytes -> bool * W;
  (** [fopen(name, "ab+") != NULL] and the size of the file opened under the name *)
  fopen_ab : W -> bytes -> bool * W;
  fsize : W -> bytes -> Z;
  (** [fseek(fp, pos, SEEK_SET)] and [fwrite(data, length data, 1, fp) == 1] on the
      file opened under the name with "rb+" *)
  fwrite_at : W -> bytes -> nat -> bytes -> bool * W;
  (** [fopen(name, "rb") != NULL], also for "rb+" *)
  fopen_rb : W -> bytes -> bool;
  (** the bytes [fread(buf, 1, n, fp)] gets at position [pos] of the file *)
  fread : W -> bytes -> nat -> nat -> bytes;
  (** [mkdir(name) == 0 || errno == EEXIST] and [access(name, R_OK|W_OK|X_OK) == 0] *)
  mkdir : W -> bytes -> bool * W;
  access_rwx : W -> bytes -> bool;
  (** [send(fd, data, length data, 0)] *)
  send : W -> bytes -> Z * W;
  gettimeofday : W -> Z * W;
  (** [pthread_mutex_init(...) == 0] *)
  mutex_init : W -> bool * W;
  (** [system("rm -rf " + name)], for a name without shell metacharacters *)
  rm_rf : W -> bytes -> W;
  (** the content of a block [malloc] returns *)
  uninit : W -> nat -> bytes;
}.

(** What the program can observe of its environment. *)
Record View := {
  contents : gmap bytes bytes;
  files : gmap bytes bytes;
  sent : list bytes;
}.

Definition applyOp (m : gmap bytes bytes) (op : BatchOp) : gmap bytes bytes :=
  match op with BDelete k => delete k m | BPut k v => <[k := v]> m end.

Definition set_contents (v : View) (m : gmap bytes bytes) : View :=
  {| contents := m; files := files v; sent := sent v |}.
Definition set_files (v : View) (m : gmap bytes bytes) : View :=
  {| contents := contents v; files := m; sent := sent v |}.
Definition add_sent (v : View) (b : bytes) : View :=
  {| contents := contents v; files := files v; sent := sent v ++ [b] |}.

(** The content [c] after [data] was written at [pos]. *)
Definition overwrite (c : bytes) (pos : nat) (data : bytes) : bytes :=
  take pos (c ++ replicate (pos - length c) Byte.x00) ++ data ++ drop (pos + length data) c.

Class WorldLaws (W : Type) `{World W} := {
  view : W -> View;
  get_ok w k v : db_Get w k = GetOk v -> contents (view w) !! k = Some v;
  get_notfound w k : db_Get w k = GetNotFound -> contents (view w) !! k = None;
  open_law w p ok w' : db_Open w p = (ok, w') -> view w' = view w;
  mutex_law w ok w' : mutex_init w = (ok, w') -> view w' = view w;
  put_law w k v ok w' : db_Put w k v = (ok, w') ->
    view w' = set_contents (view w) (<[k := v]> (contents (view w))) \/
    (ok = false /\ view w' = view w);
  write_law w ops ok w' : db_Write w ops = (ok, w') ->
    view w' = set_contents (view w) (foldl applyOp (contents (view w)) ops) \/
    (ok = false /\ view w' = view w);
  fopen_wb_law w p ok w' : fopen_wb w p = (ok, w') ->
    view w' = if ok then set_files (view w) (<[p := []]> (files (view w))) else view w;
  fwrite_law w p data ok w' : fwrite w p data = (ok, w') ->
    exists c, view w' = set_files (view w) (<[p := c]> (files (view w))) /\
      (ok = true -> data <> [] /\ c = default [] (files (view w) !! p) ++ data);
  fopen_ab_law w p ok w' : fopen_ab w p = (ok, w') ->
    view w' = if ok then set_files (view w) (<[p := default [] (files (view w) !! p)]> (files (view w)))
              else view w;
  fsize_law w p c : files (view w) !! p = Some c -> fsize w p = Z.of_nat (length c);
  fwrite_at_law w p pos data ok w' : fwrite_at w p pos data = (ok, w') ->
    exists c, view w' = set_files (view w) (<[p := c]> (files (view w))) /\
      (ok = true -> data <> [] /\ c = overwrite (default [] (files (view w) !! p)) pos data);
  fread_law w p pos n : exists k,
    fread w p pos n = take k (take n (drop pos (default [] (files (view w) !! p))));
  fopen_rb_law w p : fopen_rb w p = true -> is_Some (files (view w) !! p);
  mkdir_law w p ok w' : mkdir w p = (ok, w') -> view w' = view w;
  send_law w data n w' : send w data = (n, w') -> n = Z.of_nat (length data) ->
    view w' = add_sent (view w) data;
  send_frame w data n w' : send w data = (n, w') ->
    contents (view w') = contents (view w) /\ files (view w') = files (view w);
  rm_law w p : contents (view (rm_rf w p)) = contents (view w) /\ sent (view (rm_rf w p)) = sent (view w);
  time_law w t w' : gettimeofday w = (t, w') -> view w' = view w;
  uninit_length w n : length (uninit w n) = n;
}.

(** File writes do not fail (the database may). *)
Class DiskOk (W : Type) `{World W} : Prop := {
  disk_fopen w p : (fopen_wb w p).1 = true;
  disk_fwrite w p data : data <> [] -> (fwrite w p data).1 = true;
  disk_fopen_ab w p : (fopen_ab w p).1 = true;
  disk_fwrite_at w p pos data : data <> [] -> (fwrite_at w p pos data).1 = true;
}.

(** An environment in which no operation fails. *)
Class ReliableWorld (W : Type) `{WorldLaws W} : Prop := {
  get_reliable w k : db_Get w k = match contents (view w) !! k with
                                  | Some v => GetOk v | None => GetNotFound end;
  open_reliable w p : (db_Open w p).1 = true;
  mutex_reliable w : (mutex_init w).1 = true;
  mkdir_reliable w p : (mkdir w p).1 = true;
  access_reliable w p : access_rwx w p = true;
  put_reliable w k v : (db_Put w k v).1 = true;
  write_reliable w ops : (db_Write w ops).1 = true;
  fopen_wb_reliable w p : (fopen_wb w p).1 = true;
  fwrite_reliable w p data : data <> [] -> (fwrite w p data).1 = true;
  fopen_ab_reliable w p : (fopen_ab w p).1 = true;
  fwrite_at_reliable w p pos data : data <> [] -> (fwrite_at w p pos data).1 = true;
  fopen_rb_reliable w p : is_Some (files (view w) !! p) -> fopen_rb w p = true;
  fread_reliable w p pos n :
    fread w p pos n = take n (drop pos (default [] (files (view w) !! p)));
  send_reliable w data : (send w data).1 = Z.of_nat (length data);
}.

#[export] Instance reliable_disk `{ReliableWorld W} : DiskOk W.
Proof.
  split; [apply fopen_wb_reliable|apply fwrite_reliable|apply fopen_ab_reliable|apply fwrite_at_reliable].
Qed.

(** ** A sample environment

    Everything is kept in memory; the clock advances by [tick] at each reading.
    [diskFull] makes file writes fail, [dbFull] makes database writes fail. *)

Record MemWorld (diskFull dbFull : bool) := {
  mem : View;
  clock : Z;
  tick : Z;
}.
Arguments mem {_ _} _.
Arguments clock {_ _} _.
Arguments tick {_ _} _.

Section MemWorld.
Context {diskFull dbFull : bool}.

Definition memSet (w : MemWorld diskFull dbFull) (v : View) : MemWorld diskFull dbFull :=
  {| mem := v; clock := clock w; tick := tick w |}.

#[export] Instance memWorld : World (MemWorld diskFull dbFull) := {
  db_Get w k := match contents (mem w) !! k with Some v => GetOk v | None => GetNotFound end;
  db_Open w p := (true, w);
  mutex_init w := (true, w);
  db_Put w k v := if dbFull then (false, w)
                  else (true, memSet w (set_contents (mem w) (<[k := v]> (contents (mem w)))));
  db_Write w ops := if dbFull then (false, w)
                    else (true, memSet w (set_contents (mem w) (foldl applyOp (contents (mem w)) ops)));
  fopen_wb w p := if diskFull then (false, w)
                  else (true, memSet w (set_files (mem w) (<[p := []]> (files (mem w)))));
  fwrite w p data :=
    (bool_decide (data <> []),
     memSet w (set_files (mem w) (<[p := default [] (files (mem w) !! p) ++ data]> (files (mem w)))));
  fopen_ab w p := if diskFull then (false, w)
                  else (true, memSet w (set_files (mem w) (<[p := default [] (files (mem w) !! p)]> (files (mem w)))));
  fsize w p := Z.of_nat (length (default [] (files (mem w) !! p)));
  fwrite_at w p pos data :=
    (bool_decide (data <> []),
     memSet w (set_files (mem w) (<[p := overwrite (default [] (files (mem w) !! p)) pos data]> (files (mem w)))));
  fopen_rb w p := bool_decide (is_Some (files (mem w) !! p));
  fread w p pos n := take n (drop pos (default [] (files (mem w) !! p)));
  mkdir w p := (true, w);
  access_rwx w p := true;
  send w data := (Z.of_nat (length data), memSet w (add_sent (mem w) data));
  gettimeofday w := (clock w, {| mem := mem w; clock := (clock w + tick w)%Z; tick := tick w |});
  rm_rf w p := memSet w (set_files (mem w) (delete p (files (mem w))));
  uninit w n := replicate n Byte.xff;
}.

End MemWorld.

#[export] Instance memWorldLaws {diskFull dbFull} : WorldLaws (MemWorld diskFull dbFull).
Proof.
  refine {| view := mem |}.
  all: cbn; intros; destruct diskFull, dbFull; simplify_eq/=; auto;
    repeat match goal with
    | H : context [match ?m !! ?k with _ => _ end] |- _ => destruct (m !! k) eqn:?; simplify_eq/=
    | H : context [if ?b then _ else _] |- _ => destruct b; simplify_eq/=
    end; auto.
  all: try (eexists; split; [done|]; intros Hb; apply bool_decide_eq_true in Hb; done).
  all: try (exists n; by rewrite take_take, Nat.min_id).
  all: try by (eapply bool_decide_eq_true).
  all: try apply length_replicate.
  all: match goal with E : _ !! _ = Some _ |- _ => by rewrite E end.
Defined.

#[export] Instance memWorldDisk {dbFull} : DiskOk (MemWorld false dbFull).
Proof. split; cbn; try done; intros; by apply bool_decide_eq_true. Qed.

(** The sample environment without faults. *)
#[export] Instance memWorldReliable : ReliableWorld (MemWorld false false).
Proof.
  split; cbn; try done; intros; by apply bool_decide_eq_true.
Qed.

Definition freshMem (tick : Z) {diskFull dbFull : bool} : MemWorld diskFull dbFull :=
  {| mem := {| contents := ∅; files := ∅; sent := [] |}; clock := 0; tick := tick |}.
