(* ===== verification/MinDedupCore.v ===== *)
(** * minDedupCore

    server/dedup/minDedupCore.cc, the deduplication of data shares: the object,
    its constructor, the list of per-user buffer nodes, the share index and the
    two stages of deduplication (the restoration of files is in MinRestore.v).

    The object is a record; the buffer nodes live in a heap of malloc'ed
    structures, so that a node that was freed is no longer there and its use is
    undefined behaviour.  The environment is the field [world].  A mutex is a
    flag: locking it twice or unlocking it when it is free is undefined
    behaviour (POSIX).  The methods run one at a time.  [containerStorerObj_] is
    NULL, as server/main.cc passes it.  Memory is never exhausted. *)

From stdpp Require Import base list numbers gmap.
From coqutil Require Import Byte.
From Stdlib Require Import Lia.
From S2P Require Import Prelude Structs FileNames World.

Local Open Scope Z_scope.

(** NULL or the address of a buffer node *)
Definition ptr : Type := option positive.

(** [perUserBufferNode_t], without the recipe members, which minDedupCore does
    not use *)
Record perUserBufferNode := {
  userID : Z;
  shareContainerName : bytes;
  shareContainerBuffer : bytes;
  shareContainerBufferCurrLen : Z;
  lastUseTime : Z;
  next : ptr;
}.

Record minDedupCore (W : Type) := {
  world : W;
  heap : gmap positive perUserBufferNode;
  headBufferNode_ : ptr;
  tailBufferNode_ : ptr;
  globalShareContainerName_ : bytes;
  shareContainerDirName_ : bytes;
  DBLock_ : bool;
  bufferLock_ : bool;
  globalShareContainerNameLock_ : bool;
}.
Arguments world {W} _.
Arguments heap {W} _.
Arguments headBufferNode_ {W} _.
Arguments tailBufferNode_ {W} _.
Arguments globalShareContainerName_ {W} _.
Arguments shareContainerDirName_ {W} _.
Arguments DBLock_ {W} _.
Arguments bufferLock_ {W} _.
Arguments globalShareContainerNameLock_ {W} _.

Definition shareContainerNameValidLen_ : nat := INTERNAL_FILE_NAME_SIZE - 4.

Definition set_next (n : perUserBufferNode) (p : ptr) : perUserBufferNode :=
  {| userID := userID n; shareContainerName := shareContainerName n;
     shareContainerBuffer := shareContainerBuffer n;
     shareContainerBufferCurrLen := shareContainerBufferCurrLen n;
     lastUseTime := lastUseTime n; next := p |}.
Definition set_lastUseTime (n : perUserBufferNode) (t : Z) : perUserBufferNode :=
  {| userID := userID n; shareContainerName := shareContainerName n;
     shareContainerBuffer := shareContainerBuffer n;
     shareContainerBufferCurrLen := shareContainerBufferCurrLen n;
     lastUseTime := t; next := next n |}.
(** The three members that describe the container of a node. *)
Definition set_container (n : perUserBufferNode) (name buf : bytes) (len : Z)
  : perUserBufferNode :=
  {| userID := userID n; shareContainerName := name; shareContainerBuffer := buf;
     shareContainerBufferCurrLen := len; lastUseTime := lastUseTime n; next := next n |}.

Section Object.
Context {W : Type}.
Implicit Types s : minDedupCore W.

Definition set_world s (w : W) : minDedupCore W :=
  {| world := w; heap := heap s; headBufferNode_ := headBufferNode_ s;
     tailBufferNode_ := tailBufferNode_ s;
     globalShareContainerName_ := globalShareContainerName_ s;
     shareContainerDirName_ := shareContainerDirName_ s; DBLock_ := DBLock_ s;
     bufferLock_ := bufferLock_ s;
     globalShareContainerNameLock_ := globalShareContainerNameLock_ s |}.
Definition set_heap s (h : gmap positive perUserBufferNode) : minDedupCore W :=
  {| world := world s; heap := h; headBufferNode_ := headBufferNode_ s;
     tailBufferNode_ := tailBufferNode_ s;
     globalShareContainerName_ := globalShareContainerName_ s;
     shareContainerDirName_ := shareContainerDirName_ s; DBLock_ := DBLock_ s;
     bufferLock_ := bufferLock_ s;
     globalShareContainerNameLock_ := globalShareContainerNameLock_ s |}.
Definition set_ends s (hd tl : ptr) : minDedupCore W :=
  {| world := world s; heap := heap s; headBufferNode_ := hd; tailBufferNode_ := tl;
     globalShareContainerName_ := globalShareContainerName_ s;
     shareContainerDirName_ := shareContainerDirName_ s; DBLock_ := DBLock_ s;
     bufferLock_ := bufferLock_ s;
     globalShareContainerNameLock_ := globalShareContainerNameLock_ s |}.
Definition set_name s (name : bytes) : minDedupCore W :=
  {| world := world s; heap := heap s; headBufferNode_ := headBufferNode_ s;
     tailBufferNode_ := tailBufferNode_ s; globalShareContainerName_ := name;
     shareContainerDirName_ := shareContainerDirName_ s; DBLock_ := DBLock_ s;
     bufferLock_ := bufferLock_ s;
     globalShareContainerNameLock_ := globalShareContainerNameLock_ s |}.
Definition set_locks s (db buf nm : bool) : minDedupCore W :=
  {| world := world s; heap := heap s; headBufferNode_ := headBufferNode_ s;
     tailBufferNode_ := tailBufferNode_ s;
     globalShareContainerName_ := globalShareContainerName_ s;
     shareContainerDirName_ := shareContainerDirName_ s; DBLock_ := db;
     bufferLock_ := buf; globalShareContainerNameLock_ := nm |}.
End Object.

Section MinDedupCore.
Context {W : Type} `{World W} `{Limits}.
Implicit Types s : minDedupCore W.

Abbreviation M ret A := (SM (minDedupCore W) ret A).

(** ** Memory, locks and environment *)

(** [*p] *)
Definition load {ret} (p : ptr) : M ret perUserBufferNode := fun s =>
  match p with
  | None => UB
  | Some a => match heap s !! a with Some n => Ok (n, s) | None => UB end
  end.

(** [*p = n] *)
Definition store {ret} (p : ptr) (n : perUserBufferNode) : M ret unit := fun s =>
  match p with
  | None => UB
  | Some a => match heap s !! a with
              | Some _ => Ok (tt, set_heap s (<[a := n]> (heap s)))
              | None => UB
              end
  end.

(** [p = malloc(sizeof( *p)); *p = n] *)
Definition alloc {ret} (n : perUserBufferNode) : M ret ptr := fun s =>
  let a := fresh (dom (heap s)) in Ok (Some a, set_heap s (<[a := n]> (heap s))).

(** [free(p)] *)
Definition free {ret} (p : ptr) : M ret unit := fun s =>
  match p with
  | None => Ok (tt, s)
  | Some a => match heap s !! a with
              | Some _ => Ok (tt, set_heap s (delete a (heap s)))
              | None => UB
              end
  end.

Definition onWorld {ret A} (f : W -> A * W) : M ret A := fun s =>
  let '(a, w) := f (world s) in Ok (a, set_world s w).

Definition lockDB {ret} : M ret unit := fun s =>
  if DBLock_ s then UB
  else Ok (tt, set_locks s true (bufferLock_ s) (globalShareContainerNameLock_ s)).
Definition unlockDB {ret} : M ret unit := fun s =>
  if DBLock_ s
  then Ok (tt, set_locks s false (bufferLock_ s) (globalShareContainerNameLock_ s)) else UB.
Definition lockBuffer {ret} : M ret unit := fun s =>
  if bufferLock_ s then UB
  else Ok (tt, set_locks s (DBLock_ s) true (globalShareContainerNameLock_ s)).
Definition unlockBuffer {ret} : M ret unit := fun s =>
  if bufferLock_ s
  then Ok (tt, set_locks s (DBLock_ s) false (globalShareContainerNameLock_ s)) else UB.
Definition lockName {ret} : M ret unit := fun s =>
  if globalShareContainerNameLock_ s then UB
  else Ok (tt, set_locks s (DBLock_ s) (bufferLock_ s) true).
Definition unlockName {ret} : M ret unit := fun s =>
  if globalShareContainerNameLock_ s
  then Ok (tt, set_locks s (DBLock_ s) (bufferLock_ s) false) else UB.

Definition getCurrTime_ {ret} : M ret Z := onWorld gettimeofday.

(** ** Containers *)

(** Write the container buffer of a node into its file: the part that
    flushBufferNodeIntoDisk_ and storeShareContainer_ have in common. *)
Definition writeContainer {ret} (n : perUserBufferNode) : M ret bool := call (
  name ← lift (cstr (shareContainerName n));
  dir ← gets shareContainerDirName_;
  match addPrefixDir_ dir name with
  | None => ret_ false
  | Some path =>
      opened ← onWorld (fun w => fopen_wb w path);
      if negb opened then ret_ false else
      data ← lift (len ← sz (shareContainerBufferCurrLen n); rd (shareContainerBuffer n) 0 len);
      written ← onWorld (fun w => fwrite w path data);
      mret (written : bool)
  end).

Definition flushBufferNodeIntoDisk_ {ret} (target : ptr) : M ret bool := call (
  n ← load target;
  if shareContainerBufferCurrLen n >? 0 then writeContainer n else mret true).

(** The next container name for a node, copied into the 16 bytes [old]. *)
Definition takeContainerName {ret} (old : bytes) : M ret bytes :=
  _ ← lockName;
  global ← gets globalShareContainerName_;
  name ← lift (wr old 0 (take (INTERNAL_FILE_NAME_SIZE - 1) global));
  name ← lift (aset name (INTERNAL_FILE_NAME_SIZE - 1) Byte.x00);
  r ← lift (incrGlobalFileName_ global shareContainerNameValidLen_);
  _ ← modify (fun s => set_name s r.2);
  _ ← unlockName;
  mret name.

Definition storeShareContainer_ {ret} (target : ptr) : M ret bool := call (
  n ← load target;
  written ← writeContainer n;
  if negb written then ret_ false else
  name ← takeContainerName (shareContainerName n);
  _ ← store target (set_container n name (shareContainerBuffer n) 0);
  mret true).

(** ** The list of buffer nodes *)

(** The loop over the list: find the node of the user, remove the nodes of
    other users that were not used for too long. *)
Fixpoint scanNodes {ret} (fuel : nat) (uid : Z) (curr pre target : ptr) : M ret ptr :=
  match curr with
  | None => mret target
  | Some _ =>
      match fuel with
      | O => fun _ => Hang
      | S fuel' =>
          n ← load curr;
          if userID n =? uid then
            currTime ← getCurrTime_;
            _ ← store curr (set_lastUseTime n currTime);
            scanNodes fuel' uid (next n) curr curr
          else
            currTime ← getCurrTime_;
            if currTime - lastUseTime n >? MAX_BUFFER_WAIT then
              _ ← flushBufferNodeIntoDisk_ curr;
              head ← gets headBufferNode_;
              tail ← gets tailBufferNode_;
              if decide (curr = head) then
                _ ← free head;
                _ ← (if decide (head = tail) then modify (fun s => set_ends s None None)
                     else modify (fun s => set_ends s (next n) tail));
                scanNodes fuel' uid (next n) None target
              else
                pn ← load pre;
                _ ← store pre (set_next pn (next n));
                _ ← free curr;
                if decide (curr = tail) then
                  _ ← modify (fun s => set_ends s head pre);
                  scanNodes fuel' uid None pre target
                else
                  pn ← load pre;
                  scanNodes fuel' uid (next pn) pre target
            else scanNodes fuel' uid (next n) curr target
      end
  end.

(** A new node for a user, linked at the end of the list. *)
Definition createBufferNode {ret} (uid : Z) : M ret ptr :=
  name0 ← gets (fun s => uninit (world s) INTERNAL_FILE_NAME_SIZE);
  buf ← gets (fun s => uninit (world s) CONTAINER_BUFFER_SIZE);
  name ← takeContainerName name0;
  currTime ← getCurrTime_;
  target ← alloc {| userID := uid; shareContainerName := name; shareContainerBuffer := buf;
                    shareContainerBufferCurrLen := 0; lastUseTime := currTime; next := None |};
  _ ← lockBuffer;
  head ← gets headBufferNode_;
  tail ← gets tailBufferNode_;
  _ ← (match head with
       | None => modify (fun s => set_ends s target target)
       | Some _ =>
           tn ← load tail;
           _ ← store tail (set_next tn target);
           modify (fun s => set_ends s head target)
       end);
  _ ← unlockBuffer;
  mret target.

(** The list has no more nodes than the heap: [size heap] rounds reach its end, and
    one more finds a pointer to a freed node. *)
Definition findOrCreateBufferNode_ {ret} (uid : Z) : M ret ptr :=
  _ ← lockBuffer;
  head ← gets headBufferNode_;
  fuel ← gets (fun s => S (size (heap s)));
  target ← scanNodes fuel uid head None None;
  _ ← unlockBuffer;
  match target with
  | None => createBufferNode uid
  | Some _ => mret target
  end.

(** The first node from [curr] on that satisfies [test], and the node before it. *)
Fixpoint findNode {ret} (fuel : nat) (test : perUserBufferNode -> res (ret * minDedupCore W) bool)
    (curr pre : ptr) : M ret (ptr * ptr) :=
  match curr with
  | None => mret (None, pre)
  | Some _ =>
      match fuel with
      | O => fun _ => Hang
      | S fuel' =>
          n ← load curr;
          b ← lift (test n);
          if (b : bool) then mret (curr, pre) else findNode fuel' test (next n) curr
      end
  end.

Definition readShareContainerFromBuffer_ {ret} (name dst : bytes) : M ret (bool * bytes) := call (
  _ ← lockBuffer;
  head ← gets headBufferNode_;
  fuel ← gets (fun s => S (size (heap s)));
  '(target, _) ← findNode fuel (fun n => strcmpEq (shareContainerName n) name) head None;
  match target with
  | Some _ =>
      n ← load target;
      dst ← lift (len ← sz (shareContainerBufferCurrLen n);
                  memcpy dst 0 (shareContainerBuffer n) 0 len);
      _ ← unlockBuffer;
      ret_ (true, dst)
  | None => _ ← unlockBuffer; ret_ (false, dst)
  end).

Definition cleanupUserBufferNode {ret} (uid : Z) : M ret bool := call (
  _ ← lockBuffer;
  head ← gets headBufferNode_;
  fuel ← gets (fun s => S (size (heap s)));
  '(target, pre) ← findNode fuel (fun n => Ok (userID n =? uid)) head None;
  match target with
  | Some _ =>
      flushed ← flushBufferNodeIntoDisk_ target;
      if negb flushed then _ ← unlockBuffer; ret_ false else
      n ← load target;
      tail ← gets tailBufferNode_;
      _ ← (if decide (target = head) then
             _ ← modify (fun s => set_ends s (next n) tail);
             _ ← free target;
             if decide (next n = tail) then modify (fun s => set_ends s (next n) None)
             else mret tt
           else
             _ ← (if decide (target = tail) then modify (fun s => set_ends s head pre)
                  else mret tt);
             pn ← load pre;
             _ ← store pre (set_next pn (next n));
             free target);
      _ ← unlockBuffer;
      ret_ true
  | None =>
      (* the message prints targetBufferNode->userID *)
      _ ← load target;
      _ ← unlockBuffer;
      ret_ false
  end).

(** The loop of cleanupAllBufferNodes; a failed flush returns at once. *)
Fixpoint cleanupNodes (fuel : nat) (curr : ptr) : M bool unit :=
  match curr with
  | None => mret tt
  | Some _ =>
      match fuel with
      | O => fun _ => Hang
      | S fuel' =>
          flushed ← flushBufferNodeIntoDisk_ curr;
          if negb flushed then n ← load curr; ret_ false else
          n ← load curr;
          _ ← free curr;
          cleanupNodes fuel' (next n)
      end
  end.

Definition cleanupAllBufferNodes {ret} : M ret bool := call (
  head ← gets headBufferNode_;
  _ ← (match head with
       | Some _ =>
           _ ← lockBuffer;
           fuel ← gets (fun s => S (size (heap s)));
           _ ← cleanupNodes fuel head;
           unlockBuffer
       | None => mret tt
       end);
  mret true).

(** ** The share index *)

(** The loop over the reference entries: has the user one, and the offset
    behind the last entry that was read. *)
Fixpoint scanRefs {R} (n : nat) (value : bytes) (uid : Z) (valueOffset : nat)
  : res R (bool * nat) :=
  match n with
  | O => Ok (false, valueOffset)
  | S n' =>
      u ← getI32 value valueOffset;
      if u =? uid then Ok (true, (valueOffset + shareUserRefEntrySize_)%nat)
      else scanRefs n' value uid (valueOffset + shareUserRefEntrySize_)
  end.

(** [pShareUserRefEntry->refCnt++] for the entry at [off] *)
Definition bumpRef {R} (value : bytes) (off : nat) : res R bytes :=
  c ← getI32 value (off + 4);
  c ← sint (c + 1);
  setI32 value (off + 4) c.

Definition ownerScan {R} (value : bytes) (uid : Z) : res R (bool * nat) :=
  users ← getI32 value 24;
  scanRefs (Z.to_nat users) value uid shareIndexValueHeadSize_.

(** Replace the value of a key in one batch (its size is an [int]); unlock the
    database. *)
Definition rewriteEntry {ret} (key value : bytes) : M ret bool :=
  _ ← lift (sint (Z.of_nat (length value)));
  ok ← onWorld (fun w => db_Write w [BDelete key; BPut key value]);
  _ ← unlockDB;
  mret (ok : bool).

Definition intraUserIndexUpdate_ {ret} (shareFP : bytes) (uid : Z) (intraUserDupStat : bool)
  : M ret (bool * bool) := call (
  let key := shareFP2IndexKey_ shareFP in
  _ ← lockDB;
  st ← gets (fun s => db_Get (world s) key);
  match st with
  | GetOk valueString =>
      '(dup, off) ← lift (ownerScan valueString uid);
      if (dup : bool) then
        value ← lift (bumpRef valueString (off - shareUserRefEntrySize_));
        ok ← rewriteEntry key value;
        ret_ (ok, true)
      else
        _ ← unlockDB; ret_ (true, false)
  | GetNotFound => _ ← unlockDB; ret_ (true, false)
  | GetCorruption | GetIOError => _ ← unlockDB; ret_ (false, intraUserDupStat)
  end).

(** The branch for a share that the database has (called with the lock held). *)
Definition interUserOwned {ret} (key valueString : bytes) (uid : Z) : M ret bool :=
  '(owner, off) ← lift (ownerScan valueString uid);
  if (owner : bool) then
    value ← lift (bumpRef valueString (off - shareUserRefEntrySize_));
    rewriteEntry key value
  else
    value ← lift (users ← getI32 valueString 24;
                  users ← sint (users + 1);
                  setI32 (valueString ++ le32 uid ++ le32 1) 24 users);
    rewriteEntry key value.

(** The value of a new share, written into the block [value]: [strcpy] of the
    container name, the other members of the head, one reference entry. *)
Definition newValue {R} (value name : bytes) (containerOffset shareSize uid : Z) : res R bytes :=
  value ← wr value 0 (name ++ [Byte.x00]);
  value ← setI32 value 16 containerOffset;
  value ← setI32 value 20 shareSize;
  value ← setI32 value 24 1;
  value ← setI32 value 28 uid;
  setI32 value 32 1.

(** The branch for a new share (called without the lock). *)
Definition interUserNew {ret} (key : bytes) (uid shareSize : Z) (target : ptr)
    (shareDataBuffer : bytes) (shareDataBufferOffset : Z) : M ret bool := call (
  n ← load target;
  sum ← lift (sint (shareContainerBufferCurrLen n + shareSize));
  _ ← (if sum >? Z.of_nat CONTAINER_BUFFER_SIZE then
         stored ← storeShareContainer_ target;
         if negb stored then ret_ false else mret tt
       else mret tt);
  n ← load target;
  name ← lift (cstr (shareContainerName n));
  value ← gets (fun s => uninit (world s) (shareIndexValueHeadSize_ + shareUserRefEntrySize_));
  value ← lift (newValue value name (shareContainerBufferCurrLen n) shareSize uid);
  _ ← lockDB;
  _ ← onWorld (fun w => db_Put w key value);
  _ ← unlockDB;
  buf ← lift (doff ← sz (shareContainerBufferCurrLen n);
              soff ← sz shareDataBufferOffset;
              len ← sz shareSize;
              memcpy (shareContainerBuffer n) doff shareDataBuffer soff len);
  len ← lift (sint (shareContainerBufferCurrLen n + shareSize));
  _ ← store target (set_container n (shareContainerName n) buf len);
  mret true).

Definition interUserIndexUpdate_ {ret} (shareFP : bytes) (uid shareSize : Z) (target : ptr)
    (shareDataBuffer : bytes) (shareDataBufferOffset : Z) : M ret bool := call (
  let key := shareFP2IndexKey_ shareFP in
  _ ← lockDB;
  st ← gets (fun s => db_Get (world s) key);
  match st with
  | GetOk valueString => interUserOwned key valueString uid
  | GetNotFound =>
      _ ← unlockDB;
      interUserNew key uid shareSize target shareDataBuffer shareDataBufferOffset
  | GetCorruption | GetIOError => _ ← unlockDB; ret_ false
  end).

(** ** Constructor and destructor *)

(** The loop of createDir_ from [prePos]; the position grows in every round. *)
Fixpoint createDirFrom (fuel : nat) (w : W) (dirName : bytes) (prePos : nat) : bool * W :=
  match fuel with
  | O => (true, w)
  | S fuel' =>
      match list_find (eq slash) (drop prePos dirName) with
      | None => (true, w)
      | Some (i, _) =>
          let currPos := (prePos + i)%nat in
          let '(made, w) := mkdir w (take (currPos + 1) dirName) in
          if negb made then (false, w)
          else if negb (access_rwx w dirName) then (false, w)
          else createDirFrom fuel' w dirName (currPos + 1)
      end
  end.

Definition createDir_ (w : W) (dirName : bytes) : bool * W :=
  createDirFrom (S (length dirName)) w dirName 0.

(** [if (!x) exit(1)] *)
Definition orExit {R A} (x : option A) : res R A :=
  match x with Some a => Ok a | None => Exit 1 end.
Definition checked {R} (r : bool * W) : res R W := if r.1 then Ok r.2 else Exit 1.

Definition new_minDedupCore {R} (w : W) (dedupDirName dbDirName shareContainerDirName : bytes)
  : res R (minDedupCore W) :=
  dedupDirName ← orExit (formatDirName_ dedupDirName);
  dbDirName ← orExit (formatDirName_ dbDirName);
  shareContainerDirName ← orExit (formatDirName_ shareContainerDirName);
  dbDirName ← orExit (addPrefixDir_ dedupDirName dbDirName);
  w ← checked (createDir_ w dbDirName);
  shareContainerDirName ← orExit (addPrefixDir_ dedupDirName shareContainerDirName);
  w ← checked (createDir_ w shareContainerDirName);
  w ← checked (db_Open w dbDirName);
  w ← checked (mutex_init w);
  w ← checked (mutex_init w);
  w ← checked (mutex_init w);
  w ← checked (mutex_init w);
  Ok {| world := w; heap := ∅; headBufferNode_ := None; tailBufferNode_ := None;
        globalShareContainerName_ :=
          replicate shareContainerNameValidLen_ letter_a ++ postfix_sc;
        shareContainerDirName_ := shareContainerDirName;
        DBLock_ := false; bufferLock_ := false; globalShareContainerNameLock_ := false |}.

(** The destructor closes the database and flushes the buffer nodes; what is
    left is the environment. *)
Definition delete_minDedupCore {ret} : M ret W :=
  _ ← cleanupAllBufferNodes;
  gets world.

End MinDedupCore.
