(* ===== verification/MinStages.v ===== *)
(** * The two stages of data deduplication

    minDedupCore::firstStageDedup and secondStageDedup.  The package of share
    metadata comes from the client: a sequence of file heads, names and share
    entries.  The [int] offsets follow the sizes in the package, so the loop
    over the package is given fuel and [Hang] when it is used up. *)

From stdpp Require Import base list numbers gmap.
From coqutil Require Import Byte.
From Stdlib Require Import Lia.
From S2P Require Import Prelude Structs FileNames World CryptoPrimitive MinDedupCore.

Local Open Scope Z_scope.

Section Stages.
Context {W : Type} `{World W} `{Limits} {SSL : OpenSSL}.

Abbreviation M ret A := (SM (minDedupCore W) ret A).

(** A field at an [int] offset of a buffer. *)
Definition field {R} (b : bytes) (off : Z) (delta : nat) : res R Z :=
  o ← sz off; getI32 b (o + delta).

(** Out parameters of the first stage: intraUserDupStatList, numOfShares and
    sentShareDataSize. *)
Definition FirstOut : Type := list bool * nat * Z.

(** One share of a file in the first stage; [off] is shareMDBufferOffset. *)
Definition firstShare (uid : Z) (md : bytes) (st : Z * FirstOut) : M (bool * FirstOut) (Z * FirstOut) :=
  let '(off, (stat, num, sentSize)) := st in
  fp ← lift (o ← sz off; rd md o FP_SIZE);
  off' ← lift (sint (off + Z.of_nat shareMDEntrySize_));
  dup0 ← lift (aget stat num);
  '(ok, dup) ← intraUserIndexUpdate_ fp uid dup0;
  stat ← lift (aset stat num dup);
  if negb ok then ret_ (false, (stat, num, sentSize)) else
  sentSize ← lift (if (dup : bool) then Ok sentSize
                   else size ← field md off 40; sint (sentSize + size));
  mret (off', (stat, S num, sentSize)).

Fixpoint firstFiles (fuel : nat) (uid : Z) (md : bytes) (mdSize : Z) (st : Z * FirstOut)
  : M (bool * FirstOut) (Z * FirstOut) :=
  let '(off, out) := st in
  if off <? mdSize then
    match fuel with
    | O => fun _ => Hang
    | S fuel' =>
        nameSize ← lift (field md off 0);
        coming ← lift (field md off 32);
        off ← lift (sint (off + Z.of_nat fileShareMDHeadSize_));
        off ← lift (sint (off + nameSize));
        st ← forM (Z.to_nat coming) 0 (fun _ st => firstShare uid md st) (off, out);
        firstFiles fuel' uid md mdSize st
    end
  else mret (off, out).

Definition firstStageDedup {ret} (fuel : nat) (uid : Z) (shareMDBuffer : bytes) (shareMDSize : Z)
    (intraUserDupStatList : list bool) : M ret (bool * FirstOut) := call (
  '(_, out) ← firstFiles fuel uid shareMDBuffer shareMDSize (0, (intraUserDupStatList, 0%nat, 0));
  ret_ (true, out)).

(** Local variables of the second stage: shareMDBufferOffset,
    shareDataBufferOffset and numOfShares. *)
Definition SecondLocals : Type := Z * Z * nat.

(** [memcmp(a, b, FP_SIZE) != 0] *)
Definition fpDiffers (a b : bytes) : bool := bool_decide (a <> b).

Definition secondShare (uid : Z) (md : bytes) (stat : list bool) (data : bytes)
    (crypto : CryptoPrimitive) (target : ptr) (st : SecondLocals) : M bool SecondLocals :=
  let '(off, dataOff, num) := st in
  fp ← lift (o ← sz off; rd md o FP_SIZE);
  off' ← lift (sint (off + Z.of_nat shareMDEntrySize_));
  dup ← lift (aget stat num);
  if (dup : bool) then mret (off', dataOff, S num) else
  shareSize ← lift (field md off 40);
  share ← lift (o ← sz dataOff; len ← sz shareSize; rd data o len);
  shareFP ← gets (fun s => uninit (world s) FP_SIZE);
  '(_, hash) ← lift (generateHash crypto share);
  shareFP ← lift (wr shareFP 0 hash);
  if fpDiffers fp shareFP then ret_ false else
  ok ← interUserIndexUpdate_ shareFP uid shareSize target data dataOff;
  if negb ok then ret_ false else
  dataOff ← lift (sint (dataOff + shareSize));
  mret (off', dataOff, S num).

Fixpoint secondFiles (fuel : nat) (uid : Z) (md : bytes) (mdSize : Z) (stat : list bool)
    (data : bytes) (crypto : CryptoPrimitive) (target : ptr) (st : SecondLocals)
  : M bool SecondLocals :=
  let '(off, dataOff, num) := st in
  if off <? mdSize then
    match fuel with
    | O => fun _ => Hang
    | S fuel' =>
        nameSize ← lift (field md off 0);
        coming ← lift (field md off 32);
        off ← lift (sint (off + Z.of_nat fileShareMDHeadSize_));
        fullFileName ← lift (o ← sz off; len ← sz nameSize; rd md o len);
        off ← lift (sint (off + nameSize));
        match formatFullFileName_ fullFileName with
        | None => ret_ false
        | Some _ =>
            st ← forM (Z.to_nat coming) 0
                   (fun _ st => secondShare uid md stat data crypto target st)
                   (off, dataOff, num);
            secondFiles fuel' uid md mdSize stat data crypto target st
        end
    end
  else mret (off, dataOff, num).

(** [cryptoObj] is [None] for NULL. *)
Definition secondStageDedup {ret} (fuel : nat) (uid : Z) (shareMDBuffer : bytes) (shareMDSize : Z)
    (intraUserDupStatList : list bool) (shareDataBuffer : bytes)
    (cryptoObj : option CryptoPrimitive) : M ret bool := call (
  match cryptoObj with
  | None => ret_ false
  | Some crypto =>
      target ← findOrCreateBufferNode_ uid;
      _ ← secondFiles fuel uid shareMDBuffer shareMDSize intraUserDupStatList shareDataBuffer
            crypto target (0, 0, 0%nat);
      ret_ true
  end).

End Stages.
