(* ===== verification/MinRestore.v ===== *)
(** * Restoration of a share file

    minDedupCore::restoreShareFile: read the recipe file entry by entry, look
    every share up in the index, fetch its container from the buffer nodes or
    from the disk through a small LRU cache, and send the shares in messages of
    at most SHARE_FILE_BUFFER_SIZE bytes behind an 8-byte head. *)

From stdpp Require Import base list numbers gmap.
From coqutil Require Import Byte.
From Stdlib Require Import Lia.
From S2P Require Import Prelude Structs FileNames World CryptoPrimitive MinDedupCore.

Local Open Scope Z_scope.

(** [shareContainerCacheNode_t] *)
Record cacheNode := { cachedName : bytes; cachedContainer : bytes }.

(** The cache: shareContainerCache, shareContainerCacheIndex and
    numOfCachedShareContainers. *)
Record cacheState := {
  cacheNodes : list cacheNode;
  cacheIndex : list nat;
  numCached : nat;
}.

Section Restore.
Context {W : Type} `{World W} `{Limits}.

Abbreviation M ret A := (SM (minDedupCore W) ret A).

Definition sentMsgHeadSize : nat := 8.
Definition sentShareFileBufferSize : nat := sentMsgHeadSize + SHARE_FILE_BUFFER_SIZE.

(** [while (j < numOfCached && strcmp(name, cache\[index\[j\]\].name) != 0) j++] *)
Fixpoint cacheFind {R} (n j : nat) (c : cacheState) (name : bytes) : res R nat :=
  match n with
  | O => Ok j
  | S n' =>
      i ← aget (cacheIndex c) j;
      e ← aget (cacheNodes c) i;
      same ← strcmpEq name (cachedName e);
      if (same : bool) then Ok j else cacheFind n' (S j) c name
  end.

(** [for (k = j; k > 0; k--) index\[k\] = index\[k - 1\]] *)
Definition shiftIndex {R} (j : nat) (index : list nat) : res R (list nat) :=
  forDown j (fun k index => i ← aget index k; aset index (S k) i) index.

(** Make [index\[j\]] the first entry. *)
Definition moveToFront {R} (j : nat) (index : list nat) : res R (list nat) :=
  tmp ← aget index j; index ← shiftIndex j index; aset index 0 tmp.

(** The entry a container that is not cached goes to becomes the first one. *)
Definition evict {R} (c : cacheState) : res R cacheState :=
  if (numCached c <? NUM_OF_CACHED_CONTAINERS)%nat then
    index ← shiftIndex (numCached c) (cacheIndex c);
    index ← aset index 0 (numCached c);
    Ok {| cacheNodes := cacheNodes c; cacheIndex := index; numCached := S (numCached c) |}
  else
    index ← moveToFront (NUM_OF_CACHED_CONTAINERS - 1) (cacheIndex c);
    Ok {| cacheNodes := cacheNodes c; cacheIndex := index; numCached := numCached c |}.

(** Read a container into the 4 MB block [dst], from the buffer nodes or the disk. *)
Definition fetchContainer (name dst : bytes) : M bool bytes :=
  '(found, dst) ← readShareContainerFromBuffer_ name dst;
  if (found : bool) then mret dst else
  str ← lift (cstr name);
  dir ← gets shareContainerDirName_;
  match addPrefixDir_ dir str with
  | None => ret_ false
  | Some path =>
      opened ← gets (fun s => fopen_rb (world s) path);
      if negb opened then ret_ false else
      data ← gets (fun s => fread (world s) path 0 CONTAINER_BUFFER_SIZE);
      if decide (data = []) then ret_ false else lift (wr dst 0 data)
  end.

(** After this the container [name] is in the first entry of the cache. *)
Definition cacheContainer (name : bytes) (c : cacheState) : M bool cacheState :=
  j ← lift (cacheFind (numCached c) 0 c name);
  if (j <? numCached c)%nat then
    index ← lift (if (0 <? j)%nat then moveToFront j (cacheIndex c) else Ok (cacheIndex c));
    mret {| cacheNodes := cacheNodes c; cacheIndex := index; numCached := numCached c |}
  else
    c ← lift (evict c);
    i ← lift (aget (cacheIndex c) 0);
    e ← lift (aget (cacheNodes c) i);
    data ← fetchContainer name (cachedContainer e);
    nodes ← lift (aset (cacheNodes c) i {| cachedName := name; cachedContainer := data |});
    mret {| cacheNodes := nodes; cacheIndex := cacheIndex c; numCached := numCached c |}.

(** Send the first [off] bytes of the share file buffer, after writing the
    message head into them. *)
Definition sendBuffer (buf : bytes) (off : nat) : M bool bytes :=
  buf ← lift (wr buf 0 (htonl (-5)));
  buf ← lift (wr buf 4 (htonl (Z.of_nat off - Z.of_nat sentMsgHeadSize)));
  msg ← lift (rd buf 0 off);
  sentSize ← onWorld (fun w => send w msg);
  if negb (sentSize =? Z.of_nat off) then ret_ false else mret buf.

(** Local variables: the position in the recipe file, recipeFileBuffer,
    shareFileBuffer, shareFileBufferOffset and the cache. *)
Record restoreLocals := {
  rPos : nat;
  rRecipe : bytes;
  rBuf : bytes;
  rOff : nat;
  rCache : cacheState;
}.

(** [fread(recipeFileBuffer, 1, size, recipeFilePointer)] *)
Definition readRecipe (path : bytes) (size : nat) (l : restoreLocals) : M bool restoreLocals :=
  data ← gets (fun s => fread (world s) path (rPos l) size);
  if decide (data = []) then ret_ false else
  recipe ← lift (wr (rRecipe l) 0 data);
  mret {| rPos := rPos l + length data; rRecipe := recipe; rBuf := rBuf l; rOff := rOff l;
          rCache := rCache l |}.

(** The share whose index value is [value], for the recipe entry at [eoff] in the
    recipe buffer. *)
Definition restoreShare (value : bytes) (eoff : nat) (l : restoreLocals) : M bool restoreLocals :=
  name ← lift (rd value 0 INTERNAL_FILE_NAME_SIZE);
  coff ← lift (getI32 value 16);
  shareSize ← lift (getI32 value 20);
  c ← cacheContainer name (rCache l);
  '(buf, off) ←
    (if Z.of_nat (rOff l + shareEntrySize_) + shareSize >? Z.of_nat sentShareFileBufferSize then
       buf ← sendBuffer (rBuf l) (rOff l);
       mret (buf, sentMsgHeadSize)
     else mret (rBuf l, rOff l));
  secretID ← lift (getI32 (rRecipe l) (eoff + 32));
  secretSize ← lift (getI32 (rRecipe l) (eoff + 36));
  buf ← lift (setI32 buf off secretID);
  buf ← lift (setI32 buf (off + 4) secretSize);
  buf ← lift (setI32 buf (off + 8) shareSize);
  i ← lift (aget (cacheIndex c) 0);
  e ← lift (aget (cacheNodes c) i);
  len ← lift (sz shareSize);
  buf ← lift (o ← sz coff; memcpy buf (off + shareEntrySize_) (cachedContainer e) o len);
  mret {| rPos := rPos l; rRecipe := rRecipe l; rBuf := buf;
          rOff := off + shareEntrySize_ + len; rCache := c |}.

Definition restoreEntry (path : bytes) (l : restoreLocals) : M bool restoreLocals :=
  l ← readRecipe path fileRecipeEntrySize_ l;
  fp ← lift (rd (rRecipe l) 0 FP_SIZE);
  _ ← lockDB;
  st ← gets (fun s => db_Get (world s) (shareFP2IndexKey_ fp));
  _ ← unlockDB;
  match st with
  | GetOk value => restoreShare value 0 l
  | GetNotFound | GetCorruption | GetIOError => ret_ false
  end.

(** The branch for a recipe file that could be opened. *)
Definition restoreOpened (path : bytes) : M bool unit :=
  recipe ← gets (fun s => uninit (world s) RECIPE_BUFFER_SIZE);
  buf ← gets (fun s => uninit (world s) sentShareFileBufferSize);
  name0 ← gets (fun s => uninit (world s) INTERNAL_FILE_NAME_SIZE);
  cont0 ← gets (fun s => uninit (world s) CONTAINER_BUFFER_SIZE);
  let cache := {| cacheNodes := replicate NUM_OF_CACHED_CONTAINERS
                    {| cachedName := name0; cachedContainer := cont0 |};
                  cacheIndex := replicate NUM_OF_CACHED_CONTAINERS 0%nat;
                  numCached := 0 |} in
  l ← readRecipe path fileRecipeHeadSize_
        {| rPos := 0; rRecipe := recipe; rBuf := buf; rOff := sentMsgHeadSize; rCache := cache |};
  fileSize ← lift (getI64 (rRecipe l) 8);
  numOfShares ← lift (getI32 (rRecipe l) 16);
  buf ← lift (setI64 (rBuf l) sentMsgHeadSize fileSize);
  buf ← lift (setI32 buf (sentMsgHeadSize + 8) numOfShares);
  l ← forM (Z.to_nat numOfShares) 0 (fun _ l => restoreEntry path l)
        {| rPos := rPos l; rRecipe := rRecipe l; rBuf := buf;
           rOff := sentMsgHeadSize + shareFileHeadSize_; rCache := rCache l |};
  if (sentMsgHeadSize <? rOff l)%nat then _ ← sendBuffer (rBuf l) (rOff l); mret tt
  else mret tt.

Definition restoreShareFile {ret} (fullRecipeFileName : bytes)
    (cryptoObj : option CryptoPrimitive) : M ret bool := call (
  match cryptoObj with
  | None => ret_ false
  | Some _ =>
      opened ← gets (fun s => fopen_rb (world s) fullRecipeFileName);
      _ ← (if (opened : bool) then restoreOpened fullRecipeFileName else mret tt);
      _ ← onWorld (fun w => (tt, rm_rf w fullRecipeFileName));
      ret_ true
  end).

End Restore.
