(* ===== verification/ShareIndex.v ===== *)
(** * The share index

    The value of a share in the database, as the code lays it out
    ([shareIndexValueHead_t] and a [shareUserRefEntry_t] per user), and as the
    abstract entry it stands for; the scan and the updates of the code on the
    bytes are lookups and updates of the abstract entry. *)

From stdpp Require Import base list numbers gmap.
From coqutil Require Import Byte.
From Stdlib Require Import Lia.
From S2P Require Import Prelude Structs FileNames World MinDedupCore.

Local Open Scope Z_scope.

(** Where a share is (container, offset, size) and how often each user stored it. *)
Record ShareInfo := {
  si_name : bytes;
  si_off : nat;
  si_size : nat;
  si_refs : list (Z * Z);
}.

Definition encodeRef (r : Z * Z) : bytes := le32 r.1 ++ le32 r.2.
Definition encodeRefs (l : list (Z * Z)) : bytes := mjoin (encodeRef <$> l).

Definition encodeInfo (i : ShareInfo) : bytes :=
  (si_name i ++ [Byte.x00]) ++ le32 (Z.of_nat (si_off i)) ++ le32 (Z.of_nat (si_size i))
  ++ le32 (Z.of_nat (length (si_refs i))) ++ encodeRefs (si_refs i).

Definition with_refs (i : ShareInfo) (l : list (Z * Z)) : ShareInfo :=
  {| si_name := si_name i; si_off := si_off i; si_size := si_size i; si_refs := l |}.

(** The abstract updates. *)
Definition owns (uid : Z) (l : list (Z * Z)) : bool := bool_decide (uid ∈ l.*1).

(** One more reference of a user. *)
Fixpoint addRef (uid : Z) (l : list (Z * Z)) : list (Z * Z) :=
  match l with
  | [] => [(uid, 1)]
  | (u, c) :: l' => if u =? uid then (u, c + 1) :: l' else (u, c) :: addRef uid l'
  end.

(** The references of a user. *)
Fixpoint refsOf (uid : Z) (l : list (Z * Z)) : Z :=
  match l with
  | [] => 0
  | (u, c) :: l' => if u =? uid then c else refsOf uid l'
  end.

(** Entries the code can represent: distinct users, at most [b] references each. *)
Record wfRefs (b : Z) (l : list (Z * Z)) : Prop := {
  wr_nodup : NoDup l.*1;
  wr_users : Forall int32 l.*1;
  wr_counts : Forall (fun c => 1 <= c <= b) l.*2;
  wr_length : Z.of_nat (length l) <= b;
}.

(** ** References *)

Lemma length_encodeRef r : length (encodeRef r) = 8%nat.
Proof. unfold encodeRef. by rewrite length_app, !length_le32. Qed.

Lemma encodeRefs_cons r l : encodeRefs (r :: l) = encodeRef r ++ encodeRefs l.
Proof. done. Qed.

Lemma length_encodeRefs l : length (encodeRefs l) = (8 * length l)%nat.
Proof.
  induction l as [|r l IH]; [done|].
  rewrite encodeRefs_cons, length_app, length_encodeRef, IH. cbn [length]. lia.
Qed.

Lemma encodeRefs_app l1 l2 : encodeRefs (l1 ++ l2) = encodeRefs l1 ++ encodeRefs l2.
Proof. unfold encodeRefs. by rewrite fmap_app, join_app. Qed.

Lemma addRef_split uid l1 c l2 :
  uid ∉ l1.*1 -> addRef uid (l1 ++ (uid, c) :: l2) = l1 ++ (uid, c + 1) :: l2.
Proof.
  induction l1 as [|[u d] l1 IH]; cbn; intros Hu.
  - by rewrite Z.eqb_refl.
  - apply not_elem_of_cons in Hu as [Hu Hu']. rewrite (proj2 (Z.eqb_neq u uid)) by congruence.
    by rewrite IH.
Qed.

Lemma addRef_new uid l : uid ∉ l.*1 -> addRef uid l = l ++ [(uid, 1)].
Proof.
  induction l as [|[u d] l IH]; cbn; intros Hu; [done|].
  apply not_elem_of_cons in Hu as [Hu Hu']. rewrite (proj2 (Z.eqb_neq u uid)) by congruence.
  by rewrite IH.
Qed.

Lemma owned_split uid (l : list (Z * Z)) :
  uid ∈ l.*1 -> exists l1 c l2, l = l1 ++ (uid, c) :: l2 /\ (uid ∉ l1.*1).
Proof.
  induction l as [|[u d] l IH]; cbn; intros Hu; [by apply not_elem_of_nil in Hu|].
  destruct (decide (u = uid)) as [->|Hne].
  - exists [], d, l. split; [done|]. apply not_elem_of_nil.
  - apply elem_of_cons in Hu as [Hu|Hu]; [congruence|].
    destruct (IH Hu) as (l1 & c & l2 & -> & Hl1). exists ((u, d) :: l1), c, l2.
    split; [done|]. cbn. apply not_elem_of_cons. split; [congruence|done].
Qed.

Lemma addRef_users uid l : uid ∈ l.*1 -> (addRef uid l).*1 = l.*1.
Proof.
  intros Hu. destruct (owned_split _ _ Hu) as (l1 & c & l2 & -> & H1).
  rewrite addRef_split by done. by rewrite !fmap_app.
Qed.

(** [addRef] is the counter update of one user and nothing else. *)
Lemma refsOf_addRef uid u l : refsOf u (addRef uid l) = refsOf u l + (if u =? uid then 1 else 0).
Proof.
  induction l as [|[v c] l IH]; cbn.
  - destruct (Z.eqb_spec uid u), (Z.eqb_spec u uid); lia.
  - destruct (Z.eqb_spec v uid) as [->|]; cbn.
    + destruct (Z.eqb_spec uid u), (Z.eqb_spec u uid); lia.
    + destruct (Z.eqb_spec v u); [|done]. destruct (Z.eqb_spec u uid); lia.
Qed.

Lemma wfRefs_addRef b uid l : int32 uid -> wfRefs b l -> wfRefs (b + 1) (addRef uid l).
Proof.
  intros Hu [H1 H2 H3 H4].
  assert (Forall (fun c => 1 <= c <= b + 1) l.*2) as H3'
    by (eapply Forall_impl; [done|]; cbn; lia).
  destruct (decide (uid ∈ l.*1)) as [Hin|Hin].
  - destruct (owned_split _ _ Hin) as (l1 & c & l2 & -> & Hl1).
    rewrite addRef_split by done. split.
    + by rewrite !fmap_app in *.
    + by rewrite !fmap_app in *.
    + rewrite !fmap_app in *. apply Forall_app in H3 as [H3a H3b]. apply Forall_app in H3' as [H3'a H3'b].
      cbn in *. inv H3b. inv H3'b. apply Forall_app. split; [done|]. constructor; [lia|done].
    + rewrite length_app in *. cbn [length] in *. lia.
  - rewrite addRef_new by done. pose proof (Nat2Z.is_nonneg (length l)). split.
    + rewrite fmap_app. apply NoDup_app. split; [done|]. split; [|apply NoDup_singleton].
      intros x Hx Hy. apply list_elem_of_singleton in Hy. cbn in Hy. by subst x.
    + rewrite fmap_app. apply Forall_app. split; [done|]. by apply Forall_singleton.
    + rewrite fmap_app. apply Forall_app. split; [done|]. apply Forall_singleton. cbn. lia.
    + rewrite length_app. cbn [length]. lia.
Qed.

(** ** The code on encoded entries *)

Lemma scanRefs_absent {R} pre l uid :
  Forall int32 l.*1 -> uid ∉ l.*1 ->
  scanRefs (R := R) (length l) (pre ++ encodeRefs l) uid (length pre)
  = Ok (false, (length pre + 8 * length l)%nat).
Proof.
  revert pre. induction l as [|[u c] l IH]; intros pre Hi Hu; cbn [length scanRefs].
  - by rewrite Nat.mul_0_r, Nat.add_0_r.
  - cbn in Hi, Hu. inv Hi. apply not_elem_of_cons in Hu as [Hu Hu'].
    rewrite (getI32_at pre u (le32 c ++ encodeRefs l));
      [|by rewrite encodeRefs_cons; unfold encodeRef; rewrite <- app_assoc|done|done].
    cbn [mbind res_bind]. rewrite (proj2 (Z.eqb_neq u uid)) by congruence.
    rewrite encodeRefs_cons, app_assoc. unfold shareUserRefEntrySize_.
    replace (length pre + 8)%nat with (length (pre ++ encodeRef (u, c)))
      by (rewrite length_app, length_encodeRef; lia).
    rewrite IH by done. f_equal. f_equal. rewrite length_app, length_encodeRef. lia.
Qed.

Lemma scanRefs_present {R} pre l1 uid c l2 :
  Forall int32 (l1 ++ (uid, c) :: l2).*1 -> uid ∉ l1.*1 ->
  scanRefs (R := R) (length (l1 ++ (uid, c) :: l2)) (pre ++ encodeRefs (l1 ++ (uid, c) :: l2)) uid
    (length pre)
  = Ok (true, (length pre + 8 * length l1 + 8)%nat).
Proof.
  revert pre. induction l1 as [|[u d] l1 IH]; intros pre Hi Hu; cbn [app length scanRefs].
  - cbn in Hi. inv Hi.
    rewrite (getI32_at pre uid (le32 c ++ encodeRefs l2));
      [|by rewrite encodeRefs_cons; unfold encodeRef; rewrite <- app_assoc|done|done].
    cbn [mbind res_bind]. rewrite Z.eqb_refl. unfold shareUserRefEntrySize_.
    f_equal. f_equal. lia.
  - cbn in Hi, Hu. inv Hi. apply not_elem_of_cons in Hu as [Hu Hu'].
    rewrite (getI32_at pre u (le32 d ++ encodeRefs (l1 ++ (uid, c) :: l2)));
      [|by rewrite encodeRefs_cons; unfold encodeRef; rewrite <- app_assoc|done|done].
    cbn [mbind res_bind]. rewrite (proj2 (Z.eqb_neq u uid)) by congruence.
    rewrite encodeRefs_cons, app_assoc. unfold shareUserRefEntrySize_.
    replace (length pre + 8)%nat with (length (pre ++ encodeRef (u, d)))
      by (rewrite length_app, length_encodeRef; lia).
    rewrite IH by done. f_equal. f_equal. rewrite length_app, length_encodeRef. lia.
Qed.

Lemma bumpRef_at {R} pre uid c post :
  int32 c -> c < 2 ^ 31 - 1 ->
  bumpRef (R := R) (pre ++ encodeRef (uid, c) ++ post) (length pre)
  = Ok (pre ++ encodeRef (uid, c + 1) ++ post).
Proof.
  intros Hc Hm. unfold bumpRef, encodeRef, int32 in *. cbn [fst snd].
  rewrite (getI32_at (pre ++ le32 uid) c post); [|by rewrite <- !app_assoc|by lens|done].
  cbn [mbind res_bind]. rewrite sint_ok by lia. cbn [mbind res_bind].
  rewrite (setI32_at (pre ++ le32 uid) (le32 c) post); [|by rewrite <- !app_assoc|by lens|by lens].
  by rewrite <- !app_assoc.
Qed.

(** ** Whole entries *)

(** The head of an entry with [n] users. *)
Definition headOf (i : ShareInfo) (n : Z) : bytes :=
  (si_name i ++ [Byte.x00]) ++ le32 (Z.of_nat (si_off i)) ++ le32 (Z.of_nat (si_size i)) ++ le32 n.

Lemma encodeInfo_head i :
  encodeInfo i = headOf i (Z.of_nat (length (si_refs i))) ++ encodeRefs (si_refs i).
Proof. unfold encodeInfo, headOf. by rewrite <- !app_assoc. Qed.

Lemma length_headOf i n : length (si_name i) = 15%nat -> length (headOf i n) = 28%nat.
Proof. intros Hn. unfold headOf. rewrite !length_app, !length_le32, Hn. done. Qed.

(** The number of users is the last field of the head. *)
Lemma headOf_users i n :
  headOf i n = ((si_name i ++ [Byte.x00]) ++ le32 (Z.of_nat (si_off i))
                ++ le32 (Z.of_nat (si_size i))) ++ le32 n.
Proof. unfold headOf. by rewrite <- !app_assoc. Qed.

Section Entry.
Context {R : Type} (i : ShareInfo) (b : Z).
Hypothesis name_length : length (si_name i) = 15%nat.
Hypothesis refs_ok : wfRefs b (si_refs i).
Hypothesis small : b < 2 ^ 28.

Let users_length : length ((si_name i ++ [Byte.x00]) ++ le32 (Z.of_nat (si_off i))
                ++ le32 (Z.of_nat (si_size i))) = 24%nat.
Proof. rewrite !length_app, !length_le32, name_length. done. Qed.

Let count_int32 : int32 (Z.of_nat (length (si_refs i))).
Proof. pose proof (wr_length _ _ refs_ok). unfold int32. lia. Qed.

Lemma getUsers : getI32 (R := R) (encodeInfo i) 24 = Ok (Z.of_nat (length (si_refs i))).
Proof.
  rewrite encodeInfo_head, headOf_users. eapply getI32_at; [by rewrite <- app_assoc|done|done].
Qed.

Lemma ownerScan_absent uid :
  uid ∉ (si_refs i).*1 -> exists off, ownerScan (R := R) (encodeInfo i) uid = Ok (false, off).
Proof.
  intros Hu. unfold ownerScan. rewrite getUsers. cbn [mbind res_bind].
  rewrite Nat2Z.id, encodeInfo_head. unfold shareIndexValueHeadSize_.
  rewrite <- (length_headOf i (Z.of_nat (length (si_refs i)))) by done.
  rewrite scanRefs_absent; [by eexists|apply refs_ok|done].
Qed.

Lemma ownerScan_present uid :
  uid ∈ (si_refs i).*1 -> exists off, ownerScan (R := R) (encodeInfo i) uid = Ok (true, off) /\
    bumpRef (R := R) (encodeInfo i) (off - shareUserRefEntrySize_)
    = Ok (encodeInfo (with_refs i (addRef uid (si_refs i)))).
Proof.
  intros Hu. unfold ownerScan. rewrite getUsers. cbn [mbind res_bind].
  rewrite Nat2Z.id, encodeInfo_head, (encodeInfo_head (with_refs _ _)).
  destruct (owned_split _ _ Hu) as (l1 & c & l2 & E & Hl1).
  destruct refs_ok as [H1 H2 H3 H4]. rewrite E in *. unfold shareIndexValueHeadSize_.
  cbn [si_refs with_refs]. rewrite addRef_split by done.
  exists (28 + 8 * length l1 + 8)%nat. split.
  - rewrite <- (length_headOf i (Z.of_nat (length (l1 ++ (uid, c) :: l2)))) by done.
    by rewrite scanRefs_present by done.
  - unfold shareUserRefEntrySize_. rewrite Nat.add_sub.
    rewrite !encodeRefs_app, !encodeRefs_cons, !app_assoc, <- !(app_assoc _ (encodeRef _)).
    assert (1 <= c <= b) as Hc.
    { rewrite fmap_app in H3. apply Forall_app in H3 as [_ H3]. cbn in H3. by inv H3. }
    replace (28 + 8 * length l1)%nat with
      (length (headOf i (Z.of_nat (length (l1 ++ (uid, c) :: l2))) ++ encodeRefs l1))
      by (rewrite length_app, length_headOf, length_encodeRefs; [done|done]).
    rewrite bumpRef_at by (unfold int32; lia). by rewrite !length_app.
Qed.

(** The branch that appends a user. *)
Lemma appendUser uid :
  uid ∉ (si_refs i).*1 ->
  (users ← getI32 (encodeInfo i) 24; users ← sint (users + 1);
   setI32 (R := R) (encodeInfo i ++ le32 uid ++ le32 1) 24 users)
  = Ok (encodeInfo (with_refs i (addRef uid (si_refs i)))).
Proof.
  intros Hu. rewrite getUsers. cbn [mbind res_bind].
  pose proof (wr_length _ _ refs_ok). rewrite sint_ok by lia. cbn [mbind res_bind].
  rewrite !encodeInfo_head, !headOf_users. cbn [with_refs si_refs si_name si_off si_size].
  rewrite addRef_new by done.
  rewrite (setI32_at ((si_name i ++ [Byte.x00]) ++ le32 (Z.of_nat (si_off i))
                ++ le32 (Z.of_nat (si_size i))) (le32 (Z.of_nat (length (si_refs i))))
     (encodeRefs (si_refs i) ++ le32 uid ++ le32 1)); [|by rewrite <- !app_assoc|done|by lens].
  rewrite length_app, encodeRefs_app. cbn [length].
  replace (Z.of_nat (length (si_refs i)) + 1) with (Z.of_nat (length (si_refs i) + 1)) by lia.
  rewrite <- !app_assoc. by do 7 f_equal.
Qed.

Lemma getName : rd (R := R) (encodeInfo i) 0 INTERNAL_FILE_NAME_SIZE = Ok (si_name i ++ [Byte.x00]).
Proof. unfold encodeInfo. apply rd_front. rewrite length_app, name_length. done. Qed.

Lemma getOffset : int32 (Z.of_nat (si_off i)) ->
  getI32 (R := R) (encodeInfo i) 16 = Ok (Z.of_nat (si_off i)).
Proof. intros. unfold encodeInfo. eapply getI32_at; [done|by rewrite length_app, name_length|done]. Qed.

Lemma getSize : int32 (Z.of_nat (si_size i)) ->
  getI32 (R := R) (encodeInfo i) 20 = Ok (Z.of_nat (si_size i)).
Proof.
  intros. unfold encodeInfo. eapply getI32_at; [by rewrite app_assoc| |done].
  by rewrite !length_app, length_le32, name_length.
Qed.

Lemma length_encodeInfo : length (encodeInfo i) = (28 + 8 * length (si_refs i))%nat.
Proof. by rewrite encodeInfo_head, length_app, length_headOf, length_encodeRefs. Qed.
End Entry.

(** The value that interUserIndexUpdate_ builds for a new share. *)
Lemma newEntry {R} value name off size uid :
  length value = 36%nat -> length name = 15%nat ->
  newValue (R := R) value name (Z.of_nat off) (Z.of_nat size) uid
  = Ok (encodeInfo {| si_name := name; si_off := off; si_size := size; si_refs := [(uid, 1)] |}).
Proof.
  intros Hv Hn. unfold newValue, setI32.
  rewrite (wr_next [] value 0) by (cbn [length]; rewrite ?length_app, ?Hn, ?Hv; cbn; lia).
  assert (length (name ++ [Byte.x00]) = 16%nat) as H16 by (by rewrite length_app, Hn).
  repeat (cbn [mbind res_bind app];
          rewrite wr_next by (rewrite ?length_drop, !length_app, ?length_le32, ?H16, ?Hn, ?Hv; cbn; lia)).
  cbn [mbind res_bind]. rewrite !drop_drop, drop_ge
    by (rewrite ?length_le32, ?H16, ?Hv; lia).
  f_equal. unfold encodeInfo, encodeRefs, encodeRef. cbn [si_name si_off si_size si_refs].
  cbn. rewrite <- !app_assoc. by rewrite !app_nil_r.
Qed.
