(* ===== verification/MinInvariant.v ===== *)
(** * The storage invariant of minDedupCore

    What the object, the database and the disk must satisfy between two calls:
    the buffer nodes form a proper list, container names are never reused, and
    every share of the index can be found, with its fingerprint, in the buffer
    of a node or in a container file. *)

From stdpp Require Import base list numbers gmap.
From coqutil Require Import Byte.
From Stdlib Require Import Lia.
From S2P Require Import Prelude Structs FileNames World MinDedupCore ShareIndex.

Local Open Scope Z_scope.

(** ** The list of buffer nodes *)

Abbreviation nodeList := (list (positive * perUserBufferNode)).

(** [p] points to the first node of the list [l]. *)
Fixpoint chain (p : ptr) (l : nodeList) : Prop :=
  match l with
  | [] => p = None
  | (a, n) :: l' => p = Some a /\ chain (next n) l'
  end.

Fixpoint lastPtr (l : nodeList) : ptr :=
  match l with
  | [] => None
  | [(a, _)] => Some a
  | _ :: l' => lastPtr l'
  end.

(** [h], [hd] and [tl] hold exactly the list [l]. *)
Record linked (h : gmap positive perUserBufferNode) (hd tl : ptr) (l : nodeList) : Prop := {
  lk_heap : h = list_to_map l;
  lk_nodup : NoDup l.*1;
  lk_chain : chain hd l;
  lk_tail : tl = lastPtr l;
}.

Lemma app_snoc {A} (l1 : list A) x l2 : l1 ++ x :: l2 = (l1 ++ [x]) ++ l2.
Proof. by rewrite <- app_assoc. Qed.

Lemma lastPtr_snoc l a n : lastPtr (l ++ [(a, n)]) = Some a.
Proof. induction l as [|[b m] l IH]; [done|]. cbn. by destruct (l ++ [(a, n)]) eqn:E; [destruct l|]. Qed.

Lemma lastPtr_app_cons l1 x l2 : lastPtr (l1 ++ x :: l2) = lastPtr (x :: l2).
Proof.
  induction l1 as [|[b m] l1 IH]; [done|]. cbn [app lastPtr].
  destruct (l1 ++ x :: l2) eqn:E; [by destruct l1|]. by rewrite IH.
Qed.

Lemma lastPtr_cons y x l : lastPtr (y :: x :: l) = lastPtr (x :: l).
Proof. by destruct y. Qed.

Lemma lastPtr_None l : lastPtr l = None -> l = [].
Proof.
  destruct l as [|[a n] l] using rev_ind; [done|]. by rewrite lastPtr_snoc.
Qed.

Lemma lastPtr_elem l a : lastPtr l = Some a -> a ∈ l.*1.
Proof.
  destruct l as [|[b n] l] using rev_ind; [done|]. rewrite lastPtr_snoc. intros. simplify_eq.
  rewrite fmap_app. set_solver.
Qed.

(** Replacing a node keeps the end of the list. *)
Lemma lastPtr_replace l1 a n n' l2 :
  lastPtr (l1 ++ (a, n') :: l2) = lastPtr (l1 ++ (a, n) :: l2).
Proof. rewrite !lastPtr_app_cons. by destruct l2. Qed.

Lemma chain_app p l1 a n l2 :
  chain p (l1 ++ (a, n) :: l2) ->
  forall n' l2', chain (next n') l2' -> chain p (l1 ++ (a, n') :: l2').
Proof.
  revert p. induction l1 as [|[b m] l1 IH]; intros p Hc n' l2' H'; cbn in *.
  - by destruct Hc as [-> _].
  - destruct Hc as [-> Hc]. split; [done|]. by eapply IH.
Qed.

Lemma chain_at p l1 a n l2 : chain p (l1 ++ (a, n) :: l2) -> chain (next n) l2.
Proof.
  revert p. induction l1 as [|[b m] l1 IH]; intros p Hc; cbn in *; [by destruct Hc|].
  destruct Hc as [_ Hc]. by eapply IH.
Qed.

(** ** The heap as a list *)

Lemma heap_lookup (l1 l2 : nodeList) a n :
  NoDup (l1 ++ (a, n) :: l2).*1 ->
  (list_to_map (l1 ++ (a, n) :: l2) : gmap positive perUserBufferNode) !! a = Some n.
Proof. intros Hn. apply elem_of_list_to_map_1; [done|]. set_solver. Qed.

Lemma nodup_middle (l1 l2 : nodeList) a n :
  NoDup (l1 ++ (a, n) :: l2).*1 -> (a ∉ l1.*1) /\ (a ∉ l2.*1) /\ NoDup (l1 ++ l2).*1.
Proof.
  rewrite !fmap_app. cbn. rewrite NoDup_app, NoDup_cons, NoDup_app. set_solver.
Qed.

Lemma heap_insert (l1 l2 : nodeList) a n n' :
  NoDup (l1 ++ (a, n) :: l2).*1 ->
  <[a := n']> (list_to_map (l1 ++ (a, n) :: l2) : gmap positive perUserBufferNode)
  = list_to_map (l1 ++ (a, n') :: l2).
Proof.
  intros Hn. apply nodup_middle in Hn as (H1 & H2 & _).
  induction l1 as [|[b m] l1 IH]; cbn in *; [apply insert_insert_eq|].
  rewrite insert_insert_ne by set_solver. f_equal. apply IH. set_solver.
Qed.

Lemma heap_delete (l1 l2 : nodeList) a n :
  NoDup (l1 ++ (a, n) :: l2).*1 ->
  delete a (list_to_map (l1 ++ (a, n) :: l2) : gmap positive perUserBufferNode)
  = list_to_map (l1 ++ l2).
Proof.
  intros Hn. apply nodup_middle in Hn as (H1 & H2 & _).
  induction l1 as [|[b m] l1 IH]; cbn in *.
  - apply delete_insert_id. by apply not_elem_of_list_to_map_1.
  - rewrite delete_insert_ne by set_solver. f_equal. apply IH. set_solver.
Qed.

Lemma heap_snoc (l : nodeList) a n :
  a ∉ l.*1 ->
  <[a := n]> (list_to_map l : gmap positive perUserBufferNode) = list_to_map (l ++ [(a, n)]).
Proof.
  induction l as [|[b m] l IH]; cbn; intros Ha; [done|].
  rewrite insert_insert_ne by set_solver. f_equal. apply IH. set_solver.
Qed.

(** ** Operations on the list *)

Lemma linked_replace h hd tl l1 a n n' l2 :
  linked h hd tl (l1 ++ (a, n) :: l2) -> next n' = next n ->
  linked (<[a := n']> h) hd tl (l1 ++ (a, n') :: l2).
Proof.
  intros [-> Hn Hc ->] E. split.
  - by apply heap_insert.
  - by rewrite !fmap_app in *.
  - eapply chain_app; [done|]. rewrite E. by eapply chain_at.
  - symmetry. apply lastPtr_replace.
Qed.

Lemma linked_lookup h hd tl l1 a n l2 :
  linked h hd tl (l1 ++ (a, n) :: l2) -> h !! a = Some n.
Proof. intros [-> Hn _ _]. by apply heap_lookup. Qed.

(** Unlinking the first node. *)
Lemma linked_remove_head h hd tl a n l2 :
  linked h hd tl ((a, n) :: l2) ->
  hd = Some a /\ (hd = tl <-> l2 = []) /\
  linked (delete a h) (next n) (if decide (l2 = []) then None else tl) l2.
Proof.
  intros [-> Hn [-> Hc] ->]. split; [done|].
  destruct (nodup_middle [] l2 a n Hn) as (_ & Ha & Hn').
  split.
  - split; [|by intros ->]. intros E. destruct l2 as [|x l2]; [done|].
    symmetry in E. rewrite lastPtr_cons in E.
    by apply lastPtr_elem in E.
  - split; [by apply (heap_delete [])|done|done|].
    case_decide as E; [by rewrite E|]. destruct l2 as [|x l2]; [done|].
    apply lastPtr_cons.
Qed.

(** Unlinking the node behind [(p, pn)]. *)
Lemma linked_remove_next h hd tl l1 p pn a n l2 :
  linked h hd tl (l1 ++ (p, pn) :: (a, n) :: l2) ->
  hd <> Some a /\ h !! p = Some pn /\ p <> a /\ (tl = Some a <-> l2 = []) /\
  linked (delete a (<[p := set_next pn (next n)]> h)) hd
    (if decide (l2 = []) then Some p else tl) (l1 ++ (p, set_next pn (next n)) :: l2).
Proof.
  intros Hl. pose proof Hl as [-> Hn Hc ->].
  pose proof Hn as Hn'. rewrite (app_snoc l1 (p, pn)) in Hn'.
  destruct (nodup_middle _ _ _ _ Hn') as (Ha1 & Ha2 & Hn'').
  rewrite fmap_app in Ha1.
  assert (p <> a) as Hpa by set_solver.
  split_and!.
  - destruct l1 as [|[b m] l1]; cbn in Hc; destruct Hc as [-> _]; intros E; simplify_eq; set_solver.
  - by apply heap_lookup.
  - done.
  - rewrite (app_snoc l1 (p, pn)), lastPtr_app_cons. split.
    + intros E. destruct l2 as [|x l2]; [done|].
      rewrite lastPtr_cons in E. by apply lastPtr_elem in E.
    + by intros ->.
  - split.
    + rewrite heap_insert by done.
      rewrite (app_snoc l1 _), (heap_delete (l1 ++ [(p, set_next pn (next n))]) l2 a n).
      * by rewrite <- app_assoc.
      * rewrite <- app_assoc. by rewrite !fmap_app in *.
    + rewrite <- app_assoc in Hn''. by rewrite !fmap_app in *.
    + eapply chain_app; [done|]. cbn.
      rewrite (app_snoc l1 (p, pn)) in Hc. by eapply chain_at.
    + rewrite (app_snoc l1 (p, pn)), lastPtr_app_cons.
      case_decide as E; [rewrite E; by rewrite lastPtr_app_cons|].
      destruct l2 as [|x l2]; [done|].
      rewrite lastPtr_cons, (app_snoc l1 _), lastPtr_app_cons. done.
Qed.

(** Linking a new node at the end. *)
Lemma linked_snoc h hd tl l a n :
  linked h hd tl l -> h !! a = None -> next n = None ->
  match l with
  | [] => hd = None /\ linked (<[a := n]> h) (Some a) (Some a) [(a, n)]
  | _ => exists l1 t tn, l = l1 ++ [(t, tn)] /\ is_Some hd /\ tl = Some t /\
         h !! t = Some tn /\
         linked (<[t := set_next tn (Some a)]> (<[a := n]> h)) hd (Some a)
           (l1 ++ [(t, set_next tn (Some a)); (a, n)])
  end.
Proof.
  intros [-> Hn Hc ->] Ha Hnx. apply not_elem_of_list_to_map in Ha.
  destruct l as [|x l]; [split; [done|]; split; cbn; [done|by repeat constructor; set_solver|by rewrite Hnx|done]|].
  destruct (exists_last (l := x :: l)) as (l1 & [t tn] & E); [done|]. rewrite E in *. clear x l E.
  exists l1, t, tn.
  assert (NoDup (l1 ++ [(t, tn); (a, n)]).*1) as Hn2.
  { rewrite (app_snoc l1 _ [_]), fmap_app. apply NoDup_app. split; [done|]. split; [|apply NoDup_singleton].
    intros x Hx Hin. apply list_elem_of_singleton in Hin. by subst x. }
  split_and!; [done| |by rewrite lastPtr_snoc|by apply (heap_lookup l1 [])|].
  { destruct l1 as [|[b m] l1]; cbn in Hc; destruct Hc as [-> _]; done. }
  rewrite heap_snoc by done. rewrite <- app_assoc. cbn [app]. split.
  - rewrite heap_insert by done. done.
  - by rewrite !fmap_app in *.
  - eapply chain_app; [exact Hc|]. cbn. by rewrite Hnx.
  - by rewrite (app_snoc l1 _ [_]), lastPtr_snoc.
Qed.

(** ** Containers *)

Definition nodeData (n : perUserBufferNode) : bytes :=
  take (Z.to_nat (shareContainerBufferCurrLen n)) (shareContainerBuffer n).

(** The content of a container: the buffer of the node that is filling it, or
    else its file. *)
Fixpoint containerOf (l : nodeList) (dir : bytes) (fs : gmap bytes bytes) (name : bytes)
  : option bytes :=
  match l with
  | [] => fs !! (dir ++ name)
  | (_, n) :: l' =>
      if decide (shareContainerName n = name ++ [Byte.x00]) then Some (nodeData n)
      else containerOf l' dir fs name
  end.

Abbreviation nodeNames l := (shareContainerName <$> l.*2).
Abbreviation nodeUsers l := (userID <$> l.*2).

Lemma containerOf_file l dir fs name :
  name ++ [Byte.x00] ∉ nodeNames l -> containerOf l dir fs name = fs !! (dir ++ name).
Proof.
  induction l as [|[a n] l IH]; cbn; intros Hn; [done|].
  apply not_elem_of_cons in Hn as [H1 H2]. rewrite decide_False by done. by apply IH.
Qed.

Lemma containerOf_node l1 a n l2 dir fs name :
  name ++ [Byte.x00] ∉ nodeNames l1 -> shareContainerName n = name ++ [Byte.x00] ->
  containerOf (l1 ++ (a, n) :: l2) dir fs name = Some (nodeData n).
Proof.
  induction l1 as [|[b m] l1 IH]; cbn; intros Hn E; [by rewrite decide_True|].
  apply not_elem_of_cons in Hn as [H1 H2]. rewrite decide_False by done. by apply IH.
Qed.

(** A node that fills another container can be replaced or left out. *)
Lemma containerOf_other l1 a n l2 dir fs name :
  shareContainerName n <> name ++ [Byte.x00] ->
  containerOf (l1 ++ (a, n) :: l2) dir fs name = containerOf (l1 ++ l2) dir fs name.
Proof.
  intros Hn. induction l1 as [|[b m] l1 IH]; cbn; [by rewrite decide_False|]. by rewrite IH.
Qed.

(** Files of other containers do not matter. *)
Lemma containerOf_files l dir fs fs' name :
  fs' !! (dir ++ name) = fs !! (dir ++ name) ->
  containerOf l dir fs' name = containerOf l dir fs name.
Proof. intros E. induction l as [|[b m] l IH]; cbn; [done|]. by rewrite IH. Qed.

(** [covers k C C']: the containers with a number below [k] may only grow. *)
Definition covers (k : Z) (C C' : bytes -> option bytes) : Prop :=
  forall i name c, isContainerName i name -> 0 <= i < k -> C name = Some c -> c <> [] ->
    exists c', C' name = Some c' /\ c `prefix_of` c'.

Lemma covers_refl k C : covers k C C.
Proof. intros i name c _ _ HC _. by exists c. Qed.

Lemma covers_trans k k' C1 C2 C3 :
  k <= k' -> covers k C1 C2 -> covers k' C2 C3 -> covers k C1 C3.
Proof.
  intros Hk H1 H2 i name c Hi Hb HC Hne.
  destruct (H1 i name c Hi Hb HC Hne) as (c' & HC' & Hp).
  destruct (H2 i name c' Hi ltac:(lia) HC') as (c'' & HC'' & Hp').
  - intros ->. apply Hne. by apply prefix_nil_inv in Hp.
  - exists c''. split; [done|]. by etrans.
Qed.

(** ** The index *)

(** What the code needs of the sizes of its buffers. *)
Class LimitsOk `{Limits} : Prop := {
  lim_container : 0 < Z.of_nat CONTAINER_BUFFER_SIZE < 2 ^ 30;
  lim_sharefile : (shareFileHeadSize_ + shareEntrySize_ <= SHARE_FILE_BUFFER_SIZE)%nat;
  lim_sharefile_max : Z.of_nat SHARE_FILE_BUFFER_SIZE < 2 ^ 30;
  lim_recipe : (fileRecipeEntrySize_ <= RECIPE_BUFFER_SIZE)%nat;
  lim_recipe_max : Z.of_nat RECIPE_BUFFER_SIZE < 2 ^ 30;
  lim_cached : (0 < NUM_OF_CACHED_CONTAINERS)%nat;
}.

(** The abstract index: the entry of each fingerprint. *)
Abbreviation Index := (bytes -> option ShareInfo).

(** The database [m] holds the index [A]. *)
Definition represents (m : gmap bytes bytes) (A : Index) : Prop :=
  forall fp, m !! shareFP2IndexKey_ fp = encodeInfo <$> A fp.

(** A share the server accepts fits into a container and into a message. *)
Definition goodSize `{Limits} (size : Z) : Prop :=
  0 < size /\ size <= Z.of_nat CONTAINER_BUFFER_SIZE /\
  size + Z.of_nat shareEntrySize_ <= Z.of_nat SHARE_FILE_BUFFER_SIZE.

Section Invariant.
Context `{Limits} (digest : bytes -> bytes).

(** Entry [i] is the share [fp]: its bytes are in its container. *)
Record stored (C : bytes -> option bytes) (k b : Z) (fp : bytes) (i : ShareInfo) : Prop := {
  st_name : exists n, isContainerName n (si_name i) /\ 0 <= n < k;
  st_size : goodSize (Z.of_nat (si_size i));
  st_fits : (si_off i + si_size i <= CONTAINER_BUFFER_SIZE)%nat;
  st_refs : wfRefs b (si_refs i);
  st_data : exists c, C (si_name i) = Some c /\ (si_off i + si_size i <= length c)%nat /\
              digest (take (si_size i) (drop (si_off i) c)) = fp;
}.

(** The database [m] holds the index [A], all of whose shares are stored. *)
Definition indexed (A : Index) (m : gmap bytes bytes) (C : bytes -> option bytes) (k b : Z) : Prop :=
  represents m A /\ forall fp i, A fp = Some i -> stored C k b fp i.

Lemma wfRefs_mono b b' l : b <= b' -> wfRefs b l -> wfRefs b' l.
Proof.
  intros Hb [H1 H2 H3 H4]. split; [done|done| |lia].
  eapply Forall_impl; [done|]. cbn. lia.
Qed.

Lemma stored_mono C C' k k' b b' fp i :
  covers k C C' -> k <= k' -> b <= b' -> stored C k b fp i -> stored C' k' b' fp i.
Proof.
  intros Hc Hk Hb [(n & Hn & Hnk) Hs Hf Hr (c & HC & Hl & Hd)].
  assert (c <> []) as Hne.
  { intros ->. cbn in Hl. destruct Hs. lia. }
  destruct (Hc n _ c Hn Hnk HC Hne) as (c' & HC' & [x ->]).
  split; [exists n; split; [done|lia]|done|done|by eapply wfRefs_mono|].
  exists (c ++ x). rewrite length_app. split; [done|]. split; [lia|].
  rewrite drop_app_le, take_app_le by (rewrite ?length_drop; lia). done.
Qed.

Lemma indexed_mono A m C C' k k' b b' :
  covers k C C' -> k <= k' -> b <= b' -> indexed A m C k b -> indexed A m C' k' b'.
Proof. intros Hc Hk Hb [HR Hi]. split; [done|]. intros. eapply stored_mono; eauto. Qed.

(** A node owns a container with a number below [k]. *)
Record wfNode (k : Z) (n : perUserBufferNode) : Prop := {
  wn_name : exists i name, shareContainerName n = name ++ [Byte.x00] /\
              isContainerName i name /\ 0 <= i < k;
  wn_buffer : length (shareContainerBuffer n) = CONTAINER_BUFFER_SIZE;
  wn_len : 0 <= shareContainerBufferCurrLen n <= Z.of_nat CONTAINER_BUFFER_SIZE;
}.

Lemma wfNode_mono k k' n : k <= k' -> wfNode k n -> wfNode k' n.
Proof.
  intros Hk [(i & nm & E & Hi & Hb) H2 H3]. split; [|done..]. exists i, nm. split_and!; [done..|lia|lia].
Qed.

(** [A] is the index, [k] counts the containers named so far, [b] bounds the
    counters. *)
Record Inv {W} `{WorldLaws W} (A : Index) (s : minDedupCore W) (l : nodeList) (k b : Z) : Prop := {
  inv_linked : linked (heap s) (headBufferNode_ s) (tailBufferNode_ s) l;
  inv_global : isContainerName k (globalShareContainerName_ s);
  inv_bound : 0 <= k <= b;
  inv_nodes : Forall (wfNode k) l.*2;
  inv_names : NoDup (nodeNames l);
  inv_users : NoDup (nodeUsers l);
  inv_index : indexed A (contents (view (world s)))
                (containerOf l (shareContainerDirName_ s) (files (view (world s)))) k b;
}.
End Invariant.

(** No method is running. *)
Definition unlocked {W} (s : minDedupCore W) : Prop :=
  DBLock_ s = false /\ bufferLock_ s = false /\ globalShareContainerNameLock_ s = false.

(** ** Containers survive *)

Lemma nodup_name (l1 l2 : nodeList) a n :
  NoDup (nodeNames (l1 ++ (a, n) :: l2)) ->
  (shareContainerName n ∉ nodeNames l1) /\ (shareContainerName n ∉ nodeNames l2) /\
  NoDup (nodeNames (l1 ++ l2)).
Proof. rewrite !fmap_app. cbn. rewrite NoDup_app, NoDup_cons, NoDup_app. set_solver. Qed.

Lemma nodup_user (l1 l2 : nodeList) a n :
  NoDup (nodeUsers (l1 ++ (a, n) :: l2)) ->
  (userID n ∉ nodeUsers l1) /\ (userID n ∉ nodeUsers l2) /\ NoDup (nodeUsers (l1 ++ l2)).
Proof. rewrite !fmap_app. cbn. rewrite NoDup_app, NoDup_cons, NoDup_app. set_solver. Qed.

(** The file of a container that a node is filling is not looked at. *)
Lemma containerOf_flush (l1 l2 : nodeList) a n dir fs fs' name nm :
  shareContainerName n = name ++ [Byte.x00] ->
  (forall q, q <> dir ++ name -> fs' !! q = fs !! q) ->
  containerOf (l1 ++ (a, n) :: l2) dir fs' nm = containerOf (l1 ++ (a, n) :: l2) dir fs nm.
Proof.
  intros En Hq. destruct (decide (nm = name)) as [->|Hne].
  - induction l1 as [|[b m] l1 IH]; cbn; [by rewrite !decide_True|]. by rewrite IH.
  - apply containerOf_files, Hq. intros E. by apply app_inv_head in E.
Qed.

(** Freeing a node whose data is in its file. *)
Lemma covers_remove k (l1 l2 : nodeList) a n dir fs fs' name :
  NoDup (nodeNames (l1 ++ (a, n) :: l2)) -> shareContainerName n = name ++ [Byte.x00] ->
  (forall q, q <> dir ++ name -> fs' !! q = fs !! q) ->
  (nodeData n <> [] -> fs' !! (dir ++ name) = Some (nodeData n)) ->
  covers k (containerOf (l1 ++ (a, n) :: l2) dir fs) (containerOf (l1 ++ l2) dir fs').
Proof.
  intros Hnd En Hq Hf i nm c Hi _ HC Hne.
  destruct (nodup_name _ _ _ _ Hnd) as (H1 & H2 & _). rewrite En in H1, H2.
  destruct (decide (nm = name)) as [->|Hnm].
  - rewrite containerOf_node in HC by done. simplify_eq. exists (nodeData n).
    rewrite containerOf_file by (rewrite !fmap_app; set_solver). by rewrite Hf.
  - exists c. split; [|done]. rewrite <- HC, containerOf_other.
    + apply containerOf_files, Hq. intros E. by apply app_inv_head in E.
    + rewrite En. intros E. by apply app_inj_tail in E as [-> _].
Qed.

(** Replacing a node by one with another container, likewise. *)
Lemma covers_renew k (l1 l2 : nodeList) a n n' dir fs fs' name k' name' :
  NoDup (nodeNames (l1 ++ (a, n) :: l2)) -> shareContainerName n = name ++ [Byte.x00] ->
  (forall q, q <> dir ++ name -> fs' !! q = fs !! q) ->
  (nodeData n <> [] -> fs' !! (dir ++ name) = Some (nodeData n)) ->
  shareContainerName n' = name' ++ [Byte.x00] -> isContainerName k' name' -> k <= k' ->
  covers k (containerOf (l1 ++ (a, n) :: l2) dir fs) (containerOf (l1 ++ (a, n') :: l2) dir fs').
Proof.
  intros Hnd En Hq Hf En' Hk' Hk i nm c Hi Hb HC Hne.
  destruct (covers_remove k l1 l2 a n dir fs fs' name Hnd En Hq Hf i nm c Hi Hb HC Hne)
    as (c' & HC' & Hp).
  exists c'. split; [|done]. rewrite containerOf_other; [done|].
  rewrite En'. intros E. apply app_inj_tail in E as [-> _].
  pose proof (containerName_inj _ _ _ Hi Hk'). lia.
Qed.

(** Appending to the buffer of a node. *)
Lemma covers_append k (l1 l2 : nodeList) a n n' dir fs :
  NoDup (nodeNames (l1 ++ (a, n) :: l2)) ->
  shareContainerName n' = shareContainerName n -> nodeData n `prefix_of` nodeData n' ->
  covers k (containerOf (l1 ++ (a, n) :: l2) dir fs) (containerOf (l1 ++ (a, n') :: l2) dir fs).
Proof.
  intros Hnd En Hp i nm c Hi Hb HC Hne.
  destruct (nodup_name _ _ _ _ Hnd) as (H1 & H2 & _).
  destruct (decide (shareContainerName n = nm ++ [Byte.x00])) as [E|Hn].
  - rewrite E in H1. rewrite containerOf_node in HC by done. simplify_eq.
    exists (nodeData n'). split; [|done]. apply containerOf_node; [done|congruence].
  - rewrite containerOf_other in HC by done. exists c.
    rewrite containerOf_other by congruence. done.
Qed.

(** A new node at the end of the list. *)
Lemma covers_snoc k (l : nodeList) a n dir fs name :
  shareContainerName n = name ++ [Byte.x00] -> isContainerName k name ->
  covers k (containerOf l dir fs) (containerOf (l ++ [(a, n)]) dir fs).
Proof.
  intros En Hk i nm c Hi Hb HC _. exists c. split; [|done].
  rewrite containerOf_other, app_nil_r; [done|].
  rewrite En. intros E. apply app_inj_tail in E as [-> _].
  pose proof (containerName_inj _ _ _ Hi Hk). lia.
Qed.

(** A list that differs in members that are not about containers. *)
Lemma containerOf_next l1 p pn l2 q dir fs nm :
  containerOf (l1 ++ (p, set_next pn q) :: l2) dir fs nm
  = containerOf (l1 ++ (p, pn) :: l2) dir fs nm.
Proof. induction l1 as [|[b m] l1 IH]; cbn; [done|]. by rewrite IH. Qed.

Lemma containerOf_time l1 p pn l2 t dir fs nm :
  containerOf (l1 ++ (p, set_lastUseTime pn t) :: l2) dir fs nm
  = containerOf (l1 ++ (p, pn) :: l2) dir fs nm.
Proof. induction l1 as [|[b m] l1 IH]; cbn; [done|]. by rewrite IH. Qed.

Lemma covers_eq k C C' : (forall nm, C' nm = C nm) -> covers k C C'.
Proof. intros E i nm c _ _ HC _. exists c. by rewrite E. Qed.

(** ** What the share code leaves alone *)

(** [q] is not the path of a container in [dir]. *)
Definition otherPath (dir q : bytes) : Prop := forall i nm, isContainerName i nm -> q <> dir ++ nm.
Definition otherFiles (dir : bytes) (fs fs' : gmap bytes bytes) : Prop :=
  forall q, otherPath dir q -> fs' !! q = fs !! q.
(** Keys that are not of shares. *)
Definition otherKeys (m m' : gmap bytes bytes) : Prop :=
  forall key, (forall fp, key <> shareFP2IndexKey_ fp) -> m' !! key = m !! key.

#[export] Instance otherFiles_preorder dir : PreOrder (otherFiles dir).
Proof. split; [by intros m q|]. intros m1 m2 m3 H1 H2 q Hq. rewrite H2, H1 by done. done. Qed.
#[export] Instance otherKeys_preorder : PreOrder otherKeys.
Proof. split; [by intros m q|]. intros m1 m2 m3 H1 H2 q Hq. rewrite H2, H1 by done. done. Qed.

Lemma otherKeys_insert m fp v : otherKeys m (<[shareFP2IndexKey_ fp := v]> m).
Proof. intros key Hk. apply lookup_insert_ne. intros <-. by apply (Hk fp). Qed.
