(* ===== verification/MinNodes.v ===== *)
(** * Container files and the list of buffer nodes

    The functions of minDedupCore that write containers and manage the buffer
    nodes keep the storage invariant: what is in a container stays there when
    its node is flushed and freed or starts a new container. *)

From stdpp Require Import base list numbers gmap.
From coqutil Require Import Byte.
From Stdlib Require Import Lia.
From S2P Require Import Prelude Structs FileNames World MinDedupCore ShareIndex MinInvariant.

Local Open Scope Z_scope.

Section Nodes.
Context {W : Type} {WW : World W} {WL : WorldLaws W} {LM : Limits} {LOK : LimitsOk}
        (digest : bytes -> bytes) (Ix : Index).
Implicit Types s : minDedupCore W.

Abbreviation M := (SM (minDedupCore W)).

(** ** Elementary steps *)

Lemma wps_onWorld {ret A} (f : W -> A * W) (P : A -> minDedupCore W -> Prop)
    (Q : ret -> minDedupCore W -> Prop) s :
  (forall a w, f (world s) = (a, w) -> P a (set_world s w)) -> wps (onWorld f) P Q s.
Proof. intros Hf. unfold wps, onWorld. destruct (f (world s)) as [a w] eqn:E. by apply Hf. Qed.

Lemma wps_load {ret} a n (P : _ -> _ -> Prop) (Q : ret -> minDedupCore W -> Prop) s :
  heap s !! a = Some n -> P n s -> wps (load (Some a)) P Q s.
Proof. intros E. unfold wps, load. by rewrite E. Qed.

Lemma wps_store {ret} a n n' (P : _ -> _ -> Prop) (Q : ret -> minDedupCore W -> Prop) s :
  heap s !! a = Some n -> P tt (set_heap s (<[a := n']> (heap s))) -> wps (store (Some a) n') P Q s.
Proof. intros E. unfold wps, store. by rewrite E. Qed.

Lemma wps_free {ret} a n (P : _ -> _ -> Prop) (Q : ret -> minDedupCore W -> Prop) s :
  heap s !! a = Some n -> P tt (set_heap s (delete a (heap s))) -> wps (free (Some a)) P Q s.
Proof. intros E. unfold wps, free. by rewrite E. Qed.

(** ** Writing a container *)

(** The only file that may have changed is [p]; it holds [c] if [r = Some c]. *)
Definition fileWritten (v v' : View) (p : bytes) (r : option bytes) : Prop :=
  contents v' = contents v /\ sent v' = sent v /\
  (forall q, q <> p -> files v' !! q = files v !! q) /\
  (forall c, r = Some c -> files v' !! p = Some c).

Lemma fileWritten_refl v p : fileWritten v v p None.
Proof. by split_and!. Qed.

Lemma writeContainer_spec {ret} s n name i (Q : ret -> minDedupCore W -> Prop) :
  shareContainerName n = name ++ [Byte.x00] -> isContainerName i name ->
  0 <= shareContainerBufferCurrLen n <= Z.of_nat (length (shareContainerBuffer n)) ->
  wps (writeContainer n) (fun ok s' => exists w', s' = set_world s w' /\
    fileWritten (view (world s)) (view w') (shareContainerDirName_ s ++ name)
      (if ok then Some (nodeData n) else None) /\
    (ok = true -> 0 < shareContainerBufferCurrLen n) /\
    (DiskOk W -> 0 < shareContainerBufferCurrLen n -> ok = true)) Q s.
Proof.
  intros En Hi Hlen. unfold writeContainer. wstep. wstep.
  eapply wps_lift; [rewrite En; by eapply containerName_cstr|]. wstep. wstep.
  rewrite (containerName_prefix i) by done.
  set (path := shareContainerDirName_ s ++ name).
  wstep. apply wps_onWorld. intros opened w1 E1.
  pose proof (fopen_wb_law _ _ _ _ E1) as V1. destruct opened; cbn [negb].
  2: { wstep. exists w1. rewrite V1. split; [done|]. split; [apply fileWritten_refl|].
       split; [done|]. intros HD _. pose proof (disk_fopen (world s) path) as D. by rewrite E1 in D. }
  wstep. eapply wps_lift.
  { rewrite sz_ok by lia. cbn [mbind res_bind]. by rewrite rd_ok by lia. }
  rewrite drop_0. change (take (Z.to_nat (shareContainerBufferCurrLen n)) (shareContainerBuffer n))
    with (nodeData n).
  wstep. apply wps_onWorld. cbn [world set_world]. intros ok w2 E2.
  destruct (fwrite_law _ _ _ _ _ E2) as (c & V2 & Hok). wstep.
  exists w2. split; [done|]. rewrite V2, V1. cbn [files set_files contents sent].
  assert (length (nodeData n) = Z.to_nat (shareContainerBufferCurrLen n)) as Hnd
    by (unfold nodeData; rewrite length_take; lia).
  split.
  - split; [done|]. split; [done|]. cbn [files set_files]. split.
    + intros q Hq. by rewrite !lookup_insert_ne.
    + intros d Hd. destruct ok; [|done]. destruct (Hok eq_refl) as [_ ->]. rewrite V1.
      cbn [files set_files]. rewrite !lookup_insert_eq. cbn. congruence.
  - split.
    + intros ->. destruct (Hok eq_refl) as [Hne _].
      destruct (decide (shareContainerBufferCurrLen n = 0)) as [E0|]; [|lia].
      exfalso. apply Hne, nil_length_inv. rewrite Hnd, E0. done.
    + intros HD Hpos. pose proof (disk_fwrite w1 path (nodeData n)) as D. rewrite E2 in D.
      apply D. intros E. rewrite E in Hnd. cbn in Hnd. lia.
Qed.

Lemma flush_spec {ret} s a n k (Q : ret -> minDedupCore W -> Prop) :
  heap s !! a = Some n -> wfNode k n ->
  wps (flushBufferNodeIntoDisk_ (Some a)) (fun ok s' => exists w' name,
    s' = set_world s w' /\ shareContainerName n = name ++ [Byte.x00] /\
    fileWritten (view (world s)) (view w') (shareContainerDirName_ s ++ name)
      (if (ok && (0 <? shareContainerBufferCurrLen n)) then Some (nodeData n) else None) /\
    (DiskOk W -> ok = true)) Q s.
Proof.
  intros Ha [(i & name & En & Hi & _) Hb Hl]. unfold flushBufferNodeIntoDisk_.
  wstep. wstep. eapply wps_load; [done|].
  destruct (Z.gtb_spec (shareContainerBufferCurrLen n) 0) as [Hp|Hz].
  - eapply wps_post; [eapply (writeContainer_spec s n name i); [done|done|lia]|].
    intros ok s' (w' & -> & Hf & _ & HD). exists w', name. split_and!; [done|done| |auto].
    rewrite (proj2 (Z.ltb_lt _ _)) by lia. by rewrite andb_true_r.
  - wstep. exists (world s), name. rewrite (proj2 (Z.ltb_ge _ _)) by lia.
    split_and!; [by destruct s|done|apply fileWritten_refl|done].
Qed.
(** ** Names *)

Lemma takeContainerName_spec {ret} s old k (Q : ret -> minDedupCore W -> Prop) :
  globalShareContainerNameLock_ s = false -> length old = 16%nat ->
  isContainerName k (globalShareContainerName_ s) -> k < 26 ^ 12 - 1 ->
  wps (takeContainerName old) (fun name s' => exists g',
    name = globalShareContainerName_ s ++ [Byte.x00] /\
    isContainerName (k + 1) g' /\ s' = set_name s g') Q s.
Proof.
  intros Hl Ho Hg Hk. pose proof (containerName_length _ _ Hg) as H15.
  unfold takeContainerName. wstep.
  unfold wps at 1, lockName. rewrite Hl. wstep. wstep. wstep.
  eapply wps_lift.
  { change (INTERNAL_FILE_NAME_SIZE - 1)%nat with 15%nat.
    cbn [globalShareContainerName_ set_locks]. rewrite take_ge by lia.
    apply (wr_next [] old 0); [done|]. lia. }
  cbn [app globalShareContainerName_ set_locks]. wstep.
  destruct (drop (length (globalShareContainerName_ s)) old) as [|x [|y d]] eqn:Ed;
    apply (f_equal length) in Ed; rewrite length_drop in Ed; cbn in Ed; try lia.
  eapply wps_lift.
  { rewrite aset_ok by (rewrite length_app; cbn; lia).
    change (INTERNAL_FILE_NAME_SIZE - 1)%nat with 15%nat.
    rewrite <- H15, insert_app_r_alt, Nat.sub_diag by lia. done. }
  wstep. destruct (containerName_incr (R := ret * minDedupCore W) k _ Hg Hk) as (g' & Eg & Hg').
  eapply wps_lift; [exact Eg|]. wstep. wstep. wstep.
  unfold wps at 1, unlockName. cbn [globalShareContainerNameLock_ set_name set_locks].
  wstep. exists g'. split_and!; [done|done|].
  destruct s. cbn in *. by subst.
Qed.
(** ** What node operations leave alone *)

Record frame s s' : Prop := {
  fr_dir : shareContainerDirName_ s' = shareContainerDirName_ s;
  fr_db : DBLock_ s' = DBLock_ s;
  fr_buffer : bufferLock_ s' = bufferLock_ s;
  fr_name : globalShareContainerNameLock_ s' = globalShareContainerNameLock_ s;
  fr_contents : contents (view (world s')) = contents (view (world s));
  fr_sent : sent (view (world s')) = sent (view (world s));
  fr_files : otherFiles (shareContainerDirName_ s) (files (view (world s))) (files (view (world s')));
}.

#[local] Instance frame_refl : Reflexive frame.
Proof. by split. Qed.

#[local] Instance frame_trans : Transitive frame.
Proof.
  intros s1 s2 s3 [D1 ? ? ? ? ? F1] [D2 ? ? ? ? ? F2]. split; try congruence.
  rewrite D1 in F2. by etrans.
Qed.

Abbreviation Inv := (Inv digest Ix).

(** The invariant does not look at the locks. *)
Lemma Inv_locks s l k b x y z : Inv s l k b -> Inv (set_locks s x y z) l k b.
Proof. by intros []. Qed.

Lemma Inv_ext s s' l k b :
  world s' = world s -> heap s' = heap s -> headBufferNode_ s' = headBufferNode_ s ->
  tailBufferNode_ s' = tailBufferNode_ s ->
  globalShareContainerName_ s' = globalShareContainerName_ s ->
  shareContainerDirName_ s' = shareContainerDirName_ s -> Inv s l k b -> Inv s' l k b.
Proof. intros E1 E2 E3 E4 E5 E6 []. split; rewrite ?E1, ?E2, ?E3, ?E4, ?E5, ?E6; done. Qed.

Lemma Inv_wfNode s l1 a n l2 k b : Inv s (l1 ++ (a, n) :: l2) k b -> wfNode k n.
Proof. intros [_ _ _ HF _ _ _]. rewrite fmap_app in HF. apply Forall_app in HF as [_ HF]. by inversion HF. Qed.

(** Changes of the list of nodes. *)
Lemma frame_same s s' s'' :
  frame s s' -> world s'' = world s' -> shareContainerDirName_ s'' = shareContainerDirName_ s' ->
  DBLock_ s'' = DBLock_ s' -> bufferLock_ s'' = bufferLock_ s' ->
  globalShareContainerNameLock_ s'' = globalShareContainerNameLock_ s' -> frame s s''.
Proof. intros [] E1 E2 E3 E4 E5. split; rewrite ?E1, ?E2, ?E3, ?E4, ?E5; done. Qed.

(** A step that changes only the environment, and of it only one file that is
    shadowed by a node. *)
Lemma Inv_flushed s l1 a n l2 k b w name r :
  Inv s (l1 ++ (a, n) :: l2) k b -> shareContainerName n = name ++ [Byte.x00] ->
  fileWritten (view (world s)) (view w) (shareContainerDirName_ s ++ name) r ->
  Inv (set_world s w) (l1 ++ (a, n) :: l2) k b /\ frame s (set_world s w).
Proof.
  intros HI En (Hc & Hs & Hq & _). pose proof (Inv_wfNode _ _ _ _ _ _ _ HI) as [(i & nm & En' & Hi & _) _ _].
  rewrite En in En'. apply app_inj_tail in En' as [<- _]. destruct HI.
  split; [|by split; try done; intros q Ho; apply Hq, (Ho i)].
  split; cbn [world set_world heap headBufferNode_ tailBufferNode_ globalShareContainerName_
    shareContainerDirName_]; try done.
  rewrite Hc. eapply indexed_mono; [| | |done]; [|lia|lia].
  apply covers_eq. intros nm. by eapply containerOf_flush.
Qed.

(** Reading the clock and similar steps. *)
Lemma Inv_world s l k b w :
  Inv s l k b -> view w = view (world s) ->
  Inv (set_world s w) l k b /\ frame s (set_world s w).
Proof.
  intros [] E. split; [|by split; cbn; rewrite ?E].
  split; cbn [world set_world heap headBufferNode_ tailBufferNode_ globalShareContainerName_
    shareContainerDirName_]; rewrite ?E; done.
Qed.

Lemma Inv_node s l1 a n l2 k b : Inv s (l1 ++ (a, n) :: l2) k b ->
  heap s !! a = Some n /\ wfNode k n.
Proof.
  intros []. split; [by eapply linked_lookup|].
  rewrite fmap_app in inv_nodes. apply Forall_app in inv_nodes as [_ HF]. by inv HF.
Qed.

Lemma Inv_touch s l1 a n l2 k b t :
  Inv s (l1 ++ (a, n) :: l2) k b ->
  Inv (set_heap s (<[a := set_lastUseTime n t]> (heap s)))
    (l1 ++ (a, set_lastUseTime n t) :: l2) k b.
Proof.
  intros []. split; cbn [world set_heap heap headBufferNode_ tailBufferNode_
    globalShareContainerName_ shareContainerDirName_]; try done.
  - by apply (linked_replace _ _ _ _ _ n).
  - rewrite !fmap_app in *. cbn in *. rewrite Forall_app, Forall_cons in *.
    destruct inv_nodes as (? & [] & ?). by split_and!.
  - by rewrite !fmap_app in *.
  - by rewrite !fmap_app in *.
  - eapply indexed_mono; [| | |done]; [|lia|lia]. apply covers_eq. intros. apply containerOf_time.
Qed.

(** The data of a flushed node is in its file. *)
Lemma written_data v v' p n :
  fileWritten v v' p (if true && (0 <? shareContainerBufferCurrLen n) then Some (nodeData n) else None) ->
  nodeData n <> [] -> files v' !! p = Some (nodeData n).
Proof.
  intros (_ & _ & _ & Hf) Hne. apply Hf.
  destruct (Z.ltb_spec 0 (shareContainerBufferCurrLen n)); [done|].
  exfalso. apply Hne. unfold nodeData. by rewrite Z2Nat.nonpos.
Qed.

(** Freeing a flushed node: the index part of the invariant. *)
Lemma indexed_removed s l1 a n l2 k b w name :
  Inv s (l1 ++ (a, n) :: l2) k b -> shareContainerName n = name ++ [Byte.x00] ->
  fileWritten (view (world s)) (view w) (shareContainerDirName_ s ++ name)
    (if true && (0 <? shareContainerBufferCurrLen n) then Some (nodeData n) else None) ->
  indexed digest Ix (contents (view w))
    (containerOf (l1 ++ l2) (shareContainerDirName_ s) (files (view w))) k b.
Proof.
  intros [] En Hf. pose proof (written_data _ _ _ _ Hf) as Hd. destruct Hf as (-> & _ & Hq & _).
  eapply indexed_mono; [| | |done]; [|lia|lia]. by eapply covers_remove.
Qed.

Lemma Forall_removed {A} (P : A -> Prop) (l1 l2 : list A) x :
  Forall P (l1 ++ x :: l2) -> Forall P (l1 ++ l2).
Proof. rewrite !Forall_app, Forall_cons. naive_solver. Qed.

Lemma Inv_remove_head s a n l2 k b w name :
  Inv s ((a, n) :: l2) k b -> shareContainerName n = name ++ [Byte.x00] ->
  fileWritten (view (world s)) (view w) (shareContainerDirName_ s ++ name)
    (if true && (0 <? shareContainerBufferCurrLen n) then Some (nodeData n) else None) ->
  headBufferNode_ s = Some a /\
  (headBufferNode_ s = tailBufferNode_ s <-> l2 = []) /\
  Inv (set_ends (set_heap (set_world s w) (delete a (heap s))) (next n)
         (if decide (l2 = []) then None else tailBufferNode_ s)) l2 k b.
Proof.
  intros HI En Hf. pose proof (indexed_removed s [] _ _ _ _ _ _ _ HI En Hf) as Hi.
  destruct HI. destruct (linked_remove_head _ _ _ _ _ _ inv_linked) as (E & Ht & Hl).
  split; [done|]. split; [done|].
  split; cbn [world set_world set_heap set_ends heap headBufferNode_ tailBufferNode_
    globalShareContainerName_ shareContainerDirName_]; try done.
  - by apply (Forall_removed _ [] _ n).
  - by apply (nodup_name [] _ a n).
  - by apply (nodup_user [] _ a n).
Qed.

Lemma Inv_remove_next s l1 p pn a n l2 k b w name :
  Inv s (l1 ++ (p, pn) :: (a, n) :: l2) k b -> shareContainerName n = name ++ [Byte.x00] ->
  fileWritten (view (world s)) (view w) (shareContainerDirName_ s ++ name)
    (if true && (0 <? shareContainerBufferCurrLen n) then Some (nodeData n) else None) ->
  headBufferNode_ s <> Some a /\ heap s !! p = Some pn /\ p <> a /\
  (tailBufferNode_ s = Some a <-> l2 = []) /\
  Inv (set_ends (set_heap (set_world s w) (delete a (<[p := set_next pn (next n)]> (heap s))))
         (headBufferNode_ s) (if decide (l2 = []) then Some p else tailBufferNode_ s))
    (l1 ++ (p, set_next pn (next n)) :: l2) k b.
Proof.
  intros HI En Hf. rewrite (app_snoc l1 (p, pn)) in HI.
  pose proof (indexed_removed s _ _ _ _ _ _ _ _ HI En Hf) as Hi.
  rewrite <- app_snoc in HI. destruct HI.
  destruct (linked_remove_next _ _ _ _ _ _ _ _ _ inv_linked) as (E & Hp & Hpa & Ht & Hl).
  split_and!; [done..|].
  split; cbn [world set_world set_heap set_ends heap headBufferNode_ tailBufferNode_
    globalShareContainerName_ shareContainerDirName_]; try done.
  - rewrite (app_snoc l1 (p, pn)), fmap_app in inv_nodes. cbn in inv_nodes.
    apply Forall_removed in inv_nodes. rewrite fmap_app, <- app_assoc in inv_nodes.
    apply Forall_app in inv_nodes as [F1 F2]. cbn in F2. inversion F2 as [|? ? [] F3]; subst.
    rewrite fmap_app. apply Forall_app. split; [done|]. by constructor.
  - rewrite (app_snoc l1 (p, pn)) in inv_names. apply nodup_name in inv_names as (_ & _ & HN).
    rewrite <- app_assoc in HN. by rewrite !fmap_app in *.
  - rewrite (app_snoc l1 (p, pn)) in inv_users. apply nodup_user in inv_users as (_ & _ & HN).
    rewrite <- app_assoc in HN. by rewrite !fmap_app in *.
  - eapply indexed_mono; [| | |exact Hi]; [|lia|lia]. rewrite <- app_assoc. apply covers_eq.
    intros. apply containerOf_next.
Qed.
(** ** findOrCreateBufferNode_ *)

(** Address and user of each node. *)
Abbreviation ids l := ((fun x : positive * perUserBufferNode => (x.1, userID x.2)) <$> l).

(** [target] is the node of the user in [l], if there is one. *)
Definition isTarget (uid : Z) (target : ptr) (l : nodeList) : Prop :=
  match target with
  | None => uid ∉ nodeUsers l
  | Some a => (a, uid) ∈ ids l
  end.

Lemma isTarget_split uid a l :
  isTarget uid (Some a) l -> exists l1 n l2, l = l1 ++ (a, n) :: l2 /\ userID n = uid.
Proof.
  intros H1. apply list_elem_of_fmap in H1 as ([a' n] & E & H1). cbn in E. simplify_eq.
  apply list_elem_of_split in H1 as (l1 & l2 & ->). by exists l1, n, l2.
Qed.

Lemma isTarget_snoc uid target l a n :
  isTarget uid target l -> userID n <> uid -> isTarget uid target (l ++ [(a, n)]).
Proof. destruct target; cbn; rewrite !fmap_app; cbn; set_solver. Qed.

Lemma getCurrTime_spec {ret} s l k b (P : Z -> minDedupCore W -> Prop)
    (Q : ret -> minDedupCore W -> Prop) :
  Inv s l k b ->
  (forall t w, Inv (set_world s w) l k b -> frame s (set_world s w) -> P t (set_world s w)) ->
  wps getCurrTime_ P Q s.
Proof.
  intros HI HP. apply wps_onWorld. intros t w E.
  apply time_law in E. destruct (Inv_world _ _ _ _ w HI E). by apply HP.
Qed.

Lemma scanNodes_spec {ret} {DK : DiskOk W} uid l2 : forall fuel s l1 k b curr pre target
    (Q : ret -> minDedupCore W -> Prop),
  (length l2 <= fuel)%nat -> Inv s (l1 ++ l2) k b -> chain curr l2 -> pre = lastPtr l1 ->
  isTarget uid target l1 ->
  wps (scanNodes fuel uid curr pre target) (fun r s' => exists l',
    frame s s' /\ Inv s' l' k b /\ isTarget uid r l') Q s.
Proof.
  induction l2 as [|[a n] l2 IH]; intros fuel s l1 k b curr pre target Q Hf HI Hc -> HT.
  { cbn in Hc. subst curr. destruct fuel; cbn; exists (l1 ++ []); split_and!; try done;
      by rewrite app_nil_r. }
  destruct Hc as [-> Hc]. destruct fuel as [|fuel]; cbn in Hf; [lia|]. cbn [scanNodes].
  destruct (Inv_node _ _ _ _ _ _ _ HI) as [Ha Hwf].
  wstep. eapply wps_load; [done|].
  destruct (Z.eqb_spec (userID n) uid) as [Hu|Hu].
  - (* the node of the user *)
    wstep. eapply getCurrTime_spec; [done|]. intros t w HI1 F1. wstep.
    eapply wps_store; [done|].
    pose proof (Inv_touch _ _ _ _ _ _ _ t HI1) as HI2. cbn [heap set_world] in HI2.
    rewrite app_snoc in HI2.
    eapply wps_post.
    + eapply IH; [lia|exact HI2|done| |].
      * by rewrite lastPtr_snoc.
      * cbn. rewrite fmap_app. set_solver.
    + intros r s' (l' & F2 & HI' & HT'). exists l'. split; [|done].
      etrans; [exact F1|]. etrans; [|exact F2]. by split.
  - wstep. eapply getCurrTime_spec; [done|]. intros t w HI1 F1.
    destruct (t - lastUseTime n >? MAX_BUFFER_WAIT).
    + (* a stale node of another user *)
      wstep. eapply wps_post; [by eapply flush_spec|].
      cbn [world set_world shareContainerDirName_]. intros ok s' (w' & name & -> & En & Hw & Hok).
      rewrite (Hok DK) in Hw. wstep. wstep. wstep. wstep.
      cbn [headBufferNode_ tailBufferNode_ set_world].
      destruct l1 as [|[p pn] l1 _] using rev_ind.
      * destruct (Inv_remove_head _ _ _ _ _ _ _ _ HI1 En Hw) as (Hh & Ht & HI2).
        cbn [headBufferNode_ tailBufferNode_ set_world] in Hh, Ht, HI2.
        rewrite Hh in *. rewrite decide_True by done. wstep. eapply wps_free; [done|]. wstep.
        assert (forall s3, s3 = set_ends (set_heap (set_world (set_world s w) w')
             (delete a (heap s))) (next n) (if decide (l2 = []) then None else tailBufferNode_ s) ->
             frame s s3) as F3.
        { intros s3 ->. destruct (Inv_flushed _ _ _ _ _ _ _ w' _ _ HI1 En Hw) as [_ F2].
          eapply (frame_same s (set_world (set_world s w) w')); [by etrans|done..]. }
        wcase E; [apply Ht in E|]; wstep.
        -- subst l2. cbn in Hc. rewrite Hc in *. cbn [chain] in Hc. destruct fuel; cbn;
             (exists []; split_and!; [by apply F3|by apply HI2|]); destruct target; cbn in *; done.
        -- rewrite (decide_False (P := l2 = [])) in * by tauto.
           eapply wps_post; [eapply (IH _ _ []); [lia|exact HI2|done|done|done]|].
           intros r s' (l' & F2 & HI' & HT'). exists l'. split; [|done].
           etrans; [by apply F3|exact F2].
      * rewrite <- app_assoc in HI1. cbn [app] in HI1.
        destruct (Inv_remove_next _ _ _ _ _ _ _ _ _ _ _ HI1 En Hw) as (Hh & Hp & Hpa & Ht & HI2).
        cbn [headBufferNode_ tailBufferNode_ set_world heap] in Hh, Ht, HI2, Hp.
        rewrite decide_False by congruence. rewrite lastPtr_snoc in *.
        wstep. eapply wps_load; [done|]. wstep. eapply wps_store; [done|]. wstep.
        eapply wps_free; [cbn; rewrite lookup_insert_ne by done; done|].
        assert (forall s3, s3 = set_ends (set_heap (set_world (set_world s w) w')
             (delete a (<[p:=set_next pn (next n)]> (heap s)))) (headBufferNode_ s)
             (if decide (l2 = []) then Some p else tailBufferNode_ s) ->
             frame s s3) as F3.
        { intros s3 ->. rewrite app_snoc in HI1. destruct (Inv_flushed _ _ _ _ _ _ _ w' _ _ HI1 En Hw) as [_ F2].
          eapply (frame_same s (set_world (set_world s w) w')); [by etrans|done..]. }
        rewrite app_snoc in HI2.
        assert (isTarget uid target (l1 ++ [(p, set_next pn (next n))])) as HT2.
        { destruct target; cbn in *; by rewrite !fmap_app in *. }
        wcase E.
        -- symmetry in E. apply Ht in E. wstep. wstep. subst l2.
           rewrite app_nil_r in HI2. destruct fuel; cbn;
             (eexists; split_and!; [by apply F3|by apply HI2|done]).
        -- rewrite (decide_False (P := l2 = [])) in * by (intros E'; apply E; symmetry; tauto).
           assert (set_ends (set_heap (set_world (set_world s w) w')
              (delete a (<[p:=set_next pn (next n)]> (heap s)))) (headBufferNode_ s)
              (tailBufferNode_ s) = set_heap (set_world (set_world s w) w')
              (delete a (<[p:=set_next pn (next n)]> (heap s)))) as Es by done.
           rewrite Es in *. wstep. eapply wps_load.
           { cbn. rewrite lookup_delete_ne by done. apply lookup_insert_eq. }
           eapply wps_post.
           { eapply IH; [lia|exact HI2|done|by rewrite lastPtr_snoc|done]. }
           intros r s' (l' & F2 & HI' & HT'). exists l'. split; [|done].
           etrans; [by apply F3|exact F2].
    + (* another user *)
      rewrite app_snoc in HI1. eapply wps_post.
      * eapply IH; [lia|exact HI1|done|by rewrite lastPtr_snoc|by apply isTarget_snoc].
      * intros r s' (l' & F2 & HI' & HT'). exists l'. split; [|done]. by etrans.
Qed.
Lemma length_linked h hd tl l : linked h hd tl l -> length l = size h.
Proof.
  intros [-> Hn _ _]. clear hd tl. induction l as [|[a n] l IH]; [done|]. cbn in *.
  apply NoDup_cons in Hn as [Ha Hn].
  rewrite map_size_insert_None by (by apply not_elem_of_list_to_map_1). by rewrite IH.
Qed.

(** The invariant after a node was linked at the end. *)
Lemma Inv_create s l k b a n g' name :
  Inv s l k b -> heap s !! a = None -> next n = None ->
  shareContainerName n = name ++ [Byte.x00] -> name = globalShareContainerName_ s ->
  isContainerName (k + 1) g' -> userID n ∉ nodeUsers l ->
  length (shareContainerBuffer n) = CONTAINER_BUFFER_SIZE -> shareContainerBufferCurrLen n = 0 ->
  forall h' hd' l', linked h' hd' (Some a) (l' ++ [(a, n)]) ->
  (forall dir fs nm, containerOf (l' ++ [(a, n)]) dir fs nm = containerOf (l ++ [(a, n)]) dir fs nm) ->
  Forall (wfNode (k + 1)) l'.*2 -> nodeNames l' = nodeNames l -> nodeUsers l' = nodeUsers l ->
  Inv (set_name (set_ends (set_heap s h') hd' (Some a)) g') (l' ++ [(a, n)]) (k + 1) (b + 1).
Proof.
  intros [] Ha Hnx En Hg Hg' Hu Hb Hc0 h' hd' l' Hl HC HF HN HU.
  assert (isContainerName k name) as Hk by congruence.
  split; cbn [world set_name set_heap set_ends heap headBufferNode_ tailBufferNode_
    globalShareContainerName_ shareContainerDirName_]; try done.
  - lia.
  - rewrite fmap_app. apply Forall_app. split; [done|]. apply Forall_singleton. cbn. split.
    + exists k, name. split_and!; [done|done|lia|lia].
    + done.
    + rewrite Hc0. lia.
  - rewrite !fmap_app, HN. apply NoDup_app. split; [done|]. split; [|apply NoDup_singleton].
    intros x Hx Hy. apply list_elem_of_singleton in Hy. cbn in Hy. subst x. rewrite En in Hx.
    apply list_elem_of_fmap in Hx as (m & Em & Hm). rewrite list.Forall_forall in inv_nodes.
    destruct (inv_nodes m Hm) as [(i & nm & Em' & Hi & Hlt) _ _].
    rewrite Em' in Em. apply app_inj_tail in Em as [-> _].
    pose proof (containerName_inj _ _ _ Hi Hk). lia.
  - rewrite !fmap_app, HU. apply NoDup_app. split; [done|]. split; [|apply NoDup_singleton].
    intros x Hx Hy. apply list_elem_of_singleton in Hy. cbn in Hy. by subst x.
  - eapply indexed_mono; [| | |done]; [|lia|lia].
    intros i nm c Hi Hlt HCc Hne.
    destruct (covers_snoc k l a n (shareContainerDirName_ s) (files (view (world s))) name
                En Hk i nm c Hi Hlt HCc Hne) as (c' & Hc' & Hp).
    exists c'. by rewrite HC.
Qed.

Lemma createBufferNode_spec {ret} s l k b uid (Q : ret -> minDedupCore W -> Prop) :
  unlocked s -> Inv s l k b -> k < 26 ^ 12 - 1 -> uid ∉ nodeUsers l ->
  wps (createBufferNode uid) (fun r s' => exists l' a n,
    r = Some a /\ frame s s' /\ Inv s' (l' ++ [(a, n)]) (k + 1) (b + 1) /\ userID n = uid) Q s.
Proof.
  intros (U1 & U2 & U3) HI Hk Hu. unfold createBufferNode. wstep. wstep. wstep. wstep. wstep.
  eapply wps_post.
  { eapply (takeContainerName_spec s _ k); [done|apply uninit_length|apply HI|done]. }
  intros name s1 (g' & -> & Hg' & ->). wstep. apply wps_onWorld. cbn [world set_name].
  intros t w Et. apply time_law in Et. wstep. unfold wps at 1, alloc.
  cbn [heap set_world set_name].
  set (a := fresh (dom (heap s))).
  assert (heap s !! a = None) as Ha by (apply not_elem_of_dom, is_fresh).
  match goal with |- context [<[a := ?x]> (heap s)] => set (n := x) end.
  wstep. unfold wps at 1, lockBuffer. cbn [bufferLock_ set_heap set_world set_name]. rewrite U2.
  wstep. wstep. wstep. wstep.
  cbn [headBufferNode_ tailBufferNode_ set_heap set_world set_name set_locks].
  pose proof (linked_snoc _ _ _ _ a n (inv_linked _ _ _ _ _ _ HI) Ha eq_refl) as Hl.
  destruct (Inv_world _ _ _ _ w HI Et) as [HI1 _].
  destruct l as [|x l].
  - destruct Hl as [Eh Hl]. rewrite Eh. wstep. wstep. wstep. unfold wps at 1, unlockBuffer.
    cbn [bufferLock_ set_locks set_ends]. wstep.
    exists [], a, n. split; [done|]. split; [by split; cbn; rewrite ?U2, ?Et|]. split; [|done].
    eapply (Inv_ext (set_name (set_ends (set_heap (set_world s w) _) _ (Some a)) g')); [reflexivity..|].
    eapply (Inv_create (set_world s w) [] k b a n g' _ HI1 Ha); try done. apply uninit_length.
  - destruct Hl as (l1 & tp & tn & E & [hp Eh] & Et' & Htn & Hl). rewrite E in *. clear x l E.
    rewrite Eh, Et'. wstep. wstep.
    assert (tp <> a) as Hne by congruence.
    eapply wps_load; [cbn [heap set_locks set_heap set_world set_name]; by rewrite lookup_insert_ne|].
    wstep. eapply wps_store; [cbn [heap set_locks set_heap set_world set_name]; by rewrite lookup_insert_ne|].
    wstep. wstep. unfold wps at 1, unlockBuffer. cbn [bufferLock_ set_locks set_ends set_heap].
    wstep. exists (l1 ++ [(tp, set_next tn (Some a))]), a, n. split; [done|].
    split; [by split; cbn; rewrite ?U2, ?Et|]. split; [|done].
    rewrite Eh, app_snoc in Hl.
    eapply (Inv_ext (set_name (set_ends (set_heap (set_world s w) _) _ (Some a)) g')); [reflexivity..|].
    eapply (Inv_create (set_world s w) (l1 ++ [(tp, tn)]) k b a n g' _ HI1 Ha); try done;
      [apply uninit_length|..].
    + intros dir fs nm. rewrite <- !app_assoc. apply containerOf_next.
    + destruct HI. rewrite fmap_app in *. apply Forall_app in inv_nodes as [F1 F2].
      inversion F2 as [|? ? F3 _]; subst. apply Forall_app.
      split; [eapply Forall_impl; [done|]; intros; eapply wfNode_mono; [|done]; lia|].
      apply Forall_singleton. cbn. apply (wfNode_mono k); [lia|]. by destruct F3.
    + by rewrite !fmap_app.
    + by rewrite !fmap_app.
Qed.

(** findOrCreateBufferNode_ returns the node of the user, keeps the invariant
    and leaves the database alone, provided that the flushes of stale nodes
    succeed. *)
Lemma findOrCreate_spec {ret} {DK : DiskOk W} s l k b uid (Q : ret -> minDedupCore W -> Prop) :
  unlocked s -> Inv s l k b -> k < 26 ^ 12 - 1 ->
  wps (findOrCreateBufferNode_ uid) (fun r s' => exists l1 a n l2 k',
    r = Some a /\ frame s s' /\ k <= k' <= k + 1 /\
    Inv s' (l1 ++ (a, n) :: l2) k' (b + 1) /\ userID n = uid) Q s.
Proof.
  intros (U1 & U2 & U3) HI Hk. unfold findOrCreateBufferNode_.
  wstep. unfold wps at 1, lockBuffer. rewrite U2. wstep. wstep. wstep. wstep.
  cbn [headBufferNode_ heap set_locks]. wstep.
  eapply wps_post.
  { eapply (scanNodes_spec uid l _ _ []); cbn [app].
    - rewrite (length_linked _ _ _ _ (inv_linked _ _ _ _ _ _ HI)). cbn. lia.
    - by apply Inv_locks.
    - apply HI.
    - done.
    - by apply not_elem_of_nil. }
  intros r s1 (l' & F1 & HI1 & HT). wstep. unfold wps at 1, unlockBuffer.
  assert (bufferLock_ s1 = true) as -> by (by rewrite (fr_buffer _ _ F1)).
  assert (frame s (set_locks s1 (DBLock_ s1) false (globalShareContainerNameLock_ s1))) as F2.
  { destruct F1 as [E1 E2 E3 E4 E5 E6 E7]. split; cbn in *; first [exact E7|congruence]. }
  destruct r as [a|].
  - wstep. destruct (isTarget_split _ _ _ HT) as (l1 & n & l2 & -> & Hu).
    exists l1, a, n, l2, k. split_and!; [done|done|lia|lia| |done].
    apply Inv_locks. destruct HI1. split; try done; [lia|].
    eapply indexed_mono; [apply covers_refl| | |done]; lia.
  - eapply wps_post.
    + eapply (createBufferNode_spec _ l' k b); [|by apply Inv_locks|done|done].
      split_and!; cbn; [rewrite (fr_db _ _ F1); done|done|rewrite (fr_name _ _ F1); done].
    + intros r s2 (l1 & a & n & -> & F3 & HI3 & Hu). exists l1, a, n, [], (k + 1).
      split_and!; [done|by etrans|lia|lia|done|done].
Qed.
(** ** storeShareContainer_ *)

Lemma Inv_renew s l1 a n l2 k b w name g' :
  Inv s (l1 ++ (a, n) :: l2) k b -> shareContainerName n = name ++ [Byte.x00] ->
  fileWritten (view (world s)) (view w) (shareContainerDirName_ s ++ name) (Some (nodeData n)) ->
  isContainerName (k + 1) g' ->
  let n' := set_container n (globalShareContainerName_ s ++ [Byte.x00]) (shareContainerBuffer n) 0 in
  Inv (set_heap (set_name (set_world s w) g') (<[a := n']> (heap s))) (l1 ++ (a, n') :: l2)
    (k + 1) (b + 1).
Proof.
  intros HI En Hf Hg' n'. pose proof (Inv_node _ _ _ _ _ _ _ HI) as [_ Hwf]. destruct HI.
  destruct (nodup_name _ _ _ _ inv_names) as (_ & _ & HN).
  split; cbn [world set_name set_heap set_world heap headBufferNode_ tailBufferNode_
    globalShareContainerName_ shareContainerDirName_]; try done.
  - by apply (linked_replace _ _ _ _ _ n).
  - lia.
  - rewrite fmap_app in *. apply Forall_app in inv_nodes as [F1 F2]. apply Forall_app.
    assert (forall l : list perUserBufferNode, Forall (wfNode k) l -> Forall (wfNode (k + 1)) l) as Hup.
    { intros l HF. eapply Forall_impl; [done|]. intros. eapply wfNode_mono; [|done]. lia. }
    cbn in F2. apply Forall_cons in F2 as [_ F2]. split; [by apply Hup|]. cbn.
    constructor; [|by apply Hup]. split; cbn.
    + exists k, (globalShareContainerName_ s). split_and!; [done|done|lia|lia].
    + apply Hwf.
    + lia.
  - rewrite !fmap_app in *. cbn in *. apply NoDup_app in HN as (N1 & N2 & N3).
    assert (forall m, wfNode k m -> shareContainerName m <> globalShareContainerName_ s ++ [Byte.x00]) as Hne.
    { intros m [(i & nm & Em & Hi & Hlt) _ _]. rewrite Em. intros E. apply app_inj_tail in E as [-> _].
      pose proof (containerName_inj _ _ _ Hi inv_global). lia. }
    rewrite list.Forall_forall in inv_nodes.
    apply NoDup_app. split; [done|]. split; [|apply NoDup_cons; split; [|done]].
    + intros x Hx Hy. apply elem_of_cons in Hy as [->|Hy]; [|by apply (N2 x)].
      apply list_elem_of_fmap in Hx as (m & Em & Hm). apply (Hne m); [|done].
      apply inv_nodes. set_solver.
    + intros Hx. apply list_elem_of_fmap in Hx as (m & Em & Hm). apply (Hne m); [|done].
      apply inv_nodes. set_solver.
  - by rewrite !fmap_app in *.
  - destruct Hf as (-> & _ & Hq & Hf).
    eapply indexed_mono; [| | |done]; [|lia|lia].
    by eapply (covers_renew _ _ _ _ _ _ _ _ _ name k (globalShareContainerName_ s)); auto.
Qed.

Lemma storeShareContainer_spec {ret} s l1 a n l2 k b (Q : ret -> minDedupCore W -> Prop) :
  globalShareContainerNameLock_ s = false -> Inv s (l1 ++ (a, n) :: l2) k b -> k < 26 ^ 12 - 1 ->
  wps (storeShareContainer_ (Some a)) (fun ok s' => exists n' k',
    frame s s' /\ k <= k' <= k + 1 /\ Inv s' (l1 ++ (a, n') :: l2) k' (b + 1) /\
    userID n' = userID n /\ (ok = true -> shareContainerBufferCurrLen n' = 0) /\
    (DiskOk W -> 0 < shareContainerBufferCurrLen n -> ok = true)) Q s.
Proof.
  intros U HI Hk. pose proof (Inv_node _ _ _ _ _ _ _ HI) as [Ha Hwf].
  pose proof (wn_name _ _ Hwf) as (i & name & En & Hi & Hlt).
  pose proof (wn_len _ _ Hwf) as Hl. pose proof (wn_buffer _ _ Hwf) as Hb.
  unfold storeShareContainer_. wstep. wstep. eapply wps_load; [done|]. wstep.
  eapply wps_post; [eapply (writeContainer_spec s n name i); [done|done|lia]|].
  intros ok s' (w & -> & Hf & Hpos & Hok). destruct ok; cbn [negb].
  - wstep. eapply wps_post.
    { eapply (takeContainerName_spec _ _ k); [done| |apply HI|done].
      rewrite En, length_app, (containerName_length _ _ Hi). done. }
    intros name' s2 (g' & -> & Hg' & ->). wstep.
    eapply wps_store; [done|]. wstep.
    exists (set_container n (globalShareContainerName_ s ++ [Byte.x00]) (shareContainerBuffer n) 0), (k + 1).
    split; [|split; [lia|split; [|by split_and!]]].
    2: exact (Inv_renew s l1 a n l2 k b w name g' HI En Hf Hg').
    destruct Hf as (E1 & E2 & E3 & _). split; try done. intros q Ho. by apply E3, (Ho i).
  - wstep. exists n, k. destruct (Inv_flushed _ _ _ _ _ _ _ _ _ _ HI En Hf) as [HI' F].
    split_and!; [done|lia|lia| |done|done|done].
    destruct HI'. split; try done; [lia|]. eapply indexed_mono; [apply covers_refl| | |done]; lia.
Qed.

(** ** readShareContainerFromBuffer_ *)

(** The search of a node by container name. *)
Lemma findNode_name {ret} (l2 : nodeList) : forall fuel s l1 k b curr pre name
    (Q : ret -> minDedupCore W -> Prop),
  (length l2 <= fuel)%nat -> Inv s (l1 ++ l2) k b -> chain curr l2 ->
  (exists i, isContainerName i name) ->
  wps (findNode fuel (fun n => strcmpEq (shareContainerName n) (name ++ [Byte.x00])) curr pre)
    (fun r s' => s' = s /\
       match r.1 with
       | None => name ++ [Byte.x00] ∉ nodeNames l2
       | Some a => exists x n y, l2 = x ++ (a, n) :: y /\ shareContainerName n = name ++ [Byte.x00] /\
                     (name ++ [Byte.x00] ∉ nodeNames x)
       end) Q s.
Proof.
  induction l2 as [|[a n] l2 IH]; intros fuel s l1 k b curr pre name Q Hf HI Hc [i Hi].
  { cbn in Hc. subst curr. destruct fuel; cbn; split; try done; apply not_elem_of_nil. }
  destruct Hc as [-> Hc]. destruct fuel as [|fuel]; cbn in Hf; [lia|]. cbn [findNode].
  destruct (Inv_node _ _ _ _ _ _ _ HI) as [Ha [(j & nm & En & Hj & _) _ _]].
  wstep. eapply wps_load; [done|]. wstep. eapply wps_lift.
  { unfold strcmpEq. rewrite En, !(containerName_cstr (R := ret * minDedupCore W) _ _ []) by done. done. }
  case_bool_decide as E.
  - subst nm. wstep. split; [done|]. cbn. exists [], n, l2. split_and!; [done|done|apply not_elem_of_nil].
  - eapply wps_post.
    { eapply (IH fuel s (l1 ++ [(a, n)])); [lia|by rewrite <- app_assoc|done|by exists i]. }
    intros [r p] s' [-> HR]. split; [done|]. cbn in *.
    assert (shareContainerName n <> name ++ [Byte.x00]) as Hne.
    { rewrite En. intros E'. by apply app_inj_tail in E' as [-> _]. }
    destruct r as [a'|].
    + destruct HR as (x & n' & y & -> & En' & Hx). exists ((a, n) :: x), n', y.
      split_and!; [done|done|]. cbn. apply not_elem_of_cons. auto.
    + apply not_elem_of_cons. auto.
Qed.

(** The buffer nodes deliver a container exactly when one of them is filling it. *)
Lemma readFromBuffer_spec {ret} s l k b name dst (Q : ret -> minDedupCore W -> Prop) :
  bufferLock_ s = false -> Inv s l k b -> (exists i, isContainerName i name) ->
  length dst = CONTAINER_BUFFER_SIZE ->
  wps (readShareContainerFromBuffer_ (name ++ [Byte.x00]) dst) (fun r s' => s' = s /\
    if r.1 then exists c, containerOf l (shareContainerDirName_ s) (files (view (world s))) name = Some c /\
                  c `prefix_of` r.2 /\ length r.2 = CONTAINER_BUFFER_SIZE
    else r.2 = dst /\ containerOf l (shareContainerDirName_ s) (files (view (world s))) name
                      = files (view (world s)) !! (shareContainerDirName_ s ++ name)) Q s.
Proof.
  intros U HI Hn Hd. unfold readShareContainerFromBuffer_. wstep. wstep.
  unfold wps at 1, lockBuffer. rewrite U. wstep. wstep. wstep. wstep. wstep.
  cbn [headBufferNode_ heap set_locks].
  eapply wps_post.
  { eapply (findNode_name l _ _ []); cbn [app].
    - rewrite (length_linked _ _ _ _ (inv_linked _ _ _ _ _ _ HI)). cbn. lia.
    - by apply Inv_locks.
    - apply HI.
    - done. }
  intros [r p] s' [-> HR]. cbn [fst] in HR.
  assert (set_locks (set_locks s (DBLock_ s) true (globalShareContainerNameLock_ s)) (DBLock_ s) false
            (globalShareContainerNameLock_ s) = s) as Es by (destruct s; cbn in *; by subst).
  destruct r as [a|].
  - destruct HR as (x & n & y & -> & En & Hx).
    destruct (Inv_node _ _ _ _ _ _ _ HI) as [Ha [_ Hb Hl]].
    wstep. eapply wps_load; [done|]. wstep. eapply wps_lift.
    { rewrite sz_ok by lia. cbn [mbind res_bind]. rewrite memcpy_ok by lia. done. }
    wstep. unfold wps at 1, unlockBuffer. cbn [bufferLock_ set_locks]. wstep. cbn [fst snd].
    split; [done|]. exists (nodeData n). split; [by apply containerOf_node|].
    cbn [take app]. rewrite drop_0. split; [by eexists|].
    rewrite !length_app, !length_take, length_drop. lia.
  - wstep. unfold wps at 1, unlockBuffer. cbn [bufferLock_ set_locks]. wstep. cbn [fst snd].
    split; [done|]. split; [done|]. by apply containerOf_file.
Qed.
End Nodes.
