(* ===== verification/MinIndex.v ===== *)
(** * The index updates

    intraUserIndexUpdate_ and interUserIndexUpdate_ refine updates of the
    abstract index and keep the storage invariant. *)

From stdpp Require Import base list numbers gmap functions.
From coqutil Require Import Byte.
From Stdlib Require Import Lia.
From S2P Require Import Prelude Structs FileNames World MinDedupCore ShareIndex MinInvariant MinNodes.

Local Open Scope Z_scope.

(** ** The abstract operations *)

(** The references to a share; none if it is not indexed. *)
Definition refs (A : Index) (fp : bytes) : list (Z * Z) :=
  match A fp with Some i => si_refs i | None => [] end.

Definition ownedBy (A : Index) (fp : bytes) (uid : Z) : bool := owns uid (refs A fp).

(** One more reference of the user to a share that is indexed. *)
Definition reference (A : Index) (fp : bytes) (uid : Z) : Index :=
  match A fp with
  | Some i => <[fp := Some (with_refs i (addRef uid (si_refs i)))]> A
  | None => A
  end.

(** [A'] is [A] with one more reference of the user to the share, which is new
    or stays where it is. *)
Definition referenced (A A' : Index) (fp : bytes) (uid : Z) : Prop :=
  exists i, A' = <[fp := Some i]> A /\ si_refs i = addRef uid (refs A fp) /\
    match A fp with
    | Some j => i = with_refs j (addRef uid (si_refs j))
    | None => True
    end.

Lemma reference_referenced A fp uid : is_Some (A fp) -> referenced A (reference A fp uid) fp uid.
Proof. intros [i E]. unfold referenced, reference, refs. rewrite E. by eexists. Qed.

(** A reference counts for one user and one share. *)
Lemma referenced_counts A A' fp uid u fp' :
  referenced A A' fp uid ->
  refsOf u (refs A' fp') = refsOf u (refs A fp') + (if decide (u = uid /\ fp' = fp) then 1 else 0).
Proof.
  intros (i & -> & Ei & _). unfold refs at 1.
  destruct (decide (fp = fp')) as [<-|Hne].
  - rewrite fn_lookup_insert, Ei, refsOf_addRef.
    destruct (Z.eqb_spec u uid); case_decide; naive_solver lia.
  - rewrite fn_lookup_insert_ne by done. fold (refs A fp'). rewrite decide_False by naive_solver. lia.
Qed.

Lemma represents_insert m A fp i :
  represents m A -> represents (<[shareFP2IndexKey_ fp := encodeInfo i]> m) (<[fp := Some i]> A).
Proof.
  intros HR fp'. destruct (decide (fp = fp')) as [<-|Hne].
  - by rewrite lookup_insert_eq, fn_lookup_insert.
  - rewrite fn_lookup_insert_ne by done.
    rewrite lookup_insert_ne; [apply HR|]. intros E. apply Hne. unfold shareFP2IndexKey_ in E. by simplify_eq.
Qed.

Section Index.
Context {W : Type} {WW : World W} {WL : WorldLaws W} {LM : Limits} {LOK : LimitsOk}
        (digest : bytes -> bytes).
Implicit Types s : minDedupCore W.

Abbreviation M := (SM (minDedupCore W)).
Abbreviation Inv := (Inv digest).
Abbreviation C s l := (containerOf l (shareContainerDirName_ s) (files (view (world s)))).

(** ** Changing an entry *)

Lemma indexed_insert A m Cf k b b' fp i :
  indexed digest A m Cf k b -> b <= b' -> stored digest Cf k b' fp i ->
  indexed digest (<[fp := Some i]> A) (<[shareFP2IndexKey_ fp := encodeInfo i]> m) Cf k b'.
Proof.
  intros [HR Hi] Hb Hs. split; [by apply represents_insert|].
  intros fp' j Hj. destruct (decide (fp = fp')) as [<-|Hne].
  - rewrite fn_lookup_insert in Hj. by simplify_eq.
  - rewrite fn_lookup_insert_ne in Hj by done.
    eapply stored_mono; [apply covers_refl|..|by apply Hi]; lia.
Qed.

(** The database contents change, nothing else. *)
Record dbFrame s s' : Prop := {
  df_heap : heap s' = heap s;
  df_head : headBufferNode_ s' = headBufferNode_ s;
  df_tail : tailBufferNode_ s' = tailBufferNode_ s;
  df_global : globalShareContainerName_ s' = globalShareContainerName_ s;
  df_dir : shareContainerDirName_ s' = shareContainerDirName_ s;
  df_files : files (view (world s')) = files (view (world s));
  df_sent : sent (view (world s')) = sent (view (world s));
  df_keys : otherKeys (contents (view (world s))) (contents (view (world s')));
}.

Lemma Inv_db A A' s s' l k b b' :
  Inv A s l k b -> dbFrame s s' -> b <= b' ->
  indexed digest A' (contents (view (world s'))) (C s l) k b' -> Inv A' s' l k b'.
Proof.
  intros [] [E1 E2 E3 E4 E5 E6 _ _] Hb Hi.
  split; rewrite ?E1, ?E2, ?E3, ?E4, ?E5, ?E6; try done. lia.
Qed.

Lemma Inv_budget A s l k b b' : Inv A s l k b -> b <= b' -> Inv A s l k b'.
Proof.
  intros HI Hb. eapply Inv_db; [done|by split|done|]. destruct HI.
  eapply indexed_mono; [apply covers_refl|..|done]; lia.
Qed.

Lemma Inv_stored A s l k b fp i : Inv A s l k b -> A fp = Some i -> stored digest (C s l) k b fp i.
Proof. intros []. by apply inv_index. Qed.

(** What [Get] tells about the index. *)
Lemma get_entry A s l k b fp v :
  Inv A s l k b -> db_Get (world s) (shareFP2IndexKey_ fp) = GetOk v ->
  exists i, A fp = Some i /\ v = encodeInfo i /\ stored digest (C s l) k b fp i.
Proof.
  intros HI HG. apply get_ok in HG. pose proof HI as [_ _ _ _ _ _ [HR Hs]].
  rewrite HR in HG. destruct (A fp) as [i|] eqn:E; [|done]. cbn in HG. simplify_eq. eauto.
Qed.

Lemma get_absent A s l k b fp :
  Inv A s l k b -> db_Get (world s) (shareFP2IndexKey_ fp) = GetNotFound -> A fp = None.
Proof.
  intros HI HG. apply get_notfound in HG. pose proof HI as [_ _ _ _ _ _ [HR _]].
  rewrite HR in HG. by destruct (A fp).
Qed.

Lemma stored_addRef Cf k b fp i uid :
  int32 uid -> stored digest Cf k b fp i ->
  stored digest Cf k (b + 1) fp (with_refs i (addRef uid (si_refs i))).
Proof. intros Hu [H1 H2 H3 H4 H5]. split; [done..| |done]. by apply wfRefs_addRef. Qed.

(** Rewriting the entry of a share, with the database lock held. *)
Lemma rewriteEntry_spec {ret} A s l k b fp i j (Q : ret -> minDedupCore W -> Prop) :
  DBLock_ s = true -> Inv A s l k b -> stored digest (C s l) k b fp i -> b < 2 ^ 27 ->
  (exists uid, int32 uid /\ j = with_refs i (addRef uid (si_refs i))) ->
  wps (rewriteEntry (shareFP2IndexKey_ fp) (encodeInfo j)) (fun ok s' =>
    dbFrame s s' /\ DBLock_ s' = false /\ bufferLock_ s' = bufferLock_ s /\
    globalShareContainerNameLock_ s' = globalShareContainerNameLock_ s /\
    (Inv (<[fp := Some j]> A) s' l k (b + 1) \/ (ok = false /\ Inv A s' l k (b + 1))) /\
    (ReliableWorld W -> ok = true)) Q s.
Proof.
  intros U HI Hs Hb (uid & Hu & ->). pose proof (stored_addRef _ _ _ _ _ _ Hu Hs) as Hs'.
  pose proof (st_name _ _ _ _ _ _ Hs) as (nm & Hn & _). apply containerName_length in Hn.
  pose proof (wr_length _ _ (st_refs _ _ _ _ _ _ Hs')) as Hl. cbn [si_refs with_refs] in Hl.
  unfold rewriteEntry. wstep. eapply wps_lift.
  { apply sint_ok. rewrite length_encodeInfo by done. cbn [si_refs with_refs]. lia. }
  wstep. apply wps_onWorld. intros ok w Ew. wstep. unfold wps at 1, unlockDB.
  cbn [DBLock_ set_world]. rewrite U. wstep.
  assert (foldl applyOp (contents (view (world s)))
            [BDelete (shareFP2IndexKey_ fp); BPut (shareFP2IndexKey_ fp)
               (encodeInfo (with_refs i (addRef uid (si_refs i))))]
          = <[shareFP2IndexKey_ fp := encodeInfo (with_refs i (addRef uid (si_refs i)))]>
              (contents (view (world s)))) as Ef by (cbn; apply insert_delete_eq).
  pose proof (write_law _ _ _ _ Ew) as Hw. rewrite Ef in Hw.
  assert (dbFrame s (set_locks (set_world s w) false (bufferLock_ s) (globalShareContainerNameLock_ s))) as F.
  { destruct Hw as [E|[_ E]]; split; cbn; rewrite ?E; try done. apply otherKeys_insert. }
  split_and!; [done..| |].
  - destruct Hw as [E|[-> E]].
    + left. eapply Inv_db; [done|done|lia|]. cbn. rewrite E. cbn [contents set_contents].
      destruct HI. eapply (indexed_insert A _ _ k b); [done|lia|done].
    + right. split; [done|]. eapply Inv_db; [done|done|lia|]. cbn. rewrite E.
      destruct HI. eapply indexed_mono; [apply covers_refl|..|done]; lia.
  - intros HRel. pose proof (write_reliable (world s)
      [BDelete (shareFP2IndexKey_ fp); BPut (shareFP2IndexKey_ fp)
         (encodeInfo (with_refs i (addRef uid (si_refs i))))]) as X. by rewrite Ew in X.
Qed.

(** ** intraUserIndexUpdate_ *)

(** The outcome of the intra-user update: the status, the duplicate flag and
    the index. *)
Definition intraPost (A : Index) (fp : bytes) (uid : Z) (ok dup : bool) (A' : Index) : Prop :=
  (ok = true -> dup = ownedBy A fp uid /\
     A' = if dup then reference A fp uid else A) /\
  (A' = A \/ A' = reference A fp uid).

Lemma intra_spec {ret} A s l k b fp uid d0 (Q : ret -> minDedupCore W -> Prop) :
  unlocked s -> Inv A s l k b -> int32 uid -> b < 2 ^ 27 ->
  wps (intraUserIndexUpdate_ fp uid d0) (fun r s' => exists A',
    dbFrame s s' /\ unlocked s' /\ Inv A' s' l k (b + 1) /\ intraPost A fp uid r.1 r.2 A' /\
    (ReliableWorld W -> r.1 = true)) Q s.
Proof.
  intros (U1 & U2 & U3) HI Hu Hb. unfold intraUserIndexUpdate_. wstep. wstep.
  unfold wps at 1, lockDB. rewrite U1. wstep. wstep.
  set (s1 := set_locks s true (bufferLock_ s) (globalShareContainerNameLock_ s)).
  assert (Inv A s1 l k b) as HI1 by (by apply Inv_locks).
  change (world s1) with (world s).
  assert (forall r, intraPost A fp uid r.1 r.2 A -> (ReliableWorld W -> r.1 = true) ->
    wps (unlockDB ≫= λ _, ret_ r) (fun r s' => exists A',
      dbFrame s s' /\ unlocked s' /\ Inv A' s' l k (b + 1) /\ intraPost A fp uid r.1 r.2 A' /\
      (ReliableWorld W -> r.1 = true)) (fun r s' => exists A',
      dbFrame s s' /\ unlocked s' /\ Inv A' s' l k (b + 1) /\ intraPost A fp uid r.1 r.2 A' /\
      (ReliableWorld W -> r.1 = true)) s1) as Hun.
  { intros r Hr HRel. wstep. unfold wps at 1, unlockDB. cbn [DBLock_ s1 set_locks]. wstep.
    exists A. split_and!; [by split|by split_and!| |done|done]. apply Inv_locks.
    eapply Inv_budget; [done|lia]. }
  destruct (db_Get (world s) (shareFP2IndexKey_ fp)) as [v| | |] eqn:EG.
  - destruct (get_entry _ _ _ _ _ _ _ HI EG) as (i & HA & -> & Hs).
    pose proof (st_name _ _ _ _ _ _ Hs) as (nm & Hn & _). apply containerName_length in Hn.
    pose proof (st_refs _ _ _ _ _ _ Hs) as Hr.
    assert (ownedBy A fp uid = bool_decide (uid ∈ (si_refs i).*1)) as HO.
    { unfold ownedBy, refs. by rewrite HA. }
    destruct (decide (uid ∈ (si_refs i).*1)) as [Hin|Hin].
    + destruct (ownerScan_present (R := (bool * bool) * minDedupCore W) i b Hn Hr ltac:(lia) uid Hin)
        as (off & Eo & Eb).
      wstep. eapply wps_lift; [exact Eo|]. wstep. eapply wps_lift; [exact Eb|]. wstep.
      eapply wps_post.
      { eapply (rewriteEntry_spec A s1 l k b fp i); [done|done|done|lia|by exists uid]. }
      intros ok s' (F & L1 & L2 & L3 & HI' & HRel). wstep.
      assert (<[fp := Some (with_refs i (addRef uid (si_refs i)))]> A = reference A fp uid) as HRf.
      { unfold reference. by rewrite HA. }
      rewrite HRf in HI'. assert (dbFrame s s') as F' by (by destruct F; split).
      assert (unlocked s') as U' by (split_and!; [done|rewrite L2; exact U2|rewrite L3; exact U3]).
      destruct HI' as [HI'|[-> HI']].
      * eexists. split_and!; [done|apply U'..|exact HI'| |done].
        split; [|by right]. intros _. cbn. rewrite HO, bool_decide_true by done. done.
      * exists A. split_and!; [done|apply U'..|done| |done]. split; [done|]. by left.
    + destruct (ownerScan_absent (R := (bool * bool) * minDedupCore W) i b Hn Hr ltac:(lia) uid Hin)
        as (off & Eo).
      wstep. eapply wps_lift; [exact Eo|]. cbv beta match. apply Hun; [|done].
      split; [|by left]. intros _. cbn. by rewrite HO, bool_decide_false by done.
  - apply Hun; [|done]. split; [|by left]. intros _. cbn. unfold ownedBy, refs.
    by rewrite (get_absent _ _ _ _ _ _ HI EG).
  - apply Hun; [by split; [|left]|]. intros HRel. rewrite get_reliable in EG. by case_match.
  - apply Hun; [by split; [|left]|]. intros HRel. rewrite get_reliable in EG. by case_match.
Qed.
(** ** interUserIndexUpdate_ *)

(** The state after an update by user [uid] through node [a]: the node may have
    moved on to a new container. *)
Definition interPost (A : Index) s (l1 : nodeList) (a : positive) (n : perUserBufferNode)
    (l2 : nodeList) (k b : Z) (fp : bytes) (uid : Z) (ok : bool) s' : Prop :=
  exists A' n' k', unlocked s' /\ shareContainerDirName_ s' = shareContainerDirName_ s /\
    sent (view (world s')) = sent (view (world s)) /\
    otherFiles (shareContainerDirName_ s) (files (view (world s))) (files (view (world s'))) /\
    otherKeys (contents (view (world s))) (contents (view (world s'))) /\
    k <= k' <= k + 1 /\ Inv A' s' (l1 ++ (a, n') :: l2) k' (b + 1) /\ userID n' = userID n /\
    (A' = A \/ referenced A A' fp uid) /\
    (ReliableWorld W -> ok = true /\ referenced A A' fp uid).

Lemma interUserOwned_spec {ret} A s l1 a n l2 k b fp uid i (Q : ret -> minDedupCore W -> Prop) :
  DBLock_ s = true -> bufferLock_ s = false -> globalShareContainerNameLock_ s = false ->
  Inv A s (l1 ++ (a, n) :: l2) k b -> A fp = Some i -> int32 uid -> b < 2 ^ 27 ->
  wps (interUserOwned (shareFP2IndexKey_ fp) (encodeInfo i) uid)
    (interPost A s l1 a n l2 k b fp uid) Q s.
Proof.
  intros U1 U2 U3 HI HA Hu Hb. pose proof (Inv_stored _ _ _ _ _ _ _ HI HA) as Hs.
  pose proof (st_name _ _ _ _ _ _ Hs) as (nm & Hn & _). apply containerName_length in Hn.
  pose proof (st_refs _ _ _ _ _ _ Hs) as Hr.
  set (j := with_refs i (addRef uid (si_refs i))).
  assert (wps (rewriteEntry (shareFP2IndexKey_ fp) (encodeInfo j))
            (interPost A s l1 a n l2 k b fp uid) Q s) as Hw.
  { eapply wps_post.
    { eapply (rewriteEntry_spec A s _ k b fp i j); [done..|by exists uid]. }
    intros ok s' (F & L1 & L2 & L3 & HI' & HRel).
    assert (referenced A (<[fp := Some j]> A) fp uid) as HRf.
    { exists j. unfold refs. by rewrite HA. }
    assert (unlocked s') as U' by (split_and!; congruence).
    destruct HI' as [HI'|[-> HI']].
    - exists (<[fp := Some j]> A), n, k. split_and!; try done; [apply F|apply F|by rewrite (df_files _ _ F)|apply F|lia|auto|auto].
    - exists A, n, k. split_and!; try done; [apply F|apply F|by rewrite (df_files _ _ F)|apply F|lia|auto|].
      intros HR. by specialize (HRel HR). }
  unfold interUserOwned. wstep.
  destruct (decide (uid ∈ (si_refs i).*1)) as [Hin|Hin].
  - destruct (ownerScan_present (R := ret * minDedupCore W) i b Hn Hr ltac:(lia) uid Hin)
      as (off & Eo & Eb).
    eapply wps_lift; [exact Eo|]. wstep. by eapply wps_lift; [exact Eb|].
  - destruct (ownerScan_absent (R := ret * minDedupCore W) i b Hn Hr ltac:(lia) uid Hin)
      as (off & Eo).
    eapply wps_lift; [exact Eo|]. wstep.
    eapply wps_lift; [by eapply (appendUser (R := ret * minDedupCore W) i b); [..|lia|]|done].
Qed.

(** Appending a share to the buffer of a node. *)
Lemma nodeData_append n share :
  0 <= shareContainerBufferCurrLen n ->
  shareContainerBufferCurrLen n + Z.of_nat (length share) <= Z.of_nat (length (shareContainerBuffer n)) ->
  let len := Z.to_nat (shareContainerBufferCurrLen n) in
  nodeData (set_container n (shareContainerName n)
    (take len (shareContainerBuffer n) ++ share ++ drop (len + length share) (shareContainerBuffer n))
    (shareContainerBufferCurrLen n + Z.of_nat (length share))) = nodeData n ++ share.
Proof.
  intros H0 Hl len. unfold nodeData. cbn.
  replace (Z.to_nat (shareContainerBufferCurrLen n + Z.of_nat (length share)))
    with (len + length share)%nat by lia.
  assert (length (take len (shareContainerBuffer n)) = len) as E by (rewrite length_take; lia).
  rewrite app_assoc, take_app_length'; [done|]. rewrite length_app, E. done.
Qed.

Lemma Inv_append A s l1 a n l2 k b n' share :
  Inv A s (l1 ++ (a, n) :: l2) k b -> shareContainerName n' = shareContainerName n ->
  next n' = next n -> userID n' = userID n ->
  length (shareContainerBuffer n') = CONTAINER_BUFFER_SIZE ->
  0 <= shareContainerBufferCurrLen n' <= Z.of_nat CONTAINER_BUFFER_SIZE ->
  nodeData n' = nodeData n ++ share ->
  Inv A (set_heap s (<[a := n']> (heap s))) (l1 ++ (a, n') :: l2) k b.
Proof.
  intros HI En Ex Eu Hb Hl Hd. pose proof (Inv_node _ _ _ _ _ _ _ _ _ HI) as [_ Hwf]. destruct HI.
  split; cbn [world set_heap heap headBufferNode_ tailBufferNode_
    globalShareContainerName_ shareContainerDirName_]; try done.
  - by apply (linked_replace _ _ _ _ _ n).
  - rewrite fmap_app in *. apply Forall_app in inv_nodes as [F1 F2]. inversion F2; subst.
    apply Forall_app. split; [done|]. cbn. constructor; [|done].
    split; [rewrite En; apply Hwf|done|done].
  - rewrite !fmap_app in *. cbn in *. by rewrite En.
  - rewrite !fmap_app in *. cbn in *. by rewrite Eu.
  - eapply indexed_mono; [| | |done]; [|lia|lia].
    eapply covers_append; [done|done|]. rewrite Hd. by eexists.
Qed.

(** Making room in the container of a node. *)
Lemma room_spec A s l1 a n l2 k b size :
  unlocked s -> Inv A s (l1 ++ (a, n) :: l2) k b -> b < 2 ^ 27 -> goodSize size ->
  wps (if shareContainerBufferCurrLen n + size >? Z.of_nat CONTAINER_BUFFER_SIZE then
         stored ← storeShareContainer_ (Some a);
         if negb stored then ret_ false else mret tt
       else mret tt)
    (fun _ s' => exists n' k', frame s s' /\ k <= k' <= k + 1 /\
       Inv A s' (l1 ++ (a, n') :: l2) k' (b + 1) /\ userID n' = userID n /\
       shareContainerBufferCurrLen n' + size <= Z.of_nat CONTAINER_BUFFER_SIZE)
    (fun ok s' => exists n' k', frame s s' /\ k <= k' <= k + 1 /\
       Inv A s' (l1 ++ (a, n') :: l2) k' (b + 1) /\ userID n' = userID n /\ ok = false /\
       ~ ReliableWorld W) s.
Proof.
  intros (U1 & U2 & U3) HI Hb (Hs1 & Hs2 & _).
  pose proof (Inv_node _ _ _ _ _ _ _ _ _ HI) as [_ [_ Hbuf Hlen]].
  assert (k < 26 ^ 12 - 1) as Hk by (destruct HI; lia).
  destruct (Z.gtb_spec (shareContainerBufferCurrLen n + size) (Z.of_nat CONTAINER_BUFFER_SIZE)).
  - wstep. eapply wps_post; [by eapply (storeShareContainer_spec digest A)|].
    intros ok s' (n' & k' & F & Hk' & HI' & Hu & H0 & HD). destruct ok; cbn [negb]; wstep.
    + exists n', k'. split_and!; try done; [lia|lia|]. rewrite H0 by done. lia.
    + exists n', k'. split_and!; try done; [lia|lia|]. intros HR.
      assert (false = true) by (apply HD; [apply reliable_disk|lia]). done.
  - wstep. exists n, k. split_and!; try done; [lia|].
    eapply (Inv_budget A s _ k b); [done|lia].
Qed.
Lemma interUserNew_spec {ret} A s l1 a n l2 k b fp uid (size off : nat) data
    (Q : ret -> minDedupCore W -> Prop) :
  unlocked s -> Inv A s (l1 ++ (a, n) :: l2) k b -> A fp = None -> int32 uid -> b < 2 ^ 27 ->
  goodSize (Z.of_nat size) -> (off + size <= length data)%nat ->
  digest (take size (drop off data)) = fp ->
  wps (interUserNew (shareFP2IndexKey_ fp) uid (Z.of_nat size) (Some a) data (Z.of_nat off))
    (interPost A s l1 a n l2 k b fp uid) Q s.
Proof.
  intros U HI HA Hu Hb Hs Hoff Hd. pose proof lim_container as HC.
  pose proof Hs as (Hs1 & Hs2 & Hs3).
  pose proof (Inv_node _ _ _ _ _ _ _ _ _ HI) as [Ha [_ _ Hlen]].
  unfold interUserNew. wstep. wstep. eapply wps_load; [done|]. wstep.
  eapply wps_lift; [apply sint_ok; lia|]. wstep.
  eapply wps_mono; [by eapply (room_spec A s)| |].
  2: { intros ok s' (n' & k' & F & Hk' & HI' & Hu' & -> & HR). exists A, n', k'.
       destruct U as (U1 & U2 & U3), F as [F1 F2 F3 F4 F5 F6 F7].
       unfold unlocked. split_and!; [congruence|congruence|congruence|congruence|congruence|done|by rewrite F5|lia|lia|done|done|by left|done]. }
  intros _ s1 (n1 & k1 & F & Hk1 & HI1 & Hu1 & Hroom).
  pose proof (Inv_node _ _ _ _ _ _ _ _ _ HI1) as [Ha1 [(i & name & En & Hi & Hlt) Hbuf Hlen1]].
  wstep. eapply wps_load; [done|]. wstep.
  eapply wps_lift; [rewrite En; by eapply containerName_cstr|]. wstep. wstep. wstep.
  set (coff := Z.to_nat (shareContainerBufferCurrLen n1)).
  eapply wps_lift.
  { replace (shareContainerBufferCurrLen n1) with (Z.of_nat coff) by lia.
    apply newEntry; [apply uninit_length|by eapply containerName_length]. }
  set (e := {| si_name := name; si_off := coff; si_size := size; si_refs := [(uid, 1)] |}).
  wstep. unfold wps at 1, lockDB. rewrite (fr_db _ _ F), (proj1 U). wstep. apply wps_onWorld.
  cbn [world set_locks]. intros okp w Ew. wstep. unfold wps at 1, unlockDB.
  cbn [DBLock_ set_world set_locks]. wstep.
  set (share := take size (drop off data)).
  assert (length share = size) as Hsl by (unfold share; rewrite length_take, length_drop; lia).
  eapply wps_lift.
  { rewrite !sz_ok by lia. cbn [mbind res_bind]. rewrite !Nat2Z.id.
    rewrite memcpy_ok by lia. fold coff share. done. }
  wstep. eapply wps_lift; [apply sint_ok; lia|]. wstep.
  eapply wps_store; [done|]. wstep. cbn [heap set_world set_locks].
  set (n2 := set_container n1 (shareContainerName n1) _ _).
  assert (nodeData n2 = nodeData n1 ++ share) as Hnd.
  { rewrite <- (nodeData_append n1 share) by lia. rewrite Hsl. done. }
  assert (Inv A (set_heap s1 (<[a := n2]> (heap s1))) (l1 ++ (a, n2) :: l2) k1 (b + 1)) as HI2.
  { eapply (Inv_append A s1 l1 a n1 l2 k1 (b + 1) n2 share); try done.
    - cbn. rewrite !length_app, length_take, length_drop, Hsl. lia.
    - cbn. lia. }
  assert (length (nodeData n1) = coff) as Hcl by (unfold nodeData; rewrite length_take; lia).
  assert (stored digest (C s1 (l1 ++ (a, n2) :: l2)) k1 (b + 1) fp e) as He.
  { split.
    - exists i. split; [done|lia].
    - done.
    - cbn. lia.
    - split; cbn; [apply NoDup_singleton|by apply Forall_singleton|apply Forall_singleton|]; destruct HI; lia.
    - exists (nodeData n2). split_and!.
      + apply containerOf_node; [|done]. change (si_name e) with name. rewrite <- En.
        by apply (nodup_name l1 l2 a n1), HI1.
      + rewrite Hnd, length_app. cbn. lia.
      + cbn. rewrite Hnd, drop_app_length', take_ge by lia. done. }
  (* the final state *)
  match goal with |- interPost _ _ _ _ _ _ _ _ _ _ _ ?x => set (s2 := x) end.
  pose proof (put_law _ _ _ _ _ Ew) as Hw.
  assert (dbFrame (set_heap s1 (<[a := n2]> (heap s1))) s2) as F2.
  { destruct Hw as [E|[_ E]]; split; cbn; rewrite ?E; try done. apply otherKeys_insert. }
  assert (unlocked s2 /\ shareContainerDirName_ s2 = shareContainerDirName_ s /\
          sent (view (world s2)) = sent (view (world s)) /\
          otherFiles (shareContainerDirName_ s) (files (view (world s))) (files (view (world s2))) /\
          otherKeys (contents (view (world s))) (contents (view (world s2)))) as (U2 & D2 & T2 & O1 & O2).
  { destruct U as (U1 & U2 & U3), F as [E1 E2 E3 E4 E5 E6 E7]. unfold unlocked.
    split_and!; cbn; [done|congruence|congruence|congruence| | |].
    - rewrite <- E6. apply F2.
    - etrans; [exact E7|]. pose proof (df_files _ _ F2) as X. cbn in X. by rewrite X.
    - rewrite <- E5. apply F2. }
  assert (referenced A (<[fp := Some e]> A) fp uid) as HRf.
  { exists e. unfold refs. by rewrite HA. }
  destruct Hw as [E|[Eok E]].
  - exists (<[fp := Some e]> A), n2, k1. split_and!; try done; [lia|lia| |by right].
    eapply (Inv_db A); [exact HI2|done|lia|]. cbn [world s2 set_heap set_locks set_world].
    rewrite E. cbn [contents set_contents].
    destruct HI2. eapply (indexed_insert A _ _ k1 (b + 1)); [done|lia|done].
  - exists A, n2, k1. split_and!; try done; [lia|lia| |by left|].
    + eapply (Inv_db A); [exact HI2|done|lia|]. cbn [world s2 set_heap set_locks set_world].
      rewrite E. apply HI2.
    + intros HR. pose proof (put_reliable (world s1) (shareFP2IndexKey_ fp) (encodeInfo e)) as X.
      rewrite Ew in X. cbn in X. congruence.
Qed.

Lemma inter_spec {ret} A s l1 a n l2 k b fp uid (size off : nat) data
    (Q : ret -> minDedupCore W -> Prop) :
  unlocked s -> Inv A s (l1 ++ (a, n) :: l2) k b -> int32 uid -> b < 2 ^ 27 ->
  goodSize (Z.of_nat size) -> (off + size <= length data)%nat ->
  digest (take size (drop off data)) = fp ->
  wps (interUserIndexUpdate_ fp uid (Z.of_nat size) (Some a) data (Z.of_nat off))
    (interPost A s l1 a n l2 k b fp uid) Q s.
Proof.
  intros U HI Hu Hb Hs Hoff Hd. pose proof U as (U1 & U2 & U3). unfold interUserIndexUpdate_.
  wstep. wstep. unfold wps at 1, lockDB. rewrite U1. wstep. wstep. cbn [world set_locks].
  assert (~ ReliableWorld W -> wps (unlockDB ≫= λ _, ret_ false)
     (interPost A s l1 a n l2 k b fp uid) (interPost A s l1 a n l2 k b fp uid)
     (set_locks s true (bufferLock_ s) (globalShareContainerNameLock_ s))) as Herr.
  { intros HR. wstep. unfold wps at 1, unlockDB. cbn [DBLock_ set_locks]. wstep.
    exists A, n, k. split_and!; try done; [lia| |by left].
    do 2 apply Inv_locks. eapply (Inv_budget A s _ k b); [done|lia]. }
  destruct (db_Get (world s) (shareFP2IndexKey_ fp)) as [v| | |] eqn:EG.
  - destruct (get_entry _ _ _ _ _ _ _ HI EG) as (i & HA & -> & _).
    eapply wps_post; [|intros ok s' HP; exact HP].
    apply (interUserOwned_spec A (set_locks s true _ _) l1 a n l2 k b fp uid i); try done.
    by apply Inv_locks.
  - wstep. unfold wps at 1, unlockDB. cbn [DBLock_ set_locks].
    match goal with |- wps _ _ _ ?x => replace x with s by (destruct s; cbn in *; by subst) end.
    eapply interUserNew_spec; try done. by eapply get_absent.
  - apply Herr. intros HR. rewrite get_reliable in EG. by case_match.
  - apply Herr. intros HR. rewrite get_reliable in EG. by case_match.
Qed.
End Index.
