(* ===== verification/MinPackage.v ===== *)
(** * Packages of share metadata

    The format of the metadata a client sends (dataStruct.hh: shareMDBuffer), as
    data and as bytes, and what the field accesses of the two stages read from
    it. *)

From stdpp Require Import base list numbers.
From coqutil Require Import Byte.
From Stdlib Require Import Lia.
From S2P Require Import Prelude Structs FileNames World MinDedupCore MinStages.

Local Open Scope Z_scope.

(** [shareMDEntry_t] *)
Record ShareMD := {
  sm_fp : bytes;
  sm_secretID : Z;
  sm_secretSize : Z;
  sm_size : nat;
}.

(** A file of the package: [fileShareMDHead_t], of which the members that the
    data server does not read are the blocks [fm_mid] and [fm_end], the name and
    the shares. *)
Record FileMD := {
  fm_mid : bytes;
  fm_end : bytes;
  fm_name : bytes;
  fm_shares : list ShareMD;
}.

Definition encodeShare (e : ShareMD) : bytes :=
  sm_fp e ++ le32 (sm_secretID e) ++ le32 (sm_secretSize e) ++ le32 (Z.of_nat (sm_size e)).
Definition encodeShares (l : list ShareMD) : bytes := mjoin (encodeShare <$> l).

Definition encodeFile (f : FileMD) : bytes :=
  (le32 (Z.of_nat (length (fm_name f))) ++ fm_mid f
   ++ le32 (Z.of_nat (length (fm_shares f))) ++ fm_end f)
  ++ fm_name f ++ encodeShares (fm_shares f).
Definition encodePackage (l : list FileMD) : bytes := mjoin (encodeFile <$> l).

(** All shares of a package, in order. *)
Definition sharesOf (l : list FileMD) : list ShareMD := mjoin (fm_shares <$> l).

Definition wfShare (e : ShareMD) : Prop :=
  length (sm_fp e) = FP_SIZE /\ int32 (Z.of_nat (sm_size e)).

Record wfFile (f : FileMD) : Prop := {
  wf_mid : length (fm_mid f) = 28%nat;
  wf_end : length (fm_end f) = 12%nat;
  wf_shares : Forall wfShare (fm_shares f);
}.

(** ** Sizes *)

Lemma length_encodeShare e : wfShare e -> length (encodeShare e) = shareMDEntrySize_.
Proof. intros [Hf _]. unfold encodeShare. rewrite !length_app, !length_le32, Hf. done. Qed.

Lemma encodeShares_cons e l : encodeShares (e :: l) = encodeShare e ++ encodeShares l.
Proof. done. Qed.

Lemma encodePackage_cons f l : encodePackage (f :: l) = encodeFile f ++ encodePackage l.
Proof. done. Qed.

Lemma length_encodeShares l :
  Forall wfShare l -> length (encodeShares l) = (shareMDEntrySize_ * length l)%nat.
Proof.
  induction 1 as [|e l He _ IH]; [done|].
  rewrite encodeShares_cons, length_app, length_encodeShare, IH by done. cbn [length]. lia.
Qed.

Lemma length_encodeFile f :
  wfFile f -> length (encodeFile f)
  = (fileShareMDHeadSize_ + length (fm_name f) + shareMDEntrySize_ * length (fm_shares f))%nat.
Proof.
  intros [H1 H2 H3]. unfold encodeFile. rewrite !length_app, !length_le32, H1, H2, length_encodeShares by done.
  unfold fileShareMDHeadSize_. lia.
Qed.

(** Everything of a file before its shares. *)
Definition beforeShares (f : FileMD) : bytes :=
  (le32 (Z.of_nat (length (fm_name f))) ++ fm_mid f
   ++ le32 (Z.of_nat (length (fm_shares f))) ++ fm_end f) ++ fm_name f.

Lemma encodeFile_split f : encodeFile f = beforeShares f ++ encodeShares (fm_shares f).
Proof. unfold encodeFile, beforeShares. by rewrite <- !app_assoc. Qed.

Lemma length_beforeShares f :
  wfFile f -> length (beforeShares f) = (fileShareMDHeadSize_ + length (fm_name f))%nat.
Proof.
  intros [H1 H2 _]. unfold beforeShares. rewrite !length_app, !length_le32, H1, H2.
  unfold fileShareMDHeadSize_. lia.
Qed.

Lemma encodeShares_app l1 l2 : encodeShares (l1 ++ l2) = encodeShares l1 ++ encodeShares l2.
Proof. unfold encodeShares. by rewrite fmap_app, join_app. Qed.

Lemma sharesOf_cons f l : sharesOf (f :: l) = fm_shares f ++ sharesOf l.
Proof. done. Qed.

(** The [i]-th share of a file, in the bytes of the file. *)
Lemma encodeShares_at l i e :
  l !! i = Some e ->
  encodeShares l = encodeShares (take i l) ++ encodeShare e ++ encodeShares (drop (S i) l).
Proof. intros E. by rewrite <- encodeShares_cons, <- encodeShares_app, take_drop_middle. Qed.

Lemma take_snoc {A} (l : list A) i e : l !! i = Some e -> take (S i) l = take i l ++ [e].
Proof. apply take_S_r. Qed.

(** ** Reading *)

Section Reading.
Context {R : Type} (md pre post : bytes).

Lemma read_fp e :
  md = pre ++ encodeShare e ++ post -> wfShare e ->
  (o ← sz (Z.of_nat (length pre)); rd (R := R) md o FP_SIZE) = Ok (sm_fp e).
Proof.
  intros -> [Hf _]. rewrite sz_ok by lia. cbn [mbind res_bind]. rewrite Nat2Z.id.
  unfold encodeShare. rewrite <- !app_assoc. by apply rd_mid.
Qed.

Lemma read_shareSize e :
  md = pre ++ encodeShare e ++ post -> wfShare e ->
  field (R := R) md (Z.of_nat (length pre)) 40 = Ok (Z.of_nat (sm_size e)).
Proof.
  intros -> [Hf Hs]. unfold field. rewrite sz_ok by lia. cbn [mbind res_bind]. rewrite Nat2Z.id.
  apply (getI32_at (pre ++ sm_fp e ++ le32 (sm_secretID e) ++ le32 (sm_secretSize e)) _ post); [| |done].
  - unfold encodeShare. by rewrite <- !app_assoc.
  - rewrite !length_app, !length_le32, Hf. done.
Qed.

Lemma read_nameSize f :
  md = pre ++ encodeFile f ++ post -> int32 (Z.of_nat (length (fm_name f))) ->
  field (R := R) md (Z.of_nat (length pre)) 0 = Ok (Z.of_nat (length (fm_name f))).
Proof.
  intros -> Hs. unfold field. rewrite sz_ok by lia. cbn [mbind res_bind].
  rewrite Nat2Z.id, Nat.add_0_r. unfold encodeFile. rewrite <- !app_assoc.
  by eapply getI32_at.
Qed.

Lemma read_coming f :
  md = pre ++ encodeFile f ++ post -> wfFile f -> int32 (Z.of_nat (length (fm_shares f))) ->
  field (R := R) md (Z.of_nat (length pre)) 32 = Ok (Z.of_nat (length (fm_shares f))).
Proof.
  intros -> [H1 H2 _] Hs. unfold field. rewrite sz_ok by lia. cbn [mbind res_bind]. rewrite Nat2Z.id.
  apply (getI32_at (pre ++ le32 (Z.of_nat (length (fm_name f))) ++ fm_mid f) _
           (fm_end f ++ fm_name f ++ encodeShares (fm_shares f) ++ post)); [| |done].
  - unfold encodeFile. by rewrite <- !app_assoc.
  - rewrite !length_app, !length_le32, H1. done.
Qed.

Lemma read_name f :
  md = pre ++ encodeFile f ++ post -> wfFile f ->
  (o ← sz (Z.of_nat (length pre) + Z.of_nat fileShareMDHeadSize_);
   len ← sz (Z.of_nat (length (fm_name f))); rd (R := R) md o len) = Ok (fm_name f).
Proof.
  intros -> [H1 H2 _]. rewrite !sz_ok by lia. cbn [mbind res_bind]. rewrite Nat2Z.id.
  assert (pre ++ encodeFile f ++ post
    = (pre ++ le32 (Z.of_nat (length (fm_name f))) ++ fm_mid f
         ++ le32 (Z.of_nat (length (fm_shares f))) ++ fm_end f)
      ++ fm_name f ++ encodeShares (fm_shares f) ++ post) as ->
    by (unfold encodeFile; by rewrite <- !app_assoc).
  apply rd_mid; [|done].
  rewrite !length_app, !length_le32, H1, H2. unfold fileShareMDHeadSize_. lia.
Qed.
End Reading.
