(* ===== verification/MinUpload.v ===== *)
(** * Uploading shares

    The two stages of deduplication on a package of share metadata and its share
    data: the first stage tells the client which shares it need not send, the
    second stores the others; together they count every share of the package
    once for the user, and the storage invariant holds on every path. *)

From stdpp Require Import base list numbers gmap functions.
From coqutil Require Import Byte.
From Stdlib Require Import Lia.
From S2P Require Import Prelude Structs FileNames World CryptoPrimitive MinDedupCore MinStages ShareIndex MinInvariant MinNodes MinIndex MinPackage.

Local Open Scope Z_scope.

(** ** What the stages compute *)

Definition totalSize (l : list ShareMD) : Z := foldr (fun e z => Z.of_nat (sm_size e) + z) 0 l.

(** The index after the first stage: owned shares get a reference. *)
Definition firstStep (uid : Z) (A : Index) (e : ShareMD) : Index :=
  if ownedBy A (sm_fp e) uid then reference A (sm_fp e) uid else A.
Definition firstSpec (uid : Z) (A : Index) (l : list ShareMD) : Index := foldl (firstStep uid) A l.

(** The duplicate flags, and the shares the client has to send. *)
Definition dupFlags (uid : Z) (A : Index) (l : list ShareMD) : list bool :=
  (fun e => ownedBy A (sm_fp e) uid) <$> l.
Definition toSend (uid : Z) (A : Index) (l : list ShareMD) : list ShareMD :=
  filter (fun e => ownedBy A (sm_fp e) uid = false) l.

(** The shares that the flags do not mark as duplicates. *)
Fixpoint selected (stat : list bool) (l : list ShareMD) : list ShareMD :=
  match stat, l with
  | d :: stat', e :: l' => if d then selected stat' l' else e :: selected stat' l'
  | _, _ => []
  end.

(** How often a share occurs. *)
Definition occurrences (fp : bytes) (l : list ShareMD) : Z :=
  Z.of_nat (length (filter (fun e => sm_fp e = fp) l)).

Lemma totalSize_app l1 l2 : totalSize (l1 ++ l2) = totalSize l1 + totalSize l2.
Proof. induction l1 as [|e l1 IH]; cbn; [done|]. unfold totalSize in *. lia. Qed.

Lemma totalSize_nonneg l : 0 <= totalSize l.
Proof. induction l as [|e l IH]; cbn; [done|]. unfold totalSize in *. lia. Qed.

Lemma occurrences_app fp l1 l2 : occurrences fp (l1 ++ l2) = occurrences fp l1 + occurrences fp l2.
Proof. unfold occurrences. rewrite list.filter_app, length_app. lia. Qed.

Lemma occurrences_one fp e : occurrences fp [e] = if decide (sm_fp e = fp) then 1 else 0.
Proof. unfold occurrences. rewrite filter_cons, filter_nil. by case_decide. Qed.

Lemma selected_snoc (stat : list bool) l e (d : bool) :
  stat !! length l = Some d ->
  selected stat (l ++ [e]) = selected stat l ++ (if d then [] else [e]).
Proof.
  revert stat. induction l as [|x l IH]; intros [|d' stat] E; cbn in *; simplify_eq; try done.
  - by destruct d, stat.
  - destruct d'; by rewrite IH.
Qed.

(** The flags of the first stage select the shares the client has to send. *)
Lemma selected_toSend uid A l rest : selected (dupFlags uid A l ++ rest) l = toSend uid A l.
Proof.
  induction l as [|e l IH]; [by destruct rest|]. unfold dupFlags, toSend in *. cbn [fmap list_fmap app selected].
  rewrite filter_cons, IH. by destruct (ownedBy A (sm_fp e) uid).
Qed.

(** The prefix of a list selects a prefix. *)
Lemma selected_prefix stat l1 l2 : exists rest, selected stat (l1 ++ l2) = selected stat l1 ++ rest.
Proof.
  revert stat. induction l1 as [|x l1 IH]; intros [|d stat]; cbn; try by eexists.
  destruct (IH stat) as [r ->]. by destruct d; exists r.
Qed.

(** References do not change who owns what. *)
Lemma ownedBy_reference A fp uid fp' u :
  ownedBy A fp uid = true -> ownedBy (reference A fp uid) fp' u = ownedBy A fp' u.
Proof.
  unfold ownedBy, refs, reference, owns. destruct (A fp) as [i|] eqn:E; [|done].
  intros Ho. apply bool_decide_eq_true in Ho. destruct (decide (fp = fp')) as [<-|Hne].
  - rewrite fn_lookup_insert, E. cbn [with_refs si_refs]. by rewrite addRef_users.
  - by rewrite fn_lookup_insert_ne.
Qed.

Lemma ownedBy_firstStep uid A e fp u : ownedBy (firstStep uid A e) fp u = ownedBy A fp u.
Proof. unfold firstStep. case_match eqn:E; [by apply ownedBy_reference|done]. Qed.

Lemma ownedBy_firstSpec uid A l fp u : ownedBy (firstSpec uid A l) fp u = ownedBy A fp u.
Proof.
  unfold firstSpec. revert A. induction l as [|e l IH]; intros A; [done|]. cbn.
  by rewrite IH, ownedBy_firstStep.
Qed.

(** The counters after the first stage. *)
Lemma firstSpec_counts uid A l u fp :
  refsOf u (refs (firstSpec uid A l) fp)
  = refsOf u (refs A fp)
    + (if decide (u = uid /\ ownedBy A fp uid = true) then occurrences fp l else 0).
Proof.
  induction l as [|e l IH] using rev_ind; [change (occurrences fp []) with 0; cbn; case_decide; lia|].
  unfold firstSpec in *. rewrite foldl_snoc, occurrences_app, occurrences_one.
  fold (firstSpec uid A l) in *. unfold firstStep. rewrite ownedBy_firstSpec.
  destruct (ownedBy A (sm_fp e) uid) eqn:Eo.
  - assert (is_Some (firstSpec uid A l (sm_fp e))) as HS.
    { rewrite <- (ownedBy_firstSpec uid A l) in Eo. unfold ownedBy, refs in Eo.
      by destruct (firstSpec uid A l (sm_fp e)). }
    rewrite (referenced_counts _ _ _ _ _ _ (reference_referenced _ _ uid HS)), IH.
    destruct (decide (u = uid)) as [->|]; [|by rewrite !decide_False by tauto; lia].
    destruct (decide (sm_fp e = fp)) as [<-|].
    + rewrite !decide_True by done. lia.
    + rewrite (decide_False (P := uid = uid /\ fp = sm_fp e)) by (intros [_ E]; congruence). case_decide; lia.
  - rewrite IH. destruct (decide (sm_fp e = fp)) as [<-|].
    + rewrite !(decide_False (P := u = uid /\ ownedBy A (sm_fp e) uid = true))
        by (intros [_ E]; congruence). lia.
    + case_decide; lia.
Qed.

Section Upload.
Context {W : Type} {WW : World W} {WL : WorldLaws W} {LM : Limits} {LOK : LimitsOk} {SSL : OpenSSL}
        (digest : bytes -> bytes).
Implicit Types s : minDedupCore W.

Abbreviation Inv := (Inv digest).

#[local] Instance dbFrame_refl : Reflexive (@dbFrame W WW WL).
Proof. by split. Qed.

#[local] Instance dbFrame_trans : Transitive (@dbFrame W WW WL).
Proof. intros s1 s2 s3 [] []. split; first [congruence|by etrans]. Qed.

(** ** The first stage *)

Section First.
Context (uid : Z) (A : Index) (s0 : minDedupCore W) (l : nodeList) (k b B : Z)
        (stat : list bool) (md : bytes).
Hypothesis uid_int : int32 uid.
Hypothesis md_int : Z.of_nat (length md) < 2 ^ 31.
Hypothesis budget : B <= 2 ^ 27.

(** The state after the shares [p]. *)
Definition firstI (p : list ShareMD) (out : FirstOut) s : Prop :=
  dbFrame s0 s /\ unlocked s /\ Inv (firstSpec uid A p) s l k (b + Z.of_nat (length p)) /\
  out = (dupFlags uid A p ++ drop (length p) stat, length p, totalSize (toSend uid A p)).

(** The outcome of a run that an error ends. *)
Definition firstFail (r : bool * FirstOut) s : Prop :=
  r.1 = false /\ ~ ReliableWorld W /\ unlocked s /\ exists A', Inv A' s l k B.

Lemma firstShare_spec p e pre post out s :
  firstI p out s -> md = pre ++ encodeShare e ++ post -> wfShare e ->
  (length p < length stat)%nat -> b + Z.of_nat (length p) < B ->
  totalSize (toSend uid A (p ++ [e])) < 2 ^ 31 ->
  wps (firstShare uid md (Z.of_nat (length pre), out))
    (fun st s' => st.1 = Z.of_nat (length (pre ++ encodeShare e)) /\ firstI (p ++ [e]) st.2 s')
    firstFail s.
Proof.
  intros (F & U & HI & ->) Emd We Hst HB Hsz. unfold firstShare. wstep.
  assert (length md = length pre + 44 + length post)%nat as Hlen.
  { rewrite Emd, !length_app, length_encodeShare by done. unfold shareMDEntrySize_. lia. }
  eapply wps_lift; [by eapply read_fp|]. wstep.
  eapply wps_lift; [apply sint_ok; unfold shareMDEntrySize_; lia|]. wstep.
  assert (length (dupFlags uid A p) = length p) as Hfl by (unfold dupFlags; apply length_fmap).
  destruct (drop (length p) stat) as [|d0 rest] eqn:Ed.
  { apply (f_equal length) in Ed. rewrite length_drop in Ed. cbn in Ed. lia. }
  eapply wps_lift.
  { rewrite <- Hfl. apply aget_ok. by rewrite list_lookup_middle. }
  wstep. eapply wps_post.
  { eapply (intra_spec digest (firstSpec uid A p)); [done|done|done|lia]. }
  intros [ok dup] s1 (A' & F1 & U1 & HI1 & (Hok & HA') & HRel). cbn [fst snd] in *.
  wstep. eapply wps_lift.
  { rewrite <- Hfl. rewrite aset_ok by (rewrite length_app; cbn; lia).
    rewrite insert_app_r_alt, Nat.sub_diag by lia. done. }
  cbn [insert list_insert]. destruct ok; cbn [negb].
  - destruct (Hok eq_refl) as [Edup EA]. rewrite ownedBy_firstSpec in Edup.
    assert (dupFlags uid A p ++ dup :: rest
            = dupFlags uid A (p ++ [e]) ++ drop (length (p ++ [e])) stat) as Efl.
    { unfold dupFlags. rewrite fmap_app, <- app_assoc. cbn. rewrite Edup. do 2 f_equal.
      rewrite length_app. cbn. rewrite <- drop_drop, Ed. done. }
    assert (firstSpec uid A (p ++ [e]) = A') as EA'.
    { unfold firstSpec. rewrite foldl_snoc. fold (firstSpec uid A p). unfold firstStep.
      by rewrite ownedBy_firstSpec, <- Edup. }
    assert (totalSize (toSend uid A (p ++ [e]))
            = totalSize (toSend uid A p) + (if dup then 0 else Z.of_nat (sm_size e))) as Ets.
    { unfold toSend. rewrite list.filter_app, totalSize_app, filter_cons, filter_nil, <- Edup.
      f_equal. destruct dup; case_decide; try done. cbn. lia. }
    pose proof (totalSize_nonneg (toSend uid A p)).
    wstep. eapply (wps_lift _ (totalSize (toSend uid A (p ++ [e])))).
    { rewrite Ets. destruct dup; [by rewrite Z.add_0_r|].
      rewrite (read_shareSize _ pre post e) by done. cbn [mbind res_bind]. apply sint_ok. lia. }
    wstep. cbn [fst snd]. split.
    { rewrite length_app, length_encodeShare by done. unfold shareMDEntrySize_. lia. }
    split; [by etrans|]. split; [done|]. split.
    + rewrite EA', length_app. cbn [length]. eapply Inv_budget; [done|lia].
    + rewrite <- Efl, length_app, Nat.add_1_r. done.
  - wstep. split; [done|]. split; [intros HR; by specialize (HRel HR)|]. split; [done|].
    exists A'. eapply Inv_budget; [done|lia].
Qed.
Lemma toSend_le l1 l2 : totalSize (toSend uid A l1) <= totalSize (toSend uid A (l1 ++ l2)).
Proof.
  unfold toSend. rewrite list.filter_app, totalSize_app.
  pose proof (totalSize_nonneg (filter (fun e => ownedBy A (sm_fp e) uid = false) l2)). lia.
Qed.

(** The shares of one file. *)
Lemma firstShares_spec p f pre post out s :
  firstI p out s -> md = pre ++ encodeFile f ++ post -> wfFile f ->
  (length p + length (fm_shares f) <= length stat)%nat ->
  b + Z.of_nat (length p + length (fm_shares f)) <= B ->
  totalSize (toSend uid A (p ++ fm_shares f)) < 2 ^ 31 ->
  wps (forM (length (fm_shares f)) 0 (fun _ st => firstShare uid md st)
         (Z.of_nat (length (pre ++ beforeShares f)), out))
    (fun st s' => st.1 = Z.of_nat (length (pre ++ encodeFile f)) /\ firstI (p ++ fm_shares f) st.2 s')
    firstFail s.
Proof.
  intros HI Emd Wf Hst HB Hts. set (es := fm_shares f) in *.
  eapply wps_post.
  - eapply (wps_forM (fun i st s =>
      st.1 = Z.of_nat (length (pre ++ beforeShares f ++ encodeShares (take i es))) /\
      firstI (p ++ take i es) st.2 s)).
    + cbn [fst snd take]. rewrite !app_nil_r. done.
    + intros i [off out'] s' Hi [Eo HI']. cbn [fst snd] in *. subst off.
      destruct (lookup_lt_is_Some_2 es i) as [e Ee]; [lia|].
      assert (wfShare e) as We.
      { eapply Forall_lookup_1; [apply (wf_shares _ Wf)|exact Ee]. }
      assert (length (take i es) = i) as Hti by (rewrite length_take; lia).
      pose proof (encodeShares_at _ _ _ Ee) as Esh.
      eapply wps_post.
      * eapply (firstShare_spec (p ++ take i es) e
                  (pre ++ beforeShares f ++ encodeShares (take i es))
                  (encodeShares (drop (S i) es) ++ post)); try done.
        -- rewrite Emd, encodeFile_split. fold es. rewrite Esh. by rewrite <- !app_assoc.
        -- rewrite length_app, Hti. lia.
        -- rewrite length_app, Hti. lia.
        -- eapply Z.le_lt_trans; [|exact Hts].
           assert (p ++ es = ((p ++ take i es) ++ [e]) ++ drop (S i) es) as ->
             by (rewrite <- !app_assoc; cbn; by rewrite take_drop_middle).
           apply toSend_le.
      * intros [off' out''] s'' [Eo' HI'']. cbn [fst snd] in *.
        rewrite (take_snoc es i e Ee), encodeShares_app. cbn [fst snd].
        rewrite <- app_assoc in HI''. split; [|done].
        rewrite Eo', <- !app_assoc. do 5 f_equal. unfold encodeShares. cbn. by rewrite app_nil_r.
  - intros [off out'] s' [Eo HI']. cbn [fst snd] in *. rewrite take_ge in Eo, HI' by (fold es; lia).
    split; [|done]. by rewrite Eo, encodeFile_split.
Qed.

Lemma firstFiles_spec fs : forall p pre out s fuel slack,
  firstI p out s -> md = pre ++ encodePackage fs ++ slack -> Forall wfFile fs ->
  (length fs <= fuel)%nat -> (length p + length (sharesOf fs) <= length stat)%nat ->
  b + Z.of_nat (length p + length (sharesOf fs)) <= B ->
  totalSize (toSend uid A (p ++ sharesOf fs)) < 2 ^ 31 ->
  wps (firstFiles fuel uid md (Z.of_nat (length (pre ++ encodePackage fs)))
         (Z.of_nat (length pre), out))
    (fun st s' => firstI (p ++ sharesOf fs) st.2 s') firstFail s.
Proof.
  induction fs as [|f fs IH]; intros p pre out s fuel slack HI Emd Hwf Hf Hst HB Hts.
  { rewrite !app_nil_r in *. destruct fuel; cbn [firstFiles]; rewrite Z.ltb_irrefl; by wstep. }
  apply list.Forall_cons in Hwf as [Wf Hwf]. cbn in Hf. destruct fuel as [|fuel]; [lia|].
  rewrite encodePackage_cons in *. rewrite sharesOf_cons in *.
  pose proof (length_encodeFile f Wf) as Hlf. unfold fileShareMDHeadSize_, shareMDEntrySize_ in Hlf.
  assert (length md = length pre + length (encodeFile f) + length (encodePackage fs) + length slack)%nat
    as Hlen by (rewrite Emd, !length_app; lia).
  cbn [firstFiles]. rewrite (proj2 (Z.ltb_lt _ _)) by (rewrite !length_app; lia).
  rewrite <- app_assoc in Emd.
  wstep. eapply wps_lift; [eapply (read_nameSize md pre); [done|unfold int32; lia]|].
  wstep. eapply wps_lift; [eapply (read_coming md pre); [done|done|unfold int32; lia]|].
  wstep. eapply wps_lift; [apply sint_ok; unfold fileShareMDHeadSize_; lia|].
  wstep. eapply wps_lift; [apply sint_ok; unfold fileShareMDHeadSize_; lia|].
  rewrite Nat2Z.id. wstep.
  replace (Z.of_nat (length pre) + Z.of_nat fileShareMDHeadSize_ + Z.of_nat (length (fm_name f)))
    with (Z.of_nat (length (pre ++ beforeShares f)))
    by (rewrite length_app, length_beforeShares by done; lia).
  rewrite app_assoc in Hts. rewrite length_app in Hst, HB.
  eapply wps_post.
  { eapply firstShares_spec; [done|done|done|lia|lia|].
    eapply Z.le_lt_trans; [apply toSend_le|exact Hts]. }
  intros [off out'] s' [Eo HI']. cbn [fst snd] in *. subst off. rewrite app_assoc.
  replace (pre ++ encodeFile f ++ encodePackage fs) with ((pre ++ encodeFile f) ++ encodePackage fs)
    by (by rewrite <- app_assoc).
  rewrite app_assoc. eapply (IH (p ++ fm_shares f) (pre ++ encodeFile f)); [done| |done|lia| | |done].
  - by rewrite <- app_assoc.
  - rewrite length_app. lia.
  - rewrite length_app. lia.
Qed.
End First.

(** The first stage as a whole. *)
Lemma firstStage_spec {ret} uid A s l k b (fs : list FileMD) slack stat fuel
    (Q : ret -> minDedupCore W -> Prop) :
  let shares := sharesOf fs in
  let n := length shares in
  int32 uid -> Z.of_nat (length (encodePackage fs ++ slack)) < 2 ^ 31 ->
  unlocked s -> Inv A s l k b -> Forall wfFile fs -> (length fs <= fuel)%nat ->
  (n <= length stat)%nat -> b + Z.of_nat n <= 2 ^ 27 -> totalSize (toSend uid A shares) < 2 ^ 31 ->
  wps (firstStageDedup fuel uid (encodePackage fs ++ slack) (Z.of_nat (length (encodePackage fs))) stat)
    (fun r s' => unlocked s' /\ (exists A', Inv A' s' l k (b + Z.of_nat n)) /\
       (r.1 = false -> ~ ReliableWorld W) /\
       (r.1 = true -> dbFrame s s' /\ Inv (firstSpec uid A shares) s' l k (b + Z.of_nat n) /\
          r.2 = (dupFlags uid A shares ++ drop n stat, n, totalSize (toSend uid A shares)))) Q s.
Proof.
  intros shares n Hu Hlen U HI Hwf Hf Hst HB Hts. unfold firstStageDedup. wstep. wstep.
  eapply wps_mono.
  - eapply (firstFiles_spec uid A s l k b (b + Z.of_nat n) stat _ Hu Hlen HB fs [] [] _ _ fuel slack);
      try done.
    split; [done|]. split; [done|]. split; [|done].
    cbn. by rewrite Z.add_0_r.
  - intros [off out] s' (F & U' & HI' & E). cbn [app fst snd] in *. subst out. wstep. cbn [fst snd].
    split; [done|]. split; [by eexists|]. split; [done|]. intros _. done.
  - intros r s' (E & HR & U' & HA'). split_and!; [done|done|done|]. congruence.
Qed.
(** ** The second stage *)

(** The client sent, for each share, data with its fingerprint. *)
Definition authentic (data : bytes) (sel : list ShareMD) : Prop :=
  forall x e y, sel = x ++ e :: y ->
    digest (take (sm_size e) (drop (Z.to_nat (totalSize x)) data)) = sm_fp e.

Definition validName (f : FileMD) : Prop := is_Some (formatFullFileName_ (fm_name f)).

(** [A'] counts the shares [sel] once more for the user than [A]. *)
Definition counted (uid : Z) (A A' : Index) (sel : list ShareMD) : Prop :=
  forall u fp, refsOf u (refs A' fp)
    = refsOf u (refs A fp) + (if decide (u = uid) then occurrences fp sel else 0).

Lemma counted_snoc uid A A' A'' sel e :
  counted uid A A' sel -> referenced A' A'' (sm_fp e) uid -> counted uid A A'' (sel ++ [e]).
Proof.
  intros HC HR u fp. rewrite (referenced_counts _ _ _ _ _ _ HR), HC, occurrences_app, occurrences_one.
  destruct (decide (u = uid)) as [->|].
  - destruct (decide (sm_fp e = fp)) as [<-|]; [rewrite !decide_True by done; lia|].
    rewrite (decide_False (P := uid = uid /\ fp = sm_fp e)) by (intros [_ E]; congruence). lia.
  - rewrite decide_False by tauto. lia.
Qed.

Section Second.
Context (uid : Z) (A : Index) (s0 : minDedupCore W) (l1 : nodeList) (a : positive) (l2 : nodeList)
        (b B : Z) (stat : list bool) (md data : bytes) (crypto : CryptoPrimitive)
        {HOK : HashOk crypto FP_SIZE digest} (shares : list ShareMD) (fs : list FileMD).
Hypothesis uid_int : int32 uid.
Hypothesis md_int : Z.of_nat (length md) < 2 ^ 31.
Hypothesis data_int : Z.of_nat (length data) < 2 ^ 31.
Hypothesis budget : B <= 2 ^ 27.
Hypothesis data_enough : totalSize (selected stat shares) <= Z.of_nat (length data).
Hypothesis sizes_good : Forall (fun e => goodSize (Z.of_nat (sm_size e))) (selected stat shares).

(** The state after the shares [p]. *)
Definition secondI (p : list ShareMD) (st : SecondLocals) s : Prop :=
  exists off A' n k, st = (off, totalSize (selected stat p), length p) /\
    unlocked s /\ shareContainerDirName_ s = shareContainerDirName_ s0 /\
    sent (view (world s)) = sent (view (world s0)) /\
    otherFiles (shareContainerDirName_ s0) (files (view (world s0))) (files (view (world s))) /\
    otherKeys (contents (view (world s0))) (contents (view (world s))) /\ userID n = uid /\
    Inv A' s (l1 ++ (a, n) :: l2) k (b + Z.of_nat (length p)) /\
    (ReliableWorld W -> counted uid A A' (selected stat p)).

(** The outcome of a run that an error ends. *)
Definition secondFail (ok : bool) s : Prop :=
  ok = false /\ unlocked s /\ shareContainerDirName_ s = shareContainerDirName_ s0 /\
  sent (view (world s)) = sent (view (world s0)) /\
  (exists A' l k, Inv A' s l k B) /\
  ~ (ReliableWorld W /\ authentic data (selected stat shares) /\ Forall validName fs).

Lemma secondShare_spec p e rest pre post st s :
  secondI p st s -> st.1.1 = Z.of_nat (length pre) ->
  shares = (p ++ [e]) ++ rest -> md = pre ++ encodeShare e ++ post -> wfShare e ->
  (length p < length stat)%nat -> b + Z.of_nat (length p) < B ->
  wps (secondShare uid md stat data crypto (Some a) st)
    (fun st s' => secondI (p ++ [e]) st s' /\ st.1.1 = Z.of_nat (length (pre ++ encodeShare e)))
    secondFail s.
Proof.
  intros (off & A' & n & k & -> & U & Ed & Es & Of & Ok' & Hun & HI & HC) Eoff Esh Emd We Hst HB.
  cbn in Eoff. subst off. unfold secondShare. wstep.
  assert (length md = length pre + 44 + length post)%nat as Hlen.
  { rewrite Emd, !length_app, length_encodeShare by done. unfold shareMDEntrySize_. lia. }
  eapply wps_lift; [by eapply read_fp|]. wstep.
  eapply wps_lift; [apply sint_ok; unfold shareMDEntrySize_; lia|]. wstep.
  destruct (lookup_lt_is_Some_2 stat (length p)) as [d Hd]; [done|].
  eapply wps_lift; [by apply aget_ok|].
  pose proof (selected_snoc stat p e d Hd) as Esel.
  destruct (selected_prefix stat (p ++ [e]) rest) as [tl Etl]. rewrite <- Esh, Esel in Etl.
  assert (Z.of_nat (length pre) + Z.of_nat shareMDEntrySize_
          = Z.of_nat (length (pre ++ encodeShare e))) as Eoff.
  { rewrite length_app, length_encodeShare by done. lia. }
  assert (length (p ++ [e]) = S (length p)) as Hpe by (rewrite length_app; cbn; lia).
  rewrite Eoff. destruct d.
  { wstep. split; [|done]. rewrite app_nil_r in Esel.
    exists (Z.of_nat (length (pre ++ encodeShare e))), A', n, k.
    rewrite Esel, Hpe. split_and!; try done.
    eapply Inv_budget; [done|lia]. }
  pose proof data_enough as Hde. rewrite Etl, !totalSize_app in Hde.
  pose proof (totalSize_nonneg (selected stat p)). pose proof (totalSize_nonneg tl).
  assert (totalSize [e] = Z.of_nat (sm_size e)) as Ete by (unfold totalSize; cbn; lia).
  assert (goodSize (Z.of_nat (sm_size e))) as Hg.
  { pose proof sizes_good as HF. rewrite Etl in HF. apply Forall_app in HF as [HF _].
    apply Forall_app in HF as [_ HF]. by inversion HF. }
  wstep. eapply wps_lift; [by eapply read_shareSize|]. wstep.
  set (doff := Z.to_nat (totalSize (selected stat p))).
  replace (totalSize (selected stat p)) with (Z.of_nat doff) by lia.
  eapply wps_lift.
  { rewrite !sz_ok by lia. cbn [mbind res_bind]. rewrite !Nat2Z.id. rewrite rd_ok by lia. done. }
  wstep. wstep. wstep. eapply wps_lift; [apply hash_generate|]. wstep.
  eapply wps_lift.
  { rewrite <- (app_nil_r (uninit (world s) FP_SIZE)).
    apply wr_front. by rewrite hash_length, uninit_length. }
  rewrite app_nil_r. unfold fpDiffers. set (share := take (sm_size e) (drop doff data)).
  case_bool_decide as Efp.
  { wstep. split_and!; [done|done|done|done| |].
    - exists A', (l1 ++ (a, n) :: l2), k. eapply Inv_budget; [done|lia].
    - intros (_ & Hau & _). apply Efp. symmetry. apply (Hau (selected stat p) e tl).
      by rewrite Etl, <- app_assoc. }
  wstep. rewrite <- Efp. eapply wps_post.
  { eapply (inter_spec digest A' s l1 a n l2 k (b + Z.of_nat (length p)) (sm_fp e) uid (sm_size e) doff);
      try done; [lia|lia]. }
  Unshelve. all: try exact bool.
  intros ok s' (A'' & n' & k' & U' & Ed' & Es' & Of' & Ok'' & Hk' & HI' & Hu' & HA' & HRel).
  destruct ok; cbn [negb].
  - wstep. eapply wps_lift; [apply sint_ok; lia|]. wstep. split; [|done].
    exists (Z.of_nat (length (pre ++ encodeShare e))), A'', n', k'.
    rewrite Esel, totalSize_app, Ete, Hpe. split_and!; try congruence; try done.
    + f_equal. f_equal. lia.
    + rewrite Ed in Of'. by etrans.
    + by etrans.
    + eapply Inv_budget; [done|lia].
    + intros HR. eapply counted_snoc; [by apply HC|]. by apply HRel.
  - wstep. split_and!; [done|done|congruence|congruence| |].
    + exists A'', (l1 ++ (a, n') :: l2), k'. eapply Inv_budget; [done|lia].
    + intros (HR & _). by destruct (HRel HR).
Qed.
(** The shares of one file. *)
Lemma secondShares_spec p f rest pre post st s :
  secondI p st s -> st.1.1 = Z.of_nat (length (pre ++ beforeShares f)) ->
  shares = p ++ fm_shares f ++ rest -> md = pre ++ encodeFile f ++ post -> wfFile f ->
  (length p + length (fm_shares f) <= length stat)%nat ->
  b + Z.of_nat (length p + length (fm_shares f)) <= B ->
  wps (forM (length (fm_shares f)) 0 (fun _ st => secondShare uid md stat data crypto (Some a) st) st)
    (fun st s' => secondI (p ++ fm_shares f) st s' /\ st.1.1 = Z.of_nat (length (pre ++ encodeFile f)))
    secondFail s.
Proof.
  intros HI Eoff Esh Emd Wf Hst HB. set (es := fm_shares f) in *.
  eapply wps_post.
  - eapply (wps_forM (fun i st s => secondI (p ++ take i es) st s /\
      st.1.1 = Z.of_nat (length (pre ++ beforeShares f ++ encodeShares (take i es))))).
    + cbn [take]. rewrite !app_nil_r. done.
    + intros i st' s' Hi [HI' Eo].
      destruct (lookup_lt_is_Some_2 es i) as [e Ee]; [lia|].
      assert (wfShare e) as We.
      { eapply Forall_lookup_1; [apply (wf_shares _ Wf)|exact Ee]. }
      assert (length (take i es) = i) as Hti by (rewrite length_take; lia).
      pose proof (encodeShares_at _ _ _ Ee) as Ese.
      eapply wps_post.
      * eapply (secondShare_spec (p ++ take i es) e (drop (S i) es ++ rest)
                  (pre ++ beforeShares f ++ encodeShares (take i es))
                  (encodeShares (drop (S i) es) ++ post)); try done.
        -- rewrite Esh, <- (take_drop_middle es i e) at 1 by done. by rewrite <- !app_assoc.
        -- rewrite Emd, encodeFile_split. fold es. rewrite Ese. by rewrite <- !app_assoc.
        -- rewrite length_app, Hti. lia.
        -- rewrite length_app, Hti. lia.
      * intros st'' s'' [HI'' Eo']. rewrite (take_snoc es i e Ee), encodeShares_app.
        rewrite <- app_assoc in HI''. split; [done|].
        rewrite Eo', <- !app_assoc. do 5 f_equal. unfold encodeShares. cbn. by rewrite app_nil_r.
  - intros st' s' [HI' Eo]. rewrite take_ge in Eo, HI' by (fold es; lia).
    split; [done|]. by rewrite Eo, encodeFile_split.
Qed.

Lemma secondFiles_spec gs : forall p pre st s fuel slack hs,
  secondI p st s -> st.1.1 = Z.of_nat (length pre) -> fs = hs ++ gs -> Forall wfFile gs ->
  md = pre ++ encodePackage gs ++ slack -> shares = p ++ sharesOf gs ->
  (length gs <= fuel)%nat -> (length shares <= length stat)%nat ->
  b + Z.of_nat (length shares) <= B ->
  wps (secondFiles fuel uid md (Z.of_nat (length (pre ++ encodePackage gs))) stat data crypto (Some a) st)
    (fun st s' => secondI shares st s') secondFail s.
Proof.
  induction gs as [|f gs IH]; intros p pre st s fuel slack hs HI Eoff Efs Hwf Emd Esh Hf Hst HB.
  { rewrite !app_nil_r in *. subst p. destruct st as [[off dOff] num]. cbn in Eoff. subst off.
    destruct fuel; cbn [secondFiles]; rewrite Z.ltb_irrefl; by wstep. }
  apply list.Forall_cons in Hwf as [Wf Hwf]. cbn in Hf. destruct fuel as [|fuel]; [lia|].
  rewrite encodePackage_cons in *. rewrite sharesOf_cons in *.
  pose proof (length_encodeFile f Wf) as Hlf. unfold fileShareMDHeadSize_, shareMDEntrySize_ in Hlf.
  assert (length md = length pre + length (encodeFile f) + length (encodePackage gs) + length slack)%nat
    as Hlen by (rewrite Emd, !length_app; lia).
  assert (length shares = length p + length (fm_shares f) + length (sharesOf gs))%nat
    as Hshl by (rewrite Esh, !length_app; lia).
  destruct st as [[off dOff] num]. cbn in Eoff. subst off.
  cbn [secondFiles]. rewrite (proj2 (Z.ltb_lt _ _)) by (rewrite !length_app; lia).
  rewrite <- app_assoc in Emd.
  wstep. eapply wps_lift; [eapply (read_nameSize md pre); [done|unfold int32; lia]|].
  wstep. eapply wps_lift; [eapply (read_coming md pre); [done|done|unfold int32; lia]|].
  wstep. eapply wps_lift; [apply sint_ok; unfold fileShareMDHeadSize_; lia|].
  wstep. eapply wps_lift; [by eapply (read_name md pre)|].
  wstep. eapply wps_lift; [apply sint_ok; unfold fileShareMDHeadSize_; lia|].
  destruct (formatFullFileName_ (fm_name f)) as [nm|] eqn:Enm.
  - rewrite Nat2Z.id. wstep. eapply wps_post.
    { eapply (secondShares_spec p f (sharesOf gs) pre); [ | |done|done|done|lia|lia].
      - destruct HI as (o & A' & n & k & E & HI). simplify_eq.
        exists (Z.of_nat (length pre) + Z.of_nat fileShareMDHeadSize_ + Z.of_nat (length (fm_name f))), A', n, k.
        by split.
      - cbn. rewrite length_app, length_beforeShares by done. lia. }
    intros st' s' [HI' Eo]. rewrite app_assoc.
    eapply (IH (p ++ fm_shares f) (pre ++ encodeFile f) st' s' fuel slack (hs ++ [f])); try done.
    + by rewrite <- app_assoc.
    + by rewrite <- app_assoc.
    + by rewrite <- app_assoc.
    + lia.
  - wstep. destruct HI as (o & A' & n & k & E & U & Ed & Es & _ & _ & _ & HI & HC). split_and!; try done.
    + exists A', (l1 ++ (a, n) :: l2), k. eapply Inv_budget; [done|lia].
    + intros (_ & _ & HV). rewrite Efs in HV. apply Forall_app in HV as [_ HV].
      inversion HV as [|? ? HVf]; subst. unfold validName in HVf. rewrite Enm in HVf. by destruct HVf.
Qed.
End Second.

(** The second stage as a whole.  File writes must not fail, database
    operations may; on every path the invariant holds again. *)
Lemma secondStage_spec {ret} {DK : DiskOk W} uid A s l k b (fs : list FileMD) slack stat data crypto fuel
    {HOK : HashOk crypto FP_SIZE digest} (Q : ret -> minDedupCore W -> Prop) :
  let shares := sharesOf fs in
  let n := length shares in
  let sel := selected stat shares in
  int32 uid -> Z.of_nat (length (encodePackage fs ++ slack)) < 2 ^ 31 ->
  Z.of_nat (length data) < 2 ^ 31 ->
  unlocked s -> Inv A s l k b -> Forall wfFile fs -> (length fs <= fuel)%nat ->
  (n <= length stat)%nat -> b + 1 + Z.of_nat n <= 2 ^ 27 ->
  totalSize sel <= Z.of_nat (length data) -> Forall (fun e => goodSize (Z.of_nat (sm_size e))) sel ->
  wps (secondStageDedup fuel uid (encodePackage fs ++ slack) (Z.of_nat (length (encodePackage fs)))
         stat data (Some crypto))
    (fun ok s' => unlocked s' /\ shareContainerDirName_ s' = shareContainerDirName_ s /\
       sent (view (world s')) = sent (view (world s)) /\
       (exists A' l' k', Inv A' s' l' k' (b + 1 + Z.of_nat n) /\
          (ok = true -> ReliableWorld W -> counted uid A A' sel)) /\
       (ok = false -> ~ (ReliableWorld W /\ authentic data sel /\ Forall validName fs))) Q s.
Proof.
  intros shares n sel Hu Hlen Hdl U HI Hwf Hf Hst HB Hde Hsz.
  unfold secondStageDedup. wstep. wstep.
  assert (k < 26 ^ 12 - 1) as Hk by (destruct HI; lia).
  eapply wps_post; [by eapply (findOrCreate_spec digest A)|].
  intros r s1 (l1 & a & nd & l2 & k' & -> & F & Hk' & HI1 & Hun).
  assert (unlocked s1) as U1.
  { destruct U as (? & ? & ?), F. unfold unlocked. split_and!; congruence. }
  wstep. eapply wps_mono.
  - eapply (secondFiles_spec uid A s1 l1 a l2 (b + 1) (b + 1 + Z.of_nat n) stat _ data crypto shares fs
              Hu Hlen Hdl HB Hde Hsz fs [] [] _ _ fuel slack []); try done.
    exists 0, A, nd, k'. split; [cbn; by rewrite (take_0 stat) || by destruct stat|].
    split; [done|]. do 2 (split; [done|]). do 2 (split; [reflexivity|]). split; [done|]. split.
    + cbn [length]. by rewrite Z.add_0_r.
    + intros _ u fp. assert (selected stat [] = []) as -> by (by destruct stat).
      unfold occurrences. rewrite filter_nil. cbn. case_decide; lia.
  - intros st s' (off & A' & n' & k'' & -> & U' & Ed & Es & _ & _ & _ & HI' & HC). wstep.
    destruct F as [F1 F2 F3 F4 F5 F6 F7]. split_and!; [done|congruence|congruence| |done]. exists A', (l1 ++ (a, n') :: l2), k''. by split.
  - intros ok s' (-> & U' & Ed & Es & (A' & l' & k'' & HI') & HN).
    destruct F as [F1 F2 F3 F4 F5 F6 F7]. split_and!; [done|congruence|congruence| |done]. exists A', l', k''. by split.
Qed.
End Upload.
