(* ===== verification/MinRestoreProof.v ===== *)
(** * Restoring shares

    restoreShareFile on a recipe whose shares are indexed: the messages it sends
    carry, in order, the head of the share file and for each recipe entry the
    bytes of its share; the cache only ever holds true copies of containers. *)

From stdpp Require Import base list numbers gmap.
From coqutil Require Import Byte.
From Stdlib Require Import Lia.
From S2P Require Import Prelude Structs FileNames World CryptoPrimitive MinDedupCore MinRestore ShareIndex MinInvariant MinNodes MinIndex.

Local Open Scope Z_scope.

(** ** Recipes *)

(** [fileRecipeEntry_t] *)
Record RecipeEntry := { re_fp : bytes; re_secretID : Z; re_secretSize : Z }.

Definition encodeEntry (e : RecipeEntry) : bytes :=
  re_fp e ++ le32 (re_secretID e) ++ le32 (re_secretSize e).

(** A recipe file: [fileRecipeHead_t] (with its padding) and the entries. *)
Record Recipe := {
  rc_user : Z;
  rc_pad1 : bytes;
  rc_fileSize : Z;
  rc_pad2 : bytes;
  rc_entries : list RecipeEntry;
}.

Definition encodeHead (r : Recipe) : bytes :=
  le32 (rc_user r) ++ rc_pad1 r ++ le64 (rc_fileSize r)
  ++ le32 (Z.of_nat (length (rc_entries r))) ++ rc_pad2 r.
Definition encodeEntries (l : list RecipeEntry) : bytes := mjoin (encodeEntry <$> l).
Definition encodeRecipe (r : Recipe) : bytes := encodeHead r ++ encodeEntries (rc_entries r).

Definition wfEntry (e : RecipeEntry) : Prop :=
  length (re_fp e) = FP_SIZE /\ int32 (re_secretID e) /\ int32 (re_secretSize e).

Record wfRecipe (r : Recipe) : Prop := {
  wfr_pad1 : length (rc_pad1 r) = 4%nat;
  wfr_pad2 : length (rc_pad2 r) = 4%nat;
  wfr_size : int64 (rc_fileSize r);
  wfr_count : int32 (Z.of_nat (length (rc_entries r)));
  wfr_entries : Forall wfEntry (rc_entries r);
}.

(** [shareEntry_t] and the data of a share *)
Definition encodeRestored (secretID secretSize : Z) (share : bytes) : bytes :=
  le32 secretID ++ le32 secretSize ++ le32 (Z.of_nat (length share)) ++ share.

Definition restoredPieces (l : list RecipeEntry) (shares : list bytes) : list bytes :=
  zip_with (fun e share => encodeRestored (re_secretID e) (re_secretSize e) share) l shares.
Definition encodeRestoredAll (l : list RecipeEntry) (shares : list bytes) : bytes := mjoin (restoredPieces l shares).

(** Each of the payloads is made of one or more whole pieces. *)
Definition grouped (pieces payloads : list bytes) : Prop :=
  exists groups : list (list bytes), Forall (fun g => g <> []) groups /\ mjoin groups = pieces /\ payloads = (fun g : list bytes => mjoin g) <$> groups.

Lemma grouped_nil : grouped [] [].
Proof. by exists []. Qed.
Lemma grouped_one pieces : pieces <> [] -> grouped pieces [mjoin pieces].
Proof. intros. exists [pieces]. split_and!; [by constructor|cbn; by rewrite app_nil_r|done]. Qed.
Lemma grouped_app p1 p2 m1 m2 : grouped p1 m1 -> grouped p2 m2 -> grouped (p1 ++ p2) (m1 ++ m2).
Proof.
  intros (g1 & H1 & <- & ->) (g2 & H2 & <- & ->). exists (g1 ++ g2).
  split_and!; [by apply Forall_app|by rewrite join_app|by rewrite fmap_app].
Qed.
Lemma grouped_join pieces payloads : grouped pieces payloads -> mjoin payloads = mjoin pieces.
Proof.
  intros (gs & _ & <- & ->). induction gs as [|g gs IH]; [done|]. cbn [fmap list_fmap].
  change (mjoin (mjoin g :: ((fun g : list bytes => mjoin g) <$> gs))) with (mjoin g ++ mjoin ((fun g : list bytes => mjoin g) <$> gs)).
  change (mjoin (g :: gs)) with (g ++ mjoin gs). by rewrite join_app, IH.
Qed.

Lemma restoredPieces_last hd es shs past last :
  hd <> [] -> hd :: restoredPieces es shs = past ++ last -> last <> [] -> mjoin last <> [].
Proof.
  intros Hh E Hl. assert (Forall (fun x => x <> []) last) as HF.
  { assert (Forall (fun x => x <> []) (hd :: restoredPieces es shs)) as HF; [|rewrite E in HF; by apply Forall_app in HF as [_ ?]].
    constructor; [done|]. unfold restoredPieces. apply Forall_forall. intros x Hx. apply elem_of_lookup_zip_with in Hx as (? & ? & ? & -> & _ & _).
    intros E0. apply (f_equal length) in E0. unfold encodeRestored in E0. rewrite length_app, length_le32 in E0. done. }
  destruct HF as [|x l Hx _]; [done|]. change (mjoin (x :: l)) with (x ++ mjoin l). by destruct x.
Qed.

Lemma length_encodeEntry e : wfEntry e -> length (encodeEntry e) = fileRecipeEntrySize_.
Proof. intros (Hf & _). unfold encodeEntry. rewrite !length_app, !length_le32, Hf. done. Qed.

Lemma encodeEntries_app l1 l2 : encodeEntries (l1 ++ l2) = encodeEntries l1 ++ encodeEntries l2.
Proof. unfold encodeEntries. by rewrite fmap_app, join_app. Qed.

Lemma encodeEntries_at l i e :
  l !! i = Some e ->
  encodeEntries l = encodeEntries (take i l) ++ encodeEntry e ++ encodeEntries (drop (S i) l).
Proof.
  intros E. rewrite <- (take_drop_middle l i e) at 1 by done. by rewrite encodeEntries_app.
Qed.

Lemma length_encodeHead r : wfRecipe r -> length (encodeHead r) = fileRecipeHeadSize_.
Proof.
  intros [H1 H2 _ _ _]. unfold encodeHead. rewrite !length_app, !length_le32, length_le64, H1, H2. done.
Qed.

(** ** The index of the cache *)

Lemma shiftIndex_spec {R} j (l : list nat) :
  (j < length l)%nat ->
  exists l', shiftIndex (R := R) j l = Ok l' /\ length l' = length l /\
    (forall k, (k < j)%nat -> l' !! S k = l !! k) /\
    (forall k, (j < k)%nat -> l' !! k = l !! k).
Proof.
  intros Hj. unfold shiftIndex.
  destruct (forDown_inv (R := R) (fun hi l' => length l' = length l /\
      (forall k, (hi <= k < j)%nat -> l' !! S k = l !! k) /\
      (forall k, (k <= hi)%nat -> l' !! k = l !! k) /\
      (forall k, (j < k)%nat -> l' !! k = l !! k)) j
      (fun k index => i ← aget index k; aset index (S k) i) l) as (l' & E & Hl & H1 & _ & H2).
  - split_and!; [done|lia|done|done].
  - intros i l' Hi (Hl & H1 & H2 & H3).
    destruct (lookup_lt_is_Some_2 l' i) as [x Hx]; [lia|].
    rewrite (aget_ok _ _ x) by done. cbn [mbind res_bind]. rewrite aset_ok by lia.
    eexists. split; [done|]. rewrite length_insert. split; [done|]. split_and!.
    + intros k Hk. destruct (decide (k = i)) as [->|].
      * rewrite list_lookup_insert_eq by lia. rewrite <- Hx. apply H2. lia.
      * rewrite list_lookup_insert_ne by lia. apply H1. lia.
    + intros k Hk. rewrite list_lookup_insert_ne by lia. apply H2. lia.
    + intros k Hk. rewrite list_lookup_insert_ne by lia. by apply H3.
  - exists l'. split_and!; [done|done|intros; apply H1; lia|done].
Qed.

(** Putting [x] in front of the first [j] entries, over entry [j]. *)
Lemma front_spec {R} j x (l : list nat) :
  (j < length l)%nat ->
  exists l', (index ← shiftIndex (R := R) j l; aset index 0 x) = Ok l' /\ length l' = length l /\
    l' !! 0%nat = Some x /\
    (forall k, (k < j)%nat -> l' !! S k = l !! k) /\
    (forall k, (j < k)%nat -> l' !! k = l !! k).
Proof.
  intros Hj. destruct (shiftIndex_spec (R := R) j l Hj) as (l' & -> & Hl & H1 & H2).
  cbn [mbind res_bind]. rewrite aset_ok by lia. eexists. split; [done|].
  rewrite length_insert. split; [done|]. split; [apply list_lookup_insert_eq; lia|].
  split; intros k Hk.
  - rewrite list_lookup_insert_ne by lia. by apply H1.
  - rewrite list_lookup_insert_ne by lia. by apply H2.
Qed.

Section Restore.
Context {W : Type} {WW : World W} {WL : WorldLaws W} {LM : Limits} {LOK : LimitsOk}
        (digest : bytes -> bytes).
Implicit Types s : minDedupCore W.

Abbreviation Inv := (Inv digest).

(** ** The cache *)

(** [e] is a true copy of the container it is named after. *)
Definition trueCopy (Cf : bytes -> option bytes) (e : cacheNode) : Prop :=
  exists i name c, cachedName e = name ++ [Byte.x00] /\ isContainerName i name /\
    Cf name = Some c /\ take CONTAINER_BUFFER_SIZE c `prefix_of` cachedContainer e.

Record cacheOk (Cf : bytes -> option bytes) (c : cacheState) : Prop := {
  co_nodes : length (cacheNodes c) = NUM_OF_CACHED_CONTAINERS;
  co_index : length (cacheIndex c) = NUM_OF_CACHED_CONTAINERS;
  co_num : (numCached c <= NUM_OF_CACHED_CONTAINERS)%nat;
  co_size : Forall (fun e => length (cachedContainer e) = CONTAINER_BUFFER_SIZE) (cacheNodes c);
  co_slots : Forall (fun i => i < NUM_OF_CACHED_CONTAINERS)%nat (cacheIndex c);
  co_copies : forall j i, (j < numCached c)%nat -> cacheIndex c !! j = Some i ->
    exists e, cacheNodes c !! i = Some e /\ trueCopy Cf e;
}.

(** The first entry of the cache is a true copy of the container [name]. *)
Definition cached (Cf : bytes -> option bytes) (c : cacheState) (name : bytes) : Prop :=
  exists i e, cacheIndex c !! 0%nat = Some i /\ cacheNodes c !! i = Some e /\
    cachedName e = name ++ [Byte.x00] /\ trueCopy Cf e.

Lemma cacheFind_spec {R} Cf c name i n : forall j,
  cacheOk Cf c -> isContainerName i name -> (j + n = numCached c)%nat ->
  exists j', cacheFind (R := R) n j c (name ++ [Byte.x00]) = Ok j' /\ (j <= j' <= numCached c)%nat /\
    ((j' < numCached c)%nat -> exists x e, cacheIndex c !! j' = Some x /\ cacheNodes c !! x = Some e /\
       cachedName e = name ++ [Byte.x00]).
Proof.
  induction n as [|n IH]; intros j Hc Hi Hj; cbn [cacheFind].
  { exists j. split_and!; [done|lia|lia|lia]. }
  pose proof (co_num _ _ Hc). pose proof (co_index _ _ Hc).
  destruct (lookup_lt_is_Some_2 (cacheIndex c) j) as [x Hx]; [lia|].
  destruct (co_copies _ _ Hc j x) as (e & He & (i' & nm & cc & En & Hn & _)); [lia|done|].
  rewrite (aget_ok _ _ x), bind_ok, (aget_ok _ _ e), bind_ok by done. unfold strcmpEq.
  rewrite En, (containerName_cstr i name []), bind_ok, (containerName_cstr i' nm []), bind_ok by done.
  rewrite bind_ok. case_bool_decide as E.
  - exists j. split_and!; [done|lia|lia|]. intros _. exists x, e. subst. done.
  - destruct (IH (S j) Hc Hi ltac:(lia)) as (j' & -> & Hj' & HF). exists j'. split_and!; [done|lia|lia|done].
Qed.

(** The slots and copies of a new index that is a rearrangement of the old. *)
Lemma cacheOk_index Cf c index m :
  cacheOk Cf c -> length index = NUM_OF_CACHED_CONTAINERS -> (m <= NUM_OF_CACHED_CONTAINERS)%nat ->
  Forall (fun i => i < NUM_OF_CACHED_CONTAINERS)%nat index ->
  (forall j i, (j < m)%nat -> index !! j = Some i ->
     exists e, cacheNodes c !! i = Some e /\ trueCopy Cf e) ->
  cacheOk Cf {| cacheNodes := cacheNodes c; cacheIndex := index; numCached := m |}.
Proof. by intros [] ? ? ? ?. Qed.

Lemma hit_spec {R} Cf c j x e name :
  cacheOk Cf c -> (j < numCached c)%nat -> cacheIndex c !! j = Some x -> cacheNodes c !! x = Some e ->
  cachedName e = name ++ [Byte.x00] ->
  exists index, (if (0 <? j)%nat then moveToFront (R := R) j (cacheIndex c) else Ok (cacheIndex c)) = Ok index /\
    let c' := {| cacheNodes := cacheNodes c; cacheIndex := index; numCached := numCached c |} in
    cacheOk Cf c' /\ cached Cf c' name.
Proof.
  intros Hc Hj Hx He En. pose proof Hc as [H1 H2 H3 H4 H5 H6].
  destruct (H6 j x Hj Hx) as (e' & He' & Ht). rewrite He in He'. simplify_eq.
  destruct (Nat.ltb_spec 0 j) as [Hp|Hz].
  - unfold moveToFront. rewrite (aget_ok _ _ x), bind_ok by done.
    destruct (front_spec (R := R) j x (cacheIndex c)) as (l' & -> & Hl & F0 & F1 & F2); [lia|].
    exists l'. split; [done|]. cbn. split; [|by exists x, e'].
    assert (forall k i, l' !! k = Some i -> k = 0%nat /\ i = x \/
       exists k', cacheIndex c !! k' = Some i /\ (k < numCached c -> k' < numCached c)%nat) as Hold.
    { intros k i Hk. destruct k as [|k]; [left; split; congruence|right].
      destruct (decide (k < j)%nat); [exists k; rewrite <- F1 by done; split; [done|lia]|].
      destruct (decide (k = j)) as [->|]; [|exists (S k); rewrite <- F2 by lia; done].
      exists (S j). rewrite <- F2 by lia. done. }
    apply cacheOk_index; [done|lia|done| |].
    + apply Forall_lookup_2. intros k i Hk. destruct (Hold k i Hk) as [[_ ->]|(k' & Hk' & _)].
      * by apply (Forall_lookup_1 _ _ _ _ H5 Hx).
      * by apply (Forall_lookup_1 _ _ _ _ H5 Hk').
    + intros k i Hlt Hk. destruct (Hold k i Hk) as [[_ ->]|(k' & Hk' & Hlt')]; [by exists e'|].
      apply (H6 k' i); auto.
  - assert (j = 0)%nat as -> by lia. eexists. split; [done|]. cbn. split.
    + by destruct c.
    + by exists x, e'.
Qed.
(** The evicted slot comes first; after it only true copies. *)
Lemma evict_spec {R} Cf c :
  cacheOk Cf c ->
  exists c' i e, evict (R := R) c = Ok c' /\ cacheNodes c' = cacheNodes c /\
    cacheIndex c' !! 0%nat = Some i /\ cacheNodes c !! i = Some e /\
    length (cachedContainer e) = CONTAINER_BUFFER_SIZE /\
    forall e', length (cachedContainer e') = CONTAINER_BUFFER_SIZE -> trueCopy Cf e' ->
      cacheOk Cf {| cacheNodes := <[i := e']> (cacheNodes c); cacheIndex := cacheIndex c';
                    numCached := numCached c' |}.
Proof.
  intros Hc. pose proof Hc as [H1 H2 H3 H4 H5 H6]. pose proof lim_cached as Hnum.
  assert (forall i index m, (i < NUM_OF_CACHED_CONTAINERS)%nat ->
    length index = NUM_OF_CACHED_CONTAINERS -> (m <= NUM_OF_CACHED_CONTAINERS)%nat ->
    (forall k x, index !! k = Some x -> x = i \/
       exists k', cacheIndex c !! k' = Some x /\ (k < m -> k' < numCached c)%nat) ->
    forall e', length (cachedContainer e') = CONTAINER_BUFFER_SIZE -> trueCopy Cf e' ->
    cacheOk Cf {| cacheNodes := <[i := e']> (cacheNodes c); cacheIndex := index; numCached := m |})
    as Hput.
  { intros i index m Hi Hl Hm Hold e' Hle Ht. split; cbn.
    - by rewrite length_insert.
    - done.
    - done.
    - by apply Forall_insert.
    - apply Forall_lookup_2. intros k x Hk. destruct (Hold k x Hk) as [->|(k' & Hk' & _)]; [done|].
      by apply (Forall_lookup_1 _ _ _ _ H5 Hk').
    - intros k x Hlt Hk. destruct (decide (x = i)) as [->|Hne].
      + exists e'. split; [|done]. apply list_lookup_insert_eq. lia.
      + destruct (Hold k x Hk) as [->|(k' & Hk' & Hlt')]; [done|].
        destruct (H6 k' x) as (e & He & Hte); [auto|done|]. exists e. split; [|done].
        by rewrite list_lookup_insert_ne. }
  unfold evict. destruct (Nat.ltb_spec (numCached c) NUM_OF_CACHED_CONTAINERS) as [Hlt|Hge].
  - destruct (lookup_lt_is_Some_2 (cacheNodes c) (numCached c)) as [e He]; [lia|].
    destruct (front_spec (R := R) (numCached c) (numCached c) (cacheIndex c))
      as (l' & E & Hl & F0 & F1 & F2); [lia|].
    exists {| cacheNodes := cacheNodes c; cacheIndex := l'; numCached := S (numCached c) |}, (numCached c), e.
    split_and!; [|done|done|done|by apply (Forall_lookup_1 _ _ _ _ H4 He)|].
    { destruct (shiftIndex (numCached c) (cacheIndex c)) as [x| | | |]; cbn in E |- *; try done.
      by rewrite E. }
    cbn. apply Hput; [done|lia|lia|]. intros k x Hk. destruct k as [|k]; [left; congruence|].
    right. destruct (decide (k < numCached c)%nat).
    + exists k. rewrite <- F1 by done. by split.
    + exists (S k). destruct (decide (k = numCached c)) as [->|].
      * rewrite <- F2 by lia. split; [done|lia].
      * rewrite <- F2 by lia. split; [done|lia].
  - destruct (lookup_lt_is_Some_2 (cacheIndex c) (NUM_OF_CACHED_CONTAINERS - 1)) as [i Hi]; [lia|].
    pose proof (Forall_lookup_1 _ _ _ _ H5 Hi) as Hil. cbn in Hil.
    destruct (lookup_lt_is_Some_2 (cacheNodes c) i) as [e He]; [lia|].
    destruct (front_spec (R := R) (NUM_OF_CACHED_CONTAINERS - 1) i (cacheIndex c))
      as (l' & E & Hl & F0 & F1 & F2); [lia|].
    exists {| cacheNodes := cacheNodes c; cacheIndex := l'; numCached := numCached c |}, i, e.
    split_and!; [|done|done|done|by apply (Forall_lookup_1 _ _ _ _ H4 He)|].
    { unfold moveToFront. rewrite (aget_ok _ _ i), bind_ok by done. by rewrite E. }
    cbn. apply Hput; [done|lia|lia|]. intros k x Hk. destruct k as [|k]; [left; congruence|].
    pose proof (lookup_lt_Some _ _ _ Hk). right. exists k. rewrite <- F1 by lia. split; [done|lia].
Qed.

(** ** Fetching a container *)

Abbreviation Cof s l := (containerOf l (shareContainerDirName_ s) (files (view (world s)))).

Context {REL : ReliableWorld W}.

Lemma fetch_spec A s l k b name i c dst (Q : bool -> minDedupCore W -> Prop) :
  bufferLock_ s = false -> Inv A s l k b -> isContainerName i name ->
  Cof s l name = Some c -> c <> [] -> length dst = CONTAINER_BUFFER_SIZE ->
  wps (fetchContainer (name ++ [Byte.x00]) dst) (fun d s' => s' = s /\
    length d = CONTAINER_BUFFER_SIZE /\ take CONTAINER_BUFFER_SIZE c `prefix_of` d) Q s.
Proof.
  intros U HI Hi HC Hne Hd. pose proof lim_container as HL. unfold fetchContainer. wstep.
  eapply wps_post; [by eapply (readFromBuffer_spec digest A s l k b); [..|exists i|]|].
  intros [found d] s' [-> HR]. cbn [fst snd] in HR. destruct found.
  - destruct HR as (c' & HC' & Hp & Hl). rewrite HC in HC'. simplify_eq. wstep. split_and!; [done|done|].
    etrans; [|exact Hp]. apply prefix_take.
  - destruct HR as [-> HF]. rewrite HC in HF. symmetry in HF.
    wstep. eapply wps_lift; [by eapply containerName_cstr|]. wstep. wstep.
    rewrite (containerName_prefix i) by done.
    set (path := shareContainerDirName_ s ++ name) in *. wstep. wstep.
    rewrite fopen_rb_reliable by (by eexists). cbn [negb]. wstep. wstep.
    rewrite fread_reliable, HF. cbn [default drop].
    assert (take CONTAINER_BUFFER_SIZE c <> []) as Hne'.
    { destruct c; [done|]. destruct CONTAINER_BUFFER_SIZE eqn:E; [lia|done]. }
    wcase E; [done|]. eapply wps_lift.
    { apply (wr_next [] dst 0); [done|]. rewrite length_take. lia. }
    split; [done|]. split.
    + cbn [app]. rewrite length_app, length_drop, length_take. lia.
    + by eexists.
Qed.

(** After cacheContainer the container is in front. *)
Lemma cacheContainer_spec A s l k b name i cc c (Q : bool -> minDedupCore W -> Prop) :
  bufferLock_ s = false -> Inv A s l k b -> isContainerName i name ->
  Cof s l name = Some cc -> cc <> [] -> cacheOk (Cof s l) c ->
  wps (cacheContainer (name ++ [Byte.x00]) c) (fun c' s' => s' = s /\
    cacheOk (Cof s l) c' /\ cached (Cof s l) c' name) Q s.
Proof.
  intros U HI Hi HC Hne Hc. unfold cacheContainer. wstep.
  destruct (cacheFind_spec (R := bool * minDedupCore W) _ c name i (numCached c) 0 Hc Hi eq_refl)
    as (j & Ej & Hj & HF).
  eapply wps_lift; [exact Ej|]. destruct (Nat.ltb_spec j (numCached c)) as [Hlt|Hge].
  - destruct (HF Hlt) as (x & e & Hx & He & En). wstep.
    destruct (hit_spec (R := bool * minDedupCore W) _ c j x e name Hc Hlt Hx He En)
      as (index & E & Hc' & Hcd).
    eapply wps_lift; [exact E|]. wstep. done.
  - destruct (evict_spec (R := bool * minDedupCore W) _ c Hc) as (c' & x & e & E & En & Hx & He & Hle & Hput).
    wstep. eapply wps_lift; [exact E|]. wstep. eapply wps_lift; [by apply aget_ok|].
    wstep. eapply wps_lift; [rewrite En; by apply aget_ok|]. wstep.
    eapply wps_post; [by eapply (fetch_spec A s l k b name i cc)|].
    intros d s' (-> & Hld & Hp). wstep.
    eapply wps_lift.
    { rewrite En. apply aset_ok. by eapply lookup_lt_Some. }
    wstep. set (e' := {| cachedName := name ++ [Byte.x00]; cachedContainer := d |}).
    assert (trueCopy (Cof s l) e') as Ht by (by exists i, name, cc).
    split; [done|]. split; [by apply Hput|].
    exists x, e'. split_and!; [done| |done|done]. cbn. apply list_lookup_insert_eq.
    by eapply lookup_lt_Some.
Qed.

(** The bytes of a share in a true copy. *)
Lemma cached_slice A s l k b c fp info :
  Inv A s l k b -> A fp = Some info -> cached (Cof s l) c (si_name info) ->
  exists i e, cacheIndex c !! 0%nat = Some i /\ cacheNodes c !! i = Some e /\
    (si_off info + si_size info <= length (cachedContainer e))%nat /\
    digest (take (si_size info) (drop (si_off info) (cachedContainer e))) = fp.
Proof.
  intros HI HA (i & e & Hi & He & En & (j & nm & c0 & En' & Hn & HC & [r Er])).
  destruct (Inv_stored _ _ _ _ _ _ _ _ HI HA) as [_ _ Hf _ (c1 & HC1 & Hl & Hd)].
  rewrite En in En'. apply app_inj_tail in En' as [<- _]. rewrite HC in HC1. simplify_eq.
  exists i, e. split_and!; [done|done| |].
  - rewrite Er, length_app, length_take. lia.
  - rewrite Er, drop_app_le, take_app_le by (rewrite ?length_drop, length_take; lia).
    by rewrite skipn_firstn_comm, take_take, Nat.min_l by lia.
Qed.
(** ** Messages *)

(** The object after sending [msgs]: only what was sent has changed. *)
Definition sendsTo s s' (msgs : list bytes) : Prop :=
  exists w, s' = set_world s w /\ contents (view w) = contents (view (world s)) /\
    files (view w) = files (view (world s)) /\ sent (view w) = sent (view (world s)) ++ msgs.

Lemma sendsTo_nil s : sendsTo s s [].
Proof. exists (world s). rewrite app_nil_r. by destruct s. Qed.

Lemma sendsTo_trans s1 s2 s3 m1 m2 :
  sendsTo s1 s2 m1 -> sendsTo s2 s3 m2 -> sendsTo s1 s3 (m1 ++ m2).
Proof.
  intros (w1 & -> & C1 & F1 & S1) (w2 & -> & C2 & F2 & S2). exists w2. cbn in *.
  split_and!; [done|congruence|congruence|]. by rewrite S2, S1, app_assoc.
Qed.

Lemma sendsTo_Inv A s s' m l k b :
  sendsTo s s' m -> Inv A s l k b -> unlocked s ->
  Inv A s' l k b /\ unlocked s' /\ Cof s' l = Cof s l.
Proof.
  intros (w & -> & E1 & E2 & _) [] U. split; [|split; [done|cbn; by rewrite E2]].
  split; cbn [world set_world heap headBufferNode_ tailBufferNode_ globalShareContainerName_
    shareContainerDirName_]; rewrite ?E1, ?E2; done.
Qed.

(** A message of the protocol: the code -5, the size, the payload. *)
Definition message (payload : bytes) : bytes :=
  htonl (-5) ++ htonl (Z.of_nat (length payload)) ++ payload.

(** The share file buffer holds [payload] behind its message head. *)
Definition bufferHolds (buf payload : bytes) : Prop :=
  exists hd rest, length hd = sentMsgHeadSize /\ buf = hd ++ payload ++ rest /\
    length buf = sentShareFileBufferSize.

Lemma bufferHolds_append {R} buf payload src off :
  bufferHolds buf payload -> off = (sentMsgHeadSize + length payload)%nat ->
  (off + length src <= sentShareFileBufferSize)%nat ->
  exists buf', wr (R := R) buf off src = Ok buf' /\ bufferHolds buf' (payload ++ src).
Proof.
  intros (hd & rest & Hh & -> & Hl) -> Hfit. rewrite app_assoc in *. rewrite !length_app in Hl.
  rewrite wr_next by (rewrite ?length_app; lia). eexists. split; [done|].
  exists hd, (drop (length src) rest). split; [done|]. split; [by rewrite <- !app_assoc|].
  rewrite !length_app, length_drop. lia.
Qed.

Lemma bufferHolds_bound buf payload :
  bufferHolds buf payload -> (length payload <= SHARE_FILE_BUFFER_SIZE)%nat.
Proof.
  intros (hd & rest & Hh & -> & Hl). rewrite !length_app in Hl. unfold sentShareFileBufferSize in Hl. lia.
Qed.

Lemma sendBuffer_spec s buf payload off (Q : bool -> minDedupCore W -> Prop) :
  bufferHolds buf payload -> off = (sentMsgHeadSize + length payload)%nat ->
  wps (sendBuffer buf off) (fun buf' s' => sendsTo s s' [message payload] /\ bufferHolds buf' []) Q s.
Proof.
  intros (hd & rest & Hh & -> & Hl) ->. unfold sentMsgHeadSize in *. unfold sendBuffer. wstep.
  rewrite <- (take_drop 4 hd), <- app_assoc in *.
  assert (length (take 4 hd) = 4 /\ length (drop 4 hd) = 4)%nat as [H4 H4'].
  { rewrite take_drop in Hh. rewrite length_take, length_drop. lia. }
  eapply wps_lift; [apply wr_front; by rewrite length_htonl|]. wstep.
  eapply wps_lift; [apply wr_mid; by rewrite ?length_htonl|]. wstep.
  replace (Z.of_nat (8 + length payload) - Z.of_nat sentMsgHeadSize) with (Z.of_nat (length payload))
    by (unfold sentMsgHeadSize; lia).
  rewrite !(app_assoc (htonl _)), (app_assoc _ payload), <- (app_assoc (htonl (-5))).
  change (htonl (-5) ++ (htonl (Z.of_nat (length payload)) ++ payload)) with (message payload).
  assert (length (message payload) = 8 + length payload)%nat as Hml
    by (unfold message; rewrite !length_app, !length_htonl; lia).
  eapply wps_lift; [by apply rd_front|]. wstep. apply wps_onWorld. intros n w Ew.
  pose proof (send_reliable (world s) (message payload)) as Hr. rewrite Ew in Hr. cbn in Hr.
  pose proof (send_law _ _ _ _ Ew Hr) as Hv. subst n. rewrite Hml, Z.eqb_refl. cbn [negb]. wstep. split.
  - exists w. by rewrite Hv.
  - exists (htonl (-5) ++ htonl (Z.of_nat (length payload))), (payload ++ rest).
    split; [by rewrite length_app, !length_htonl|]. unfold message. split; [by rewrite <- !app_assoc|].
    rewrite !length_app in Hl. rewrite !length_app, !length_htonl. lia.
Qed.

(** ** One share *)

(** A share that is sent for an entry: its fingerprint and its size are right. *)
Definition restoredShare (A : Index) (e : RecipeEntry) (share : bytes) : Prop :=
  digest share = re_fp e /\ forall i, A (re_fp e) = Some i -> length share = si_size i.

(** The locals while the pieces [out] have been produced, of which those in [sentOut]
    (message by message) were sent and the rest is in the buffer. *)
Definition restoring (Cf : bytes -> option bytes) (l : restoreLocals) (out : list bytes)
    (sentOut : list bytes) : Prop :=
  exists past last, out = past ++ last /\ grouped past sentOut /\ last <> [] /\ bufferHolds (rBuf l) (mjoin last) /\
    rOff l = (sentMsgHeadSize + length (mjoin last))%nat /\ cacheOk Cf (rCache l) /\
    Forall (fun m => length m <= SHARE_FILE_BUFFER_SIZE)%nat sentOut /\
    length (rRecipe l) = RECIPE_BUFFER_SIZE.

Lemma restoreShare_spec A s nl k b fp info loc out sentOut sid ssz pre rest eoff (Q : bool -> minDedupCore W -> Prop) :
  unlocked s -> Inv A s nl k b -> A fp = Some info -> restoring (Cof s nl) loc out sentOut ->
  rRecipe loc = pre ++ fp ++ le32 sid ++ le32 ssz ++ rest -> eoff = length pre ->
  length fp = FP_SIZE -> int32 sid -> int32 ssz ->
  wps (restoreShare (encodeInfo info) eoff loc) (fun loc' s' => exists share sentOut',
    digest share = fp /\ length share = si_size info /\ rPos loc' = rPos loc /\ rRecipe loc' = rRecipe loc /\
    restoring (Cof s nl) loc' (out ++ [encodeRestored sid ssz share]) (sentOut ++ sentOut') /\
    sendsTo s s' (message <$> sentOut')) Q s.
Proof.
  intros U HI HA (past & last & -> & Hgr & Hlast & Hbuf & Hoff & Hc & Hm & Hrl) Erec Heo Hfp Hsid Hssz.
  pose proof (Inv_stored _ _ _ _ _ _ _ _ HI HA) as [(ni & Hn & _) (Hs1 & Hs2 & Hs3) Hfit _ (cc & HC & Hcl & _)].
  pose proof (containerName_length _ _ Hn) as H15. pose proof lim_container. pose proof lim_sharefile_max.
  assert (length fp = 32)%nat as Hfp' by done.
  unfold restoreShare. wstep. eapply wps_lift; [by apply getName|]. wstep.
  eapply wps_lift; [apply getOffset; [done|unfold int32; lia]|]. wstep.
  eapply wps_lift; [apply getSize; [done|unfold int32; lia]|]. wstep.
  eapply wps_post.
  { eapply (cacheContainer_spec A s nl k b (si_name info) ni cc); [apply U|done|done|done| |done].
    intros ->. cbn in Hcl. lia. }
  intros c s' (-> & Hc' & Hcd). wstep.
  destruct (cached_slice A s nl k b c fp info HI HA Hcd) as (i & e & Hi & He & Hle & Hd).
  set (share := take (si_size info) (drop (si_off info) (cachedContainer e))) in *.
  assert (length share = si_size info) as Hsl by (unfold share; rewrite length_take, length_drop; lia).
  (* send what is in the buffer if the share does not fit *)
  eapply (wps_post _ (fun r s' => exists past' last' sentOut',
    last = past' ++ last' /\ grouped past' sentOut' /\ bufferHolds r.1 (mjoin last') /\
    r.2 = (sentMsgHeadSize + length (mjoin last'))%nat /\ sendsTo s s' (message <$> sentOut') /\
    Forall (fun m => length m <= SHARE_FILE_BUFFER_SIZE)%nat sentOut' /\
    (r.2 + shareEntrySize_ + si_size info <= sentShareFileBufferSize)%nat)).
  { destruct (Z.gtb_spec (Z.of_nat (rOff loc + shareEntrySize_) + Z.of_nat (si_size info))
      (Z.of_nat sentShareFileBufferSize)) as [Hbig|Hok].
    - wstep. eapply wps_post; [by eapply (sendBuffer_spec s _ (mjoin last))|].
      intros buf' s' [HS HB]. wstep. exists last, [], [mjoin last].
      split_and!; [by rewrite !app_nil_r|by apply grouped_one|done|done|done| |].
      + apply Forall_singleton. by eapply bufferHolds_bound.
      + cbn [snd]. unfold sentShareFileBufferSize. lia.
    - wstep. exists [], last, []. split_and!; [done|apply grouped_nil|done|done|apply sendsTo_nil|by constructor|].
      cbn [snd]. lia. }
  intros [buf off] s' (past' & last' & sentOut' & -> & Hgr' & HB & Eo & HS & HF & Hroom). cbn [fst snd] in *.
  set (payload' := mjoin last') in *.
  destruct (sendsTo_Inv A s s' _ nl k b HS HI U) as (_ & _ & _).
  assert (getI32 (R := bool * minDedupCore W) (rRecipe loc) (eoff + 32) = Ok sid) as G1.
  { rewrite Erec, (app_assoc pre). eapply getI32_at; [done|by rewrite length_app, Hfp', Heo|done]. }
  assert (getI32 (R := bool * minDedupCore W) (rRecipe loc) (eoff + 36) = Ok ssz) as G2.
  { rewrite Erec, (app_assoc fp), (app_assoc pre).
    eapply getI32_at; [done|rewrite !length_app, length_le32, Hfp', Heo; lia|done]. }
  wstep. eapply wps_lift; [exact G1|]. wstep. eapply wps_lift; [exact G2|]. unfold shareEntrySize_ in *.
  destruct (bufferHolds_append (R := bool * minDedupCore W) buf payload' (le32 sid) off HB Eo)
    as (b1 & E1 & HB1); [rewrite length_le32; lia|].
  destruct (bufferHolds_append (R := bool * minDedupCore W) b1 _ (le32 ssz) (off + 4) HB1)
    as (b2 & E2 & HB2); [rewrite length_app, length_le32; lia|rewrite length_le32; lia|].
  destruct (bufferHolds_append (R := bool * minDedupCore W) b2 _ (le32 (Z.of_nat (si_size info))) (off + 8) HB2)
    as (b3 & E3 & HB3); [rewrite !length_app, !length_le32; lia|rewrite length_le32; lia|].
  destruct (bufferHolds_append (R := bool * minDedupCore W) b3 _ share (off + 12) HB3)
    as (b4 & E4 & HB4); [rewrite !length_app, !length_le32; lia|lia|].
  wstep. eapply wps_lift; [exact E1|]. wstep. eapply wps_lift; [exact E2|].
  wstep. eapply wps_lift; [exact E3|]. wstep. eapply wps_lift; [by apply aget_ok|].
  wstep. eapply wps_lift; [by apply aget_ok|]. wstep. eapply wps_lift; [by apply sz_ok; lia|].
  wstep. eapply wps_lift.
  { rewrite sz_ok by lia. cbn [mbind res_bind]. rewrite !Nat2Z.id. unfold memcpy.
    rewrite rd_ok by lia. cbn [mbind res_bind]. fold share. exact E4. }
  wstep. exists share, sentOut'. do 4 (split; [done|]). split; [|done].
  exists (past ++ past'), (last' ++ [encodeRestored sid ssz share]). cbn [rBuf rOff rCache rRecipe].
  assert (mjoin (last' ++ [encodeRestored sid ssz share]) = payload' ++ encodeRestored sid ssz share) as ->
    by (rewrite join_app; cbn; by rewrite app_nil_r).
  split_and!; [by rewrite <- !app_assoc|by apply grouped_app|by destruct last'|..].
  - unfold encodeRestored. rewrite Hsl. by rewrite <- !app_assoc in HB4.
  - unfold encodeRestored. rewrite !length_app, !length_le32, Hsl, Nat2Z.id. lia.
  - done.
  - by apply Forall_app.
  - done.
Qed.
(** ** The whole file *)

Lemma readRecipe_spec s path content pre chunk post loc (Q : bool -> minDedupCore W -> Prop) :
  files (view (world s)) !! path = Some content -> content = pre ++ chunk ++ post ->
  rPos loc = length pre -> chunk <> [] -> length (rRecipe loc) = RECIPE_BUFFER_SIZE ->
  (length chunk <= RECIPE_BUFFER_SIZE)%nat ->
  wps (readRecipe path (length chunk) loc) (fun loc' s' => s' = s /\
    loc' = {| rPos := length (pre ++ chunk); rRecipe := chunk ++ drop (length chunk) (rRecipe loc);
              rBuf := rBuf loc; rOff := rOff loc; rCache := rCache loc |}) Q s.
Proof.
  intros Hf -> Hp Hne Hl Hc. unfold readRecipe. wstep. wstep.
  rewrite fread_reliable, Hf, Hp.
  change (default [] (Some (pre ++ chunk ++ post))) with (pre ++ chunk ++ post).
  rewrite drop_app_length, take_app_length.
  wcase E; [done|]. wstep. eapply wps_lift; [apply (wr_next [] (rRecipe loc) 0); [done|lia]|].
  wstep. split; [done|]. by rewrite length_app.
Qed.

Lemma restoreEntry_spec A s nl k b path content pre e post loc out sentOut
    (Q : bool -> minDedupCore W -> Prop) :
  unlocked s -> Inv A s nl k b -> restoring (Cof s nl) loc out sentOut ->
  files (view (world s)) !! path = Some content -> content = pre ++ encodeEntry e ++ post ->
  rPos loc = length pre -> wfEntry e -> is_Some (A (re_fp e)) ->
  wps (restoreEntry path loc) (fun loc' s' => exists share sentOut',
    restoredShare A e share /\ rPos loc' = length (pre ++ encodeEntry e) /\
    restoring (Cof s nl) loc' (out ++ [encodeRestored (re_secretID e) (re_secretSize e) share])
      (sentOut ++ sentOut') /\
    sendsTo s s' (message <$> sentOut')) Q s.
Proof.
  intros U HI HR Hf Ec Hp We [info HA]. pose proof We as (Hfp & Hi1 & Hi2).
  pose proof HR as (past & last & E1 & Eg & En & E2 & E3 & E4 & E5 & E6).
  pose proof (length_encodeEntry e We) as Hel. pose proof lim_recipe as Hrec.
  unfold restoreEntry. wstep. rewrite <- Hel.
  eapply wps_post.
  { eapply (readRecipe_spec s path content pre (encodeEntry e) post); [done|done|done| |done|].
    - intros E0. rewrite E0 in Hel. done.
    - rewrite Hel. done. }
  intros loc' s' [-> ->]. wstep. cbn [rRecipe].
  eapply wps_lift.
  { unfold encodeEntry. rewrite <- app_assoc. by apply rd_front. }
  pose proof U as (U1 & U2 & U3).
  wstep. unfold wps at 1, lockDB. rewrite U1. wstep. wstep. wstep. unfold wps at 1, unlockDB.
  cbn [DBLock_ set_locks world].
  match goal with |- wps _ _ _ ?x => replace x with s by (destruct s; cbn in *; by subst) end.
  rewrite get_reliable. pose proof (inv_index _ _ _ _ _ _ HI) as [HRep _]. rewrite HRep, HA. cbn [fmap option_fmap option_map].
  eapply wps_post.
  { eapply (restoreShare_spec A s nl k b (re_fp e) info _ out sentOut (re_secretID e) (re_secretSize e) []);
      [done|done|done| | |done|done|done|done].
    - exists past, last. cbn [rBuf rOff rCache rRecipe]. split_and!; [done..|].
      rewrite length_app, length_drop. lia.
    - cbn [rRecipe]. unfold encodeEntry. rewrite <- app_assoc, <- app_assoc. reflexivity. }
  intros loc' s' (share & sentOut' & Hd & Hsz & Hpos & _ & HR' & HS). exists share, sentOut'. split_and!; try done.
  split; [done|]. intros i. rewrite HA. by intros [= <-].
Qed.

(** The state of the loop after [i] entries. *)
Definition restoredI A s nl r (hd : bytes) (i : nat) (loc : restoreLocals) s' : Prop :=
  exists shares sentOut,
    Forall2 (restoredShare A) (take i (rc_entries r)) shares /\
    rPos loc = length (encodeHead r ++ encodeEntries (take i (rc_entries r))) /\
    restoring (Cof s nl) loc (hd :: restoredPieces (take i (rc_entries r)) shares) sentOut /\
    sendsTo s s' (message <$> sentOut).

Lemma restoredPieces_snoc l shares e share :
  length l = length shares ->
  restoredPieces (l ++ [e]) (shares ++ [share])
  = restoredPieces l shares ++ [encodeRestored (re_secretID e) (re_secretSize e) share].
Proof. intros Hl. unfold restoredPieces. by rewrite zip_with_app. Qed.

Lemma restoreLoop_spec A s nl k b path r hd loc (Q : bool -> minDedupCore W -> Prop) :
  unlocked s -> Inv A s nl k b -> wfRecipe r ->
  files (view (world s)) !! path = Some (encodeRecipe r) ->
  Forall (fun e => is_Some (A (re_fp e))) (rc_entries r) ->
  restoring (Cof s nl) loc [hd] [] -> rPos loc = length (encodeHead r) ->
  wps (forM (length (rc_entries r)) 0 (fun _ l => restoreEntry path l) loc)
    (restoredI A s nl r hd (length (rc_entries r))) Q s.
Proof.
  intros U HI Wr Hf HA HR Hp. set (es := rc_entries r).
  eapply (wps_forM (restoredI A s nl r hd)).
  - exists [], []. cbn [take]. split_and!; [by constructor|by rewrite app_nil_r| |apply sendsTo_nil].
    done.
  - intros i loc' s' Hi (shares & sentOut & Hsh & Hpos & HR' & HS).
    change (rc_entries r) with es in Hsh, Hpos, HR'.
    destruct (lookup_lt_is_Some_2 es i) as [e Ee]; [lia|].
    destruct (sendsTo_Inv A s s' _ nl k b HS HI U) as (HI' & U' & EC).
    assert (wfEntry e) as We by (eapply Forall_lookup_1; [apply (wfr_entries _ Wr)|exact Ee]).
    assert (is_Some (A (re_fp e))) as HAe by (eapply (Forall_lookup_1 _ _ _ _ HA); exact Ee).
    assert (files (view (world s')) !! path = Some (encodeRecipe r)) as Hf'.
    { destruct HS as (w & -> & _ & EF & _). cbn. by rewrite EF. }
    eapply wps_post.
    { eapply (restoreEntry_spec A s' nl k b path (encodeRecipe r)
                (encodeHead r ++ encodeEntries (take i es)) e (encodeEntries (drop (S i) es)));
        [done|done|by rewrite EC|done| |done|done|done].
      unfold encodeRecipe. fold es. rewrite (encodeEntries_at es i e Ee). by rewrite <- !app_assoc. }
    intros loc'' s'' (share & sentOut' & Hd & Hpos' & HR'' & HS').
    assert (length (take i es) = length shares) as Hls by (by eapply Forall2_length).
    exists (shares ++ [share]), (sentOut ++ sentOut'). fold es. rewrite (take_S_r es i e Ee).
    split_and!.
    + apply Forall2_app; [done|]. by constructor.
    + rewrite Hpos', encodeEntries_app, <- !app_assoc. do 4 f_equal. unfold encodeEntries. cbn.
      by rewrite app_nil_r.
    + rewrite restoredPieces_snoc by done. by rewrite EC in HR''.
    + rewrite fmap_app. by eapply sendsTo_trans.
Qed.

Lemma shareFileHead_nonempty fileSize (rest : bytes) : le64 fileSize ++ rest <> [].
Proof. intros E. apply (f_equal length) in E. by rewrite length_app, length_le64 in E. Qed.

(** The head of the share file in a fresh buffer; four bytes of padding. *)
Lemma shareFileHead_spec {R} buf fileSize n :
  length buf = sentShareFileBufferSize ->
  exists buf1 buf2 pad, setI64 (R := R) buf sentMsgHeadSize fileSize = Ok buf1 /\
    setI32 (R := R) buf1 (sentMsgHeadSize + 8) n = Ok buf2 /\ length pad = 4%nat /\
    bufferHolds buf2 (le64 fileSize ++ le32 n ++ pad).
Proof.
  intros Hl. pose proof lim_sharefile as HS. unfold shareFileHeadSize_ in HS.
  unfold sentShareFileBufferSize, sentMsgHeadSize in *.
  assert (bufferHolds buf []) as H0.
  { exists (take 8 buf), (drop 8 buf). split_and!; [rewrite length_take; unfold sentMsgHeadSize; lia| |done].
    cbn [app]. by rewrite take_drop. }
  destruct (bufferHolds_append (R := R) buf [] (le64 fileSize) 8 H0) as (b1 & E1 & H1);
    [done|rewrite length_le64; unfold sentShareFileBufferSize; lia|].
  destruct (bufferHolds_append (R := R) b1 _ (le32 n) 16 H1) as (b2 & E2 & H2);
    [cbn [app]; by rewrite length_le64|rewrite length_le32; unfold sentShareFileBufferSize, sentMsgHeadSize; lia|].
  destruct H2 as (hd & rest & Hh & Eb & Hbl). cbn [app] in Eb.
  exists b1, b2, (take 4 rest). split_and!; [done|done| |].
  - rewrite Eb, !length_app, length_le64, length_le32, Hh in Hbl.
    unfold sentShareFileBufferSize, sentMsgHeadSize in Hbl. rewrite length_take. lia.
  - exists hd, (drop 4 rest). split_and!; [done| |done].
    rewrite Eb, <- !app_assoc. by rewrite take_drop.
Qed.

Lemma restoreOpened_spec A s nl k b path r (Q : bool -> minDedupCore W -> Prop) :
  unlocked s -> Inv A s nl k b -> wfRecipe r ->
  files (view (world s)) !! path = Some (encodeRecipe r) ->
  Forall (fun e => is_Some (A (re_fp e))) (rc_entries r) ->
  wps (restoreOpened path) (fun _ s' => exists shares payloads pad,
    Forall2 (restoredShare A) (rc_entries r) shares /\
    length pad = 4%nat /\
    grouped ((le64 (rc_fileSize r) ++ le32 (Z.of_nat (length (rc_entries r))) ++ pad)
             :: restoredPieces (rc_entries r) shares) payloads /\
    Forall (fun m => length m <= SHARE_FILE_BUFFER_SIZE)%nat payloads /\
    sendsTo s s' (message <$> payloads)) Q s.
Proof.
  intros U HI Wr Hf HA. pose proof lim_recipe as Hrec. pose proof lim_cached as Hnum.
  pose proof (length_encodeHead r Wr) as Hh. unfold restoreOpened.
  do 4 (wstep; wstep).
  set (cache := {| cacheNodes := _; cacheIndex := _; numCached := _ |}). wstep.
  rewrite <- Hh. eapply wps_post.
  { eapply (readRecipe_spec s path (encodeRecipe r) [] (encodeHead r) (encodeEntries (rc_entries r)));
      [done|done|done| |cbn; apply uninit_length|].
    - intros E. rewrite E in Hh. done.
    - rewrite Hh. unfold fileRecipeHeadSize_, fileRecipeEntrySize_ in *. lia. }
  intros loc s' [-> ->]. cbn [rRecipe rBuf rOff rPos rCache app]. destruct Wr as [W1 W2 W3 W4 W5].
  wstep. eapply wps_lift.
  { unfold encodeHead. eapply (getI64_at (le32 (rc_user r) ++ rc_pad1 r)); [|by rewrite length_app, length_le32, W1|done].
    rewrite <- !app_assoc. reflexivity. }
  wstep. eapply wps_lift.
  { unfold encodeHead.
    eapply (getI32_at (le32 (rc_user r) ++ rc_pad1 r ++ le64 (rc_fileSize r)));
      [|by rewrite !length_app, length_le32, length_le64, W1|done].
    rewrite <- !app_assoc. reflexivity. }
  destruct (shareFileHead_spec (R := bool * minDedupCore W) (uninit (world s) sentShareFileBufferSize)
              (rc_fileSize r) (Z.of_nat (length (rc_entries r))) (uninit_length _ _))
    as (b1 & b2 & pad & E1 & E2 & Hpad & HB).
  wstep. eapply wps_lift; [exact E1|]. wstep. eapply wps_lift; [exact E2|]. wstep.
  rewrite Nat2Z.id. eapply wps_post.
  { eapply (restoreLoop_spec A s nl k b path r
              (le64 (rc_fileSize r) ++ le32 (Z.of_nat (length (rc_entries r))) ++ pad)); try done.
    exists [], [le64 (rc_fileSize r) ++ le32 (Z.of_nat (length (rc_entries r))) ++ pad].
    split; [done|]. split; [apply grouped_nil|]. split; [done|]. cbn [rBuf rOff rCache rRecipe mjoin list_join]. rewrite app_nil_r.
    split; [done|]. split; [by rewrite !length_app, length_le64, length_le32, Hpad|].
    split; [|split; [by constructor|]].
    - split; cbn; rewrite ?length_replicate; try done; try lia.
      + apply Forall_replicate. cbn. apply uninit_length.
      + by apply Forall_replicate.
    - rewrite length_app, length_drop, uninit_length.
      unfold fileRecipeHeadSize_, fileRecipeEntrySize_ in *. lia. }
  intros loc s' (shares & sentOut & Hsh & Hpos & (past & last & Eout & Hgr & Hne & HBp & Eo & _ & Hm & _) & HS).
  rewrite take_ge in Hsh, Eout by lia.
  assert (mjoin last <> []) as Hne' by (eapply restoredPieces_last; [|exact Eout|done]; by apply shareFileHead_nonempty).
  rewrite (proj2 (Nat.ltb_lt _ _)) by (destruct (mjoin last); [done|]; cbn [length] in Eo; lia).
  wstep. eapply wps_post; [by eapply (sendBuffer_spec s' _ (mjoin last))|].
  intros buf' s'' [HS' _]. wstep. exists shares, (sentOut ++ [mjoin last]), pad.
  split_and!; [done|done| | |].
  - rewrite Eout. apply grouped_app; [done|by apply grouped_one].
  - apply Forall_app. split; [done|]. apply Forall_singleton. by eapply bufferHolds_bound.
  - rewrite fmap_app. by eapply sendsTo_trans.
Qed.

(** restoreShareFile on a recipe file whose shares are all indexed. *)
Lemma restore_spec {ret} A s nl k b path r crypto (Q : ret -> minDedupCore W -> Prop) :
  unlocked s -> Inv A s nl k b -> wfRecipe r ->
  files (view (world s)) !! path = Some (encodeRecipe r) ->
  Forall (fun e => is_Some (A (re_fp e))) (rc_entries r) ->
  wps (restoreShareFile path (Some crypto)) (fun ok s' => ok = true /\ unlocked s' /\
    contents (view (world s')) = contents (view (world s)) /\
    exists shares payloads pad,
      Forall2 (restoredShare A) (rc_entries r) shares /\
      length pad = 4%nat /\
      grouped ((le64 (rc_fileSize r) ++ le32 (Z.of_nat (length (rc_entries r))) ++ pad)
               :: restoredPieces (rc_entries r) shares) payloads /\
      Forall (fun m => length m <= SHARE_FILE_BUFFER_SIZE)%nat payloads /\
      sent (view (world s')) = sent (view (world s)) ++ (message <$> payloads)) Q s.
Proof.
  intros U HI Wr Hf HA. unfold restoreShareFile. wstep. wstep. wstep.
  rewrite fopen_rb_reliable by (by eexists). wstep.
  eapply wps_post; [by eapply (restoreOpened_spec A s nl k b path r)|].
  intros _ s' (shares & payloads & pad & H1 & H2 & H3 & H4 & (w & -> & E1 & E2 & E3)).
  wstep. apply wps_onWorld. cbn [world set_world]. intros [] w' Ew. injection Ew as <-.
  destruct (rm_law w path) as [R1 R2]. wstep. split; [done|]. split; [done|].
  cbn [world set_world]. rewrite R1, R2, E1, E3. split; [done|]. by exists shares, payloads, pad.
Qed.

Lemma restored_digests A es shares :
  Forall2 (restoredShare A) es shares -> Forall2 (fun e share => digest share = re_fp e) es shares.
Proof. intros H. eapply list.Forall2_impl; [exact H|]. by intros e share [? _]. Qed.
End Restore.
