(* ===== verification/MinTheorems.v ===== *)
(** * Theorems on the data server

    What the components of minDedupCore guarantee together, for every
    environment that keeps the [WorldLaws]; the concrete instances at the end
    run the model on a small configuration. *)

From stdpp Require Import base list numbers gmap functions.
From coqutil Require Import Byte.
From Stdlib Require Import Lia.
From S2P Require Import Prelude Structs FileNames World CryptoPrimitive MinDedupCore MinStages MinRestore ShareIndex MinInvariant MinNodes MinIndex MinPackage MinUpload MinRestoreProof.

Local Open Scope Z_scope.

Section Claims.
Context {W : Type} {WW : World W} {WL : WorldLaws W} {LM : Limits} {LOK : LimitsOk} {SSL : OpenSSL}.
Implicit Types s : minDedupCore W.

(** ** Start *)

(** The index of a database without share entries. *)
Definition noShares : Index := fun _ => None.

Lemma createDir_view fuel w dir pos : view (createDirFrom fuel w dir pos).2 = view w.
Proof.
  revert w pos. induction fuel as [|fuel IH]; intros w pos; cbn; [done|].
  destruct (list_find _ _) as [[i x]|]; [|done].
  destruct (mkdir w _) as [made w'] eqn:E. apply mkdir_law in E.
  destruct (negb made); [by cbn|]. destruct (negb _); [by cbn|]. rewrite IH. done.
Qed.

Lemma createDir_reliable {REL : ReliableWorld W} fuel w dir pos : (createDirFrom fuel w dir pos).1 = true.
Proof.
  revert w pos. induction fuel as [|fuel IH]; intros w pos; cbn; [done|].
  destruct (list_find _ _) as [[i x]|]; [|done].
  destruct (mkdir w _) as [made w'] eqn:E. pose proof (mkdir_reliable w (take (pos + i + 1) dir)) as R.
  rewrite E in R. cbn in R. subst made. cbn. rewrite access_reliable. cbn. apply IH.
Qed.

Lemma checked_ok {REL : ReliableWorld W} {R} (r : bool * W) : r.1 = true -> checked (R := R) r = Ok r.2.
Proof. unfold checked. by intros ->. Qed.

(** A new object in the environment [w]. *)
Definition started (w : W) (dir : bytes) : minDedupCore W :=
  {| world := w; heap := ∅; headBufferNode_ := None; tailBufferNode_ := None;
     globalShareContainerName_ := replicate shareContainerNameValidLen_ letter_a ++ postfix_sc;
     shareContainerDirName_ := dir;
     DBLock_ := false; bufferLock_ := false; globalShareContainerNameLock_ := false |}.

Lemma Inv_started digest w dir :
  (forall fp, contents (view w) !! shareFP2IndexKey_ fp = None) ->
  Inv digest noShares (started w dir) [] 0 0.
Proof.
  intros Hno. split; cbn [heap headBufferNode_ tailBufferNode_ globalShareContainerName_ world
    shareContainerDirName_ started].
  - by split; [|constructor|..].
  - exists (replicate 12 letter_a). split_and!; [done| |done|done]. apply Forall_replicate. by unfold isLetter.
  - lia.
  - constructor.
  - constructor.
  - constructor.
  - split; [|done]. intros fp. by rewrite Hno.
Qed.


(** ** Upload *)

Lemma occurrences_toSend uid A l fp :
  occurrences fp (toSend uid A l) = if ownedBy A fp uid then 0 else occurrences fp l.
Proof.
  unfold occurrences, toSend. induction l as [|e l IH]; [by case_match|].
  rewrite !filter_cons. destruct (decide (ownedBy A (sm_fp e) uid = false)) as [Ho|Ho].
  - rewrite filter_cons. case_decide as Hf; [|exact IH]. subst fp. rewrite Ho in *. cbn [length]. lia.
  - rewrite IH. case_decide as Hf; [|done]. subst fp. by destruct (ownedBy A (sm_fp e) uid).
Qed.

(** The flags that make the client send a share, and the counters, add up. *)
Lemma upload_counts uid A A2 l u fp :
  counted uid (firstSpec uid A l) A2 (toSend uid A l) ->
  refsOf u (refs A2 fp) = refsOf u (refs A fp) + (if decide (u = uid) then occurrences fp l else 0).
Proof.
  intros HC. rewrite HC, firstSpec_counts. destruct (decide (u = uid)) as [->|]; [|rewrite decide_False by tauto; lia].
  rewrite occurrences_toSend.
  destruct (ownedBy A fp uid); [rewrite decide_True by done; lia|].
  rewrite decide_False by (by intros [_ ?]). lia.
Qed.

(** A package a correct client sends: metadata in the format, valid file names
    and, for the shares the user does not own, data with the announced
    fingerprints.  [stat] is the caller's flag array, [fuel] the rounds of the
    loop over the files. *)
Record goodUpload (digest : bytes -> bytes) (uid : Z) (A : Index) (b : Z) (fs : list FileMD)
    (slack data : bytes) (stat : list bool) (fuel : nat) : Prop := {
  gu_user : int32 uid;
  gu_files : Forall wfFile fs;
  gu_names : Forall validName fs;
  gu_fuel : (length fs <= fuel)%nat;
  gu_stat : (length (sharesOf fs) <= length stat)%nat;
  gu_budget : b + 1 + 2 * Z.of_nat (length (sharesOf fs)) <= 2 ^ 27;
  gu_md : Z.of_nat (length (encodePackage fs ++ slack)) < 2 ^ 31;
  gu_data : Z.of_nat (length data) < 2 ^ 31;
  gu_sizes : Forall (fun e => goodSize (Z.of_nat (sm_size e))) (toSend uid A (sharesOf fs));
  gu_total : totalSize (toSend uid A (sharesOf fs)) <= Z.of_nat (length data);
  gu_authentic : authentic digest data (toSend uid A (sharesOf fs));
}.

(** The flags of the first stage, in the caller's array. *)
Definition flagsOf (uid : Z) (A : Index) (fs : list FileMD) (stat : list bool) : list bool :=
  dupFlags uid A (sharesOf fs) ++ drop (length (sharesOf fs)) stat.

Lemma upload_stages {REL : ReliableWorld W} (digest : bytes -> bytes) (crypto : CryptoPrimitive)
    {HOK : HashOk crypto FP_SIZE digest} uid A s l k b fs slack data stat fuel :
  unlocked s -> Inv digest A s l k b -> goodUpload digest uid A b fs slack data stat fuel ->
  let n := length (sharesOf fs) in
  let md := encodePackage fs ++ slack in
  let mdSize := Z.of_nat (length (encodePackage fs)) in
  exists s1 s2 A2 l2 k2,
    firstStageDedup (ret := False) fuel uid md mdSize stat s
      = Ok ((true, (flagsOf uid A fs stat, n, totalSize (toSend uid A (sharesOf fs)))), s1) /\
    secondStageDedup (ret := False) fuel uid md mdSize (flagsOf uid A fs stat) data (Some crypto) s1
      = Ok (true, s2) /\
    unlocked s2 /\ shareContainerDirName_ s2 = shareContainerDirName_ s /\
    Inv digest A2 s2 l2 k2 (b + 1 + 2 * Z.of_nat n) /\
    (forall u fp, refsOf u (refs A2 fp)
       = refsOf u (refs A fp) + (if decide (u = uid) then occurrences fp (sharesOf fs) else 0)).
Proof.
  intros U HI [Hu Hwf Hval Hfuel Hst HB Hmd Hdl Hsz Htot Hauth] n md mdSize.
  set (flags := flagsOf uid A fs stat).
  destruct (wps_result (ret := False) (firstStageDedup fuel uid md mdSize stat) _ s
    (firstStage_spec digest uid A s l k b fs slack stat fuel (fun _ _ => False) Hu Hmd U HI Hwf Hfuel Hst
       ltac:(lia) ltac:(lia))) as ([ok out] & s1 & E1 & U1 & _ & HF & HT).
  cbn [fst snd] in *. destruct ok; [|by destruct (HF eq_refl)].
  destruct (HT eq_refl) as (F & HI1 & ->). clear HT HF.
  assert (selected flags (sharesOf fs) = toSend uid A (sharesOf fs)) as Esel by apply selected_toSend.
  destruct (wps_result (ret := False) (secondStageDedup fuel uid md mdSize flags data (Some crypto)) _ s1
    (secondStage_spec digest uid _ s1 l k _ fs slack flags data crypto fuel (fun _ _ => False) Hu Hmd Hdl U1
       HI1 Hwf Hfuel ltac:(unfold flags, flagsOf, dupFlags; rewrite length_app, length_fmap; lia) ltac:(lia)
       ltac:(by rewrite Esel) ltac:(by rewrite Esel)))
    as (ok & s2 & E2 & U2 & Ed & _ & (A2 & l2 & k2 & HI2 & HC) & HF).
  rewrite Esel in *. destruct ok; [|by destruct (HF eq_refl)].
  exists s1, s2, A2, l2, k2. split_and!; [done|done|done| | |].
  - destruct F. congruence.
  - eapply Inv_budget; [done|lia].
  - intros u fp. eapply upload_counts. by apply HC.
Qed.

(** C10: uploading a package.  In an environment without faults, for a package
    of a correct client: the first stage returns for each share exactly whether
    the user already owns it, and the total size to send; the second stage
    succeeds; the storage invariant holds again; and every reference counter has
    grown by the number of occurrences of the share in the package for this
    user, and by nothing else. *)
Theorem upload_correct {REL : ReliableWorld W} (digest : bytes -> bytes) (crypto : CryptoPrimitive)
    {HOK : HashOk crypto FP_SIZE digest} (uid : Z) (A : Index) s (l : nodeList) (k b : Z)
    (fs : list FileMD) (slack data : bytes) (stat : list bool) (fuel : nat) :
  unlocked s -> Inv digest A s l k b -> goodUpload digest uid A b fs slack data stat fuel ->
  let n := length (sharesOf fs) in
  let md := encodePackage fs ++ slack in
  let mdSize := Z.of_nat (length (encodePackage fs)) in
  exists s1 s2 A2 l2 k2,
    firstStageDedup (ret := False) fuel uid md mdSize stat s
      = Ok ((true, (flagsOf uid A fs stat, n, totalSize (toSend uid A (sharesOf fs)))), s1) /\
    secondStageDedup (ret := False) fuel uid md mdSize (flagsOf uid A fs stat) data (Some crypto) s1
      = Ok (true, s2) /\
    unlocked s2 /\ shareContainerDirName_ s2 = shareContainerDirName_ s /\
    Inv digest A2 s2 l2 k2 (b + 1 + 2 * Z.of_nat n) /\
    (forall u fp, refsOf u (refs A2 fp)
       = refsOf u (refs A fp) + (if decide (u = uid) then occurrences fp (sharesOf fs) else 0)).
Proof. exact (upload_stages digest crypto uid A s l k b fs slack data stat fuel). Qed.

(** C11: restoring.  In an environment without faults, for a recipe file all of
    whose shares are indexed, restoreShareFile succeeds without touching the
    database, and the payloads of the messages it sends are, joined, the head of
    the share file and for each recipe entry, in order, the secret's id and size
    and a share whose fingerprint is the one in the recipe; no payload is larger
    than the share file buffer. *)
Theorem restoreShareFile_correct {REL : ReliableWorld W} (digest : bytes -> bytes)
    (crypto : CryptoPrimitive) (A : Index) s (l : nodeList) (k b : Z) (path : bytes) (r : Recipe) :
  unlocked s -> Inv digest A s l k b -> wfRecipe r ->
  files (view (world s)) !! path = Some (encodeRecipe r) ->
  Forall (fun e => is_Some (A (re_fp e))) (rc_entries r) ->
  exists s' shares payloads pad,
    restoreShareFile (ret := False) path (Some crypto) s = Ok (true, s') /\ unlocked s' /\
    contents (view (world s')) = contents (view (world s)) /\
    Forall2 (fun e share => digest share = re_fp e) (rc_entries r) shares /\ length pad = 4%nat /\
    mjoin payloads = (le64 (rc_fileSize r) ++ le32 (Z.of_nat (length (rc_entries r))) ++ pad)
                     ++ encodeRestoredAll (rc_entries r) shares /\
    Forall (fun m => length m <= SHARE_FILE_BUFFER_SIZE)%nat payloads /\
    sent (view (world s')) = sent (view (world s)) ++ (message <$> payloads).
Proof.
  intros U HI Wr Hf HA.
  destruct (wps_result (ret := False) (restoreShareFile path (Some crypto)) _ s
    (restore_spec digest A s l k b path r crypto (fun _ _ => False) U HI Wr Hf HA))
    as (ok & s' & E & -> & U' & EC & shares & payloads & pad & H1 & H2 & H3 & H4 & H5).
  exists s', shares, payloads, pad. split_and!; try done; [by eapply restored_digests|by apply grouped_join in H3].
Qed.

Lemma refs_indexed A fp u : refsOf u (refs A fp) <> 0 -> is_Some (A fp).
Proof. unfold refs. by destruct (A fp). Qed.

Lemma refsOf_nonneg digest A s l k b u fp : Inv digest A s l k b -> 0 <= refsOf u (refs A fp).
Proof.
  intros HI. unfold refs. destruct (A fp) as [i|] eqn:E; [|done].
  pose proof (st_refs _ _ _ _ _ _ (Inv_stored _ _ _ _ _ _ _ _ HI E)) as [_ _ HF _].
  induction (si_refs i) as [|[v c] r IH]; cbn; [done|]. cbn in HF. inversion HF; subst.
  case_match; [lia|by apply IH].
Qed.

(** The shares of an uploaded package are indexed. *)
Lemma uploaded_indexed digest uid A A2 s l k b es fp :
  Inv digest A s l k b ->
  (forall u fp, refsOf u (refs A2 fp)
     = refsOf u (refs A fp) + (if decide (u = uid) then occurrences fp es else 0)) ->
  fp ∈ sm_fp <$> es -> is_Some (A2 fp).
Proof.
  intros HI HC Hin. apply (refs_indexed A2 fp uid). rewrite HC, decide_True by done.
  pose proof (refsOf_nonneg _ _ _ _ _ _ uid fp HI).
  apply list_elem_of_fmap in Hin as (e & -> & He).
  assert (e ∈ filter (fun x => sm_fp x = sm_fp e) es) as Hf by (by apply list_elem_of_filter).
  unfold occurrences. destruct (filter _ es); [by apply not_elem_of_nil in Hf|]. cbn. lia.
Qed.

(** The invariant does not depend on files that are not containers. *)
Lemma Inv_otherFiles digest A s l k b w :
  contents (view w) = contents (view (world s)) ->
  (forall i name, isContainerName i name ->
     files (view w) !! (shareContainerDirName_ s ++ name)
     = files (view (world s)) !! (shareContainerDirName_ s ++ name)) ->
  Inv digest A s l k b -> Inv digest A (set_world s w) l k b.
Proof.
  intros Ec Ef [H1 H2 H3 H4 H5 H6 H7]. split; try done. cbn [world set_world]. rewrite Ec.
  eapply indexed_mono; [|reflexivity..|exact H7].
  intros i name c Hi _ HC _. exists c. split; [|done]. cbn. rewrite <- HC.
  apply containerOf_files. by eapply Ef.
Qed.

(** C1: the round trip of the data server.  After an upload as above, let [w]
    be an environment with the same database and the same container files and
    with a recipe file that names only shares of the package (the server stores
    there the recipe it receives).  Then the file can be restored: the server
    delivers for each entry, in order, the secret's id and size and a share with
    the fingerprint of the entry. *)
Theorem upload_restore_roundtrip {REL : ReliableWorld W} (digest : bytes -> bytes) (crypto : CryptoPrimitive)
    {HOK : HashOk crypto FP_SIZE digest} (uid : Z) (A : Index) s (l : nodeList) (k b : Z)
    (fs : list FileMD) (slack data : bytes) (stat : list bool) (fuel : nat) :
  unlocked s -> Inv digest A s l k b -> goodUpload digest uid A b fs slack data stat fuel ->
  let md := encodePackage fs ++ slack in
  let mdSize := Z.of_nat (length (encodePackage fs)) in
  exists s1 s2 num size,
    firstStageDedup (ret := False) fuel uid md mdSize stat s
      = Ok ((true, (flagsOf uid A fs stat, num, size)), s1) /\
    secondStageDedup (ret := False) fuel uid md mdSize (flagsOf uid A fs stat) data (Some crypto) s1
      = Ok (true, s2) /\ shareContainerDirName_ s2 = shareContainerDirName_ s /\
    forall w path r,
      contents (view w) = contents (view (world s2)) ->
      (forall i name, isContainerName i name ->
         files (view w) !! (shareContainerDirName_ s ++ name)
         = files (view (world s2)) !! (shareContainerDirName_ s ++ name)) ->
      wfRecipe r -> files (view w) !! path = Some (encodeRecipe r) ->
      Forall (fun e => re_fp e ∈ sm_fp <$> sharesOf fs) (rc_entries r) ->
      exists s3 shares payloads pad,
        restoreShareFile (ret := False) path (Some crypto) (set_world s2 w) = Ok (true, s3) /\
        Forall2 (fun e share => digest share = re_fp e) (rc_entries r) shares /\ length pad = 4%nat /\
        mjoin payloads = (le64 (rc_fileSize r) ++ le32 (Z.of_nat (length (rc_entries r))) ++ pad)
                         ++ encodeRestoredAll (rc_entries r) shares /\
        sent (view (world s3)) = sent (view w) ++ (message <$> payloads).
Proof.
  intros U HI HG md mdSize.
  destruct (upload_stages digest crypto uid A s l k b fs slack data stat fuel U HI HG)
    as (s1 & s2 & A2 & l2 & k2 & E1 & E2 & U2 & Ed & HI2 & HC).
  exists s1, s2. do 2 eexists. split; [exact E1|]. split; [exact E2|]. split; [exact Ed|]. rewrite <- Ed.
  intros w path r Hc Hcf Wr Hf Hin.
  assert (Forall (fun e => is_Some (A2 (re_fp e))) (rc_entries r)) as HA.
  { eapply list.Forall_impl; [exact Hin|]. intros e He. eapply uploaded_indexed; [exact HI|exact HC|exact He]. }
  destruct (wps_result (ret := False) (restoreShareFile path (Some crypto)) _ (set_world s2 w)
    (restore_spec digest A2 (set_world s2 w) l2 k2 _ path r crypto (fun _ _ => False) U2
       (Inv_otherFiles _ _ _ _ _ _ _ Hc Hcf HI2) Wr Hf HA))
    as (ok & s' & E & -> & U' & EC & shares & payloads & pad & H1 & H2 & H3 & H4 & H5).
  exists s', shares, payloads, pad. split_and!; try done; [by eapply restored_digests|by apply grouped_join in H3].
Qed.

(** ** Safety on every path *)

(** C12: the second stage is safe against its client and its database.  For any
    metadata in the format, any flags and any share data (right or wrong) that
    is as long as the sizes announce, and whatever the database answers, the
    second stage returns: it reads and writes inside its buffers, releases its
    locks, and leaves a state in which every indexed share can be found with its
    fingerprint.  (File writes must not fail: see [failed_flush_loses_shares].) *)
Theorem secondStageDedup_safe {DK : DiskOk W} (digest : bytes -> bytes) (crypto : CryptoPrimitive)
    {HOK : HashOk crypto FP_SIZE digest} (uid : Z) (A : Index) s (l : nodeList) (k b : Z)
    (fs : list FileMD) (slack data : bytes) (stat : list bool) (fuel : nat) :
  int32 uid -> unlocked s -> Inv digest A s l k b ->
  Forall wfFile fs -> (length fs <= fuel)%nat -> (length (sharesOf fs) <= length stat)%nat ->
  b + 1 + Z.of_nat (length (sharesOf fs)) <= 2 ^ 27 ->
  Z.of_nat (length (encodePackage fs ++ slack)) < 2 ^ 31 -> Z.of_nat (length data) < 2 ^ 31 ->
  Forall (fun e => goodSize (Z.of_nat (sm_size e))) (selected stat (sharesOf fs)) ->
  totalSize (selected stat (sharesOf fs)) <= Z.of_nat (length data) ->
  exists ok s' A' l' k',
    secondStageDedup (ret := False) fuel uid (encodePackage fs ++ slack)
      (Z.of_nat (length (encodePackage fs))) stat data (Some crypto) s = Ok (ok, s') /\
    unlocked s' /\ Inv digest A' s' l' k' (b + 1 + Z.of_nat (length (sharesOf fs))).
Proof.
  intros Hu U HI Hwf Hfuel Hst HB Hmd Hdl Hsz Htot.
  destruct (wps_result (ret := False) (secondStageDedup fuel uid _ _ stat data (Some crypto)) _ s
    (secondStage_spec digest uid A s l k b fs slack stat data crypto fuel (fun _ _ => False) Hu Hmd Hdl U
       HI Hwf Hfuel Hst HB Htot Hsz))
    as (ok & s2 & E2 & U2 & _ & _ & (A2 & l2 & k2 & HI2 & _) & _).
  by exists ok, s2, A2, l2, k2.
Qed.


(** ** Shutdown *)

Lemma cleanupNodes_spec {DK : DiskOk W} digest A l2 : forall fuel s k b curr (Q : bool -> minDedupCore W -> Prop),
  (length l2 <= fuel)%nat -> Inv digest A (set_ends s curr (lastPtr l2)) l2 k b -> chain curr l2 ->
  wps (cleanupNodes fuel curr) (fun _ s' => frame s s' /\ heap s' = ∅ /\
    indexed digest A (contents (view (world s')))
      (containerOf [] (shareContainerDirName_ s') (files (view (world s')))) k b) Q s.
Proof.
  induction l2 as [|[a n] l2 IH]; intros fuel s k b curr Q Hf HI Hc.
  { cbn in Hc. subst curr. destruct HI as [[Hh _ _ _] _ _ _ _ _ Hi]. cbn in Hh, Hi.
    destruct fuel; cbn [cleanupNodes]; wstep; split; try done; by split. }
  destruct Hc as [-> Hc]. destruct fuel as [|fuel]; cbn in Hf; [lia|]. cbn [cleanupNodes].
  destruct (Inv_node _ _ _ [] _ _ _ _ _ HI) as [Ha Hwf]. cbn [heap set_ends] in Ha.
  wstep. eapply wps_post; [by eapply flush_spec|].
  intros ok s' (w & name & -> & En & Hw & Hok). rewrite (Hok DK) in *. cbn [negb].
  wstep. eapply wps_load; [done|]. wstep. eapply wps_free; [done|].
  cbn [heap set_world]. destruct (Inv_remove_head _ _ _ _ _ _ _ _ _ _ HI En Hw) as (_ & _ & HI').
  eapply wps_post.
  { eapply (IH fuel _ k b); [lia| |done].
    refine (Inv_ext digest A _ _ l2 k b _ _ _ _ _ _ HI'); try reflexivity.
    cbn [tailBufferNode_ set_ends]. case_decide as E; [by rewrite E|].
    destruct l2; [done|]. symmetry. apply lastPtr_cons. }
  intros _ s' ([F1 F2 F3 F4 F5 F6 F7] & Hh & Hi). split; [|done].
  destruct (Inv_flushed _ _ _ [] _ _ _ _ _ _ _ _ HI En Hw) as [_ [G1 G2 G3 G4 G5 G6 G7]].
  cbn in *. split; try congruence. by etrans.
Qed.

(** C34: shutdown.  When file writes do not fail, cleanupAllBufferNodes flushes
    and frees every node and returns 1 with the lock released; from then on
    every indexed share is in a container file on disk. *)
Theorem cleanupAllBufferNodes_correct {DK : DiskOk W} (digest : bytes -> bytes) (A : Index) s
    (l : nodeList) (k b : Z) :
  unlocked s -> Inv digest A s l k b ->
  exists s', cleanupAllBufferNodes (ret := False) s = Ok (true, s') /\ unlocked s' /\ heap s' = ∅ /\
    represents (contents (view (world s'))) A /\
    forall fp i, A fp = Some i -> exists c,
      files (view (world s')) !! (shareContainerDirName_ s ++ si_name i) = Some c /\
      digest (take (si_size i) (drop (si_off i) c)) = fp.
Proof.
  intros U HI.
  destruct (wps_result (ret := False) cleanupAllBufferNodes (fun ok s' => ok = true /\ frame s s' /\
    heap s' = ∅ /\ indexed digest A (contents (view (world s')))
      (containerOf [] (shareContainerDirName_ s') (files (view (world s')))) k b) s)
    as (ok & s' & E & -> & [F1 F2 F3 F4 F5 F6 F7] & Hh & [HR Hs]).
  - unfold cleanupAllBufferNodes. wstep. wstep. wstep.
    pose proof HI as [[Eh Hn Hc Ht] _ _ _ _ _ Hi]. destruct U as (U1 & U2 & U3).
    wstep. destruct (headBufferNode_ s) as [p|] eqn:Ehd.
    + wstep. unfold wps at 1, lockBuffer. rewrite U2. wstep. wstep. wstep.
      eapply wps_post.
      { eapply (cleanupNodes_spec digest A l); [|by eapply Inv_ext; [..|exact HI]|done].
        cbn. rewrite (length_linked _ _ _ _ (inv_linked _ _ _ _ _ _ HI)). cbn. lia. }
      intros _ s' ([F1 F2 F3 F4 F5 F6 F7] & Hh & Hix). cbn in F1, F2, F3, F4, F5, F6.
      unfold wps at 1, unlockBuffer. rewrite F3. wstep.
      split; [done|]. split; [split; cbn; first [congruence|exact F7]|]. done.
    + wstep. wstep. destruct l as [|[a n] l]; [|by destruct Hc]. by split_and!.
  - exists s'. destruct U as (U1 & U2 & U3). unfold unlocked. split_and!; try done; try congruence.
    intros fp i Hi. destruct (Hs fp i Hi) as [_ _ _ _ (c & HC & _ & Hd)]. rewrite F1 in HC.
    by exists c.
Qed.
End Claims.

(** ** Container names *)

(** C36: the counter of container names.  On a name of letters (and any suffix)
    incrGlobalFileName_ returns 0 and changes nothing exactly for the last name
    "zz...z", and otherwise produces the name of the next number in base 26:
    names are handed out in order and never twice. *)
Theorem incrGlobalFileName_counts (name post : bytes) :
  Forall isLetter name ->
  (nameVal name = 26 ^ Z.of_nat (length name) - 1 /\
   incrGlobalFileName_ (R := False) (name ++ post) (length name) = Ok (false, name ++ post)) \/
  (nameVal name < 26 ^ Z.of_nat (length name) - 1 /\
   exists name', incrGlobalFileName_ (R := False) (name ++ post) (length name)
                 = Ok (true, name' ++ post) /\
     Forall isLetter name' /\ length name' = length name /\ nameVal name' = nameVal name + 1 /\
     forall other, Forall isLetter other -> length other = length name ->
       nameVal other <= nameVal name -> other <> name').
Proof.
  intros Hl. destruct (incr_spec (R := False) name post Hl) as [H|(Hb & n' & E & H1 & H2 & H3)]; [by left|right].
  split; [done|]. exists n'. split_and!; try done. intros other _ _ Hle ->. lia.
Qed.

(** ** Hostile packages *)

(** The head of a file whose name has the size -48, and no shares. *)
Definition loopingPackage : bytes := le32 (-48) ++ replicate 44 Byte.x00.

Lemma firstFiles_looping {W} `{World W} uid fuel (out : FirstOut) (s : minDedupCore W) :
  firstFiles fuel uid loopingPackage 48 (0, out) s = Hang.
Proof. revert s. induction fuel as [|fuel IH]; intros s; [done|]. exact (IH s). Qed.

(** C37: a package can keep the server busy for ever.  The sizes in the metadata
    are not checked: a name size of -48 takes the offset back to the start of
    the head, and the first stage never returns, whatever the number of rounds. *)
Theorem firstStageDedup_loops {W} {WW : World W} (uid : Z) (stat : list bool) (fuel : nat)
    (s : minDedupCore W) :
  firstStageDedup (ret := False) fuel uid loopingPackage 48 stat s = Hang.
Proof.
  unfold firstStageDedup, call. cbn [mbind SM_bind].
  unfold mbind, SM_bind. by rewrite firstFiles_looping.
Qed.
