(* ===== verification/MinExamples.v ===== *)
(** * The data server on concrete inputs

    Instances of the theorems of MinTheorems.v on a configuration with small
    buffers, and runs of the model that show where the code does not keep its
    data: each is an equation that evaluation decides. *)

From stdpp Require Import base list numbers gmap functions.
From coqutil Require Import Byte.
From Stdlib Require Import Lia Strings.String.
From S2P Require Import Prelude Structs FileNames World CryptoPrimitive MinDedupCore MinStages MinRestore ShareIndex MinInvariant MinNodes MinIndex MinPackage MinUpload MinRestoreProof MinTheorems.

Local Open Scope Z_scope.

Module MinWitness.
Import SampleSSL.

Definition str (s : string) : bytes := list_byte_of_string s.

#[local] Instance small : Limits := {|
  RECIPE_BUFFER_SIZE := 64; CONTAINER_BUFFER_SIZE := 16; SHARE_FILE_BUFFER_SIZE := 48;
  NUM_OF_CACHED_CONTAINERS := 2; MAX_BUFFER_WAIT := 1000 |}.

Lemma small_ok : LimitsOk.
Proof. split; vm_compute; repeat split; try discriminate; lia. Qed.
#[local] Existing Instance small_ok.

Abbreviation sha := (digest EVP_sha256).
Abbreviation Mem := (MemWorld false false).

Definition share1 : bytes := str "hello"%string.
Definition share2 : bytes := str "metadata"%string.
Definition share3 : bytes := str "dedup"%string.

Definition entryOf (d : bytes) : ShareMD :=
  {| sm_fp := sha d; sm_secretID := 7; sm_secretSize := 9; sm_size := List.length d |}.
Definition fileOf (shares : list bytes) : FileMD :=
  {| fm_mid := replicate 28 Byte.x00; fm_end := replicate 12 Byte.x00; fm_name := str "a.txt"%string;
     fm_shares := entryOf <$> shares |}.
Definition package : list FileMD := [fileOf [share1; share2]; fileOf [share1; share3]].
Definition data : bytes := share1 ++ share2 ++ share1 ++ share3.
Definition stat0 : list bool := replicate 8 true.

Definition s0 : minDedupCore Mem := started (freshMem 1) (str "sc/"%string).

Lemma s0_Inv : Inv sha noShares s0 [] 0 0.
Proof. apply Inv_started. intros fp. apply lookup_empty. Qed.

Lemma s0_unlocked : unlocked s0.
Proof. done. Qed.

(** A test for [authentic]. *)
Fixpoint authAt (off : nat) (sel : list ShareMD) : bool :=
  match sel with
  | [] => true
  | e :: sel' => bool_decide (sha (take (sm_size e) (drop off data)) = sm_fp e)
                 && authAt (off + sm_size e) sel'
  end.

Lemma authAt_spec sel : forall off, authAt off sel = true ->
  forall x e y, sel = x ++ e :: y ->
    sha (take (sm_size e) (drop (off + Z.to_nat (totalSize x)) data)) = sm_fp e.
Proof.
  induction sel as [|e0 sel IH]; intros off H x e y E; [by destruct x|].
  cbn [authAt] in H. apply andb_true_iff in H as [H1 H2]. destruct x as [|x0 x]; cbn in E; simplify_eq.
  - apply bool_decide_eq_true in H1. cbn. by rewrite Nat.add_0_r.
  - rewrite <- (IH _ H2 x e y eq_refl). do 3 f_equal. cbn. fold (totalSize x).
    pose proof (totalSize_nonneg x). lia.
Qed.

Lemma good : goodUpload sha 1 noShares 0 package [] data stat0 2.
Proof.
  split; try (cbn; lia).
  - unfold int32. lia.
  - repeat constructor; cbn; unfold int32; lia.
  - repeat constructor; cbn; by eexists.
  - vm_compute. done.
  - repeat constructor; vm_compute; done.
  - vm_compute. done.
  - assert (authAt 0 (toSend 1 noShares (sharesOf package)) = true) as H by (vm_compute; reflexivity).
    intros x e y E. rewrite <- (authAt_spec _ 0 H x e y E). by rewrite Nat.add_0_l.
Qed.


(** The package, its size and the flags of the first stage. *)
Abbreviation md := (encodePackage package ++ []).
Abbreviation mdSize := (Z.of_nat (List.length (encodePackage package))).
Abbreviation flags := (flagsOf 1 noShares package stat0).

Lemma upload_correct_witness :
  exists s1 s2 A2 l2 k2,
    firstStageDedup (ret := False) 2 1 md mdSize stat0 s0
      = Ok ((true, (flags, List.length (sharesOf package), totalSize (toSend 1 noShares (sharesOf package)))), s1) /\
    secondStageDedup (ret := False) 2 1 md mdSize flags data (Some shaCrypto) s1 = Ok (true, s2) /\
    unlocked s2 /\ shareContainerDirName_ s2 = shareContainerDirName_ s0 /\
    Inv sha A2 s2 l2 k2 (0 + 1 + 2 * Z.of_nat (List.length (sharesOf package))) /\
    (forall u fp, refsOf u (refs A2 fp) = refsOf u (refs noShares fp)
                   + (if decide (u = 1) then occurrences fp (sharesOf package) else 0)).
Proof.
  exact (upload_correct sha shaCrypto 1 noShares s0 [] 0 0 package [] data stat0 2 s0_unlocked s0_Inv good).
Defined.

(** Recipes of two shares, and their file. *)
Definition recipeOf (shares : list bytes) : Recipe :=
  {| rc_user := 1; rc_pad1 := replicate 4 Byte.x00; rc_fileSize := 99; rc_pad2 := replicate 4 Byte.x00;
     rc_entries := (fun d => {| re_fp := sha d; re_secretID := 3; re_secretSize := 4 |}) <$> shares |}.
Definition recipe : Recipe := recipeOf [share3; share1].
Definition recipe2 : Recipe := recipeOf [share2; share1].
Definition recipePath : bytes := str "recipe"%string.
Definition addFile {df db} (w : MemWorld df db) (path d : bytes) : MemWorld df db :=
  memSet w (set_files (mem w) (<[path := d]> (files (mem w)))).

Lemma recipeOf_wf a b : wfRecipe (recipeOf [a; b]).
Proof.
  split; [reflexivity|reflexivity|unfold int64; cbn [rc_fileSize recipeOf]; lia|unfold int32; cbn; lia|].
  repeat constructor; unfold int32; cbn [re_secretID re_secretSize]; lia.
Qed.

Lemma upload_restore_roundtrip_witness :
  exists s1 s2 num size,
    firstStageDedup (ret := False) 2 1 md mdSize stat0 s0 = Ok ((true, (flags, num, size)), s1) /\
    secondStageDedup (ret := False) 2 1 md mdSize flags data (Some shaCrypto) s1 = Ok (true, s2) /\
    exists s3 shares payloads pad,
        restoreShareFile (ret := False) recipePath (Some shaCrypto)
          (set_world s2 (addFile (world s2) recipePath (encodeRecipe recipe))) = Ok (true, s3) /\
        Forall2 (fun e share => sha share = re_fp e) (rc_entries recipe) shares /\ List.length pad = 4%nat /\
        mjoin payloads = (le64 99 ++ le32 2 ++ pad) ++ encodeRestoredAll (rc_entries recipe) shares.
Proof.
  destruct (upload_restore_roundtrip sha shaCrypto 1 noShares s0 [] 0 0 package [] data stat0 2
              s0_unlocked s0_Inv good) as (s1 & s2 & num & size & E1 & E2 & _ & H).
  exists s1, s2, num, size. split; [exact E1|]. split; [exact E2|].
  destruct (H (addFile (world s2) recipePath (encodeRecipe recipe)) recipePath recipe) as (s3 & sh & ps & pad & H1 & H2 & H3 & H4 & _).
  - reflexivity.
  - intros i name _. cbn [view memWorldLaws addFile memSet mem files set_files]. by apply lookup_insert_ne.
  - apply recipeOf_wf.
  - cbn [view memWorldLaws addFile memSet mem files set_files]. apply lookup_insert_eq.
  - repeat constructor; apply elem_of_list_In; vm_compute; tauto.
  - exists s3, sh, ps, pad. split; [exact H1|]. split; [exact H2|]. split; [exact H3|exact H4].
Defined.

(** ** A state with a share in a container file and one in a buffer *)

Definition nameOf (last : byte) : bytes := replicate 11 letter_a ++ [last] ++ postfix_sc.
Definition infoOf (last : byte) (d : bytes) : ShareInfo :=
  {| si_name := nameOf last; si_off := 0; si_size := List.length d; si_refs := [(1, 1)] |}.
Definition node1 : perUserBufferNode :=
  {| userID := 1; shareContainerName := nameOf Byte.x62 ++ [Byte.x00];
     shareContainerBuffer := share2 ++ replicate 8 Byte.xff; shareContainerBufferCurrLen := 8;
     lastUseTime := 0; next := None |}.
Definition index1 : Index := fun fp =>
  if decide (fp = sha share1) then Some (infoOf letter_a share1)
  else if decide (fp = sha share2) then Some (infoOf Byte.x62 share2) else None.
Definition nodes1 : nodeList := [(1%positive, node1)].
Definition s1 : minDedupCore Mem :=
  {| world := {| mem := {| contents := <[shareFP2IndexKey_ (sha share1) := encodeInfo (infoOf letter_a share1)]>
                              {[shareFP2IndexKey_ (sha share2) := encodeInfo (infoOf Byte.x62 share2)]};
                           files := <[str "sc/"%string ++ nameOf letter_a := share1]>
                              {[recipePath := encodeRecipe recipe2 ]}; sent := [] |};
                 clock := 5000; tick := 1 |};
     heap := list_to_map nodes1; headBufferNode_ := Some 1%positive; tailBufferNode_ := Some 1%positive;
     globalShareContainerName_ := nameOf Byte.x63; shareContainerDirName_ := str "sc/"%string;
     DBLock_ := false; bufferLock_ := false; globalShareContainerNameLock_ := false |}.

Lemma nameOf_ok (last : byte) : isLetter last -> isContainerName (byte.unsigned last - 97) (nameOf last).
Proof.
  intros Hl. exists (replicate 11 letter_a ++ [last]). split_and!.
  - by rewrite <- app_assoc.
  - apply Forall_app. split; [apply Forall_replicate; unfold isLetter; done|by constructor].
  - reflexivity.
  - rewrite nameVal_app. change (nameVal (replicate 11 letter_a)) with 0. cbn. unfold digitOf. lia.
Qed.

Lemma stored1 (C : bytes -> option bytes) (last : byte) (d c : bytes) :
  isLetter last -> byte.unsigned last - 97 < 2 -> goodSize (Z.of_nat (List.length d)) ->
  C (nameOf last) = Some c -> take (List.length d) c = d -> stored sha C 2 2 (sha d) (infoOf last d).
Proof.
  intros Hl Hb Hs HC Hd. split; cbn [infoOf si_name si_off si_size si_refs].
  - exists (byte.unsigned last - 97). split; [by apply nameOf_ok|]. unfold isLetter in Hl. lia.
  - done.
  - destruct Hs. lia.
  - split; cbn; [apply NoDup_singleton|repeat constructor; lia|repeat constructor; lia|lia].
  - exists c. split; [done|]. rewrite drop_0, Hd. split; [|done].
    rewrite <- Hd at 1. rewrite length_take. lia.
Qed.

Lemma s1_Inv : Inv sha index1 s1 nodes1 2 2.
Proof.
  split; cbn [heap headBufferNode_ tailBufferNode_ globalShareContainerName_ world shareContainerDirName_ s1 nodes1].
  - split; [reflexivity|apply NoDup_singleton|by split|reflexivity].
  - apply (nameOf_ok Byte.x63). unfold isLetter. cbn. lia.
  - lia.
  - constructor; [|constructor]. split; [|reflexivity|cbn; lia].
    exists 1, (nameOf Byte.x62). split_and!; [reflexivity| |lia|lia].
    apply (nameOf_ok Byte.x62). unfold isLetter. cbn. lia.
  - apply NoDup_singleton.
  - apply NoDup_singleton.
  - split.
    + intros fp. unfold index1. cbn [view memWorldLaws mem contents].
      destruct (decide (fp = sha share1)) as [->|N1]; [by rewrite lookup_insert_eq|].
      rewrite lookup_insert_ne by (intros E; injection E; congruence).
      destruct (decide (fp = sha share2)) as [->|N2]; [by rewrite lookup_singleton_eq|].
      apply lookup_singleton_ne. intros E; injection E; congruence.
    + intros fp i E. unfold index1 in E.
      destruct (decide (fp = sha share1)) as [->|N1]; [injection E as <-|].
      * apply (stored1 _ letter_a share1 share1); vm_compute; done.
      * destruct (decide (fp = sha share2)) as [->|N2]; [injection E as <-|done].
        apply (stored1 _ Byte.x62 share2 share2); vm_compute; done.
Qed.

Lemma restoreShareFile_correct_witness :
  exists s' shares payloads pad,
    restoreShareFile (ret := False) recipePath (Some shaCrypto) s1 = Ok (true, s') /\ unlocked s' /\
    contents (view (world s')) = contents (view (world s1)) /\
    Forall2 (fun e share => sha share = re_fp e) (rc_entries recipe2) shares /\ List.length pad = 4%nat /\
    mjoin payloads = (le64 (rc_fileSize recipe2) ++ le32 (Z.of_nat (List.length (rc_entries recipe2))) ++ pad)
                     ++ encodeRestoredAll (rc_entries recipe2) shares /\
    Forall (fun m => List.length m <= SHARE_FILE_BUFFER_SIZE)%nat payloads /\
    sent (view (world s')) = sent (view (world s1)) ++ (message <$> payloads).
Proof.
  apply (restoreShareFile_correct sha shaCrypto index1 s1 nodes1 2 2 recipePath recipe2).
  - by split.
  - exact s1_Inv.
  - apply recipeOf_wf.
  - reflexivity.
  - repeat constructor; vm_compute; by eexists.
Defined.


Lemma cleanupAllBufferNodes_correct_witness :
  exists s', cleanupAllBufferNodes (ret := False) s1 = Ok (true, s') /\ unlocked s' /\ heap s' = ∅ /\
    represents (contents (view (world s'))) index1 /\
    forall fp i, index1 fp = Some i -> exists c,
      files (view (world s')) !! (shareContainerDirName_ s1 ++ si_name i) = Some c /\
      sha (take (si_size i) (drop (si_off i) c)) = fp.
Proof. apply (cleanupAllBufferNodes_correct sha index1 s1 nodes1 2 2); [by split|exact s1_Inv]. Defined.

Lemma incrGlobalFileName_counts_witness :
  exists name', incrGlobalFileName_ (R := False) (str "azz.sc"%string) 3 = Ok (true, name' ++ str ".sc"%string) /\
    nameVal name' = nameVal (str "azz"%string) + 1.
Proof.
  destruct (incrGlobalFileName_counts (str "azz"%string) (str ".sc"%string)) as [[H _]|(_ & n' & H & _ & _ & Hv & _)].
  - repeat constructor; discriminate.
  - vm_compute in H. discriminate.
  - by exists n'.
Defined.

(** The same objects over a database whose writes fail. *)
Definition sFull : minDedupCore (MemWorld false true) := started (freshMem 1) (str "sc/"%string).

Lemma secondStageDedup_safe_witness :
  exists ok s' A' l' k',
    secondStageDedup (ret := False) 2 1 md mdSize (replicate 4 false) data (Some shaCrypto) sFull = Ok (ok, s') /\
    unlocked s' /\ Inv sha A' s' l' k' (0 + 1 + Z.of_nat (List.length (sharesOf package))).
Proof.
  apply (secondStageDedup_safe sha shaCrypto 1 noShares sFull [] 0 0 package [] data (replicate 4 false) 2).
  - unfold int32. lia.
  - by split.
  - apply Inv_started. intros fp. apply lookup_empty.
  - exact (gu_files _ _ _ _ _ _ _ _ _ good).
  - cbn. lia.
  - cbn. lia.
  - cbn. lia.
  - vm_compute. reflexivity.
  - vm_compute. reflexivity.
  - repeat constructor; vm_compute; done.
  - vm_compute. discriminate.
Defined.
End MinWitness.

(** ** Runs that lose data or crash

    Where the code does not do what it means to, on concrete inputs. *)

Module MinRuns.
Import SampleSSL MinWitness.
#[local] Existing Instance small.

(** A client that sends one file of shares, and the two stages of the server on
    it, as server.cc calls them (it ignores their results). *)
Definition upload {df db} (uid : Z) (shares : list bytes) : SM (minDedupCore (MemWorld df db)) False bool :=
  let f := [fileOf shares] in
  let size := Z.of_nat (List.length (encodePackage f)) in
  '(_, (stat, _, _)) ← firstStageDedup 1 uid (encodePackage f) size (replicate 4 true);
  secondStageDedup 1 uid (encodePackage f) size stat
    (mjoin (imap (fun i d => if (nth i stat true : bool) then [] else d) shares)) (Some shaCrypto).

(** Removing the first of two nodes sets the tail to NULL although a node is
    left; the next user that needs a node makes the server dereference it. *)
Example cleanupUserBufferNode_two_nodes :
  (_ ← findOrCreateBufferNode_ (ret := False) 1;
   _ ← findOrCreateBufferNode_ 2;
   ok ← cleanupUserBufferNode 1;
   _ ← findOrCreateBufferNode_ 3;
   mret ok) s0 = UB.
Proof. vm_compute. reflexivity. Qed.

(** A user without a node: the error message reads the missing node. *)
Example cleanupUserBufferNode_absent : cleanupUserBufferNode (ret := False) 1 s0 = UB.
Proof. vm_compute. reflexivity. Qed.

(** The container names start again with every object, the database does not:
    after a restart a new container overwrites an old one, and the share that
    was in it is delivered with other bytes. *)
Example restart_overwrites :
  match upload 1 [share3] s0 with
  | Ok (true, s) => match cleanupAllBufferNodes (ret := False) s with
    | Ok (true, s') => match upload 1 [share1] (started (world s') (str "sc/"%string)) with
      | Ok (true, s3) =>
          match restoreShareFile (ret := False) recipePath (Some shaCrypto)
                  (set_world s3 (addFile (world s3) recipePath (encodeRecipe (recipeOf [share3])))) with
          | Ok (ok, s4) => ok && bool_decide (drop 24 (mjoin (sent (mem (world s4))))
                                              = encodeRestored 3 4 share1)
          | _ => false end
      | _ => false end
    | _ => false end
  | _ => false
  end = true.
Proof. vm_compute. reflexivity. Qed.

(** A share larger than a container: when the buffer is not empty it is written
    out, and the copy then runs over the end of the buffer. *)
Example oversize_share_overflows :
  upload (df := false) (db := false) 1 [share1; replicate 17 Byte.x61] s0 = UB.
Proof. vm_compute. reflexivity. Qed.

(** A node that is too old is freed although its container could not be
    written: the share stays in the index and its bytes are nowhere. *)
Example failed_flush_loses_shares :
  match upload 1 [share1] (started (freshMem 2000 : MemWorld true false) (str "sc/"%string)) with
  | Ok (true, s) => match findOrCreateBufferNode_ (ret := False) 2 s with
    | Ok (_, s') => bool_decide (is_Some (contents (mem (world s')) !! shareFP2IndexKey_ (sha share1)))
                    && bool_decide (files (mem (world s')) = ∅)
                    && forallb (fun n => shareContainerBufferCurrLen n =? 0) (map_to_list (heap s')).*2
    | _ => false end
  | _ => false
  end = true.
Proof. vm_compute. reflexivity. Qed.

(** The result of storing the index entry is ignored: with a database that
    refuses writes the second stage reports success and the share is not
    indexed. *)
Example failed_put_reported_as_success :
  match upload 1 [share1] sFull with
  | Ok (ok, s) => ok && bool_decide (contents (mem (world s)) = ∅)
  | _ => false
  end = true.
Proof. vm_compute. reflexivity. Qed.
End MinRuns.
