(* ===== verification/RingBuffer.v ===== *)
(** * RingBuffer

    client/utils/BasicRingBuffer.hh, the bounded queue between the threads of the
    client.  The buffer is a record; a system is a buffer, its mutex and the
    threads that call its methods.  A step lets one thread run up to its next
    synchronisation point: taking the mutex, the test of the count, the wake-up
    from [pthread_cond_wait], the rest of the method.  The steps that touch the
    buffer are taken with the mutex held, so that no finer interleaving of them
    exists. *)

From stdpp Require Import base list numbers relations.
From coqutil Require Import Byte.
From Stdlib Require Import Lia.
From S2P Require Import Prelude.

Local Open Scope Z_scope.

(** [Buffer_t]; [slotData] are the bytes of a [T]. *)
Record Buffer_t := { slotLen : Z; slotData : bytes }.

Record RingBuffer := {
  buffer : list Buffer_t;
  readIndex : Z;
  writeIndex : Z;
  count : Z;
  max : Z;
  run : bool;
  blockOnEmpty : bool;
}.

(** [junk] is the content of the memory the constructor allocates. *)
Definition new_RingBuffer (size : Z) (block : bool) (junk : Buffer_t) : RingBuffer :=
  let size := if size <? 2 then 2 else size in
  {| buffer := replicate (Z.to_nat size) junk; readIndex := 0; writeIndex := 0; count := 0;
     max := size; run := true; blockOnEmpty := block |}.

Definition nextVal (rb : RingBuffer) (x : Z) : Z := if x + 1 >=? max rb then 0 else x + 1.

(** Insert behind the wait: store the element and count it. *)
Definition put {R} (rb : RingBuffer) (data : bytes) (len : Z) : res R RingBuffer :=
  i ← sz (writeIndex rb);
  slot ← aget (buffer rb) i;
  n ← sz len;
  d ← memcpy (slotData slot) 0 data 0 n;
  b ← aset (buffer rb) i {| slotLen := len; slotData := d |};
  c ← sint (count rb + 1);
  Ok {| buffer := b; readIndex := readIndex rb; writeIndex := nextVal rb (writeIndex rb);
        count := c; max := max rb; run := run rb; blockOnEmpty := blockOnEmpty rb |}.

(** Extract behind the wait: copy the element to [data] and uncount it. *)
Definition get {R} (rb : RingBuffer) (data : bytes) : res R (RingBuffer * bytes) :=
  i ← sz (readIndex rb);
  slot ← aget (buffer rb) i;
  n ← sz (slotLen slot);
  d ← memcpy data 0 (slotData slot) 0 n;
  c ← sint (count rb - 1);
  Ok ({| buffer := buffer rb; readIndex := nextVal rb (readIndex rb); writeIndex := writeIndex rb;
         count := c; max := max rb; run := run rb; blockOnEmpty := blockOnEmpty rb |}, d).

Definition set_run (rb : RingBuffer) (b : bool) : RingBuffer :=
  {| buffer := buffer rb; readIndex := readIndex rb; writeIndex := writeIndex rb; count := count rb;
     max := max rb; run := b; blockOnEmpty := blockOnEmpty rb |}.

(** ** Threads *)

(** The calls a thread makes. *)
Inductive call :=
| Insert (data : bytes) (len : Z)
| Extract (data : bytes)
| StopWhenEmptied.

Inductive cond := cvEmpty | cvFull.

(** Where a thread is in its current call: before [pthread_mutex_lock]; with the
    mutex, before the test; in [pthread_cond_wait]; signalled, but without the
    mutex; with the mutex, behind the test and the wait; behind
    [pthread_mutex_unlock] (StopWhenEmptied only). *)
Inductive pc := Entry | Locked | Waiting (cv : cond) | Woken | Body | Unlocked.

#[global] Instance cond_eq_dec : EqDecision cond.
Proof. solve_decision. Defined.
#[global] Instance pc_eq_dec : EqDecision pc.
Proof. solve_decision. Defined.

(** [results]: the return value and the buffer of every finished Extract. *)
Record thread := { todo : list call; pos : pc; results : list (Z * bytes) }.

Record System := { ring : RingBuffer; mAccess : option nat; threads : list thread }.

Definition goto (t : thread) (p : pc) : thread := {| todo := todo t; pos := p; results := results t |}.
(** The end of the current call. *)
Definition finish (t : thread) (out : list (Z * bytes)) : thread :=
  {| todo := tail (todo t); pos := Entry; results := results t ++ out |}.

Definition waiters (cv : cond) (ts : list thread) : list nat :=
  (filter (fun p => pos p.2 = Waiting cv) (imap pair ts)).*1.

(** [pthread_cond_signal]: one of the waiting threads, the [w]-th, goes on. *)
Definition signal (cv : cond) (w : nat) (ts : list thread) : list thread :=
  match waiters cv ts !! (w mod length (waiters cv ts))%nat with
  | Some j => alter (fun t => goto t Woken) j ts
  | None => ts
  end.

(** Thread [i] takes a step; [w] chooses the thread a signal wakes up.  [None]: the
    thread has to wait or is done. *)
Definition stepThread (i w : nat) (s : System) : option (res False System) :=
  t ← threads s !! i;
  c ← head (todo t);
  let upd t' := <[i := t']> (threads s) in
  match pos t, c with
  | Entry, _ | Woken, _ =>
      match mAccess s with
      | None => Some (Ok {| ring := ring s; mAccess := Some i;
                            threads := upd (goto t (if decide (pos t = Entry) then Locked else Body)) |})
      | Some _ => None
      end
  | Locked, Insert _ _ =>
      Some (Ok (if count (ring s) =? max (ring s)
                then {| ring := ring s; mAccess := None; threads := upd (goto t (Waiting cvFull)) |}
                else {| ring := ring s; mAccess := Some i; threads := upd (goto t Body) |}))
  | Locked, Extract data =>
      Some (Ok (if count (ring s) =? 0
                then if negb (blockOnEmpty (ring s))
                     then {| ring := ring s; mAccess := None;
                             threads := signal cvFull w (upd (finish t [(-1, data)])) |}
                     else {| ring := ring s; mAccess := None; threads := upd (goto t (Waiting cvEmpty)) |}
                else {| ring := ring s; mAccess := Some i; threads := upd (goto t Body) |}))
  | Body, Insert data len =>
      Some (rb ← put (ring s) data len;
            Ok {| ring := rb; mAccess := None; threads := signal cvEmpty w (upd (finish t [])) |})
  | Body, Extract data =>
      Some ('(rb, d) ← get (ring s) data;
            Ok {| ring := rb; mAccess := None; threads := signal cvFull w (upd (finish t [(0, d)])) |})
  | Locked, StopWhenEmptied =>
      Some (Ok {| ring := set_run (ring s) false; mAccess := None; threads := upd (goto t Unlocked) |})
  | Unlocked, StopWhenEmptied =>
      Some (Ok {| ring := ring s; mAccess := mAccess s; threads := signal cvEmpty w (upd (finish t [])) |})
  | _, _ => None
  end.

Definition step (s s' : System) : Prop := exists i w, stepThread i w s = Some (Ok s').

(** POSIX lets a waiting thread wake up without a signal. *)
Definition spurious (i : nat) (s : System) : System :=
  {| ring := ring s; mAccess := mAccess s;
     threads := alter (fun t => match pos t with Waiting _ => goto t Woken | _ => t end) i (threads s) |}.

(** A schedule: which thread moves, and which waiter a signal wakes. *)
Fixpoint execute (sched : list (nat * nat)) (s : System) : option (res False System) :=
  match sched with
  | [] => Some (Ok s)
  | (i, w) :: sched' =>
      match stepThread i w s with
      | Some (Ok s') => execute sched' s'
      | r => r
      end
  end.

(** ** The buffer as a queue *)

Definition payload (b : Buffer_t) : bytes := take (Z.to_nat (slotLen b)) (slotData b).

(** The occupied slots, oldest first. *)
Definition slotAt (rb : RingBuffer) (i : nat) : option Buffer_t :=
  buffer rb !! Z.to_nat ((readIndex rb + Z.of_nat i) mod max rb).

Definition queueOf (rb : RingBuffer) : list bytes :=
  (fun i => default [] (payload <$> slotAt rb i)) <$> seq 0 (Z.to_nat (count rb)).

Section Queue.
(** [sizeof(T)] *)
Context (tsize : nat).

Record wfRing (rb : RingBuffer) : Prop := {
  wr_max : 2 <= max rb < 2 ^ 31;
  wr_buffer : Z.of_nat (length (buffer rb)) = max rb;
  wr_slots : Forall (fun b => length (slotData b) = tsize) (buffer rb);
  wr_read : 0 <= readIndex rb < max rb;
  wr_count : 0 <= count rb <= max rb;
  wr_write : writeIndex rb = (readIndex rb + count rb) mod max rb;
  wr_filled : forall i, (i < Z.to_nat (count rb))%nat -> exists b,
    slotAt rb i = Some b /\ 0 <= slotLen b <= Z.of_nat tsize;
}.

Lemma nextVal_mod rb x : wfRing rb -> 0 <= x < max rb -> nextVal rb x = (x + 1) mod max rb.
Proof.
  intros [[H1 H2] _ _ _ _ _ _] Hx. unfold nextVal.
  destruct (Z.geb_spec (x + 1) (max rb)).
  - replace (x + 1) with (max rb) by lia. by rewrite Z_mod_same_full.
  - by rewrite Z.mod_small by lia.
Qed.

Lemma slot_index rb i : wfRing rb ->
  (Z.to_nat ((readIndex rb + Z.of_nat i) mod max rb) < length (buffer rb))%nat.
Proof.
  intros [[H1 H2] H3 _ _ _ _ _].
  pose proof (Z.mod_pos_bound (readIndex rb + Z.of_nat i) (max rb)). lia.
Qed.

(** Different slots have different indices. *)
Lemma index_inj m r i j : 0 < m -> 0 <= i < m -> 0 <= j < m -> (r + i) mod m = (r + j) mod m -> i = j.
Proof.
  intros Hm Hi Hj E.
  pose proof (Z.div_mod (r + i) m ltac:(lia)) as E1. pose proof (Z.div_mod (r + j) m ltac:(lia)) as E2.
  assert (m * ((r + i) / m - (r + j) / m) = i - j) as E3 by lia.
  assert ((r + i) / m - (r + j) / m = 0) by nia. lia.
Qed.

Lemma new_RingBuffer_wf size block junk :
  size < 2 ^ 31 -> length (slotData junk) = tsize ->
  wfRing (new_RingBuffer size block junk) /\ queueOf (new_RingBuffer size block junk) = [].
Proof.
  intros Hs Hj. split; [|done]. unfold new_RingBuffer.
  split; cbn; destruct (Z.ltb_spec size 2); try lia.
  - rewrite length_replicate. lia.
  - rewrite length_replicate. lia.
  - by repeat constructor.
  - by apply Forall_replicate.
  - done.
  - by rewrite Z.mod_small by lia.
Qed.

Lemma queueOf_length rb : length (queueOf rb) = Z.to_nat (count rb).
Proof. unfold queueOf. by rewrite length_fmap, length_seq. Qed.

Lemma queueOf_lookup rb i b :
  (i < Z.to_nat (count rb))%nat -> slotAt rb i = Some b -> queueOf rb !! i = Some (payload b).
Proof.
  intros Hi Hb. unfold queueOf. rewrite list_lookup_fmap, lookup_seq_lt by done. cbn. by rewrite Hb.
Qed.

(** Storing an element appends it to the queue. *)
Lemma put_spec {R} rb data len :
  wfRing rb -> count rb < max rb -> 0 <= len <= Z.of_nat tsize -> len <= Z.of_nat (length data) ->
  exists rb', put (R := R) rb data len = Ok rb' /\ wfRing rb' /\ max rb' = max rb /\
    blockOnEmpty rb' = blockOnEmpty rb /\ count rb' = count rb + 1 /\
    queueOf rb' = queueOf rb ++ [take (Z.to_nat len) data].
Proof.
  intros WF Hc Hlen Hd. pose proof WF as [[M1 M2] HB HS HR HC HW HF].
  assert (Z.to_nat (writeIndex rb) < length (buffer rb))%nat as Hi.
  { rewrite HW. pose proof (slot_index rb (Z.to_nat (count rb)) WF) as H. by rewrite Z2Nat.id in H by lia. }
  destruct (lookup_lt_is_Some_2 _ _ Hi) as [b Hb].
  assert (length (slotData b) = tsize) as Hbl by (rewrite Forall_lookup in HS; by eapply HS).
  unfold put. pose proof (Z.mod_pos_bound (readIndex rb + count rb) (max rb) ltac:(lia)) as Hwb.
  rewrite (sz_ok (writeIndex rb)) by (rewrite HW; lia). cbn [mbind res_bind]. rewrite (aget_ok _ _ _ Hb). cbn [mbind res_bind].
  rewrite sz_ok by lia. cbn [mbind res_bind]. rewrite memcpy_ok by lia. cbn [mbind res_bind].
  rewrite aset_ok by done. cbn [mbind res_bind]. rewrite sint_ok by lia. cbn [mbind res_bind].
  set (d := take 0 _ ++ _). set (b' := {| slotLen := len; slotData := d |}).
  assert (payload b' = take (Z.to_nat len) data) as Hp.
  { unfold payload, b', d. cbn [slotLen slotData]. rewrite take_0, drop_0. cbn [app].
    rewrite take_app_le by (rewrite length_take; lia). rewrite take_take. f_equal. lia. }
  set (rb' := {| buffer := _ |}). exists rb'. split; [done|].
  assert (forall i, (i < Z.to_nat (count rb))%nat -> slotAt rb' i = slotAt rb i) as Hold.
  { intros i Hlt. unfold slotAt, rb'. cbn [buffer readIndex max]. apply list_lookup_insert_ne.
    rewrite HW. intros E. apply Z2Nat.inj in E; [|lia|apply Z.mod_pos_bound; lia].
    apply index_inj in E; lia. }
  assert (slotAt rb' (Z.to_nat (count rb)) = Some b') as Hnew.
  { unfold slotAt, rb'. cbn [buffer readIndex max]. rewrite Z2Nat.id, HW by lia.
    rewrite HW in Hi. by apply list_lookup_insert_eq. }
  assert (Z.to_nat (count rb') = S (Z.to_nat (count rb))) as Ec by (cbn; lia).
  split; [split|split_and!]; try done; cbn [max buffer readIndex count writeIndex rb']; try lia.
  - by rewrite length_insert.
  - apply Forall_insert; [done|]. cbn. unfold d. lens.
  - rewrite (nextVal_mod _ _ WF), HW by (rewrite HW; lia). rewrite Zplus_mod_idemp_l. f_equal. lia.
  - intros i Hlt. destruct (decide (i = Z.to_nat (count rb))) as [->|].
    + exists b'. split; [done|]. cbn. lia.
    + rewrite Hold by lia. apply HF. lia.
  - unfold queueOf. rewrite Ec, seq_S, fmap_app. cbn. rewrite Hnew. cbn. rewrite Hp. f_equal.
    apply list_fmap_ext. intros i x Hx. apply lookup_seq in Hx as [-> Hlt]. by rewrite Hold.
Qed.

(** Taking an element removes the head of the queue. *)
Lemma get_spec {R} rb data :
  wfRing rb -> 0 < count rb -> (tsize <= length data)%nat ->
  exists rb' x, get (R := R) rb data = Ok (rb', x ++ drop (length x) data) /\ wfRing rb' /\
    max rb' = max rb /\ blockOnEmpty rb' = blockOnEmpty rb /\ count rb' = count rb - 1 /\
    queueOf rb = x :: queueOf rb'.
Proof.
  intros WF Hc Hd. pose proof WF as [[M1 M2] HB HS HR HC HW HF].
  destruct (HF 0%nat ltac:(lia)) as (b & Hb & Hl).
  assert (buffer rb !! Z.to_nat (readIndex rb) = Some b) as Hr.
  { unfold slotAt in Hb. by rewrite Z.add_0_r, Z.mod_small in Hb by lia. }
  assert (length (slotData b) = tsize) as Hbl by (rewrite Forall_lookup in HS; by eapply HS).
  unfold get. rewrite (sz_ok (readIndex rb)) by lia. cbn [mbind res_bind]. rewrite (aget_ok _ _ _ Hr). cbn [mbind res_bind].
  rewrite sz_ok by lia. cbn [mbind res_bind]. rewrite memcpy_ok by lia. cbn [mbind res_bind].
  rewrite sint_ok by lia. cbn [mbind res_bind take app]. rewrite drop_0.
  set (rb' := {| buffer := _ |}). exists rb', (payload b).
  assert (forall i, slotAt rb' i = slotAt rb (S i)) as Hs.
  { intros i. unfold slotAt, rb'. cbn [buffer readIndex max].
    rewrite (nextVal_mod _ _ WF), Zplus_mod_idemp_l by lia. do 3 f_equal. lia. }
  split.
  { replace (length (payload b)) with (Z.to_nat (slotLen b)); [done|].
    unfold payload. rewrite length_take. lia. }
  split; [split|split_and!]; try done; cbn [max buffer readIndex count writeIndex rb']; try lia.
  - rewrite (nextVal_mod _ _ WF) by lia. apply Z.mod_pos_bound. lia.
  - rewrite (nextVal_mod _ _ WF), Zplus_mod_idemp_l, HW by lia. f_equal. lia.
  - intros i Hlt. rewrite Hs. apply HF. lia.
  - unfold queueOf. cbn [count rb'].
    replace (Z.to_nat (count rb)) with (S (Z.to_nat (count rb - 1))) by lia. cbn [seq fmap list_fmap].
    rewrite Hb. cbn. f_equal. rewrite <- fmap_S_seq, <- list_fmap_compose. apply list_fmap_ext.
    intros i x _. cbn. by rewrite Hs.
Qed.
End Queue.

(** ** One producer and one consumer

    How the client uses its ring buffers: one thread inserts, one extracts, and
    Extract blocks on an empty buffer. *)

Lemma signal_second cv w t0 t1 :
  pos t0 = Entry ->
  signal cv w [t0; t1] = [t0; if decide (pos t1 = Waiting cv) then goto t1 Woken else t1].
Proof.
  intros H0. unfold signal, waiters. cbn [imap]. rewrite filter_cons_False by (cbn; by rewrite H0).
  unfold compose. case_decide as H1.
  - rewrite filter_cons_True, filter_nil by done. cbn [fmap list_fmap length fst]. by rewrite Nat.mod_1_r.
  - rewrite filter_cons_False, filter_nil by done. done.
Qed.

Lemma signal_first cv w t0 t1 :
  pos t1 = Entry ->
  signal cv w [t0; t1] = [if decide (pos t0 = Waiting cv) then goto t0 Woken else t0; t1].
Proof.
  intros H1. unfold signal, waiters. cbn [imap]. unfold compose. case_decide as H0.
  - rewrite filter_cons_True, filter_cons_False, filter_nil by (cbn; by rewrite ?H1). cbn [fmap list_fmap length fst]. by rewrite Nat.mod_1_r.
  - rewrite filter_cons_False, filter_cons_False, filter_nil by (cbn; by rewrite ?H1). done.
Qed.

(** A thread in this position has the mutex. *)
Definition holds (p : pc) : bool := match p with Locked | Body => true | _ => false end.

Section Pipe.
(** [sizeof(T)], the elements the producer inserts with their lengths, and the
    buffers the consumer extracts into. *)
Context (tsize : nat) (items : list (bytes * Z)) (dsts : list bytes).
Context (Hitems : Forall (fun it => 0 <= it.2 <= Z.of_nat tsize /\ it.2 <= Z.of_nat (length it.1)) items).
Context (Hdsts : Forall (fun d => tsize <= length d)%nat dsts).

Definition insertOf (it : bytes * Z) : call := Insert it.1 it.2.
Definition payloads : list bytes := (fun it => take (Z.to_nat it.2) it.1) <$> items.
(** The outcome of an Extract: it returns 0, and the element is at the start of
    the buffer. *)
Definition deliver (d x : bytes) : Z * bytes := (0, x ++ drop (length x) d).

Definition start (rb : RingBuffer) : System :=
  {| ring := rb; mAccess := None;
     threads := [ {| todo := insertOf <$> items; pos := Entry; results := [] |};
                  {| todo := Extract <$> dsts; pos := Entry; results := [] |} ] |}.

(** [np] elements were inserted and [nc] extracted; the threads are at [pp] and [pc]. *)
Record Pipe (s : System) (pp cp : pc) (np nc : nat) : Prop := {
  pi_threads : threads s =
    [ {| todo := insertOf <$> drop np items; pos := pp; results := [] |};
      {| todo := Extract <$> drop nc dsts; pos := cp;
         results := zip_with deliver (take nc dsts) (take nc payloads) |} ];
  pi_ring : wfRing tsize (ring s);
  pi_block : blockOnEmpty (ring s) = true;
  pi_bounds : (nc <= np <= length items)%nat /\ (nc <= length dsts)%nat;
  pi_queue : queueOf (ring s) = take (np - nc) (drop nc payloads);
  pi_count : count (ring s) = Z.of_nat np - Z.of_nat nc;
  pi_lock : mAccess s = (if holds pp then Some 0%nat else if holds cp then Some 1%nat else None) /\
            (holds pp && holds cp = false);
  pi_prod : match pp with
            | Waiting cvFull => count (ring s) = max (ring s)
            | Woken | Body => count (ring s) < max (ring s)
            | Entry | Locked => True
            | _ => False
            end;
  pi_cons : match cp with
            | Waiting cvEmpty => count (ring s) = 0
            | Woken | Body => 0 < count (ring s)
            | Entry | Locked => True
            | _ => False
            end;
  pi_done : (np = length items -> pp = Entry) /\ (nc = length dsts -> cp = Entry);
}.

Lemma start_Pipe rb :
  wfRing tsize rb -> blockOnEmpty rb = true -> queueOf rb = [] -> Pipe (start rb) Entry Entry 0 0.
Proof.
  intros WF HB HQ. split; try done; cbn; [lia|].
  pose proof (queueOf_length rb) as Hl. rewrite HQ in Hl. cbn in Hl. destruct WF. lia.
Qed.

(** What is left of the work of a thread in a position. *)
Definition rank (p : pc) : nat :=
  match p with Entry => 0 | Locked => 1 | Waiting _ => 2 | Woken => 3 | Body => 4 | Unlocked => 5 end.
Definition work (t : thread) : nat := 6 * length (todo t) - rank (pos t).
Definition works (s : System) : nat := list_sum (work <$> threads s).

Lemma works_two s t0 t1 : threads s = [t0; t1] -> works s = (work t0 + work t1)%nat.
Proof. unfold works. intros ->. cbn. lia. Qed.

Lemma drop_next {A} (l : list A) n x rest :
  drop n l = x :: rest -> l !! n = Some x /\ drop (S n) l = rest /\ (n < length l)%nat.
Proof.
  intros E. assert (l !! n = Some x) as Hx by (rewrite <- (Nat.add_0_r n), <- lookup_drop, E; done).
  split; [done|]. split; [|by eapply lookup_lt_Some].
  replace (S n) with (n + 1)%nat by lia. rewrite <- drop_drop, E. by rewrite skipn_cons, drop_0.
Qed.

(** A system with these two threads. *)
Lemma works_pipe s pp cp np nc : Pipe s pp cp np nc ->
  works s = (6 * (length items - np) - rank pp + (6 * (length dsts - nc) - rank cp))%nat.
Proof.
  intros HP. rewrite (works_two _ _ _ (pi_threads _ _ _ _ _ HP)). unfold work. cbn [todo pos].
  by rewrite !length_fmap, !length_drop.
Qed.

(** A step of the producer. *)
Lemma producer_step s pp cp np nc w r :
  Pipe s pp cp np nc -> stepThread 0 w s = Some r ->
  exists s' pp' cp' np', r = Ok s' /\ Pipe s' pp' cp' np' nc /\ (works s' < works s)%nat /\
    max (ring s') = max (ring s) /\ (np' = np \/ np' = S np /\ count (ring s) < max (ring s)).
Proof.
  intros HI. pose proof HI as [ET WF HB [Hn Hm] HQ HC [HL1 HL2] HP HK [HD1 HD2]].
  unfold stepThread. rewrite ET. cbn.
  destruct (drop np items) as [|[d n] rest] eqn:Ed; [done|]. cbn.
  destruct (drop_next _ _ _ _ Ed) as (Hx & Ed' & Hlt).
  assert (0 <= n <= Z.of_nat tsize /\ n <= Z.of_nat (length d)) as [Hn1 Hn2]
    by (rewrite Forall_lookup in Hitems; exact (Hitems _ _ Hx)).
  assert (forall s' pp', (rank pp < rank pp')%nat -> (rank pp' <= 5)%nat -> max (ring s') = max (ring s) ->
            Pipe s' pp' cp np nc -> exists s1 p1 c1 n1, Ok (R := False) s' = Ok s1 /\ Pipe s1 p1 c1 n1 nc /\
              (works s1 < works s)%nat /\ max (ring s1) = max (ring s) /\
              (n1 = np \/ n1 = S np /\ count (ring s) < max (ring s))) as Hw.
  { intros s' pp' H1 H2 EM HP'. exists s', pp', cp, np. split_and!; [done|done| |done|by left].
    rewrite (works_pipe _ _ _ _ _ HP'), (works_pipe _ _ _ _ _ HI). lia. }
  destruct pp as [| |cv| | |]; cbn; try done.
  - (* takes the mutex *)
    destruct (mAccess s) as [o|] eqn:EM; [done|]. intros; simplify_eq.
    apply (Hw _ Locked); [cbn; lia|cbn; lia|done|]. cbn in HL1.
    split; cbn; rewrite ?Ed; try done; [by destruct (holds cp)|]. split; [lia|done].
  - (* tests the count *)
    intros; simplify_eq. destruct (Z.eqb_spec (count (ring s)) (max (ring s))) as [E|E].
    + apply (Hw _ (Waiting cvFull)); [cbn; lia|cbn; lia|done|]. cbn in HL2.
      split; cbn; rewrite ?Ed; try done; [by rewrite HL2|]. split; [lia|done].
    + apply (Hw _ Body); [cbn; lia|cbn; lia|done|]. pose proof (wr_count _ _ WF).
      split; cbn; rewrite ?Ed; try done; [lia|]. split; [lia|done].
  - (* takes the mutex again *)
    destruct (mAccess s) as [o|] eqn:EM; [done|]. intros; simplify_eq.
    apply (Hw _ Body); [cbn; lia|cbn; lia|done|]. cbn in HL1.
    split; cbn; rewrite ?Ed; try done; [by destruct (holds cp)|]. split; [lia|done].
  - (* stores the element *)
    destruct (put_spec (R := False) tsize (ring s) d n WF HP Hn1 Hn2) as (rb & -> & WF' & EM & EB & EC & EQ).
    cbn. intros; simplify_eq. rewrite signal_second by done. cbn [pos].
    set (cp' := if decide (cp = Waiting cvEmpty) then Woken else cp).
    assert (holds cp' = holds cp) as Hh by (unfold cp'; by case_decide; subst).
    match goal with |- exists s' pp' cp' np', Ok ?x = Ok s' /\ _ => cut (Pipe x Entry cp' (S np) nc) end.
    { intros HP'. eexists _, Entry, cp', (S np). split; [done|]. split; [exact HP'|]. split; [|by auto].
      rewrite (works_pipe _ _ _ _ _ HP'), (works_pipe _ _ _ _ _ HI). unfold cp'. cbn [rank].
      case_decide; subst; cbn [rank]; lia. }
    cbn in HL2. split; cbn [threads ring mAccess]; try done.
    + unfold cp'. by case_decide.
    + congruence.
    + lia.
    + rewrite EQ, HQ. replace (S np - nc)%nat with (S (np - nc)) by lia.
      erewrite take_S_r; [done|]. rewrite lookup_drop. unfold payloads. rewrite list_lookup_fmap.
      replace (nc + (np - nc))%nat with np by lia. by rewrite Hx.
    + rewrite EC, HC. lia.
    + by rewrite Hh, HL2.
    + unfold cp'. rewrite EC. case_decide; [lia|]. destruct cp as [| |[]| | |]; try done; lia.
    + split; [done|]. unfold cp'. intros E. specialize (HD2 E). subst cp. done.
Qed.

(** The element at the head of the queue is the next payload. *)
Lemma queue_head n m (x : bytes) q :
  take (n - m) (drop m payloads) = x :: q -> payloads !! m = Some x /\ q = take (n - S m) (drop (S m) payloads).
Proof.
  intros E. destruct (n - m)%nat as [|i] eqn:Ei; [done|].
  destruct (drop m payloads) as [|y r] eqn:Ed; [done|]. cbn in E. simplify_eq.
  destruct (drop_next _ _ _ _ Ed) as (Hy & Er & _). split; [done|]. rewrite Er. f_equal. lia.
Qed.

(** A step of the consumer. *)
Lemma consumer_step s pp cp np nc w r :
  Pipe s pp cp np nc -> stepThread 1 w s = Some r ->
  exists s' pp' cp' nc', r = Ok s' /\ Pipe s' pp' cp' np nc' /\ (works s' < works s)%nat /\
    max (ring s') = max (ring s) /\ (nc' = nc \/ nc' = S nc /\ 0 < count (ring s)).
Proof.
  intros HI. pose proof HI as [ET WF HB [Hn Hm] HQ HC [HL1 HL2] HP HK [HD1 HD2]].
  unfold stepThread. rewrite ET. cbn.
  destruct (drop nc dsts) as [|d rest] eqn:Ed; [done|]. cbn.
  destruct (drop_next _ _ _ _ Ed) as (Hx & Ed' & Hlt).
  assert (tsize <= length d)%nat as Hd by (rewrite Forall_lookup in Hdsts; exact (Hdsts _ _ Hx)).
  assert (forall s' cp', (rank cp < rank cp')%nat -> (rank cp' <= 5)%nat -> max (ring s') = max (ring s) ->
            Pipe s' pp cp' np nc -> exists s1 p1 c1 n1, Ok (R := False) s' = Ok s1 /\ Pipe s1 p1 c1 np n1 /\
              (works s1 < works s)%nat /\ max (ring s1) = max (ring s) /\
              (n1 = nc \/ n1 = S nc /\ 0 < count (ring s))) as Hw.
  { intros s' cp' H1 H2 EM HP'. exists s', pp, cp', nc. split_and!; [done|done| |done|by left].
    rewrite (works_pipe _ _ _ _ _ HP'), (works_pipe _ _ _ _ _ HI). lia. }
  destruct cp as [| |cv| | |]; cbn; try done.
  - (* takes the mutex *)
    destruct (mAccess s) as [o|] eqn:EM; [done|]. intros; simplify_eq.
    apply (Hw _ Locked); [cbn; lia|cbn; lia|done|]. destruct (holds pp) eqn:Ep; [done|].
    split; cbn; rewrite ?Ed, ?Ep; try done. split; [done|lia].
  - (* tests the count *)
    rewrite HB. cbn. cbn in HL2. rewrite andb_true_r in HL2.
    intros; simplify_eq. destruct (Z.eqb_spec (count (ring s)) 0) as [E|E].
    + apply (Hw _ (Waiting cvEmpty)); [cbn; lia|cbn; lia|done|].
      split; cbn; rewrite ?Ed, ?HL2; try done. split; [done|lia].
    + apply (Hw _ Body); [cbn; lia|cbn; lia|done|]. pose proof (wr_count _ _ WF).
      split; cbn; rewrite ?Ed, ?HL2; try done; [lia|]. split; [done|lia].
  - (* takes the mutex again *)
    destruct (mAccess s) as [o|] eqn:EM; [done|]. intros; simplify_eq.
    apply (Hw _ Body); [cbn; lia|cbn; lia|done|]. destruct (holds pp) eqn:Ep; [done|].
    split; cbn; rewrite ?Ed, ?Ep; try done. split; [done|lia].
  - (* takes the element *)
    destruct (get_spec (R := False) tsize (ring s) d WF HK Hd) as (rb & x & -> & WF' & EM & EB & EC & EQ).
    cbn. intros; simplify_eq. rewrite signal_first by done. cbn [pos].
    rewrite HQ in EQ. apply queue_head in EQ as [Hp HQ'].
    set (pp' := if decide (pp = Waiting cvFull) then Woken else pp).
    assert (holds pp' = holds pp) as Hh by (unfold pp'; by case_decide; subst).
    match goal with |- exists s' pp' cp' np', Ok ?x = Ok s' /\ _ => cut (Pipe x pp' Entry np (S nc)) end.
    { intros HP'. eexists _, pp', Entry, (S nc). split; [done|]. split; [exact HP'|]. split; [|by auto].
      rewrite (works_pipe _ _ _ _ _ HP'), (works_pipe _ _ _ _ _ HI). unfold pp'. cbn [rank].
      case_decide; subst; cbn [rank]; lia. }
    cbn in HL2. rewrite andb_true_r in HL2. split; cbn [threads ring mAccess]; try done.
    + erewrite (take_S_r dsts), (take_S_r payloads), zip_with_app
        by (try done; unfold payloads; rewrite ?length_take, ?length_fmap; lia).
      unfold pp'. by case_decide.
    + congruence.
    + lia.
    + rewrite EC, HC. lia.
    + by rewrite Hh, HL2.
    + unfold pp'. rewrite EC, EM. case_decide; [subst; lia|]. destruct pp as [| |[]| | |]; try done; lia.
    + split; [|done]. unfold pp'. intros E. specialize (HD1 E). by subst pp.
Qed.

(** A step of either thread. *)
Lemma pipe_step s pp cp np nc i w r :
  Pipe s pp cp np nc -> stepThread i w s = Some r ->
  exists s' pp' cp' np' nc', r = Ok s' /\ Pipe s' pp' cp' np' nc' /\ (works s' < works s)%nat /\
    max (ring s') = max (ring s) /\
    ((np' = np /\ nc' = nc) \/ (np' = S np /\ nc' = nc /\ count (ring s) < max (ring s)) \/
     (np' = np /\ nc' = S nc /\ 0 < count (ring s))).
Proof.
  intros HI HS. destruct i as [|[|i]].
  - destruct (producer_step _ _ _ _ _ _ _ HI HS) as (s' & pp' & cp' & np' & -> & HP & HW & HM & HN).
    exists s', pp', cp', np', nc. split_and!; try done. destruct HN as [->|[-> ?]]; auto.
  - destruct (consumer_step _ _ _ _ _ _ _ HI HS) as (s' & pp' & cp' & nc' & -> & HP & HW & HM & HN).
    exists s', pp', cp', np, nc'. split_and!; try done. destruct HN as [->|[-> ?]]; auto.
  - unfold stepThread in HS. by rewrite (pi_threads _ _ _ _ _ HI) in HS.
Qed.

(** ** The specification: a bounded first-in first-out queue *)

(** What is still to be inserted, what is in the queue, what was extracted. *)
Definition Fifo : Type := list bytes * list bytes * list bytes.

Inductive fifoStep (cap : Z) : Fifo -> Fifo -> Prop :=
| fifo_insert x p q d : Z.of_nat (length q) < cap -> fifoStep cap (x :: p, q, d) (p, q ++ [x], d)
| fifo_extract x p q d : fifoStep cap (p, x :: q, d) (p, q, d ++ [x]).

(** The abstract state a concrete one stands for. *)
Definition abstracts (s : System) (a : Fifo) : Prop :=
  exists pp cp np nc, Pipe s pp cp np nc /\ a = (drop np payloads, queueOf (ring s), take nc payloads).

Lemma payloads_length : length payloads = length items.
Proof. apply length_fmap. Qed.

(** Every step is a step of the specification or none. *)
Lemma pipe_simulates s s' a :
  abstracts s a -> step s s' ->
  max (ring s') = max (ring s) /\ exists a', abstracts s' a' /\ (a' = a \/ fifoStep (max (ring s)) a a').
Proof.
  intros (pp & cp & np & nc & HI & ->) (i & w & HS).
  destruct (pipe_step _ _ _ _ _ _ _ _ HI HS) as (s1 & pp' & cp' & np' & nc' & [= <-] & HI' & _ & HM & HN).
  split; [done|]. eexists. split; [by exists pp', cp', np', nc'|].
  pose proof (pi_queue _ _ _ _ _ HI) as HQ. pose proof (pi_queue _ _ _ _ _ HI') as HQ'.
  pose proof (pi_bounds _ _ _ _ _ HI) as [B1 B2]. pose proof (pi_bounds _ _ _ _ _ HI') as [B1' B2'].
  pose proof (wr_count _ _ (pi_ring _ _ _ _ _ HI)) as Hc. pose proof (pi_count _ _ _ _ _ HI) as HC.
  rewrite HQ, HQ'. destruct HN as [[-> ->]|[(-> & -> & Hlt)|(-> & -> & Hlt)]]; [by left|right..].
  - destruct (lookup_lt_is_Some_2 payloads np) as [x Hx]; [rewrite payloads_length; lia|].
    rewrite (drop_S payloads x np Hx).
    replace (S np - nc)%nat with (S (np - nc)) by lia. erewrite (take_S_r (drop nc payloads)).
    + constructor. rewrite length_take, length_drop, payloads_length. lia.
    + rewrite lookup_drop. by replace (nc + (np - nc))%nat with np by lia.
  - destruct (lookup_lt_is_Some_2 payloads nc) as [x Hx]; [rewrite payloads_length; lia|].
    rewrite (take_S_r _ _ _ Hx), (drop_S payloads x nc Hx).
    replace (np - nc)%nat with (S (np - S nc)) by lia. constructor.
Qed.

Lemma pipe_refines s s' a :
  abstracts s a -> rtc step s s' -> max (ring s') = max (ring s) /\
  exists a', abstracts s' a' /\ rtc (fifoStep (max (ring s))) a a'.
Proof.
  intros HA HS. revert a HA. induction HS as [s|s s1 s2 H1 _ IH]; intros a HA; [by split; [|exists a]|].
  destruct (pipe_simulates _ _ _ HA H1) as (HM & a1 & HA1 & Hst). rewrite <- HM.
  destruct (IH a1 HA1) as (HM' & a2 & HA2 & Hr). split; [done|]. exists a2. split; [done|].
  destruct Hst as [->|Hst]; [done|]. eapply rtc_l; [|done]. by rewrite HM.
Qed.

(** ** Progress *)

Lemma producer_can s pp cp np nc :
  Pipe s pp cp np nc -> (np < length items)%nat -> (forall cv, pp <> Waiting cv) -> holds cp = false ->
  is_Some (stepThread 0 0 s).
Proof.
  intros [ET WF HB [Hn Hm] HQ HC [HL1 HL2] HP HK [HD1 HD2]] Hlt Hw Hc. unfold stepThread. rewrite ET. cbn.
  destruct (drop np items) as [|[d n] rest] eqn:Ed.
  { apply (f_equal length) in Ed. rewrite length_drop in Ed. cbn in Ed. lia. }
  rewrite HL1, Hc. cbn. destruct pp as [| |cv| | |]; cbn; try done. by destruct (Hw cv).
Qed.

Lemma consumer_can s pp cp np nc :
  Pipe s pp cp np nc -> (nc < length dsts)%nat -> (forall cv, cp <> Waiting cv) -> holds pp = false ->
  is_Some (stepThread 1 0 s).
Proof.
  intros [ET WF HB [Hn Hm] HQ HC [HL1 HL2] HP HK [HD1 HD2]] Hlt Hw Hc. unfold stepThread. rewrite ET. cbn.
  destruct (drop nc dsts) as [|d rest] eqn:Ed.
  { apply (f_equal length) in Ed. rewrite length_drop in Ed. cbn in Ed. lia. }
  rewrite HL1, Hc. cbn. destruct cp as [| |cv| | |]; cbn; try done. by destruct (Hw cv).
Qed.

(** When no thread can go on, everything was extracted. *)
Lemma pipe_stuck s pp cp np nc :
  length dsts = length items -> Pipe s pp cp np nc -> (forall i, ~ is_Some (stepThread i 0 s)) ->
  np = length items /\ nc = length items.
Proof.
  intros Hl HI Hno. pose proof HI as [ET WF HB [Hn Hm] HQ HC [HL1 HL2] HP HK [HD1 HD2]].
  pose proof (wr_max _ _ WF). pose proof (wr_count _ _ WF).
  assert (holds cp = false) as Hc.
  { apply not_true_is_false. intros Hc. apply (Hno 1%nat). rewrite Hc, andb_true_r in HL2.
    eapply consumer_can; [done| |by intros cv ->|done].
    destruct (decide (nc = length dsts)) as [E|]; [by rewrite (HD2 E) in Hc|lia]. }
  assert (holds pp = false) as Hp.
  { apply not_true_is_false. intros Hp. apply (Hno 0%nat). eapply producer_can; [done| |by intros cv ->|done].
    destruct (decide (np = length items)) as [E|]; [by rewrite (HD1 E) in Hp|lia]. }
  destruct (decide (nc = length items)) as [|Hnc]; [split; [lia|done]|].
  destruct cp as [| |[]| | |]; try done.
  - destruct (Hno 1%nat). eapply consumer_can; [done|lia|done|done].
  - (* the consumer waits: the buffer is empty, and the producer can go on *)
    assert (np < length items)%nat by lia.
    destruct (Hno 0%nat). eapply producer_can; [done|done| |done].
    intros cv ->. destruct cv; [done|lia].
  - destruct (Hno 1%nat). eapply consumer_can; [done|lia|done|done].
Qed.

Lemma pipe_reachable s s' : (exists pp cp np nc, Pipe s pp cp np nc) -> rtc step s s' ->
  exists pp cp np nc, Pipe s' pp cp np nc.
Proof.
  intros HI HS. induction HS as [s|s s1 s2 (i & w & H1) _ IH]; [done|]. apply IH.
  destruct HI as (pp & cp & np & nc & HI).
  destruct (pipe_step _ _ _ _ _ _ _ _ HI H1) as (s' & pp' & cp' & np' & nc' & [= <-] & HI' & _).
  by exists pp', cp', np', nc'.
Qed.

Lemma pipe_nsteps n : forall s s', (exists pp cp np nc, Pipe s pp cp np nc) -> nsteps step n s s' ->
  (n + works s' <= works s)%nat.
Proof.
  induction n as [|n IH]; intros s s' HI HS; inversion HS as [|? ? s1 ? (i & w & H1) H2]; subst; [done|].
  destruct HI as (pp & cp & np & nc & HI).
  destruct (pipe_step _ _ _ _ _ _ _ _ HI H1) as (s2 & pp' & cp' & np' & nc' & [= <-] & HI' & HW & _).
  pose proof (IH s1 s' ltac:(by exists pp', cp', np', nc') H2). lia.
Qed.
End Pipe.

(** ** Claims *)

Section RingClaims.
Context (tsize : nat) (items : list (bytes * Z)) (dsts : list bytes) (size : Z) (junk : Buffer_t).

(** The calls of both threads are in order: the announced lengths fit into the
    element type and the data, and the consumer's buffers hold an element. *)
Definition pipeArgs : Prop :=
  size < 2 ^ 31 /\ length (slotData junk) = tsize /\
  Forall (fun it => 0 <= it.2 <= Z.of_nat tsize /\ it.2 <= Z.of_nat (length it.1)) items /\
  Forall (fun d => tsize <= length d)%nat dsts.

Definition system : System := start items dsts (new_RingBuffer size true junk).

Lemma system_Pipe : pipeArgs -> Pipe tsize items dsts system Entry Entry 0 0.
Proof. intros (H1 & H2 & _ & _). destruct (new_RingBuffer_wf tsize size true junk H1 H2). by apply start_Pipe. Qed.


End RingClaims.

(** ** Instances *)

Module RingWitness.
Definition ab : bytes := [Byte.x61; Byte.x62].
Definition cd : bytes := [Byte.x63; Byte.x64].
Definition items : list (bytes * Z) := [(ab, 2); (cd, 1); (cd, 2)].
Definition dsts : list bytes := replicate 3 [Byte.x00; Byte.x00].
Definition junk : Buffer_t := {| slotLen := 7; slotData := [Byte.xff; Byte.xff] |}.

Lemma args : pipeArgs 2 items dsts 2 junk.
Proof. split_and!; [done|done|repeat constructor; cbn; lia|repeat constructor; cbn; lia]. Qed.

Lemma execute_rtc sched : forall s s', execute sched s = Some (Ok s') -> rtc step s s'.
Proof.
  induction sched as [|[i w] sched IH]; cbn; intros s s' E; [by simplify_eq|].
  destruct (stepThread i w s) as [[s1| | | |]|] eqn:E1; try done.
  eapply rtc_l; [by exists i, w|by apply IH].
Qed.

(** The producer fills the buffer and waits; the consumer takes one element. *)
Definition midway : System :=
  match execute [(0,0); (0,0); (0,0); (0,0); (0,0); (0,0); (0,0); (0,0); (1,0); (1,0); (1,0)]%nat
          (system items dsts 2 junk) with
  | Some (Ok s) => s
  | _ => system items dsts 2 junk
  end.



(** With a second thread that extracts, the test of the count must be repeated
    after the wait and is not: the first consumer is woken for the one element,
    the second takes it, and the first reads a slot that was never written. *)
Definition twoConsumers : System :=
  {| ring := new_RingBuffer 2 true junk; mAccess := None;
     threads := [ {| todo := [Insert ab 2]; pos := Entry; results := [] |};
                  {| todo := [Extract (replicate 2 Byte.x00)]; pos := Entry; results := [] |};
                  {| todo := [Extract (replicate 2 Byte.x00)]; pos := Entry; results := [] |} ] |}.

Example two_consumers_read_garbage :
  execute [(1,0); (1,0); (0,0); (0,0); (0,0); (2,0); (2,0); (2,0); (1,0); (1,0)]%nat twoConsumers = Some UB.
Proof. vm_compute. reflexivity. Qed.

(** StopWhenEmptied wakes a waiting consumer with nothing to extract. *)
Definition stopped : System :=
  {| ring := new_RingBuffer 2 true junk; mAccess := None;
     threads := [ {| todo := [Extract (replicate 2 Byte.x00)]; pos := Entry; results := [] |};
                  {| todo := [StopWhenEmptied]; pos := Entry; results := [] |} ] |}.

Example stop_reads_garbage :
  execute [(0,0); (0,0); (1,0); (1,0); (1,0); (0,0); (0,0)]%nat stopped = Some UB.
Proof. vm_compute. reflexivity. Qed.

(** A spurious wake-up, which POSIX allows, has the same effect. *)
Example spurious_wakeup_reads_garbage :
  match execute [(1,0); (1,0)]%nat (system items dsts 2 junk) with
  | Some (Ok s) => execute [(1,0); (1,0)]%nat (spurious 1 s)
  | r => r
  end = Some UB.
Proof. vm_compute. reflexivity. Qed.
End RingWitness.
