(* ===== verification/DedupCore.v ===== *)
(** * DedupCore

    server/dedup/DedupCore.cc, the deduplication of the metadata server.  It is
    minDedupCore with a recipe buffer per user and an inode index: the share
    index, the containers and the first stage are the same code, so the object
    holds a [minDedupCore] for them ([shares]), and the members of the buffer
    nodes that only DedupCore uses are kept in a second heap ([recipes]) under
    the addresses of the nodes.  [recipeStorerObj_] is NULL, as server/main.cc
    passes it. *)

From stdpp Require Import base list numbers gmap.
From coqutil Require Import Byte.
From Stdlib Require Import Lia.
From S2P Require Import Prelude Structs FileNames World CryptoPrimitive MinDedupCore MinStages.

Local Open Scope Z_scope.

(** [inodeIndexValueHead_t]: userID @0, shortNameSize @4, inodeType @8,
    numOfChildren @12. *)
Definition inodeIndexValueHeadSize_ : nat := 16.
(** [inodeDirEntry_t]: inodeFP @0. *)
Definition inodeDirEntrySize_ : nat := 32.
(** [inodeFileEntry_t]: recipeFileName @0, recipeFileOffset @16. *)
Definition inodeFileEntrySize_ : nat := 20.

Definition DIR_TYPE : byte := Byte.x00.
Definition FILE_TYPE : byte := Byte.x01.

Definition recipeFileNameValidLen_ : nat := INTERNAL_FILE_NAME_SIZE - 4.

(** The recipe members of [perUserBufferNode_t] *)
Record recipeBuffer := {
  recipeFileName : bytes;
  recipeFileBuffer : bytes;
  recipeFileBufferCurrLen : Z;
  lastRecipeHeadPos : Z;
  lastInodeFP : bytes;
}.

Record DedupCore (W : Type) := {
  shares : minDedupCore W;
  recipes : gmap positive recipeBuffer;
  globalRecipeFileName_ : bytes;
  recipeFileDirName_ : bytes;
  globalRecipeFileNameLock_ : bool;
}.
Arguments shares {W} _.
Arguments recipes {W} _.
Arguments globalRecipeFileName_ {W} _.
Arguments recipeFileDirName_ {W} _.
Arguments globalRecipeFileNameLock_ {W} _.

Section Object.
Context {W : Type}.
Implicit Types s : DedupCore W.

Definition set_shares s (x : minDedupCore W) : DedupCore W :=
  {| shares := x; recipes := recipes s; globalRecipeFileName_ := globalRecipeFileName_ s;
     recipeFileDirName_ := recipeFileDirName_ s;
     globalRecipeFileNameLock_ := globalRecipeFileNameLock_ s |}.
Definition set_recipes s (h : gmap positive recipeBuffer) : DedupCore W :=
  {| shares := shares s; recipes := h; globalRecipeFileName_ := globalRecipeFileName_ s;
     recipeFileDirName_ := recipeFileDirName_ s;
     globalRecipeFileNameLock_ := globalRecipeFileNameLock_ s |}.
Definition set_recipeName s (name : bytes) (lock : bool) : DedupCore W :=
  {| shares := shares s; recipes := recipes s; globalRecipeFileName_ := name;
     recipeFileDirName_ := recipeFileDirName_ s; globalRecipeFileNameLock_ := lock |}.
End Object.

(** The two positions of a recipe buffer. *)
Definition set_positions (r : recipeBuffer) (len head : Z) : recipeBuffer :=
  {| recipeFileName := recipeFileName r; recipeFileBuffer := recipeFileBuffer r;
     recipeFileBufferCurrLen := len; lastRecipeHeadPos := head; lastInodeFP := lastInodeFP r |}.
Definition set_recipeFileName (r : recipeBuffer) (name : bytes) : recipeBuffer :=
  {| recipeFileName := name; recipeFileBuffer := recipeFileBuffer r;
     recipeFileBufferCurrLen := recipeFileBufferCurrLen r; lastRecipeHeadPos := lastRecipeHeadPos r;
     lastInodeFP := lastInodeFP r |}.
Definition set_recipeData (r : recipeBuffer) (buf : bytes) : recipeBuffer :=
  {| recipeFileName := recipeFileName r; recipeFileBuffer := buf;
     recipeFileBufferCurrLen := recipeFileBufferCurrLen r; lastRecipeHeadPos := lastRecipeHeadPos r;
     lastInodeFP := lastInodeFP r |}.
Definition set_lastInodeFP (r : recipeBuffer) (fp : bytes) : recipeBuffer :=
  {| recipeFileName := recipeFileName r; recipeFileBuffer := recipeFileBuffer r;
     recipeFileBufferCurrLen := recipeFileBufferCurrLen r; lastRecipeHeadPos := lastRecipeHeadPos r;
     lastInodeFP := fp |}.

(** ** Names and keys *)

(** [name.rfind('/', pos)] *)
Definition rfindSlash (name : bytes) (pos : nat) : option nat :=
  match list_find (eq slash) (rev (take (S pos) name)) with
  | Some (i, _) => Some (length (take (S pos) name) - 1 - i)%nat
  | None => None
  end.

(** [rfind(...) + 1]; [npos + 1] is 0. *)
Definition behindSlash (name : bytes) (pos : nat) : nat :=
  match rfindSlash name pos with Some i => S i | None => 0 end.

(** The key of an inode: '0' and the fingerprint. *)
Definition inodeFP2IndexKey_ (inodeFP : bytes) : bytes := Byte.x30 :: inodeFP.

Section DedupCore.
Context {W : Type} `{World W} `{Limits} `{OpenSSL}.
Implicit Types s : DedupCore W.

Abbreviation M ret A := (SM (DedupCore W) ret A).

(** The hash of the name and the user, written into the [FP_SIZE] bytes [old]; the
    callers ignore the return value. *)
Definition fileName2InodeFP_ {R} (fullFileName : bytes) (uid : Z) (old : bytes)
    (cryptoObj : CryptoPrimitive) : res R bytes :=
  '(_, hash) ← generateHash cryptoObj (fullFileName ++ le32 uid);
  wr old 0 hash.

(** Code that DedupCore shares with minDedupCore. *)
Definition onShares {ret A} (m : SM (minDedupCore W) ret A) : M ret A := fun s =>
  match m (shares s) with
  | Ok (a, x) => Ok (a, set_shares s x)
  | Return (r, x) => Return (r, set_shares s x)
  | Exit c => Exit c
  | UB => UB
  | Hang => Hang
  end.

Definition theWorld s : W := world (shares s).
Definition onWorldD {ret A} (f : W -> A * W) : M ret A := onShares (onWorld f).

(** ** Memory and locks *)

Definition loadRecipe {ret} (p : ptr) : M ret recipeBuffer := fun s =>
  match p with
  | None => UB
  | Some a => match recipes s !! a with Some r => Ok (r, s) | None => UB end
  end.

Definition storeRecipe {ret} (p : ptr) (r : recipeBuffer) : M ret unit := fun s =>
  match p with
  | None => UB
  | Some a => match recipes s !! a with
              | Some _ => Ok (tt, set_recipes s (<[a := r]> (recipes s)))
              | None => UB
              end
  end.

(** [malloc] and [free] of a whole node *)
Definition allocNode {ret} (n : perUserBufferNode) (r : recipeBuffer) : M ret ptr :=
  p ← onShares (alloc n);
  _ ← (match p with Some a => modify (fun s => set_recipes s (<[a := r]> (recipes s))) | None => undefined end);
  mret p.
Definition freeNode {ret} (p : ptr) : M ret unit :=
  _ ← onShares (free p);
  match p with
  | Some a => modify (fun s => set_recipes s (delete a (recipes s)))
  | None => mret tt
  end.

Definition lockRecipeName {ret} : M ret unit := fun s =>
  if globalRecipeFileNameLock_ s then UB else Ok (tt, set_recipeName s (globalRecipeFileName_ s) true).
Definition unlockRecipeName {ret} : M ret unit := fun s =>
  if globalRecipeFileNameLock_ s then Ok (tt, set_recipeName s (globalRecipeFileName_ s) false) else UB.

(** The next recipe file name, copied into the 16 bytes [old]. *)
Definition takeRecipeName {ret} (old : bytes) : M ret bytes :=
  _ ← lockRecipeName;
  global ← gets globalRecipeFileName_;
  name ← lift (wr old 0 (take (INTERNAL_FILE_NAME_SIZE - 1) global));
  name ← lift (aset name (INTERNAL_FILE_NAME_SIZE - 1) Byte.x00);
  r ← lift (incrGlobalFileName_ global recipeFileNameValidLen_);
  _ ← modify (fun s => set_recipeName s r.2 (globalRecipeFileNameLock_ s));
  _ ← unlockRecipeName;
  mret name.

(** ** Recipe files *)

(** The part of an inode value that holds the newest version of a file: the name
    of its recipe file and the offset in it. *)
Definition newestVersion {R} (value : bytes) : res R (bytes * Z) :=
  shortNameSize ← getI32 value 4;
  off ← sz (Z.of_nat inodeIndexValueHeadSize_ + shortNameSize);
  name ← cstr (drop off value);
  o ← getI32 value (off + 16);
  Ok (name, o).

(** [None]: the method returns 0. *)
Definition findOldRecipeFile_ {ret} (target : ptr) : M ret (option (bytes * Z)) := call (
  r ← loadRecipe target;
  _ ← onShares lockDB;
  st ← gets (fun s => db_Get (theWorld s) (inodeFP2IndexKey_ (lastInodeFP r)));
  _ ← onShares unlockDB;
  match st with
  | GetOk value => v ← lift (newestVersion value); mret (Some v)
  | GetNotFound | GetCorruption | GetIOError => ret_ None
  end).

(** Append the entries of the buffer to those of the recipe at [off] in the file
    and update its head: the part that flushBufferNodeIntoDisk_ and
    appendOldRecipeFile_ have in common. *)
Definition appendEntries (path : bytes) (off : Z) (r : recipeBuffer) : M bool unit :=
  o ← lift (sz off);
  head ← gets (fun s => fread (theWorld s) path o fileRecipeHeadSize_);
  if negb (length head =? fileRecipeHeadSize_)%nat then ret_ false else
  numOfShares ← lift (getI32 head 16);
  pos ← lift (x ← sint (Z.of_nat fileRecipeEntrySize_ * numOfShares);
              x ← sint (off + Z.of_nat fileRecipeHeadSize_ + x); sz x);
  entries ← lift (len ← sz (recipeFileBufferCurrLen r - Z.of_nat fileRecipeHeadSize_);
                  rd (recipeFileBuffer r) fileRecipeHeadSize_ len);
  ok ← onWorldD (fun w => fwrite_at w path pos entries);
  if negb ok then ret_ false else
  head ← lift (more ← getI32 (recipeFileBuffer r) 16; x ← sint (numOfShares + more); setI32 head 16 x);
  ok ← onWorldD (fun w => fwrite_at w path o head);
  if negb ok then ret_ false else mret tt.

(** Write the whole buffer into the file. *)
Definition writeRecipes (path : bytes) (r : recipeBuffer) : M bool unit :=
  data ← lift (len ← sz (recipeFileBufferCurrLen r); rd (recipeFileBuffer r) 0 len);
  ok ← onWorldD (fun w => fwrite w path data);
  if negb ok then ret_ false else mret tt.

(** The recipe half of flushBufferNodeIntoDisk_ *)
Definition flushRecipes (target : ptr) : M bool unit :=
  r ← loadRecipe target;
  dir ← gets recipeFileDirName_;
  if lastRecipeHeadPos r =? 0 then
    found ← findOldRecipeFile_ target;
    match found with
    | None => ret_ false
    | Some (name, off) =>
        match addPrefixDir_ dir name with
        | None => ret_ false
        | Some path =>
            opened ← onWorldD (fun w => fopen_ab w path);
            if negb opened then ret_ false else
            size ← gets (fun s => fsize (theWorld s) path);
            if size =? 0 then
              opened ← onWorldD (fun w => fopen_wb w path);
              if negb opened then ret_ false else
              if negb (off =? 0) then ret_ false else writeRecipes path r
            else
              opened ← gets (fun s => fopen_rb (theWorld s) path);
              if negb opened then ret_ false else appendEntries path off r
        end
    end
  else
    name ← lift (cstr (recipeFileName r));
    match addPrefixDir_ dir name with
    | None => ret_ false
    | Some path =>
        opened ← onWorldD (fun w => fopen_wb w path);
        if negb opened then ret_ false else writeRecipes path r
    end.

Definition flushBufferNodeIntoDisk_ {ret} (target : ptr) : M ret bool := call (
  r ← loadRecipe target;
  _ ← (if recipeFileBufferCurrLen r >? 0 then flushRecipes target else mret tt);
  n ← onShares (load target);
  if shareContainerBufferCurrLen n >? 0 then onShares (writeContainer n) else mret true).

Definition storeNewRecipeFile_ {ret} (target : ptr) : M ret bool := call (
  r ← loadRecipe target;
  name ← lift (cstr (recipeFileName r));
  dir ← gets recipeFileDirName_;
  match addPrefixDir_ dir name with
  | None => ret_ false
  | Some path =>
      opened ← onWorldD (fun w => fopen_wb w path);
      if negb opened then ret_ false else
      _ ← writeRecipes path r;
      name ← takeRecipeName (recipeFileName r);
      _ ← storeRecipe target (set_positions (set_recipeFileName r name) 0 0);
      ret_ true
  end).

Definition appendOldRecipeFile_ {ret} (target : ptr) : M ret bool := call (
  r ← loadRecipe target;
  dir ← gets recipeFileDirName_;
  found ← findOldRecipeFile_ target;
  match found with
  | None => ret_ false
  | Some (name, off) =>
      match addPrefixDir_ dir name with
      | None => ret_ false
      | Some path =>
          opened ← gets (fun s => fopen_rb (theWorld s) path);
          if negb opened then ret_ false else
          size ← gets (fun s => fsize (theWorld s) path);
          if size =? 0 then ret_ false else
          _ ← appendEntries path off r;
          _ ← storeRecipe target (set_positions r 0 0);
          ret_ true
      end
  end).

(** ** The list of buffer nodes *)

(** As in minDedupCore, with the flush of DedupCore. *)
Fixpoint scanNodes {ret} (fuel : nat) (uid : Z) (curr pre target : ptr) : M ret ptr :=
  match curr with
  | None => mret target
  | Some _ =>
      match fuel with
      | O => fun _ => Hang
      | S fuel' =>
          n ← onShares (load curr);
          if userID n =? uid then
            currTime ← onShares getCurrTime_;
            _ ← onShares (store curr (set_lastUseTime n currTime));
            scanNodes fuel' uid (next n) curr curr
          else
            currTime ← onShares getCurrTime_;
            if currTime - lastUseTime n >? MAX_BUFFER_WAIT then
              _ ← flushBufferNodeIntoDisk_ curr;
              head ← gets (fun s => headBufferNode_ (shares s));
              tail ← gets (fun s => tailBufferNode_ (shares s));
              if decide (curr = head) then
                _ ← freeNode head;
                _ ← (if decide (head = tail) then onShares (modify (fun x => set_ends x None None))
                     else onShares (modify (fun x => set_ends x (next n) tail)));
                scanNodes fuel' uid (next n) None target
              else
                pn ← onShares (load pre);
                _ ← onShares (store pre (set_next pn (next n)));
                _ ← freeNode curr;
                if decide (curr = tail) then
                  _ ← onShares (modify (fun x => set_ends x head pre));
                  scanNodes fuel' uid None pre target
                else
                  pn ← onShares (load pre);
                  scanNodes fuel' uid (next pn) pre target
            else scanNodes fuel' uid (next n) curr target
      end
  end.

Definition createBufferNode {ret} (uid : Z) : M ret ptr :=
  name0 ← gets (fun s => uninit (theWorld s) INTERNAL_FILE_NAME_SIZE);
  rbuf ← gets (fun s => uninit (theWorld s) RECIPE_BUFFER_SIZE);
  fp0 ← gets (fun s => uninit (theWorld s) FP_SIZE);
  sbuf ← gets (fun s => uninit (theWorld s) CONTAINER_BUFFER_SIZE);
  rname ← takeRecipeName name0;
  sname ← onShares (takeContainerName name0);
  currTime ← onShares getCurrTime_;
  target ← allocNode
    {| userID := uid; shareContainerName := sname; shareContainerBuffer := sbuf;
       shareContainerBufferCurrLen := 0; lastUseTime := currTime; next := None |}
    {| recipeFileName := rname; recipeFileBuffer := rbuf; recipeFileBufferCurrLen := 0;
       lastRecipeHeadPos := 0; lastInodeFP := fp0 |};
  _ ← onShares lockBuffer;
  head ← gets (fun s => headBufferNode_ (shares s));
  tail ← gets (fun s => tailBufferNode_ (shares s));
  _ ← (match head with
       | None => onShares (modify (fun x => set_ends x target target))
       | Some _ =>
           tn ← onShares (load tail);
           _ ← onShares (store tail (set_next tn target));
           onShares (modify (fun x => set_ends x head target))
       end);
  _ ← onShares unlockBuffer;
  mret target.

Definition findOrCreateBufferNode_ {ret} (uid : Z) : M ret ptr :=
  _ ← onShares lockBuffer;
  head ← gets (fun s => headBufferNode_ (shares s));
  fuel ← gets (fun s => S (size (heap (shares s))));
  target ← scanNodes fuel uid head None None;
  _ ← onShares unlockBuffer;
  match target with
  | None => createBufferNode uid
  | Some _ => mret target
  end.

(** ** The inode index *)

(** [inodeFileEntry_t] for the next recipe of the buffer: [strcpy] of the file name
    and the current length. *)
Definition fileEntry {R} (block : bytes) (r : recipeBuffer) : res R bytes :=
  name ← cstr (recipeFileName r);
  block ← wr block 0 (name ++ [Byte.x00]);
  setI32 block 16 (recipeFileBufferCurrLen r).

(** The value of an inode with one entry more: [atEnd] for a directory, where the
    children are added at the end, in front of the older ones for a file. *)
Definition addChild {R} (value entry : bytes) (atEnd : bool) : res R bytes :=
  head ← rd value 0 inodeIndexValueHeadSize_;
  children ← getI32 head 12;
  children ← sint (children + 1);
  head ← setI32 head 12 children;
  if atEnd then Ok (head ++ drop inodeIndexValueHeadSize_ value ++ entry)
  else
    shortNameSize ← getI32 value 4;
    len ← sz shortNameSize;
    name ← rd value inodeIndexValueHeadSize_ len;
    Ok (head ++ name ++ entry ++ drop (inodeIndexValueHeadSize_ + len) value).

(** The value of a new inode, written into the block [value]. *)
Definition newInode {R} (value : bytes) (uid : Z) (shortName : bytes) (type : byte) (entry : bytes)
  : res R bytes :=
  value ← setI32 value 0 uid;
  value ← setI32 value 4 (Z.of_nat (length shortName + 1));
  value ← aset value 8 type;
  value ← setI32 value 12 1;
  name ← cstr (shortName ++ [Byte.x00]);
  value ← wr value inodeIndexValueHeadSize_ (name ++ [Byte.x00]);
  wr value (inodeIndexValueHeadSize_ + (length shortName + 1)) entry.

(** The loop over the children of a directory. *)
Fixpoint hasChild {R} (n : nat) (value fp : bytes) (off : nat) : res R bool :=
  match n with
  | O => Ok false
  | S n' =>
      e ← rd value off inodeDirEntrySize_;
      if fpDiffers e fp then hasChild n' value fp (off + inodeDirEntrySize_) else Ok true
  end.

Definition inPath {R} (value fp : bytes) : res R bool :=
  shortNameSize ← getI32 value 4;
  off ← sz (Z.of_nat inodeIndexValueHeadSize_ + shortNameSize);
  children ← getI32 value 12;
  hasChild (Z.to_nat children) value fp off.

(** One directory of the path gets the child [preFP]; the result is its own
    fingerprint, written into [old]. *)
Definition addDir (dirName : bytes) (uid : Z) (cryptoObj : CryptoPrimitive) (preFP old : bytes)
  : M bool bytes :=
  currFP ← lift (fileName2InodeFP_ dirName uid old cryptoObj);
  let key := inodeFP2IndexKey_ currFP in
  _ ← onShares lockDB;
  st ← gets (fun s => db_Get (theWorld s) key);
  match st with
  | GetOk value =>
      found ← lift (inPath value preFP);
      if negb found then
        value ← lift (addChild value preFP true);
        ok ← onShares (rewriteEntry key value);
        if negb ok then ret_ false else mret currFP
      else _ ← onShares unlockDB; mret currFP
  | GetNotFound =>
      _ ← onShares unlockDB;
      let shortName := if decide (dirName = [slash]) then dirName
                       else drop (behindSlash dirName (length dirName - 2)) dirName in
      block ← gets (fun s => uninit (theWorld s)
                (inodeIndexValueHeadSize_ + (length shortName + 1) + inodeDirEntrySize_));
      value ← lift (newInode block uid shortName DIR_TYPE preFP);
      _ ← onShares lockDB;
      _ ← onWorldD (fun w => db_Put w key value);
      _ ← onShares unlockDB;
      mret currFP
  | GetCorruption | GetIOError => _ ← onShares unlockDB; ret_ false
  end.

(** The loop over the directories of the path, from bottom to top; the name gets
    shorter in every round. *)
Fixpoint addDirs (fuel : nat) (dirName : bytes) (uid : Z) (cryptoObj : CryptoPrimitive)
    (currFP : bytes) : M bool unit :=
  match dirName with
  | [] => mret tt
  | _ :: _ =>
      match fuel with
      | O => fun _ => Hang
      | S fuel' =>
          fp ← addDir dirName uid cryptoObj currFP currFP;
          let dirName' := if decide (dirName = [slash]) then []
                          else take (behindSlash dirName (length dirName - 2)) dirName in
          addDirs fuel' dirName' uid cryptoObj fp
      end
  end.

Definition addFileIntoInodeIndex_ {ret} (fullFileName : bytes) (uid : Z) (target : ptr)
    (cryptoObj : CryptoPrimitive) : M ret bool := call (
  let pos := behindSlash fullFileName (length fullFileName) in
  let shortName := drop pos fullFileName in
  let dirName := take pos fullFileName in
  fp0 ← gets (fun s => uninit (theWorld s) FP_SIZE);
  currFP ← lift (fileName2InodeFP_ fullFileName uid fp0 cryptoObj);
  let key := inodeFP2IndexKey_ currFP in
  _ ← onShares lockDB;
  st ← gets (fun s => db_Get (theWorld s) key);
  match st with
  | GetOk value =>
      r ← loadRecipe target;
      block ← gets (fun s => uninit (theWorld s) inodeFileEntrySize_);
      entry ← lift (fileEntry block r);
      value ← lift (addChild value entry false);
      ok ← onShares (rewriteEntry key value);
      ret_ ok
  | GetNotFound =>
      _ ← onShares unlockDB;
      r ← loadRecipe target;
      block ← gets (fun s => uninit (theWorld s)
                (inodeIndexValueHeadSize_ + (length shortName + 1) + inodeFileEntrySize_));
      entry ← lift (e ← rd block (inodeIndexValueHeadSize_ + (length shortName + 1)) inodeFileEntrySize_;
                    fileEntry e r);
      value ← lift (newInode block uid shortName FILE_TYPE entry);
      _ ← onShares lockDB;
      _ ← onWorldD (fun w => db_Put w key value);
      _ ← onShares unlockDB;
      _ ← addDirs (S (length dirName)) dirName uid cryptoObj currFP;
      ret_ true
  | GetCorruption | GetIOError => _ ← onShares unlockDB; ret_ false
  end).

(** ** Clean-up *)

Definition cleanupUserBufferNode {ret} (uid : Z) : M ret bool := call (
  _ ← onShares lockBuffer;
  head ← gets (fun s => headBufferNode_ (shares s));
  fuel ← gets (fun s => S (size (heap (shares s))));
  '(target, pre) ← onShares (findNode fuel (fun n => Ok (userID n =? uid)) head None);
  match target with
  | Some _ =>
      flushed ← flushBufferNodeIntoDisk_ target;
      if negb flushed then _ ← onShares unlockBuffer; ret_ false else
      n ← onShares (load target);
      tail ← gets (fun s => tailBufferNode_ (shares s));
      _ ← (if decide (target = head) then
             _ ← onShares (modify (fun x => set_ends x (next n) tail));
             _ ← freeNode target;
             if decide (next n = tail) then onShares (modify (fun x => set_ends x (next n) None))
             else mret tt
           else
             _ ← (if decide (target = tail) then onShares (modify (fun x => set_ends x head pre))
                  else mret tt);
             pn ← onShares (load pre);
             _ ← onShares (store pre (set_next pn (next n)));
             freeNode target);
      _ ← onShares unlockBuffer;
      ret_ true
  | None =>
      (* the message prints targetBufferNode->userID *)
      _ ← onShares (load target);
      _ ← onShares unlockBuffer;
      ret_ false
  end).

(** [flush] is flushBufferNodeIntoDisk_, on an open or on a deleted database. *)
Fixpoint cleanupNodes (flush : ptr -> M bool bool) (fuel : nat) (curr : ptr) : M bool unit :=
  match curr with
  | None => mret tt
  | Some _ =>
      match fuel with
      | O => fun _ => Hang
      | S fuel' =>
          flushed ← flush curr;
          if negb flushed then n ← onShares (load curr); ret_ false else
          n ← onShares (load curr);
          _ ← freeNode curr;
          cleanupNodes flush fuel' (next n)
      end
  end.

Definition cleanupAllWith {ret} (flush : ptr -> M bool bool) : M ret bool := call (
  head ← gets (fun s => headBufferNode_ (shares s));
  _ ← (match head with
       | Some _ =>
           _ ← onShares lockBuffer;
           fuel ← gets (fun s => S (size (heap (shares s))));
           _ ← cleanupNodes flush fuel head;
           onShares unlockBuffer
       | None => mret tt
       end);
  mret true).

Definition cleanupAllBufferNodes {ret} : M ret bool := cleanupAllWith flushBufferNodeIntoDisk_.

(** ** Destructor *)

(** flushBufferNodeIntoDisk_ after [delete db_]: a last recipe at the beginning of
    the buffer makes findOldRecipeFile_ use the deleted database. *)
Definition flushClosed (target : ptr) : M bool bool :=
  r ← loadRecipe target;
  if (recipeFileBufferCurrLen r >? 0) && (lastRecipeHeadPos r =? 0) then undefined
  else flushBufferNodeIntoDisk_ target.

Definition delete_DedupCore {ret} : M ret W :=
  _ ← cleanupAllWith flushClosed;
  gets theWorld.

(** ** Constructor *)

Definition new_DedupCore {R} (w : W)
    (dedupDirName dbDirName recipeFileDirName shareContainerDirName : bytes) : res R (DedupCore W) :=
  dedupDirName ← orExit (formatDirName_ dedupDirName);
  dbDirName ← orExit (formatDirName_ dbDirName);
  recipeFileDirName ← orExit (formatDirName_ recipeFileDirName);
  shareContainerDirName ← orExit (formatDirName_ shareContainerDirName);
  dbDirName ← orExit (addPrefixDir_ dedupDirName dbDirName);
  w ← checked (createDir_ w dbDirName);
  recipeFileDirName ← orExit (addPrefixDir_ dedupDirName recipeFileDirName);
  w ← checked (createDir_ w recipeFileDirName);
  shareContainerDirName ← orExit (addPrefixDir_ dedupDirName shareContainerDirName);
  w ← checked (createDir_ w shareContainerDirName);
  w ← checked (db_Open w dbDirName);
  w ← checked (mutex_init w);
  w ← checked (mutex_init w);
  w ← checked (mutex_init w);
  w ← checked (mutex_init w);
  Ok {| shares := {| world := w; heap := ∅; headBufferNode_ := None; tailBufferNode_ := None;
          globalShareContainerName_ := replicate shareContainerNameValidLen_ letter_a ++ postfix_sc;
          shareContainerDirName_ := shareContainerDirName;
          DBLock_ := false; bufferLock_ := false; globalShareContainerNameLock_ := false |};
        recipes := ∅;
        globalRecipeFileName_ := replicate recipeFileNameValidLen_ letter_a ++ postfix_rf;
        recipeFileDirName_ := recipeFileDirName; globalRecipeFileNameLock_ := false |}.
End DedupCore.
