(* ===== verification/DedupStages.v ===== *)
(** * The stages of DedupCore and its restoration of files

    secondStageDedup, which adds the recipes and inodes of the files of a package,
    and restoreShareFile, which finds the recipe of a version of a file through the
    inode index.  The first stage is that of minDedupCore. *)

From stdpp Require Import base list numbers gmap.
From coqutil Require Import Byte.
From Stdlib Require Import Lia.
From S2P Require Import Prelude Structs FileNames World CryptoPrimitive MinDedupCore MinStages MinRestore DedupCore.

Local Open Scope Z_scope.

Section Stages.
Context {W : Type} `{World W} `{Limits} `{OpenSSL}.
Implicit Types s : DedupCore W.

Abbreviation M ret A := (SM (DedupCore W) ret A).

Definition firstStageDedup {ret} (fuel : nat) (uid : Z) (shareMDBuffer : bytes) (shareMDSize : Z)
    (intraUserDupStatList : list bool) : M ret (bool * FirstOut) :=
  onShares (MinStages.firstStageDedup fuel uid shareMDBuffer shareMDSize intraUserDupStatList).

(** ** Second stage *)

(** recipeFileBufferAddedLen: a new file, or the rest of a file in an empty
    buffer, needs a head. *)
Definition addedLen {R} (past coming currLen : Z) : res R Z :=
  x ← sint (Z.of_nat fileRecipeEntrySize_ * coming);
  if (past =? 0) || (currLen =? 0) then sint (Z.of_nat fileRecipeHeadSize_ + x) else Ok x.

(** The last recipe starts at the beginning of the buffer and, by its number of
    shares, its first entries are in a recipe file already. *)
Definition continuesOldFile {ret} (past : Z) (r : recipeBuffer) : M ret bool :=
  if lastRecipeHeadPos r =? 0 then
    numOfShares ← lift (getI32 (recipeFileBuffer r) 16); mret (past >? numOfShares)
  else mret false.

(** Step 2: write the buffer out when the coming recipes do not fit. *)
Definition makeRoom (target : ptr) (past coming : Z) : M bool unit :=
  r ← loadRecipe target;
  added ← lift (addedLen past coming (recipeFileBufferCurrLen r));
  sum ← lift (sint (recipeFileBufferCurrLen r + added));
  if sum >? Z.of_nat RECIPE_BUFFER_SIZE then
    old ← continuesOldFile past r;
    ok ← (if (old : bool) then appendOldRecipeFile_ target else storeNewRecipeFile_ target);
    if negb ok then ret_ false else mret tt
  else mret tt.

(** Put a file recipe head into the buffer. *)
Definition putRecipeHead (target : ptr) (uid fileSize coming : Z) (fullFileName : bytes)
    (cryptoObj : CryptoPrimitive) : M bool unit :=
  r ← loadRecipe target;
  buf ← lift (pos ← sz (recipeFileBufferCurrLen r);
              b ← setI32 (recipeFileBuffer r) pos uid;
              b ← setI64 b (pos + 8) fileSize;
              setI32 b (pos + 16) coming);
  len ← lift (sint (recipeFileBufferCurrLen r + Z.of_nat fileRecipeHeadSize_));
  fp ← lift (fileName2InodeFP_ fullFileName uid (lastInodeFP r) cryptoObj);
  storeRecipe target
    (set_lastInodeFP (set_positions (set_recipeData r buf) len (recipeFileBufferCurrLen r)) fp).

(** Step 3: a new recipe head, or an update of the last one. *)
Definition recipeHead (target : ptr) (uid past fileSize coming : Z) (fullFileName : bytes)
    (cryptoObj : CryptoPrimitive) : M bool unit :=
  if past =? 0 then
    ok ← addFileIntoInodeIndex_ fullFileName uid target cryptoObj;
    if negb ok then ret_ false else putRecipeHead target uid fileSize coming fullFileName cryptoObj
  else
    r ← loadRecipe target;
    if recipeFileBufferCurrLen r =? 0 then putRecipeHead target uid fileSize coming fullFileName cryptoObj
    else
      buf ← lift (pos ← sz (lastRecipeHeadPos r);
                  n ← getI32 (recipeFileBuffer r) (pos + 16);
                  n ← sint (n + coming);
                  setI32 (recipeFileBuffer r) (pos + 16) n);
      storeRecipe target (set_recipeData r buf).

(** Step 4 for one share: as in minDedupCore, then the recipe entry. *)
Definition recipeShare (uid : Z) (md : bytes) (stat : list bool) (data : bytes)
    (crypto : CryptoPrimitive) (target : ptr) (st : SecondLocals) : M bool SecondLocals :=
  let off := st.1.1 in
  st' ← onShares (secondShare uid md stat data crypto target st);
  r ← loadRecipe target;
  buf ← lift (o ← sz off;
              fp ← rd md o FP_SIZE;
              secretID ← getI32 md (o + 32);
              secretSize ← getI32 md (o + 36);
              pos ← sz (recipeFileBufferCurrLen r);
              b ← wr (recipeFileBuffer r) pos fp;
              b ← setI32 b (pos + 32) secretID;
              setI32 b (pos + 36) secretSize);
  len ← lift (sint (recipeFileBufferCurrLen r + Z.of_nat fileRecipeEntrySize_));
  _ ← storeRecipe target (set_positions (set_recipeData r buf) len (lastRecipeHeadPos r));
  mret st'.

(** Step 5: a file that ends here and began in a recipe file. *)
Definition recipeEnd (target : ptr) (past sizePast sizeComing fileSize : Z) : M bool unit :=
  size ← lift (slong (sizePast + sizeComing));
  if size =? fileSize then
    r ← loadRecipe target;
    old ← continuesOldFile past r;
    if (old : bool) then
      ok ← appendOldRecipeFile_ target;
      if negb ok then ret_ false else mret tt
    else mret tt
  else mret tt.

(** [long] members of the head *)
Definition lfield {R} (b : bytes) (off : Z) (delta : nat) : res R Z :=
  o ← sz off; getI64 b (o + delta).

Fixpoint secondFiles (fuel : nat) (uid : Z) (md : bytes) (mdSize : Z) (stat : list bool)
    (data : bytes) (crypto : CryptoPrimitive) (target : ptr) (st : SecondLocals)
  : M bool SecondLocals :=
  let '(off, dataOff, num) := st in
  if off <? mdSize then
    match fuel with
    | O => fun _ => Hang
    | S fuel' =>
        nameSize ← lift (field md off 0);
        fileSize ← lift (lfield md off 8);
        past ← lift (field md off 16);
        sizePast ← lift (lfield md off 24);
        coming ← lift (field md off 32);
        sizeComing ← lift (lfield md off 40);
        off ← lift (sint (off + Z.of_nat fileShareMDHeadSize_));
        fullFileName ← lift (o ← sz off; len ← sz nameSize; rd md o len);
        off ← lift (sint (off + nameSize));
        match formatFullFileName_ fullFileName with
        | None => ret_ false
        | Some name =>
            _ ← makeRoom target past coming;
            _ ← recipeHead target uid past fileSize coming name crypto;
            st ← forM (Z.to_nat coming) 0
                   (fun _ st => recipeShare uid md stat data crypto target st)
                   (off, dataOff, num);
            _ ← recipeEnd target past sizePast sizeComing fileSize;
            secondFiles fuel' uid md mdSize stat data crypto target st
        end
    end
  else mret (off, dataOff, num).

Definition secondStageDedup {ret} (fuel : nat) (uid : Z) (shareMDBuffer : bytes) (shareMDSize : Z)
    (intraUserDupStatList : list bool) (shareDataBuffer : bytes)
    (cryptoObj : option CryptoPrimitive) : M ret bool := call (
  match cryptoObj with
  | None => ret_ false
  | Some crypto =>
      target ← findOrCreateBufferNode_ uid;
      _ ← secondFiles fuel uid shareMDBuffer shareMDSize intraUserDupStatList shareDataBuffer
            crypto target (0, 0, 0%nat);
      ret_ true
  end).

(** ** Restoration *)

Definition readRecipeFileFromBuffer_ {ret} (uid : Z) (name dst : bytes) : M ret (bool * bytes) := call (
  _ ← onShares lockBuffer;
  head ← gets (fun s => headBufferNode_ (shares s));
  fuel ← gets (fun s => S (size (heap (shares s))));
  '(target, _) ← onShares (findNode fuel (fun n => Ok (userID n =? uid)) head None);
  same ← (match target with
          | Some _ => r ← loadRecipe target; lift (strcmpEq (recipeFileName r) name)
          | None => mret false
          end);
  if (same : bool) then
    r ← loadRecipe target;
    dst ← lift (len ← sz (recipeFileBufferCurrLen r); memcpy dst 0 (recipeFileBuffer r) 0 len);
    _ ← onShares unlockBuffer;
    ret_ (true, dst)
  else _ ← onShares unlockBuffer; ret_ (false, dst)).

(** The recipe file entry number [version] of an inode value: the rest of the
    value from its name on, and its offset. *)
Definition versionEntry {R} (value : bytes) (version : Z) : res R (bytes * Z) :=
  shortNameSize ← getI32 value 4;
  x ← sint (Z.of_nat inodeIndexValueHeadSize_ + shortNameSize);
  y ← sint (Z.of_nat inodeFileEntrySize_ * version);
  x ← sint (x + y);
  off ← sz x;
  o ← getI32 value (off + 16);
  Ok (drop off value, o).

(** Fill the recipe buffer from the buffer node or from the file: is it in the
    buffer, and the path of the file. *)
Definition openRecipe (uid : Z) (name : bytes) (l : restoreLocals) : M bool (bool * bytes * restoreLocals) :=
  '(inBuffer, recipe) ← readRecipeFileFromBuffer_ uid name (rRecipe l);
  if (inBuffer : bool) then
    mret (true, [], {| rPos := 0; rRecipe := recipe; rBuf := rBuf l; rOff := rOff l; rCache := rCache l |})
  else
    str ← lift (cstr name);
    dir ← gets recipeFileDirName_;
    match addPrefixDir_ dir str with
    | None => ret_ false
    | Some path =>
        opened ← gets (fun s => fopen_rb (theWorld s) path);
        if negb opened then ret_ false else
        data ← gets (fun s => fread (theWorld s) path 0 RECIPE_BUFFER_SIZE);
        if decide (data = []) then ret_ false else
        recipe ← lift (wr recipe 0 data);
        mret (false, path, {| rPos := length data; rRecipe := recipe; rBuf := rBuf l; rOff := rOff l;
                              rCache := rCache l |})
    end.

(** Move the incomplete entry at [roff] to the front of the recipe buffer and read
    more of the file. *)
Definition refillRecipe (inBuffer : bool) (path : bytes) (roff : Z) (l : restoreLocals)
  : M bool (Z * restoreLocals) :=
  if roff + Z.of_nat fileRecipeEntrySize_ >? Z.of_nat RECIPE_BUFFER_SIZE then
    if inBuffer then ret_ false else
    tailLen ← lift (sz (Z.of_nat RECIPE_BUFFER_SIZE - roff));
    o ← lift (sz roff);
    recipe ← lift (memcpy (rRecipe l) 0 (rRecipe l) o tailLen);
    data ← gets (fun s => fread (theWorld s) path (rPos l) o);
    if decide (data = []) then ret_ false else
    recipe ← lift (wr recipe tailLen data);
    mret (0, {| rPos := rPos l + length data; rRecipe := recipe; rBuf := rBuf l; rOff := rOff l;
                rCache := rCache l |})
  else mret (roff, l).

(** One entry of the recipe; the locals are recipeFileBufferOffset and those of
    minDedupCore. *)
Definition restoreEntry (inBuffer : bool) (path : bytes) (st : Z * restoreLocals)
  : M bool (Z * restoreLocals) :=
  '(roff, l) ← refillRecipe inBuffer path st.1 st.2;
  o ← lift (sz roff);
  fp ← lift (rd (rRecipe l) o FP_SIZE);
  roff' ← lift (sint (roff + Z.of_nat fileRecipeEntrySize_));
  _ ← onShares lockDB;
  v ← gets (fun s => db_Get (theWorld s) (shareFP2IndexKey_ fp));
  _ ← onShares unlockDB;
  match v with
  | GetOk value => l ← onShares (restoreShare value o l); mret (roff', l)
  | GetNotFound | GetCorruption | GetIOError => ret_ false
  end.

(** The branch for a file that has an inode. *)
Definition restoreFound (uid versionNumber : Z) (value : bytes) : M bool unit :=
  recipe ← gets (fun s => uninit (theWorld s) RECIPE_BUFFER_SIZE);
  buf ← gets (fun s => uninit (theWorld s) sentShareFileBufferSize);
  name0 ← gets (fun s => uninit (theWorld s) INTERNAL_FILE_NAME_SIZE);
  cont0 ← gets (fun s => uninit (theWorld s) CONTAINER_BUFFER_SIZE);
  let cache := {| cacheNodes := replicate NUM_OF_CACHED_CONTAINERS
                    {| cachedName := name0; cachedContainer := cont0 |};
                  cacheIndex := replicate NUM_OF_CACHED_CONTAINERS 0%nat;
                  numCached := 0 |} in
  children ← lift (getI32 value 12);
  version ← lift (sint (- versionNumber));
  if version >=? children then ret_ false else
  '(name, roff) ← lift (versionEntry value version);
  '(inBuffer, path, l) ← openRecipe uid name
     {| rPos := 0; rRecipe := recipe; rBuf := buf; rOff := sentMsgHeadSize; rCache := cache |};
  fileSize ← lift (lfield (rRecipe l) roff 8);
  numOfShares ← lift (field (rRecipe l) roff 16);
  roff ← lift (sint (roff + Z.of_nat fileRecipeHeadSize_));
  buf ← lift (setI64 (rBuf l) sentMsgHeadSize fileSize);
  buf ← lift (setI32 buf (sentMsgHeadSize + 8) numOfShares);
  '(_, l) ← forM (Z.to_nat numOfShares) 0 (fun _ st => restoreEntry inBuffer path st)
     (roff, {| rPos := rPos l; rRecipe := rRecipe l; rBuf := buf;
               rOff := sentMsgHeadSize + shareFileHeadSize_; rCache := rCache l |});
  if (sentMsgHeadSize <? rOff l)%nat then _ ← onShares (sendBuffer (rBuf l) (rOff l)); mret tt
  else mret tt.

Definition restoreShareFile {ret} (uid : Z) (fullFileName : bytes) (versionNumber : Z)
    (cryptoObj : option CryptoPrimitive) : M ret bool := call (
  match cryptoObj with
  | None => ret_ false
  | Some crypto =>
      match formatFullFileName_ fullFileName with
      | None => ret_ false
      | Some name =>
          fp0 ← gets (fun s => uninit (theWorld s) FP_SIZE);
          fp ← lift (fileName2InodeFP_ name uid fp0 crypto);
          _ ← onShares lockDB;
          st ← gets (fun s => db_Get (theWorld s) (inodeFP2IndexKey_ fp));
          _ ← onShares unlockDB;
          match st with
          | GetOk value => _ ← restoreFound uid versionNumber value; ret_ true
          | GetNotFound | GetCorruption | GetIOError => ret_ false
          end
      end
  end).
End Stages.
