(* ===== verification/Inodes.v ===== *)
(** * The inode index

    The values of inodes in the database, as the code lays them out, and as the
    abstract inodes they stand for; what the accesses and updates of DedupCore do
    on the bytes, in terms of the abstract inodes. *)

From stdpp Require Import base list numbers gmap.
From coqutil Require Import Byte.
From Stdlib Require Import Lia.
From S2P Require Import Prelude Structs FileNames World CryptoPrimitive MinDedupCore MinStages DedupCore DedupStages.

Local Open Scope Z_scope.

(** A version of a file: its recipe file and the offset of its recipe there. *)
Record Version := { v_file : bytes; v_off : nat }.

Inductive inodeBody :=
| FileBody (versions : list Version)
| DirBody (children : list bytes).

(** [in_name] is the block of the short name, [in_pad] the padding of the head. *)
Record Inode := { in_user : Z; in_name : bytes; in_pad : bytes; in_body : inodeBody }.

Definition encodeVersion (v : Version) : bytes := (v_file v ++ [Byte.x00]) ++ le32 (Z.of_nat (v_off v)).
Definition bodyType (b : inodeBody) : byte := match b with FileBody _ => FILE_TYPE | DirBody _ => DIR_TYPE end.
Definition bodyCount (b : inodeBody) : nat :=
  match b with FileBody l => length l | DirBody l => length l end.
Definition encodeBody (b : inodeBody) : bytes :=
  match b with FileBody l => mjoin (encodeVersion <$> l) | DirBody l => mjoin l end.

Definition encodeInodeHead (i : Inode) : bytes :=
  le32 (in_user i) ++ le32 (Z.of_nat (length (in_name i))) ++ [bodyType (in_body i)] ++ in_pad i
  ++ le32 (Z.of_nat (bodyCount (in_body i))).
Definition encodeInode (i : Inode) : bytes := encodeInodeHead i ++ in_name i ++ encodeBody (in_body i).

Definition with_body (i : Inode) (b : inodeBody) : Inode :=
  {| in_user := in_user i; in_name := in_name i; in_pad := in_pad i; in_body := b |}.

(** Inodes the code can handle, with at most [b] entries. *)
Record wfInode (b : Z) (i : Inode) : Prop := {
  wi_user : int32 (in_user i);
  wi_pad : length (in_pad i) = 3%nat;
  wi_name : Z.of_nat (length (in_name i)) < 2 ^ 29;
  wi_count : Z.of_nat (bodyCount (in_body i)) <= b;
  wi_body : match in_body i with
            | FileBody l => Forall (fun v => (exists n, isRecipeName n (v_file v)) /\ int32 (Z.of_nat (v_off v))) l
            | DirBody l => Forall (fun fp => length fp = FP_SIZE) l
            end;
}.

Lemma wfInode_mono b b' i : b <= b' -> wfInode b i -> wfInode b' i.
Proof. intros Hb [H1 H2 H3 H4 H5]. split; try done. lia. Qed.

Lemma length_encodeInodeHead i : length (in_pad i) = 3%nat -> length (encodeInodeHead i) = 16%nat.
Proof. intros H. unfold encodeInodeHead. by rewrite !length_app, !length_le32, H. Qed.

Lemma length_encodeVersion v : (exists n, isRecipeName n (v_file v)) -> length (encodeVersion v) = 20%nat.
Proof.
  intros [n Hn]. unfold encodeVersion. rewrite !length_app, length_le32, (containerName_length _ _ Hn). done.
Qed.

Lemma length_versions l :
  Forall (fun v => exists n, isRecipeName n (v_file v)) l ->
  length (mjoin (encodeVersion <$> l)) = (20 * length l)%nat.
Proof.
  induction 1 as [|v l Hv _ IH]; [done|].
  change (mjoin (encodeVersion <$> v :: l)) with (encodeVersion v ++ mjoin (encodeVersion <$> l)).
  rewrite length_app, length_encodeVersion by done. cbn [length]. lia.
Qed.

Lemma length_children (l : list bytes) : Forall (fun fp => length fp = FP_SIZE) l -> length (mjoin l) = (32 * length l)%nat.
Proof.
  induction 1 as [|v l Hv _ IH]; [done|]. change (mjoin (v :: l)) with (v ++ mjoin l).
  rewrite length_app, Hv. cbn [length]. unfold FP_SIZE. lia.
Qed.

Lemma length_encodeBody b i : wfInode b i -> b < 2 ^ 24 -> Z.of_nat (length (encodeBody (in_body i))) < 2 ^ 30.
Proof.
  intros [_ _ _ Hc Hb] Hlt. destruct (in_body i) as [l|l]; cbn [encodeBody bodyCount] in *.
  - rewrite length_versions; [lia|]. eapply list.Forall_impl; [exact Hb|]. by intros v [Hv _].
  - rewrite length_children by done. lia.
Qed.

Lemma length_encodeInode b i : wfInode b i -> b < 2 ^ 24 -> Z.of_nat (length (encodeInode i)) < 2 ^ 31 - 64.
Proof.
  intros Hw Hb. pose proof (length_encodeBody _ _ Hw Hb). destruct Hw.
  unfold encodeInode. rewrite !length_app, length_encodeInodeHead by done. lia.
Qed.

(** ** Reading *)

Section Read.
Context {R : Type} (b : Z) (i : Inode) (WF : wfInode b i) (Hb : b < 2 ^ 24).

Lemma get_nameSize : getI32 (R := R) (encodeInode i) 4 = Ok (Z.of_nat (length (in_name i))).
Proof.
  destruct WF. unfold encodeInode, encodeInodeHead. rewrite <- !app_assoc.
  eapply getI32_at; [done|by rewrite length_le32|unfold int32; lia].
Qed.

Lemma get_children : getI32 (R := R) (encodeInode i) 12 = Ok (Z.of_nat (bodyCount (in_body i))).
Proof.
  destruct WF. unfold encodeInode, encodeInodeHead.
  eapply (getI32_at (le32 (in_user i) ++ le32 (Z.of_nat (length (in_name i))) ++ [bodyType (in_body i)] ++ in_pad i)).
  - by rewrite <- !app_assoc.
  - rewrite !length_app, !length_le32, wi_pad0. done.
  - unfold int32. lia.
Qed.

Lemma drop_head : drop inodeIndexValueHeadSize_ (encodeInode i) = in_name i ++ encodeBody (in_body i).
Proof.
  destruct WF. unfold encodeInode. rewrite drop_app_length'; [done|]. by rewrite length_encodeInodeHead.
Qed.

Lemma drop_name off : off = (inodeIndexValueHeadSize_ + length (in_name i))%nat ->
  drop off (encodeInode i) = encodeBody (in_body i).
Proof. intros ->. rewrite <- drop_drop, drop_head. apply drop_app_length. Qed.

Lemma rd_body off o len l :
  off = (inodeIndexValueHeadSize_ + length (in_name i) + o)%nat ->
  rd (R := R) (encodeBody (in_body i)) o len = Ok l -> rd (R := R) (encodeInode i) off len = Ok l.
Proof.
  intros -> E. unfold rd in *. destruct (decide (o + len <= length (encodeBody (in_body i)))%nat); [|done].
  destruct WF. rewrite decide_True.
  - rewrite <- drop_drop, drop_name by done. done.
  - unfold encodeInode. rewrite !length_app, length_encodeInodeHead by done. unfold inodeIndexValueHeadSize_. lia.
Qed.

Lemma get_body off o x :
  off = (inodeIndexValueHeadSize_ + length (in_name i) + o)%nat ->
  getI32 (R := R) (encodeBody (in_body i)) o = Ok x -> getI32 (R := R) (encodeInode i) off = Ok x.
Proof.
  intros Ho E. unfold getI32 in *. apply bind_ok_inv in E as (l & E & Hx).
  by rewrite (rd_body off o 4 l Ho E).
Qed.
End Read.

(** Version [k] of a file. *)
Lemma encodeVersions_at l k v :
  l !! k = Some v -> mjoin (encodeVersion <$> l)
  = mjoin (encodeVersion <$> take k l) ++ encodeVersion v ++ mjoin (encodeVersion <$> drop (S k) l).
Proof.
  intros H. rewrite <- (take_drop_middle l k v) at 1 by done. by rewrite fmap_app, join_app.
Qed.

Section Entries.
Context {R : Type} (b : Z) (i : Inode) (WF : wfInode b i) (Hb : b < 2 ^ 24).

Lemma version_at l k v :
  in_body i = FileBody l -> l !! k = Some v ->
  exists pre post, encodeBody (in_body i) = pre ++ encodeVersion v ++ post /\ length pre = (20 * k)%nat /\
    (exists n, isRecipeName n (v_file v)) /\ int32 (Z.of_nat (v_off v)).
Proof.
  intros E Hv. pose proof (wi_body _ _ WF) as HF. rewrite E in HF |- *.
  exists (mjoin (encodeVersion <$> take k l)), (mjoin (encodeVersion <$> drop (S k) l)).
  split; [by apply encodeVersions_at|]. rewrite length_versions.
  - rewrite length_take. apply lookup_lt_Some in Hv as Hlt. split; [lia|].
    rewrite Forall_lookup in HF. by apply (HF k).
  - eapply list.Forall_impl; [apply Forall_take; exact HF|]. by intros x [Hx _].
Qed.

Lemma versionEntry_spec l k v :
  in_body i = FileBody l -> l !! k = Some v ->
  exists rest, versionEntry (R := R) (encodeInode i) (Z.of_nat k)
               = Ok (v_file v ++ Byte.x00 :: rest, Z.of_nat (v_off v)).
Proof.
  intros E Hv. destruct (version_at l k v E Hv) as (pre & post & Eb & Hl & [n Hn] & Ho).
  pose proof (wi_name _ _ WF). pose proof (wi_count _ _ WF) as Hc. rewrite E in Hc. cbn in Hc.
  apply lookup_lt_Some in Hv as Hlt.
  unfold versionEntry. rewrite (get_nameSize b i WF). cbn [mbind res_bind].
  unfold inodeIndexValueHeadSize_, inodeFileEntrySize_.
  rewrite (sint_ok (Z.of_nat 16 + _)) by lia. cbn [mbind res_bind]. rewrite (sint_ok (Z.of_nat 20 * _)) by lia.
  cbn [mbind res_bind]. rewrite sint_ok by lia. cbn [mbind res_bind]. rewrite sz_ok by lia. cbn [mbind res_bind].
  replace (Z.to_nat _) with (inodeIndexValueHeadSize_ + length (in_name i) + 20 * k)%nat
    by (unfold inodeIndexValueHeadSize_; lia).
  assert (drop (20 * k) (encodeBody (in_body i)) = encodeVersion v ++ post) as Ed
    by (rewrite Eb; by apply drop_app_length').
  rewrite (get_body b i WF _ (20 * k + 16) (Z.of_nat (v_off v))); [|lia|].
  - cbn [mbind res_bind]. exists (le32 (Z.of_nat (v_off v)) ++ post). f_equal. f_equal.
    rewrite <- drop_drop, (drop_name b i WF) by done. rewrite Ed. unfold encodeVersion. by rewrite <- !app_assoc.
  - rewrite Eb. unfold encodeVersion.
    eapply (getI32_at (pre ++ v_file v ++ [Byte.x00]) _ post); [by rewrite <- !app_assoc| |done].
    rewrite !length_app, (containerName_length _ _ Hn), Hl. cbn. lia.
Qed.

Lemma newestVersion_spec v l :
  in_body i = FileBody (v :: l) -> newestVersion (R := R) (encodeInode i) = Ok (v_file v, Z.of_nat (v_off v)).
Proof.
  intros E. destruct (versionEntry_spec _ 0%nat v E eq_refl) as [rest Hv].
  destruct (version_at _ 0%nat v E eq_refl) as (_ & _ & _ & _ & [n Hn] & _).
  pose proof (wi_name _ _ WF). unfold versionEntry in Hv. unfold newestVersion.
  rewrite (get_nameSize b i WF) in *. cbn [mbind res_bind] in *. unfold inodeIndexValueHeadSize_, inodeFileEntrySize_ in *.
  rewrite (sint_ok (Z.of_nat 16 + _)) in Hv by lia. cbn [mbind res_bind] in Hv.
  rewrite (sint_ok (Z.of_nat 20 * _)) in Hv by lia. cbn [mbind res_bind] in Hv.
  rewrite Z.mul_0_r, Z.add_0_r in Hv. rewrite sint_ok in Hv by lia. cbn [mbind res_bind] in Hv.
  destruct (sz _) as [off| | | |]; try done. cbn [mbind res_bind] in *.
  apply bind_ok_inv in Hv as (o & Eo & Hv). simplify_eq. rewrite Hv, Eo, (containerName_cstr _ _ _ Hn). done.
Qed.

(** The head after one entry more. *)
Lemma head_count body :
  bodyType body = bodyType (in_body i) -> bodyCount body = S (bodyCount (in_body i)) ->
  (head ← rd (encodeInode i) 0 inodeIndexValueHeadSize_;
   children ← getI32 head 12;
   children ← sint (children + 1);
   setI32 head 12 children) = Ok (R := R) (encodeInodeHead (with_body i body)).
Proof.
  intros Et Ec. pose proof (length_encodeInodeHead i (wi_pad _ _ WF)) as Hl.
  unfold encodeInode. rewrite (rd_front (encodeInodeHead i)) by done. cbn [mbind res_bind].
  set (pre := le32 (in_user i) ++ le32 (Z.of_nat (length (in_name i))) ++ [bodyType (in_body i)] ++ in_pad i).
  assert (encodeInodeHead i = pre ++ le32 (Z.of_nat (bodyCount (in_body i))) ++ []) as Eh.
  { unfold encodeInodeHead, pre. by rewrite <- !app_assoc, app_nil_r. }
  assert (length pre = 12%nat) as Hp.
  { unfold pre. rewrite !length_app, !length_le32, (wi_pad _ _ WF). done. }
  pose proof (wi_count _ _ WF).
  rewrite (getI32_at pre (Z.of_nat (bodyCount (in_body i))) []) by (try done; unfold int32; lia).
  cbn [mbind res_bind]. rewrite sint_ok by lia. cbn [mbind res_bind].
  rewrite (setI32_at pre _ [] _ _ _ Eh) by (rewrite ?length_le32; done).
  f_equal. unfold encodeInodeHead, with_body, pre. cbn [in_user in_name in_pad in_body].
  rewrite Et, Ec, app_nil_r, <- !app_assoc. do 5 f_equal. lia.
Qed.

Lemma addChild_file v l :
  in_body i = FileBody l ->
  addChild (R := R) (encodeInode i) (encodeVersion v) false
  = Ok (encodeInode (with_body i (FileBody (v :: l)))).
Proof.
  intros E. pose proof (head_count (FileBody (v :: l))) as Hh. rewrite E in Hh. specialize (Hh eq_refl eq_refl).
  unfold addChild. destruct (rd (encodeInode i) 0 inodeIndexValueHeadSize_) as [hd| | | |]; try done.
  cbn [mbind res_bind] in *. destruct (getI32 hd 12) as [c| | | |]; try done. cbn [mbind res_bind] in *.
  destruct (sint (c + 1)) as [c'| | | |]; try done. cbn [mbind res_bind] in *. rewrite Hh. cbn [mbind res_bind].
  rewrite (get_nameSize b i WF). cbn [mbind res_bind]. rewrite sz_ok by lia. cbn [mbind res_bind]. rewrite Nat2Z.id.
  assert (rd (R := R) (encodeInode i) inodeIndexValueHeadSize_ (length (in_name i)) = Ok (in_name i)) as ->.
  { unfold encodeInode. apply rd_mid; [|done]. by rewrite (length_encodeInodeHead _ (wi_pad _ _ WF)). }
  cbn [mbind res_bind]. rewrite (drop_name b i WF) by done. by rewrite E.
Qed.

Lemma addChild_dir fp l :
  in_body i = DirBody l ->
  addChild (R := R) (encodeInode i) fp true = Ok (encodeInode (with_body i (DirBody (l ++ [fp])))).
Proof.
  intros E. pose proof (head_count (DirBody (l ++ [fp]))) as Hh. rewrite E in Hh.
  specialize (Hh eq_refl ltac:(cbn; rewrite length_app; cbn; lia)).
  unfold addChild. destruct (rd (encodeInode i) 0 inodeIndexValueHeadSize_) as [hd| | | |]; try done.
  cbn [mbind res_bind] in *. destruct (getI32 hd 12) as [c| | | |]; try done. cbn [mbind res_bind] in *.
  destruct (sint (c + 1)) as [c'| | | |]; try done. cbn [mbind res_bind] in *. rewrite Hh. cbn [mbind res_bind].
  rewrite (drop_head b i WF), E. unfold encodeInode. cbn [in_name in_body with_body encodeBody].
  rewrite join_app. cbn. by rewrite app_nil_r, <- app_assoc.
Qed.

Lemma hasChild_spec fp l : forall pre n off,
  length pre = off -> Forall (fun x : bytes => length x = FP_SIZE) l -> n = length l ->
  hasChild (R := R) n (pre ++ mjoin l) fp off = Ok (bool_decide (fp ∈ l)).
Proof.
  induction l as [|x l IH]; intros pre n off Hp HF ->; cbn [length hasChild].
  { by rewrite bool_decide_false by apply not_elem_of_nil. }
  apply list.Forall_cons in HF as [Hx HF]. change (mjoin (x :: l)) with (x ++ mjoin l).
  rewrite rd_mid by done. cbn [mbind res_bind]. unfold fpDiffers. destruct (bool_decide (x ≠ fp)) eqn:E.
  - apply bool_decide_eq_true in E. rewrite app_assoc, (IH (pre ++ x)); [|rewrite length_app, Hx, Hp; done|done|done].
    f_equal. apply bool_decide_ext. rewrite elem_of_cons. naive_solver.
  - apply bool_decide_eq_false, dec_stable in E. subst x. by rewrite bool_decide_true by (apply elem_of_cons; by left).
Qed.

Lemma inPath_spec fp l :
  in_body i = DirBody l -> inPath (R := R) (encodeInode i) fp = Ok (bool_decide (fp ∈ l)).
Proof.
  intros E. pose proof (wi_body _ _ WF) as HF. rewrite E in HF.
  unfold inPath. rewrite (get_nameSize b i WF). cbn [mbind res_bind]. rewrite sz_ok by lia. cbn [mbind res_bind].
  rewrite (get_children b i WF Hb). cbn [mbind res_bind]. unfold encodeInode. rewrite app_assoc, E. cbn [encodeBody bodyCount].
  apply hasChild_spec; [|done|by rewrite Nat2Z.id].
  rewrite length_app, (length_encodeInodeHead _ (wi_pad _ _ WF)). unfold inodeIndexValueHeadSize_. lia.
Qed.
End Entries.

(** ** New inodes *)

(** A C string up to its end. *)
Fixpoint untilNul (s : bytes) : bytes :=
  match s with
  | [] => []
  | x :: s' => if decide (x = Byte.x00) then [] else x :: untilNul s'
  end.

Lemma cstr_untilNul {R} s : cstr (R := R) (s ++ [Byte.x00]) = Ok (untilNul s).
Proof.
  induction s as [|x s IH]; cbn; [done|]. case_decide; [done|]. by rewrite IH.
Qed.

Lemma length_untilNul s : (length (untilNul s) <= length s)%nat.
Proof. induction s as [|x s IH]; cbn; [done|]. case_decide; cbn; lia. Qed.

Lemma untilNul_again s rest : untilNul (untilNul s ++ Byte.x00 :: rest) = untilNul s.
Proof. induction s as [|x s IH]; cbn; [done|]. case_decide; cbn; [done|]. by rewrite decide_False, IH. Qed.

Lemma untilNul_id s : Byte.x00 ∉ s -> untilNul s = s.
Proof.
  induction s as [|x s IH]; cbn; [done|]. rewrite not_elem_of_cons. intros [Hx Hs].
  rewrite decide_False by congruence. by rewrite IH.
Qed.

Lemma newInode_spec {R} block uid short body :
  length block = (16 + (length short + 1) + length (encodeBody body))%nat -> bodyCount body = 1%nat ->
  exists i, newInode (R := R) block uid short (bodyType body) (encodeBody body) = Ok (encodeInode i) /\
    in_user i = uid /\ in_body i = body /\ length (in_pad i) = 3%nat /\
    length (in_name i) = (length short + 1)%nat /\ untilNul (in_name i) = untilNul short.
Proof.
  intros Hl Hc. pose proof (length_untilNul short) as Hu. unfold newInode.
  assert (exists b0 b4 t pad b12 name rest, block = b0 ++ b4 ++ [t] ++ pad ++ b12 ++ (name ++ rest) ++ drop (16 + (length short + 1)) block /\
    length b0 = 4%nat /\ length b4 = 4%nat /\ length pad = 3%nat /\ length b12 = 4%nat /\
    length name = (length (untilNul short) + 1)%nat /\ length (name ++ rest) = (length short + 1)%nat) as
    (b0 & b4 & t & pad & b12 & name & rest & Eb & H0 & H4 & Hp & H12 & Hn & Hnr).
  { do 8 (destruct block as [|? block]; [cbn in Hl; lia|]).
    do 8 (destruct block as [|? block]; [cbn in Hl; lia|]). cbn in Hl.
    eexists [_;_;_;_], [_;_;_;_], _, [_;_;_], [_;_;_;_], (take (length (untilNul short) + 1) block),
      (drop (length (untilNul short) + 1) (take (length short + 1) block)).
    split_and!; try done.
    - cbn. do 16 f_equal. rewrite <- (take_drop (length short + 1) block) at 1. f_equal.
      rewrite <- (take_drop (length (untilNul short) + 1) (take _ _)) at 1. f_equal.
      rewrite take_take. f_equal. lia.
    - rewrite length_take. lia.
    - rewrite length_app, length_take, length_drop, length_take. lia. }
  set (E := drop _ block) in Eb. assert (length E = length (encodeBody body)) as HE
    by (unfold E; rewrite length_drop; lia).
  rewrite Eb. clear Eb.
  rewrite (setI32_at [] b0 (b4 ++ [t] ++ pad ++ b12 ++ (name ++ rest) ++ E)) by done. cbn [mbind res_bind app].
  rewrite (setI32_at (le32 uid) b4 ([t] ++ pad ++ b12 ++ (name ++ rest) ++ E)) by (rewrite ?length_le32; done).
  cbn [mbind res_bind].
  rewrite aset_ok by (rewrite !length_app, !length_le32; cbn; lia).
  cbn [mbind res_bind]. rewrite app_assoc, insert_app_r_alt by (rewrite length_app, !length_le32; cbn; lia).
  rewrite length_app, !length_le32. cbn [Nat.sub Nat.add app insert list_insert].
  change (le32 uid ++ le32 (Z.of_nat (length short + 1))) with ([] ++ le32 uid ++ le32 (Z.of_nat (length short + 1))).
  set (hd8 := [] ++ le32 uid ++ _).
  rewrite (setI32_at (hd8 ++ bodyType body :: pad) b12 ((name ++ rest) ++ E));
    [|by rewrite <- !app_assoc| |done].
  2: { unfold hd8. rewrite !length_app, !length_le32. cbn. rewrite Hp. done. }
  cbn [mbind res_bind]. rewrite cstr_untilNul. cbn [mbind res_bind].
  set (hd := (hd8 ++ bodyType body :: pad) ++ le32 1).
  assert (length hd = 16%nat) as Hhd.
  { unfold hd, hd8. rewrite !length_app, !length_le32. cbn. rewrite Hp. done. }
  replace ((hd8 ++ bodyType body :: pad) ++ le32 1 ++ (name ++ rest) ++ E)
    with (hd ++ name ++ (rest ++ E)) by (unfold hd; by rewrite <- !app_assoc).
  rewrite (wr_mid hd name (rest ++ E)) by (rewrite ?Hhd, ?length_app, ?Hn; done). cbn [mbind res_bind].
  rewrite length_app in Hnr.
  replace (hd ++ (untilNul short ++ [Byte.x00]) ++ rest ++ E)
    with ((hd ++ (untilNul short ++ [Byte.x00]) ++ rest) ++ E ++ []) by (by rewrite <- !app_assoc, app_nil_r).
  rewrite wr_mid; [|rewrite !length_app, Hhd; cbn; unfold inodeIndexValueHeadSize_; lia|done].
  exists {| in_user := uid; in_name := (untilNul short ++ [Byte.x00]) ++ rest; in_pad := pad; in_body := body |}.
  cbn [in_user in_name in_pad in_body].
  assert (length ((untilNul short ++ [Byte.x00]) ++ rest) = length short + 1)%nat as Hname
    by (rewrite !length_app; cbn; lia).
  split_and!; [|done|done|done|done|by rewrite <- app_assoc; apply untilNul_again].
  unfold encodeInode, encodeInodeHead. cbn [in_user in_name in_pad in_body]. rewrite Hname, Hc.
  unfold hd, hd8. f_equal. cbn [app]. rewrite <- !app_assoc, app_nil_r. cbn [app]. by rewrite <- !app_assoc.
Qed.

Lemma fileEntry_spec {R} block r name n :
  length block = 20%nat -> recipeFileName r = name ++ [Byte.x00] -> isRecipeName n name ->
  0 <= recipeFileBufferCurrLen r ->
  fileEntry (R := R) block r
  = Ok (encodeVersion {| v_file := name; v_off := Z.to_nat (recipeFileBufferCurrLen r) |}).
Proof.
  intros Hl En Hn Hc. pose proof (containerName_length _ _ Hn) as H15. unfold fileEntry.
  rewrite En, (containerName_cstr _ _ [] Hn). cbn [mbind res_bind].
  assert (length (name ++ [Byte.x00]) = 16%nat) as H16 by (rewrite length_app, H15; done).
  rewrite (wr_next [] block) by (rewrite ?H16; done || lia). cbn [mbind res_bind app].
  rewrite H16. rewrite (setI32_at (name ++ [Byte.x00]) (drop 16 block) []);
    [|by rewrite app_nil_r|done|rewrite length_drop; lia].
  unfold encodeVersion. cbn [v_file v_off]. by rewrite app_nil_r, Z2Nat.id.
Qed.
