(* ===== verification/InodeIndex.v ===== *)
(** * Updates of the inode index

    addFileIntoInodeIndex_ refines an update of an abstract map of inodes: a new
    version of the file, and for a new file every directory of its path. *)

From stdpp Require Import base list numbers gmap functions.
From coqutil Require Import Byte.
From Stdlib Require Import Lia.
From S2P Require Import Prelude Structs FileNames World CryptoPrimitive MinDedupCore MinStages ShareIndex MinInvariant MinNodes MinIndex DedupCore DedupStages Inodes.

Local Open Scope Z_scope.

(** ** Paths *)

(** The directories of a name, longest first: its prefixes that end in a slash.
    (The recursion runs over the reversed name.) *)
Fixpoint dirsRev (r : bytes) : list bytes :=
  match r with
  | [] => []
  | c :: r' => if decide (c = slash) then rev r :: dirsRev r' else dirsRev r'
  end.
Definition dirsOf (name : bytes) : list bytes := dirsRev (rev name).

(** The part of a name behind its last slash. *)
Fixpoint untilSlash (r : bytes) : bytes :=
  match r with
  | [] => []
  | c :: r' => if decide (c = slash) then [] else c :: untilSlash r'
  end.
Definition afterSlash (name : bytes) : bytes := rev (untilSlash (rev name)).

(** The part of a directory name that is kept in its inode. *)
Definition dirBase (d : bytes) : bytes := afterSlash (take (length d - 1) d) ++ [slash].

Definition isDir (d : bytes) : Prop := d = [] \/ exists x, d = x ++ [slash].

Lemma length_untilSlash r : (length (untilSlash r) <= length r)%nat.
Proof. induction r as [|c r IH]; cbn; [done|]. case_decide; cbn; lia. Qed.

Lemma dirsRev_skip r : dirsRev (drop (length (untilSlash r)) r) = dirsRev r.
Proof.
  induction r as [|c r IH]; [done|]. cbn [untilSlash]. destruct (decide (c = slash)) eqn:E; [done|].
  cbn [length drop dirsRev]. by rewrite E, IH.
Qed.

Lemma untilSlash_drop r : r = untilSlash r ++ drop (length (untilSlash r)) r.
Proof. induction r as [|c r IH]; cbn; [done|]. case_decide; cbn; congruence. Qed.

Lemma drop_untilSlash_dir r : isDir (rev (drop (length (untilSlash r)) r)).
Proof.
  induction r as [|c r IH]; cbn; [by left|]. case_decide; [|done]. subst c. right. cbn. by eexists.
Qed.

Lemma list_find_slash r :
  list_find (eq slash) r
  = if decide (length (untilSlash r) < length r)%nat then Some (length (untilSlash r), slash) else None.
Proof.
  induction r as [|c r IH]; [done|]. cbn [list_find untilSlash]. destruct (decide (c = slash)) as [->|Hc].
  - rewrite decide_True by done. cbn [length]. by rewrite decide_True by lia.
  - rewrite decide_False by congruence. rewrite IH. cbn [length].
    case_decide; [rewrite decide_True by lia|rewrite decide_False by lia]; done.
Qed.

Lemma behindSlash_spec name pos :
  behindSlash name pos
  = (length (take (S pos) name) - length (untilSlash (rev (take (S pos) name))))%nat.
Proof.
  unfold behindSlash, rfindSlash. rewrite list_find_slash.
  pose proof (length_untilSlash (rev (take (S pos) name))) as Hl. rewrite length_rev in *.
  case_decide; lia.
Qed.

(** The split of a name at its last slash. *)
Lemma split_slash name :
  let p := (length name - length (untilSlash (rev name)))%nat in
  isDir (take p name) /\ dirsOf (take p name) = dirsOf name /\ drop p name = afterSlash name.
Proof.
  intros p. pose proof (skipn_rev (length (untilSlash (rev name))) name) as E. fold p in E.
  apply (f_equal (rev (A := byte))) in E. rewrite rev_involutive in E.
  assert (dirsOf (take p name) = dirsOf name) as Ed.
  { unfold dirsOf. rewrite <- E, rev_involutive. apply dirsRev_skip. }
  assert (isDir (take p name)) as Hd by (rewrite <- E; apply drop_untilSlash_dir).
  split_and!; [done|done|]. unfold afterSlash.
  pose proof (untilSlash_drop (rev name)) as Eu. apply (f_equal (rev (A := byte))) in Eu.
  rewrite rev_involutive, rev_app_distr, E in Eu.
  rewrite <- (take_drop p name) in Eu at 1. by apply app_inv_head in Eu.
Qed.

Lemma split_file name :
  isDir (take (behindSlash name (length name)) name) /\
  dirsOf (take (behindSlash name (length name)) name) = dirsOf name /\
  drop (behindSlash name (length name)) name = afterSlash name.
Proof. rewrite behindSlash_spec, (take_ge name (S (length name))) by lia. apply split_slash. Qed.

(** One round of the loop over the directories. *)
Lemma split_dir x :
  let d := x ++ [slash] in
  let d' := if decide (d = [slash]) then [] else take (behindSlash d (length d - 2)) d in
  dirsOf d = d :: dirsOf d' /\ isDir d' /\ (length d' < length d)%nat /\
  (if decide (d = [slash]) then d else drop (behindSlash d (length d - 2)) d) = dirBase d.
Proof.
  intros d d'. assert (dirsOf d = d :: dirsOf x) as ->.
  { unfold dirsOf, d. rewrite rev_app_distr. cbn [rev app dirsRev].
    by rewrite decide_True, rev_involutive by done. }
  assert (take (length d - 1) d = x) as Ex.
  { unfold d. rewrite length_app. cbn. rewrite Nat.add_sub. apply take_app_length. }
  unfold dirBase. rewrite Ex. subst d'. case_decide as Hd.
  - unfold d in Hd. assert (x = []) as -> by (by apply (app_inv_tail [slash] x [])).
    split_and!; [done|by left|cbn; lia|done].
  - assert (0 < length x)%nat as Hx by (destruct x; [by destruct Hd|cbn; lia]).
    assert (take (S (length d - 2)) d = x) as E2.
    { replace (S (length d - 2)) with (length d - 1)%nat; [done|]. unfold d. rewrite length_app. cbn. lia. }
    rewrite behindSlash_spec, E2. set (p := (length x - _)%nat).
    destruct (split_slash x) as (H1 & H2 & H3). fold p in H1, H2, H3.
    unfold d. rewrite take_app_le, drop_app_le by lia. rewrite H2, H3.
    split_and!; [done|done| |done]. rewrite length_take, length_app. cbn. lia.
Qed.

(** ** Abstract inodes *)

(** An inode without the bytes that do not matter. *)
Record Entry := { en_user : Z; en_name : bytes; en_body : inodeBody }.

Definition entryOf (i : Inode) : Entry :=
  {| en_user := in_user i; en_name := untilNul (in_name i); en_body := in_body i |}.

Abbreviation InodeMap := (bytes -> option Entry).

(** The database [m] holds the inodes [I], with at most [b] entries each. *)
Definition inodes (b : Z) (I : InodeMap) (m : gmap bytes bytes) : Prop :=
  forall fp, match I fp with
             | None => m !! inodeFP2IndexKey_ fp = None
             | Some e => exists i, wfInode b i /\ entryOf i = e /\
                                   m !! inodeFP2IndexKey_ fp = Some (encodeInode i)
             end.

Definition set_body (e : Entry) (body : inodeBody) : Entry :=
  {| en_user := en_user e; en_name := en_name e; en_body := body |}.
Definition newEntry (uid : Z) (short : bytes) (body : inodeBody) : Entry :=
  {| en_user := uid; en_name := untilNul short; en_body := body |}.

Definition isFileInode (o : option Entry) : Prop :=
  match o with Some e => match en_body e with FileBody _ => True | DirBody _ => False end | None => False end.
Definition isDirInode (o : option Entry) : Prop :=
  match o with Some e => match en_body e with DirBody _ => True | FileBody _ => False end | None => False end.

#[export] Instance isFileInode_dec o : Decision (isFileInode o).
Proof. destruct o as [[? ? []]|]; cbn; apply _. Defined.

Definition childrenOf (I : InodeMap) (fp : bytes) : list bytes :=
  match I fp with
  | Some e => match en_body e with DirBody l => l | FileBody _ => [] end
  | None => []
  end.
Definition versionsOf (I : InodeMap) (fp : bytes) : list Version :=
  match I fp with
  | Some e => match en_body e with FileBody l => l | DirBody _ => [] end
  | None => []
  end.

Section Spec.
Context (digest : bytes -> bytes).

(** The fingerprint of a name of a user. *)
Definition inodeFP (uid : Z) (name : bytes) : bytes := digest (name ++ le32 uid).

(** A directory gets a child. *)
Definition dirSpec (uid : Z) (child d : bytes) (I : InodeMap) : InodeMap :=
  let fp := inodeFP uid d in
  match I fp with
  | None => <[fp := Some (newEntry uid (dirBase d) (DirBody [child]))]> I
  | Some e => match en_body e with
              | DirBody l => if decide (child ∈ l) then I
                             else <[fp := Some (set_body e (DirBody (l ++ [child])))]> I
              | FileBody _ => I
              end
  end.

Fixpoint dirsSpec (uid : Z) (child : bytes) (ds : list bytes) (I : InodeMap) : InodeMap :=
  match ds with
  | [] => I
  | d :: ds' => dirsSpec uid (inodeFP uid d) ds' (dirSpec uid child d I)
  end.

(** A file gets a version. *)
Definition addFileSpec (uid : Z) (name : bytes) (v : Version) (I : InodeMap) : InodeMap :=
  let fp := inodeFP uid name in
  match I fp with
  | None => dirsSpec uid fp (dirsOf name)
              (<[fp := Some (newEntry uid (afterSlash name) (FileBody [v]))]> I)
  | Some e => match en_body e with
              | FileBody l => <[fp := Some (set_body e (FileBody (v :: l)))]> I
              | DirBody _ => I
              end
  end.

(** The inode of each directory has the inode below it as a child. *)
Fixpoint onPath (I : InodeMap) (uid : Z) (child : bytes) (ds : list bytes) : Prop :=
  match ds with
  | [] => True
  | d :: ds' => child ∈ childrenOf I (inodeFP uid d) /\ onPath I uid (inodeFP uid d) ds'
  end.

(** No two inodes of the path of a name are confused: the fingerprint of the name
    is not that of a directory, nor are those of its directories of files. *)
Definition noClash (I : InodeMap) (uid : Z) (name : bytes) : Prop :=
  ~ isDirInode (I (inodeFP uid name)) /\
  Forall (fun d => ~ isFileInode (I (inodeFP uid d)) /\ inodeFP uid d <> inodeFP uid name) (dirsOf name).
End Spec.

(** ** Facts about the abstract updates *)

Section SpecFacts.
Context (digest : bytes -> bytes).
Implicit Types I : InodeMap.

Lemma isFile_not_dir o : isFileInode o -> ~ isDirInode o.
Proof. destruct o as [e|]; [|done]. cbn. destruct (en_body e); tauto. Qed.

(** Only inodes of directories change, and their children stay. *)
Definition dirsGrow I I' : Prop :=
  (forall fp, isFileInode (I fp) -> I' fp = I fp) /\
  (forall fp, isFileInode (I' fp) -> isFileInode (I fp)) /\
  (forall fp c, c ∈ childrenOf I fp -> c ∈ childrenOf I' fp).

#[export] Instance dirsGrow_preorder : PreOrder dirsGrow.
Proof.
  split; [by repeat split; intros|]. intros I1 I2 I3 (F1 & G1 & C1) (F2 & G2 & C2). unfold dirsGrow. split_and!.
  - intros fp Hf. rewrite F2; [by apply F1|]. by rewrite F1.
  - auto.
  - auto.
Qed.

Lemma dirSpec_grow uid child d I : dirsGrow I (dirSpec digest uid child d I).
Proof.
  unfold dirSpec. destruct (I (inodeFP digest uid d)) as [e|] eqn:E.
  - destruct (en_body e) as [l|l] eqn:Eb; [done|]. case_decide; [done|].
    unfold dirsGrow; split_and!; intros fp; destruct (decide (inodeFP digest uid d = fp)) as [<-|Hne];
      rewrite ?fn_lookup_insert, ?fn_lookup_insert_ne by done; try done.
    + rewrite E. cbn. by rewrite Eb.
    + intros c. unfold childrenOf. rewrite fn_lookup_insert, E, Eb. cbn. set_solver.
    + intros c. unfold childrenOf. by rewrite fn_lookup_insert_ne.
  - unfold dirsGrow; split_and!; intros fp; destruct (decide (inodeFP digest uid d = fp)) as [<-|Hne];
      rewrite ?fn_lookup_insert, ?fn_lookup_insert_ne by done; try done.
    + by rewrite E.
    + intros c. unfold childrenOf. rewrite E. set_solver.
    + intros c. unfold childrenOf. by rewrite fn_lookup_insert_ne.
Qed.

Lemma dirSpec_child uid child d I :
  ~ isFileInode (I (inodeFP digest uid d)) ->
  child ∈ childrenOf (dirSpec digest uid child d I) (inodeFP digest uid d).
Proof.
  intros HF. unfold dirSpec, childrenOf. destruct (I (inodeFP digest uid d)) as [e|] eqn:E.
  - destruct (en_body e) as [l|l] eqn:Eb; [destruct HF; cbn; by rewrite Eb|].
    destruct (decide (child ∈ l)) as [Hin|Hin]; [by rewrite E, Eb|].
    rewrite fn_lookup_insert. cbn. set_solver.
  - rewrite fn_lookup_insert. cbn. set_solver.
Qed.

Lemma dirsSpec_grow uid ds : forall child I, dirsGrow I (dirsSpec digest uid child ds I).
Proof.
  induction ds as [|d ds IH]; intros child I; cbn; [done|]. etrans; [|apply IH]. apply dirSpec_grow.
Qed.

Lemma dirsSpec_path uid ds : forall child I,
  Forall (fun d => ~ isFileInode (I (inodeFP digest uid d))) ds ->
  onPath digest (dirsSpec digest uid child ds I) uid child ds.
Proof.
  induction ds as [|d ds IH]; intros child I HF; cbn; [done|].
  apply list.Forall_cons in HF as [Hd HF]. split.
  - apply (dirsSpec_grow uid ds). by apply dirSpec_child.
  - apply IH. eapply list.Forall_impl; [exact HF|]. cbn. intros d' Hd' Hf.
    apply Hd'. by apply (dirSpec_grow uid child d I).
Qed.

(** The file has its new version in front of the others, the other files are
    unchanged, directories only grow. *)
Lemma addFileSpec_versions uid name v I fp :
  noClash digest I uid name ->
  versionsOf (addFileSpec digest uid name v I) fp
  = if decide (fp = inodeFP digest uid name) then v :: versionsOf I fp else versionsOf I fp.
Proof.
  intros [HD HF]. unfold addFileSpec. set (f := inodeFP digest uid name) in *.
  assert (forall e l J, en_body e = FileBody l ->
    versionsOf (<[f := Some e]> J) fp = if decide (fp = f) then l else versionsOf J fp) as Hins.
  { intros e l J He. unfold versionsOf. case_decide as E.
    - rewrite E, fn_lookup_insert. by rewrite He.
    - by rewrite fn_lookup_insert_ne by congruence. }
  destruct (I f) as [e|] eqn:E.
  - destruct (en_body e) as [l|l] eqn:Eb; [|destruct HD; cbn; by rewrite Eb].
    rewrite (Hins _ (v :: l)) by done. case_decide as Ef; [|done].
    unfold versionsOf. by rewrite Ef, E, Eb.
  - set (J := <[f := _]> I). destruct (dirsSpec_grow uid (dirsOf name) f J) as (G1 & G2 & _).
    transitivity (versionsOf J fp).
    + unfold versionsOf at 1. destruct (decide (isFileInode (J fp))) as [Hf|Hf].
      * by rewrite G1.
      * destruct (dirsSpec digest uid f (dirsOf name) J fp) as [e'|] eqn:E'.
        -- destruct (en_body e') eqn:Eb'.
           ++ destruct Hf. apply G2. rewrite E'. cbn. by rewrite Eb'.
           ++ unfold versionsOf. destruct (J fp) as [e''|] eqn:EJ; [|done]. cbn in Hf. by destruct (en_body e'').
        -- unfold versionsOf. destruct (J fp) as [e''|] eqn:EJ; [|done]. cbn in Hf. by destruct (en_body e'').
    + unfold J. rewrite (Hins _ [v]) by done. case_decide as Ef; [|done].
      unfold versionsOf. by rewrite Ef, E.
Qed.

(** The file inodes after the update. *)
Lemma addFileSpec_file uid name v I fp e vs :
  noClash digest I uid name -> (forall e0, I (inodeFP digest uid name) = Some e0 -> en_user e0 = uid) ->
  addFileSpec digest uid name v I fp = Some e -> en_body e = FileBody vs ->
  if decide (fp = inodeFP digest uid name)
  then en_user e = uid /\ vs = v :: versionsOf I fp else I fp = Some e.
Proof.
  intros HC HU He Hb. pose proof (addFileSpec_versions uid name v I fp HC) as EV.
  unfold versionsOf at 1 in EV. rewrite He, Hb in EV. destruct HC as [HD HF].
  unfold addFileSpec in He. set (f := inodeFP digest uid name) in *.
  destruct (I f) as [e0|] eqn:E.
  - destruct (en_body e0) as [l|l] eqn:Eb; [|destruct HD; cbn; by rewrite Eb].
    destruct (decide (fp = f)) as [->|Hne].
    + rewrite fn_lookup_insert in He. simplify_eq. cbn. split; [by apply HU|done].
    + by rewrite fn_lookup_insert_ne in He by congruence.
  - set (J := <[f := _]> I) in *. destruct (dirsSpec_grow uid (dirsOf name) f J) as (G1 & G2 & _).
    assert (isFileInode (J fp)) as HJ by (apply G2; rewrite He; cbn; by rewrite Hb).
    rewrite G1 in He by done. unfold J in He. destruct (decide (fp = f)) as [->|Hne].
    + rewrite fn_lookup_insert in He. by simplify_eq.
    + by rewrite fn_lookup_insert_ne in He by congruence.
Qed.

Lemma addFileSpec_other uid name v I fp :
  isFileInode (I fp) -> fp <> inodeFP digest uid name -> addFileSpec digest uid name v I fp = I fp.
Proof.
  intros HF Hne. unfold addFileSpec. set (f := inodeFP digest uid name) in *.
  destruct (I f) as [e0|] eqn:E.
  - destruct (en_body e0); [|done]. by rewrite fn_lookup_insert_ne by congruence.
  - set (J := <[f := _]> I) in *. destruct (dirsSpec_grow uid (dirsOf name) f J) as (G1 & _).
    assert (J fp = I fp) as EJ by (unfold J; by rewrite fn_lookup_insert_ne by congruence).
    rewrite G1; rewrite EJ; done.
Qed.

Lemma addFileSpec_self uid name v I :
  noClash digest I uid name -> isFileInode (addFileSpec digest uid name v I (inodeFP digest uid name)).
Proof.
  intros HC. pose proof (addFileSpec_versions uid name v I (inodeFP digest uid name) HC) as E.
  rewrite decide_True in E by done. unfold versionsOf at 1 in E.
  destruct (addFileSpec _ _ _ _ _ _) as [e|]; [|done]. cbn. by destruct (en_body e).
Qed.

(** Users of inodes do not change; new inodes belong to the user. *)
Definition usersKept uid I I' : Prop :=
  forall fp, match I fp with
             | Some e => exists e', I' fp = Some e' /\ en_user e' = en_user e
             | None => forall e', I' fp = Some e' -> en_user e' = uid
             end.

#[export] Instance usersKept_preorder uid : PreOrder (usersKept uid).
Proof.
  split.
  - intros I fp. destruct (I fp) as [e|]; [by exists e|done].
  - intros I1 I2 I3 H1 H2 fp. specialize (H1 fp). specialize (H2 fp). destruct (I1 fp) as [e1|].
    + destruct H1 as (e2 & E2 & U2). rewrite E2 in H2. destruct H2 as (e3 & E3 & U3). exists e3. by rewrite U3.
    + destruct (I2 fp) as [e2|]; [|done]. intros e' E3. destruct H2 as (e3 & E3' & U3). rewrite E3 in E3'.
      simplify_eq. rewrite U3. by apply H1.
Qed.

Lemma usersKept_insert uid I fp e :
  (forall e0, I fp = Some e0 -> en_user e = en_user e0) -> (I fp = None -> en_user e = uid) ->
  usersKept uid I (<[fp := Some e]> I).
Proof.
  intros H1 H2 fp'. destruct (decide (fp = fp')) as [<-|Hne].
  - rewrite fn_lookup_insert. destruct (I fp) as [e0|]; [exists e; auto|]. intros e' [= <-]. auto.
  - rewrite fn_lookup_insert_ne by done. destruct (I fp') as [e0|]; [by exists e0|done].
Qed.

(** Inodes of directories after an update: the old ones and those of the path. *)
Lemma dirSpec_frame uid child d I :
  usersKept uid I (dirSpec digest uid child d I) /\
  forall fp, fp <> inodeFP digest uid d -> dirSpec digest uid child d I fp = I fp.
Proof.
  unfold dirSpec. destruct (I (inodeFP digest uid d)) as [e|] eqn:E.
  - destruct (en_body e); [done|]. case_decide; [done|]. split.
    + apply usersKept_insert; [|congruence]. intros e0 E0. rewrite E in E0. by simplify_eq.
    + intros fp Hne. by rewrite fn_lookup_insert_ne.
  - split.
    + apply usersKept_insert; [congruence|done].
    + intros fp Hne. by rewrite fn_lookup_insert_ne.
Qed.

Lemma dirsSpec_frame uid ds : forall child I,
  usersKept uid I (dirsSpec digest uid child ds I) /\
  forall fp, (forall d, d ∈ ds -> fp <> inodeFP digest uid d) -> dirsSpec digest uid child ds I fp = I fp.
Proof.
  induction ds as [|d ds IH]; intros child I; cbn; [done|].
  destruct (dirSpec_frame uid child d I) as [U1 F1].
  destruct (IH (inodeFP digest uid d) (dirSpec digest uid child d I)) as [U2 F2]. split; [by etrans|].
  intros fp Hd. rewrite F2, F1; [done|apply Hd; set_solver|]. intros d' Hd'. apply Hd. set_solver.
Qed.

Lemma addFileSpec_users uid name v I : usersKept uid I (addFileSpec digest uid name v I).
Proof.
  unfold addFileSpec. destruct (I (inodeFP digest uid name)) as [e|] eqn:E.
  - destruct (en_body e); [|done]. apply usersKept_insert; [|congruence].
    intros e0 E0. rewrite E in E0. by simplify_eq.
  - etrans; [|apply dirsSpec_frame]. apply usersKept_insert; [congruence|done].
Qed.

Lemma addFileSpec_dir uid name v I fp :
  isDirInode (addFileSpec digest uid name v I fp) -> ~ isDirInode (I fp) ->
  exists d, d ∈ dirsOf name /\ fp = inodeFP digest uid d.
Proof.
  intros HD Hn. unfold addFileSpec in HD. set (f := inodeFP digest uid name) in *.
  destruct (I f) as [e|] eqn:E.
  - destruct (en_body e) as [l|l] eqn:Eb; [|done]. destruct (decide (f = fp)) as [<-|Hne].
    + by rewrite fn_lookup_insert in HD.
    + by rewrite fn_lookup_insert_ne in HD.
  - set (J := <[f := _]> I) in *. destruct (dirsSpec_frame uid (dirsOf name) f J) as [_ HF].
    destruct (decide (Exists (fun d => fp = inodeFP digest uid d) (dirsOf name))) as [Hex|Hex].
    + apply list.Exists_exists in Hex as (d & Hd & ->). eauto.
    + rewrite HF in HD.
      * destruct Hn. unfold J in HD. destruct (decide (f = fp)) as [<-|Hne].
        -- by rewrite fn_lookup_insert in HD.
        -- by rewrite fn_lookup_insert_ne in HD.
      * intros d Hd Ef. apply Hex, list.Exists_exists. eauto.
Qed.

Lemma addFileSpec_isFile uid name v I fp :
  isFileInode (addFileSpec digest uid name v I fp) -> isFileInode (I fp) \/ fp = inodeFP digest uid name.
Proof.
  intros HF. unfold addFileSpec in HF. set (f := inodeFP digest uid name) in *.
  destruct (decide (fp = f)) as [|Hne]; [by right|left].
  destruct (I f) as [e|] eqn:E.
  - destruct (en_body e); [|done]. by rewrite fn_lookup_insert_ne in HF by congruence.
  - apply (dirsSpec_grow uid (dirsOf name) f) in HF. by rewrite fn_lookup_insert_ne in HF by congruence.
Qed.
End SpecFacts.

(** ** The code *)

Section Code.
Context {W : Type} {WW : World W} {WL : WorldLaws W} {LM : Limits} {SSL : OpenSSL}
        (digest : bytes -> bytes) (crypto : CryptoPrimitive) {HOK : HashOk crypto FP_SIZE digest}.
Implicit Types (s : DedupCore W) (I : InodeMap).

Lemma wps_onShares {ret A} (m : SM (minDedupCore W) ret A) (P : A -> DedupCore W -> Prop)
    (Q : ret -> DedupCore W -> Prop) s :
  wps m (fun a x => P a (set_shares s x)) (fun r x => Q r (set_shares s x)) (shares s) ->
  wps (onShares m) P Q s.
Proof. unfold wps, onShares. by destruct (m (shares s)) as [[]|[]| | |]. Qed.

Lemma wps_loadRecipe {ret} a r (P : _ -> _ -> Prop) (Q : ret -> DedupCore W -> Prop) s :
  recipes s !! a = Some r -> P r s -> wps (loadRecipe (Some a)) P Q s.
Proof. intros E. unfold wps, loadRecipe. by rewrite E. Qed.

Lemma wps_storeRecipe {ret} a r r' (P : _ -> _ -> Prop) (Q : ret -> DedupCore W -> Prop) s :
  recipes s !! a = Some r -> P tt (set_recipes s (<[a := r']> (recipes s))) ->
  wps (storeRecipe (Some a) r') P Q s.
Proof. intros E. unfold wps, storeRecipe. by rewrite E. Qed.

Lemma fileName2InodeFP_spec {R} name uid old :
  length old = FP_SIZE -> fileName2InodeFP_ (R := R) name uid old crypto = Ok (inodeFP digest uid name).
Proof.
  intros Ho. unfold fileName2InodeFP_. rewrite hash_generate. cbn [mbind res_bind].
  pose proof (hash_length (HashOk := HOK) (name ++ le32 uid)) as Hl.
  rewrite <- (app_nil_r old). rewrite (wr_front old []) by congruence. by rewrite app_nil_r.
Qed.

Lemma length_inodeFP uid name : length (inodeFP digest uid name) = FP_SIZE.
Proof. apply (hash_length (HashOk := HOK)). Qed.

(** The environment changes, and of it only inodes in the database. *)
Definition inodeKeys (m m' : gmap bytes bytes) : Prop :=
  forall key, (forall fp, key <> inodeFP2IndexKey_ fp) -> m' !! key = m !! key.

#[export] Instance inodeKeys_preorder : PreOrder inodeKeys.
Proof. split; [by intros m q|]. intros m1 m2 m3 H1 H2 q Hq. rewrite H2, H1 by done. done. Qed.

Record inodeFrame s s' : Prop := {
  if_same : exists w, s' = set_shares s (set_world (shares s) w);
  if_files : files (view (theWorld s')) = files (view (theWorld s));
  if_sent : sent (view (theWorld s')) = sent (view (theWorld s));
  if_keys : inodeKeys (contents (view (theWorld s))) (contents (view (theWorld s')));
}.

#[export] Instance inodeFrame_refl : Reflexive inodeFrame.
Proof. intros s. split; try done. exists (world (shares s)). by destruct s as [[]]. Qed.

#[export] Instance inodeFrame_trans : Transitive inodeFrame.
Proof.
  intros s1 s2 s3 [[w2 ->] F1 S1 K1] [[w3 ->] F2 S2 K2]. split; [|congruence..|by etrans].
  exists w3. by destruct s1 as [[]].
Qed.

(** ** Single inodes *)

(** What [Get] tells. *)
Lemma get_inode b I s fp v :
  inodes b I (contents (view (theWorld s))) -> db_Get (theWorld s) (inodeFP2IndexKey_ fp) = GetOk v ->
  exists i, v = encodeInode i /\ wfInode b i /\ I fp = Some (entryOf i).
Proof.
  intros HI HG. apply get_ok in HG. specialize (HI fp). destruct (I fp) as [e|]; [|congruence].
  destruct HI as (i & Hw & <- & E). rewrite E in HG. simplify_eq. eauto.
Qed.

Lemma get_no_inode b I s fp :
  inodes b I (contents (view (theWorld s))) ->
  db_Get (theWorld s) (inodeFP2IndexKey_ fp) = GetNotFound -> I fp = None.
Proof.
  intros HI HG. apply get_notfound in HG. specialize (HI fp). destruct (I fp) as [e|]; [|done].
  destruct HI as (i & _ & _ & E). congruence.
Qed.

Lemma inodes_insert b I m fp i :
  inodes b I m -> wfInode (b + 1) i ->
  inodes (b + 1) (<[fp := Some (entryOf i)]> I) (<[inodeFP2IndexKey_ fp := encodeInode i]> m).
Proof.
  intros HI Hw fp'. destruct (decide (fp = fp')) as [<-|Hne].
  - rewrite fn_lookup_insert, lookup_insert_eq. eauto.
  - rewrite fn_lookup_insert_ne by done. specialize (HI fp').
    rewrite lookup_insert_ne by (unfold inodeFP2IndexKey_; congruence).
    destruct (I fp') as [e|]; [|done]. destruct HI as (j & Hj & E & Em).
    exists j. split_and!; try done. eapply wfInode_mono; [|done]. lia.
Qed.

Lemma inodes_mono b b' I m : b <= b' -> inodes b I m -> inodes b' I m.
Proof.
  intros Hb HI fp. specialize (HI fp). destruct (I fp) as [e|]; [|done].
  destruct HI as (j & Hj & E & Em). exists j. split_and!; try done. by eapply wfInode_mono.
Qed.

Lemma inodeKeys_insert m fp v : inodeKeys m (<[inodeFP2IndexKey_ fp := v]> m).
Proof. intros key Hk. apply lookup_insert_ne. intros <-. by apply (Hk fp). Qed.

(** The outcome of an update of the inodes: the abstract update [J] or nothing;
    the update if nothing fails. *)
Definition updated (b : Z) I (J : InodeMap) (ok : bool) s s' : Prop :=
  inodeFrame s s' /\ (ReliableWorld W -> ok = true) /\
  exists I', (I' = J \/ I' = I) /\ inodes (b + 1) I' (contents (view (theWorld s'))) /\
             (ReliableWorld W -> I' = J).

Abbreviation lockedDB s := (set_shares s (set_locks (shares s) true (bufferLock_ (shares s))
  (globalShareContainerNameLock_ (shares s)))).

(** Writing an inode, with the database lock held. *)
Lemma rewriteInode_spec {ret} b I s fp i (Q : ret -> DedupCore W -> Prop) :
  DBLock_ (shares s) = false -> inodes b I (contents (view (theWorld s))) -> wfInode (b + 1) i ->
  b + 1 < 2 ^ 24 ->
  wps (onShares (rewriteEntry (inodeFP2IndexKey_ fp) (encodeInode i)))
    (fun ok s' => updated b I (<[fp := Some (entryOf i)]> I) ok s s') Q (lockedDB s).
Proof.
  intros U HI Hw Hb. pose proof (length_encodeInode _ _ Hw Hb) as Hl.
  apply wps_onShares. unfold rewriteEntry. wstep. eapply wps_lift; [apply sint_ok; lia|].
  wstep. apply wps_onWorld. intros ok w Ew. wstep. unfold wps at 1, unlockDB. cbn [DBLock_ set_world set_locks shares set_shares]. wstep.
  match goal with |- updated _ _ _ _ _ ?x =>
    assert (x = set_shares s (set_world (shares s) w)) as -> by (destruct s as [[]]; cbn in *; by subst)
  end.
  assert (foldl applyOp (contents (view (theWorld s)))
            [BDelete (inodeFP2IndexKey_ fp); BPut (inodeFP2IndexKey_ fp) (encodeInode i)]
          = <[inodeFP2IndexKey_ fp := encodeInode i]> (contents (view (theWorld s)))) as Ef
    by (cbn; apply insert_delete_eq).
  pose proof (write_law _ _ _ _ Ew) as Hv. cbn in Ef, Hv. unfold theWorld in *. rewrite Ef in Hv.
  assert (ReliableWorld W -> ok = true) as Hok.
  { intros HR. pose proof (write_reliable (world (shares s))
      [BDelete (inodeFP2IndexKey_ fp); BPut (inodeFP2IndexKey_ fp) (encodeInode i)]) as X. cbn in Ew. by rewrite Ew in X. }
  split; [|split; [done|]].
  - split; [by eexists| | |]; cbn; destruct Hv as [->|[_ ->]]; try done. apply inodeKeys_insert.
  - destruct Hv as [Ev|[-> Ev]]; cbn; rewrite Ev.
    + exists (<[fp := Some (entryOf i)]> I). split; [by left|]. split; [|done]. by apply inodes_insert.
    + exists I. split; [by right|]. split; [eapply inodes_mono; [|done]; lia|]. intros HR. by specialize (Hok HR).
Qed.

Lemma putInode_spec {ret} b I s fp i (Q : ret -> DedupCore W -> Prop) :
  inodes b I (contents (view (theWorld s))) -> wfInode (b + 1) i ->
  wps (onWorldD (fun w => db_Put w (inodeFP2IndexKey_ fp) (encodeInode i)))
    (fun ok s' => updated b I (<[fp := Some (entryOf i)]> I) true s s') Q s.
Proof.
  intros HI Hw. apply wps_onShares, wps_onWorld. intros ok w Ew.
  pose proof (put_law _ _ _ _ _ Ew) as Hv. split; [|split; [done|]].
  - split; [by eexists| | |]; cbn; destruct Hv as [->|[_ ->]]; try done. apply inodeKeys_insert.
  - destruct Hv as [Ev|[-> Ev]]; cbn; rewrite Ev.
    + exists (<[fp := Some (entryOf i)]> I). split; [by left|]. split; [|done]. by apply inodes_insert.
    + exists I. split; [by right|]. split; [eapply inodes_mono; [|done]; lia|].
      intros HR. pose proof (put_reliable (world (shares s)) (inodeFP2IndexKey_ fp) (encodeInode i)) as X.
      by rewrite Ew in X.
Qed.
(** ** Directories *)

(** An update of the inodes that ended early. *)
Definition stopped (b : Z) I s (r : bool) s' : Prop :=
  r = false /\ ~ ReliableWorld W /\ inodeFrame s s' /\ exists I', dirsGrow I I' /\ inodes b I' (contents (view (theWorld s'))).

Lemma unlock_lockedDB s :
  DBLock_ (shares s) = false ->
  set_shares (lockedDB s) (set_locks (shares (lockedDB s)) false (bufferLock_ (shares s))
    (globalShareContainerNameLock_ (shares s))) = s.
Proof. destruct s as [[]]. cbn. by intros ->. Qed.

Lemma wps_lockDB {ret} (P : unit -> DedupCore W -> Prop) (Q : ret -> DedupCore W -> Prop) s :
  DBLock_ (shares s) = false -> P tt (lockedDB s) -> wps (onShares lockDB) P Q s.
Proof. intros U HP. apply wps_onShares. unfold wps, lockDB. by rewrite U. Qed.

Lemma wps_unlockDB {ret} (P : unit -> DedupCore W -> Prop) (Q : ret -> DedupCore W -> Prop) s :
  DBLock_ (shares s) = false -> P tt s -> wps (onShares unlockDB) P Q (lockedDB s).
Proof.
  intros U HP. apply wps_onShares. unfold wps, unlockDB. cbn [shares set_shares DBLock_ set_locks].
  cbn [bufferLock_ globalShareContainerNameLock_ set_locks]. by rewrite unlock_lockedDB.
Qed.

(** Writing a new inode: [Put] between two lock operations. *)
Lemma putNew_spec {ret A} b I s fp i (k : SM (DedupCore W) ret A) P (Q : ret -> DedupCore W -> Prop) :
  DBLock_ (shares s) = false -> inodes b I (contents (view (theWorld s))) -> wfInode (b + 1) i ->
  (forall s', updated b I (<[fp := Some (entryOf i)]> I) true s s' -> wps k P Q s') ->
  wps (_ ← onShares lockDB;
       _ ← onWorldD (fun w => db_Put w (inodeFP2IndexKey_ fp) (encodeInode i));
       _ ← onShares unlockDB; k) P Q s.
Proof.
  intros U HI Hw Hk. wstep. apply wps_lockDB; [done|]. wstep.
  eapply wps_post; [by apply putInode_spec|]. intros _ s' (F & HR & HI'). wstep.
  destruct F as [[w ->] F1 F2 F3]. cbn in F1, F2, F3, HI'.
  replace (set_shares (lockedDB s) (set_world (shares (lockedDB s)) w))
    with (lockedDB (set_shares s (set_world (shares s) w))) by (by destruct s as [[]]).
  apply wps_unlockDB; [done|]. apply Hk. split; [|by split].
  split; try done. by eexists.
Qed.

Lemma newInode_wf b uid short body i :
  in_user i = uid -> in_body i = body -> length (in_pad i) = 3%nat ->
  length (in_name i) = (length short + 1)%nat -> untilNul (in_name i) = untilNul short ->
  int32 uid -> Z.of_nat (length short) + 1 < 2 ^ 29 -> Z.of_nat (bodyCount body) <= b ->
  match body with
  | FileBody l => Forall (fun v => (exists n, isRecipeName n (v_file v)) /\ int32 (Z.of_nat (v_off v))) l
  | DirBody l => Forall (fun fp => length fp = FP_SIZE) l
  end ->
  wfInode b i /\ entryOf i = newEntry uid short body.
Proof.
  intros <- <- Hp Hn Hu Hi Hs Hc Hb. split; [split; try done; lia|].
  unfold entryOf, newEntry. by rewrite Hu.
Qed.

Lemma addDir_spec b I s x uid child old :
  let d := x ++ [slash] in
  DBLock_ (shares s) = false -> inodes b I (contents (view (theWorld s))) ->
  ~ isFileInode (I (inodeFP digest uid d)) -> int32 uid -> Z.of_nat (length d) + 1 < 2 ^ 29 ->
  0 <= b -> b + 1 < 2 ^ 24 -> length child = FP_SIZE -> length old = FP_SIZE ->
  wps (addDir d uid crypto child old)
    (fun fp s' => fp = inodeFP digest uid d /\ updated b I (dirSpec digest uid child d I) true s s')
    (stopped (b + 1) I s) s.
Proof.
  intros d U HI HF Hu Hl Hb0 Hb Hc Ho. unfold addDir. wstep.
  eapply wps_lift; [by apply fileName2InodeFP_spec|]. wstep. apply wps_lockDB; [done|]. wstep. wstep.
  set (fp := inodeFP digest uid d) in *. change (theWorld (lockedDB s)) with (theWorld s).
  assert (inodes (b + 1) I (contents (view (theWorld s)))) as HI1 by (eapply inodes_mono; [|done]; lia).
  assert (~ ReliableWorld W -> stopped (b + 1) I s false s) as Hstop.
  { intros HR. split_and!; try done. by exists I. }
  destruct (db_Get (theWorld s) (inodeFP2IndexKey_ fp)) as [v| | |] eqn:EG.
  - destruct (get_inode _ _ _ _ _ HI EG) as (i & -> & Hw & Ei).
    destruct (in_body i) as [l|l] eqn:Eb.
    { destruct HF. rewrite Ei. cbn. by rewrite Eb. }
    wstep. eapply wps_lift; [eapply (inPath_spec b); [done|lia|done]|].
    assert (dirSpec digest uid child d I = if decide (child ∈ l) then I
              else <[fp := Some (entryOf (with_body i (DirBody (l ++ [child]))))]> I) as ED.
    { unfold dirSpec. fold fp. rewrite Ei. cbn [en_body entryOf]. by rewrite Eb. }
    rewrite ED. case_bool_decide as Hin; cbn [negb].
    + wstep. apply wps_unlockDB; [done|]. wstep. split; [done|]. rewrite decide_True by done.
      split; [done|]. split; [done|]. exists I. split_and!; [by left|done|done].
    + rewrite decide_False by done. wstep. eapply wps_lift; [eapply (addChild_dir b); [done|lia|done]|].
      wstep. eapply wps_post.
      { apply (rewriteInode_spec b I); [done|done| |lia]. destruct Hw as [H1 H2 H3 H4 H5]. rewrite Eb in *.
        split; cbn [in_user in_pad in_name in_body with_body bodyCount] in *; try done.
        - rewrite length_app. cbn. lia.
        - apply Forall_app. split; [done|]. by apply Forall_singleton. }
      intros ok s' Hup. destruct ok; cbn [negb].
      * wstep. by split.
      * wstep. destruct Hup as (F & HR & I' & HI' & Hi & _). split_and!; [done| |done|].
        { intros R. by specialize (HR R). }
        exists I'. split; [|done]. destruct HI' as [->| ->]; [|done].
        pose proof (dirSpec_grow digest uid child d I) as G. rewrite ED, decide_False in G by done. exact G.
  - pose proof (get_no_inode _ _ _ _ HI EG) as Ei. wstep. apply wps_unlockDB; [done|].
    destruct (split_dir x) as (_ & _ & _ & Es). fold d in Es. rewrite Es. wstep. wstep.
    assert (length (dirBase d) <= length d)%nat as Hdl.
    { rewrite <- Es. case_decide; [done|]. rewrite length_drop. lia. }
    assert (length (encodeBody (DirBody [child])) = 32%nat) as H32 by (cbn; by rewrite app_nil_r).
    wstep. destruct (newInode_spec (R := bool * DedupCore W)
      (uninit (theWorld s) (inodeIndexValueHeadSize_ + (length (dirBase d) + 1) + inodeDirEntrySize_))
      uid (dirBase d) (DirBody [child])) as (i & En & I1 & I2 & I3 & I4 & I5); [rewrite uninit_length, H32; done|done|].
    eapply wps_lift; [rewrite <- En; cbn [encodeBody bodyType mjoin list_join]; by rewrite app_nil_r|].
    destruct (newInode_wf (b + 1) uid (dirBase d) (DirBody [child]) i) as [Hw Ee]; try done; [lia|cbn; lia|by constructor|].
    eapply (putNew_spec b I s fp i); [done..|]. intros s' Hup. wstep. split; [done|].
    unfold dirSpec. fold fp. rewrite Ei. by rewrite <- Ee.
  - wstep. apply wps_unlockDB; [done|]. wstep. apply Hstop. intros R. rewrite get_reliable in EG. by destruct (contents _ !! _).
  - wstep. apply wps_unlockDB; [done|]. wstep. apply Hstop. intros R. rewrite get_reliable in EG. by destruct (contents _ !! _).
Qed.

Lemma inodeFrame_lock s s' : inodeFrame s s' -> DBLock_ (shares s') = DBLock_ (shares s).
Proof. intros [[w ->] _ _ _]. done. Qed.

Lemma stopped_trans b b' I I' s s' r s'' :
  inodeFrame s s' -> dirsGrow I I' -> b <= b' -> stopped b I' s' r s'' -> stopped b' I s r s''.
Proof.
  intros F G Hb (-> & HR & F' & I'' & G' & HI). split_and!; [done..|by etrans|].
  exists I''. split; [by etrans|by eapply inodes_mono].
Qed.

Lemma addDirs_spec uid : int32 uid -> forall fuel b I s d child,
  DBLock_ (shares s) = false -> inodes b I (contents (view (theWorld s))) -> isDir d ->
  (length d < fuel)%nat -> Forall (fun d => ~ isFileInode (I (inodeFP digest uid d))) (dirsOf d) ->
  Z.of_nat (length d) + 1 < 2 ^ 29 -> 0 <= b -> b + Z.of_nat (length (dirsOf d)) < 2 ^ 24 ->
  length child = FP_SIZE ->
  wps (addDirs fuel d uid crypto child)
    (fun _ s' => inodeFrame s s' /\ exists I', dirsGrow I I' /\
       inodes (b + Z.of_nat (length (dirsOf d))) I' (contents (view (theWorld s'))) /\
       (ReliableWorld W -> I' = dirsSpec digest uid child (dirsOf d) I))
    (stopped (b + Z.of_nat (length (dirsOf d))) I s) s.
Proof.
  intros Hu. induction fuel as [|fuel IH]; intros b I s d child U HI Hd Hf HF Hl Hb0 Hb Hc; [lia|].
  destruct Hd as [->|[x Ed]].
  { cbn [addDirs]. wstep. split; [done|]. exists I. split_and!; try done. cbn. by rewrite Z.add_0_r. }
  destruct (split_dir x) as (E1 & E2 & E3 & _). rewrite <- Ed in E1, E2, E3.
  assert (d <> []) as Hne by (subst d; by destruct x).
  destruct d as [|c d0] eqn:Edd; [done|]. cbn [addDirs]. rewrite <- Edd in *.
  set (d' := if decide (d = [slash]) then [] else _) in *. rewrite E1 in *. clear E1.
  apply list.Forall_cons in HF as [HF1 HF]. cbn [length] in Hb |- *. wstep. eapply wps_mono.
  - rewrite Ed. rewrite Ed in HF1, Hl. apply (addDir_spec b I); try done; lia.
  - intros fp s' (-> & F & _ & I' & HI' & Hi & HR). cbv beta.
    assert (dirsGrow I I') as G by (destruct HI' as [->| ->]; [apply dirSpec_grow|done]).
    rewrite <- Ed in *. eapply wps_mono.
    + apply (IH (b + 1) I' s' d'); try done; try lia.
      * by rewrite (inodeFrame_lock _ _ F).
      * eapply list.Forall_impl; [exact HF|]. cbn. intros y Hy Hfi. apply Hy. by apply G.
      * apply length_inodeFP.
    + intros _ s'' (F' & I'' & G' & Hi'' & HR'). split; [by etrans|]. exists I''.
      split; [by etrans|]. split; [eapply inodes_mono; [|done]; lia|].
      intros R. rewrite (HR' R), (HR R). done.
    + intros r s'' Hst. eapply stopped_trans; [done|done| |done]. lia.
  - intros r s' Hst. eapply (stopped_trans (b + 1) _ I I s s); [done..| |done]. lia.
Qed.

(** ** Files *)

Definition addFilePost (b : Z) I uid name v s (ok : bool) s' : Prop :=
  inodeFrame s s' /\ (ReliableWorld W -> ok = true) /\
  exists I', inodes (b + 1 + Z.of_nat (length (dirsOf name))) I' (contents (view (theWorld s'))) /\
             (ReliableWorld W -> I' = addFileSpec digest uid name v I).

Lemma addFile_spec {ret} b I s a r n name rname uid (Q : ret -> DedupCore W -> Prop) :
  DBLock_ (shares s) = false -> inodes b I (contents (view (theWorld s))) ->
  noClash digest I uid name -> int32 uid -> Z.of_nat (length name) + 1 < 2 ^ 29 ->
  0 <= b -> b + 1 + Z.of_nat (length (dirsOf name)) < 2 ^ 24 ->
  recipes s !! a = Some r -> recipeFileName r = rname ++ [Byte.x00] -> isRecipeName n rname ->
  0 <= recipeFileBufferCurrLen r < 2 ^ 31 ->
  wps (addFileIntoInodeIndex_ name uid (Some a) crypto)
    (addFilePost b I uid name {| v_file := rname; v_off := Z.to_nat (recipeFileBufferCurrLen r) |} s) Q s.
Proof.
  intros U HI [HD HF] Hu Hl Hb0 Hb Ha En Hn Hc. set (v := {| v_file := rname; v_off := _ |}).
  unfold addFileIntoInodeIndex_. wstep. wstep. wstep. wstep.
  eapply wps_lift; [apply fileName2InodeFP_spec, uninit_length|].
  wstep. apply wps_lockDB; [done|]. wstep. wstep. set (fp := inodeFP digest uid name) in *.
  change (theWorld (lockedDB s)) with (theWorld s).
  assert (length (encodeVersion v) = 20%nat) as H20 by (apply length_encodeVersion; by exists n).
  assert ((exists n, isRecipeName n (v_file v)) /\ int32 (Z.of_nat (v_off v))) as Hv.
  { split; [by exists n|]. cbn [v_off v]. unfold int32. lia. }
  assert (~ ReliableWorld W -> addFilePost b I uid name v s false s) as Hstop.
  { intros HR. split_and!; [done|done|]. exists I. split; [|done]. eapply inodes_mono; [|done]. lia. }
  destruct (db_Get (theWorld s) (inodeFP2IndexKey_ fp)) as [x| | |] eqn:EG.
  - destruct (get_inode _ _ _ _ _ HI EG) as (i & -> & Hw & Ei).
    destruct (in_body i) as [l|l] eqn:Eb; [|destruct HD; rewrite Ei; cbn; by rewrite Eb].
    wstep. apply (wps_loadRecipe a r); [done|]. wstep. wstep. wstep.
    eapply wps_lift; [by eapply fileEntry_spec; [apply uninit_length|done..|lia]|]. fold v.
    wstep. eapply wps_lift; [eapply (addChild_file b); [done|lia|done]|]. wstep.
    eapply wps_post.
    { apply (rewriteInode_spec b I); [done|done| |lia]. destruct Hw as [H1 H2 H3 H4 H5]. rewrite Eb in *.
      split; cbn [in_user in_pad in_name in_body with_body bodyCount] in *; try done.
      - cbn. lia.
      - by constructor. }
    intros ok s' (F & HR & I' & _ & Hi & HI'). wstep. split_and!; [done|done|]. exists I'.
    split; [eapply inodes_mono; [|done]; lia|]. intros R. rewrite (HI' R). unfold addFileSpec. fold fp.
    rewrite Ei. cbn [en_body entryOf]. by rewrite Eb.
  - pose proof (get_no_inode _ _ _ _ HI EG) as Ei. wstep. apply wps_unlockDB; [done|].
    destruct (split_file name) as (Es1 & Es2 & Es3). rewrite Es3.
    assert (length (afterSlash name) <= length name)%nat as Hsl by (rewrite <- Es3, length_drop; lia).
    wstep. apply (wps_loadRecipe a r); [done|]. wstep. wstep.
    set (block := uninit _ _). assert (length block = 16 + (length (afterSlash name) + 1) + 20)%nat as Hbl
      by apply uninit_length.
    wstep. eapply wps_lift.
    { rewrite rd_ok by (rewrite Hbl; unfold inodeIndexValueHeadSize_, inodeFileEntrySize_; lia). cbn [mbind res_bind].
      eapply fileEntry_spec; [|done..|lia]. rewrite length_take, length_drop, Hbl.
      unfold inodeIndexValueHeadSize_, inodeFileEntrySize_. lia. }
    fold v. wstep.
    destruct (newInode_spec (R := bool * DedupCore W) block uid (afterSlash name) (FileBody [v]))
      as (i & Ein & I1 & I2 & I3 & I4 & I5); [cbn [encodeBody fmap list_fmap mjoin list_join]; by rewrite app_nil_r, H20|done|].
    eapply wps_lift; [rewrite <- Ein; cbn [encodeBody bodyType fmap list_fmap mjoin list_join]; by rewrite app_nil_r|].
    destruct (newInode_wf (b + 1) uid (afterSlash name) (FileBody [v]) i) as [Hw Ee];
      try done; [lia|cbn; lia|by constructor|].
    eapply (putNew_spec b I s fp i); [done..|]. intros s' (F & _ & I' & HI' & Hi & HR). rewrite Ee in HI', HR.
    assert (forall d, d ∈ dirsOf name -> ~ isFileInode (I' (inodeFP digest uid d))) as HF'.
    { intros d Hd. rewrite list.Forall_forall in HF. destruct (HF d Hd) as [Hd1 Hd2].
      destruct HI' as [->| ->]; [|done]. by rewrite fn_lookup_insert_ne. }
    assert (length (take (behindSlash name (length name)) name) <= length name)%nat as Htl
      by (rewrite length_take; lia).
    wstep. eapply wps_mono.
    + apply (addDirs_spec uid Hu _ (b + 1) I'); [by rewrite (inodeFrame_lock _ _ F)|done|done|lia| |lia|lia| |].
      * rewrite Es2. by apply list.Forall_forall.
      * rewrite Es2. lia.
      * apply length_inodeFP.
    + intros _ s'' (F' & I'' & _ & Hi' & HR'). rewrite Es2 in *. wstep. split_and!; [by etrans|done|].
      exists I''. split; [done|]. intros R. rewrite (HR' R), (HR R). unfold addFileSpec. fold fp. by rewrite Ei.
    + intros x s'' (-> & HR' & F' & I'' & _ & Hi'). rewrite Es2 in *. split_and!; [by etrans|done|].
      exists I''. split; [done|]. intros R. by destruct HR'.
  - wstep. apply wps_unlockDB; [done|]. wstep. apply Hstop. intros R. rewrite get_reliable in EG. by destruct (contents _ !! _).
  - wstep. apply wps_unlockDB; [done|]. wstep. apply Hstop. intros R. rewrite get_reliable in EG. by destruct (contents _ !! _).
Qed.
End Code.
