(* ===== verification/Recipes.v ===== *)
(** * The recipes of DedupCore

    What the recipe buffers of the nodes, the recipe files and the inode index
    must satisfy between two calls: every version of every file has its recipe,
    in the buffer of its user's node or in a recipe file. *)

From stdpp Require Import base list numbers gmap functions.
From coqutil Require Import Byte.
From Stdlib Require Import Lia.
From S2P Require Import Prelude Structs FileNames World CryptoPrimitive MinDedupCore MinStages ShareIndex MinInvariant MinNodes MinIndex MinRestoreProof DedupCore DedupStages Inodes InodeIndex.

Local Open Scope Z_scope.

Lemma Forall2_impl_l {A B} (P Q : A -> B -> Prop) l k :
  Forall2 P l k -> (forall x y, x ∈ l -> P x y -> Q x y) -> Forall2 Q l k.
Proof. induction 1; constructor; set_solver. Qed.

(** The recipe of a version: the size of the file and its entries. *)
Abbreviation Content := (Z * list RecipeEntry)%type.
(** The versions of each file, newest first, by the fingerprint of its inode. *)
Abbreviation Files := (bytes -> list Content).

(** Address and user of the buffer nodes. *)
Abbreviation nodeIds := (list (positive * Z)).

Definition recData (r : recipeBuffer) : bytes :=
  take (Z.to_nat (recipeFileBufferCurrLen r)) (recipeFileBuffer r).

(** The recipe [x] is in the recipe file with the content [c], at [off]. *)
Definition recipeAt `{Limits} (c : bytes) (off : nat) (x : Content) : Prop :=
  exists rc pre post, rc_fileSize rc = x.1 /\ rc_entries rc = x.2 /\ wfRecipe rc /\
    c = pre ++ encodeRecipe rc ++ post /\ length pre = off /\ (length c <= RECIPE_BUFFER_SIZE)%nat.

Lemma recipeAt_nonempty `{Limits} c off x : recipeAt c off x -> c <> [].
Proof.
  intros (rc & pre & post & _ & _ & Wr & -> & _ & _) E. apply (f_equal length) in E.
  rewrite !length_app in E. unfold encodeRecipe in E. rewrite length_app, length_encodeHead in E by done.
  unfold fileRecipeHeadSize_ in E. cbn in E. lia.
Qed.

Lemma recipeAt_app `{Limits} c c' off x :
  recipeAt c off x -> (length (c ++ c') <= RECIPE_BUFFER_SIZE)%nat -> recipeAt (c ++ c') off x.
Proof.
  intros (rc & pre & post & H1 & H2 & H3 & -> & H4 & H5) Hl. exists rc, pre, (post ++ c').
  split_and!; try done. by rewrite <- !app_assoc.
Qed.

(** A recipe buffer that fills the recipe file number [i] below [kr]. *)
Record wfBuffer `{Limits} (kr : Z) (r : recipeBuffer) : Prop := {
  wb_name : exists i nm, recipeFileName r = nm ++ [Byte.x00] /\ isRecipeName i nm /\ 0 <= i < kr;
  wb_buffer : length (recipeFileBuffer r) = RECIPE_BUFFER_SIZE;
  wb_len : 0 <= recipeFileBufferCurrLen r <= Z.of_nat RECIPE_BUFFER_SIZE;
  wb_fp : length (lastInodeFP r) = FP_SIZE;
  wb_last : 0 <= lastRecipeHeadPos r;
}.

Lemma wfBuffer_mono `{Limits} kr kr' r : kr <= kr' -> wfBuffer kr r -> wfBuffer kr' r.
Proof. intros Hk [(i & nm & E & Hi & Hb) ? ? ? ?]. split; try done. exists i, nm. split_and!; try done; lia. Qed.

Lemma length_recData `{Limits} kr r : wfBuffer kr r -> length (recData r) = Z.to_nat (recipeFileBufferCurrLen r).
Proof. intros [_ Hl Hc _ _]. unfold recData. rewrite length_take. lia. Qed.

Section Recipes.
Context {W : Type} {WW : World W} {WL : WorldLaws W} {LM : Limits} {LOK : LimitsOk}.
Implicit Types (s : DedupCore W) (I : InodeMap) (F : Files).

Definition disk s : gmap bytes bytes := files (view (theWorld s)).
Definition recipePath s (nm : bytes) : bytes := recipeFileDirName_ s ++ nm.

(** The content of the recipe file [nm] of the user: the buffer of the user's node
    or else the file. *)
Definition holds s (ids : nodeIds) (uid : Z) (nm c : bytes) : Prop :=
  (exists a r, (a, uid) ∈ ids /\ recipes s !! a = Some r /\ recipeFileName r = nm ++ [Byte.x00] /\
               c = recData r) \/
  disk s !! recipePath s nm = Some c.

Definition versionHolds s ids uid (v : Version) (x : Content) : Prop :=
  exists c, holds s ids uid (v_file v) c /\ recipeAt c (v_off v) x.

Record RInv I F s (ids : nodeIds) (kr : Z) : Prop := {
  ri_global : isRecipeName kr (globalRecipeFileName_ s);
  ri_kr : 0 <= kr;
  ri_nodes : forall a u, (a, u) ∈ ids -> exists r, recipes s !! a = Some r /\ wfBuffer kr r;
  ri_inj : forall a u a' u' r r', (a, u) ∈ ids -> (a', u') ∈ ids -> recipes s !! a = Some r ->
    recipes s !! a' = Some r' -> recipeFileName r = recipeFileName r' -> a = a';
  ri_absent : forall a u r nm, (a, u) ∈ ids -> recipes s !! a = Some r ->
    recipeFileName r = nm ++ [Byte.x00] -> disk s !! recipePath s nm = None;
  ri_fresh : forall i nm, isRecipeName i nm -> kr <= i -> disk s !! recipePath s nm = None;
  ri_last : forall a u r nm, (a, u) ∈ ids -> recipes s !! a = Some r ->
    recipeFileName r = nm ++ [Byte.x00] -> 0 < recipeFileBufferCurrLen r ->
    exists e vs, I (lastInodeFP r) = Some e /\ en_user e = u /\
      en_body e = FileBody ({| v_file := nm; v_off := Z.to_nat (lastRecipeHeadPos r) |} :: vs);
  ri_files : forall fp e vs, I fp = Some e -> en_body e = FileBody vs ->
    Forall2 (versionHolds s ids (en_user e)) vs (F fp);
  ri_empty : forall fp, ~ isFileInode (I fp) -> F fp = [];
}.

(** A state with the same recipe files and buffers. *)
Record sameRecipes s s' : Prop := {
  sr_recipes : recipes s' = recipes s;
  sr_global : globalRecipeFileName_ s' = globalRecipeFileName_ s;
  sr_dir : recipeFileDirName_ s' = recipeFileDirName_ s;
  sr_files : forall i nm, isRecipeName i nm -> disk s' !! recipePath s' nm = disk s !! recipePath s nm;
}.

#[export] Instance sameRecipes_refl : Reflexive sameRecipes.
Proof. by split. Qed.
#[export] Instance sameRecipes_trans : Transitive sameRecipes.
Proof.
  intros s1 s2 s3 [A1 A2 A3 A4] [B1 B2 B3 B4]. split; try congruence.
  intros i nm Hn. rewrite (B4 i nm Hn). by apply (A4 i).
Qed.

(** The names of the versions are recipe names. *)
Definition versionNames I : Prop :=
  forall fp v, v ∈ versionsOf I fp -> exists n, isRecipeName n (v_file v).

Lemma inodes_names b I m : inodes b I m -> versionNames I.
Proof.
  intros HI fp v Hv. specialize (HI fp). unfold versionsOf in Hv. destruct (I fp) as [e|]; [|by apply not_elem_of_nil in Hv].
  destruct HI as (i & Hw & <- & _). cbn in Hv. pose proof (wi_body _ _ Hw) as HF.
  destruct (in_body i) as [l|l]; [|by apply not_elem_of_nil in Hv].
  rewrite list.Forall_forall in HF. by destruct (HF v Hv).
Qed.

Lemma versionHolds_ext s s' ids u v x :
  (exists n, isRecipeName n (v_file v)) -> sameRecipes s s' -> versionHolds s ids u v x -> versionHolds s' ids u v x.
Proof.
  intros [n Hn] [E1 E2 E3 E4] (c & Hc & HR). exists c. split; [|done].
  destruct Hc as [(a & r & Ha & Hr & Hc)|Hc]; [left; exists a, r; by rewrite E1|right].
  by rewrite (E4 n).
Qed.

Lemma RInv_buffer I F s ids kr a u r :
  RInv I F s ids kr -> (a, u) ∈ ids -> recipes s !! a = Some r -> wfBuffer kr r.
Proof. intros HR Ha Hr. destruct (ri_nodes _ _ _ _ _ HR a u Ha) as (r' & Hr' & Hw). by simplify_eq. Qed.

Lemma RInv_name I F s ids kr a u r nm :
  RInv I F s ids kr -> (a, u) ∈ ids -> recipes s !! a = Some r -> recipeFileName r = nm ++ [Byte.x00] ->
  exists i, isRecipeName i nm /\ 0 <= i < kr.
Proof.
  intros HR Ha Hr En. destruct (RInv_buffer _ _ _ _ _ _ _ _ HR Ha Hr) as [(i & nm' & En' & Hi) _ _ _ _].
  rewrite En in En'. apply app_inj_tail in En' as [-> _]. eauto.
Qed.

Lemma RInv_same I F s s' ids kr : versionNames I -> sameRecipes s s' -> RInv I F s ids kr -> RInv I F s' ids kr.
Proof.
  intros HN HS HR. pose proof HR as [R1 R2 R3 R4 R5 R6 R7 R8 R9]. pose proof HS as [E1 E2 E3 E4].
  split; rewrite ?E1, ?E2; try done.
  - intros a u r nm Ha Hr En. destruct (RInv_name _ _ _ _ _ _ _ _ _ HR Ha Hr En) as (i & Hi & _).
    rewrite (E4 i) by done. by eapply R5.
  - intros i nm Hi Hk. rewrite (E4 i) by done. by apply (R6 i).
  - intros fp e vs He Hb. apply (Forall2_impl_l _ _ _ _ (R8 fp e vs He Hb)). intros v x Hv Hx.
    eapply versionHolds_ext; [|done|done]. apply (HN fp). unfold versionsOf. by rewrite He, Hb.
Qed.

(** The same for the nodes in another order or with other members. *)
Lemma RInv_ids I F s ids ids' kr : (forall x, x ∈ ids <-> x ∈ ids') -> RInv I F s ids kr -> RInv I F s ids' kr.
Proof.
  intros Hi [R1 R2 R3 R4 R5 R6 R7 R8 R9]. split; try done.
  - intros a u Ha. apply Hi in Ha. eauto.
  - intros a u a' u' r r' Ha Ha'. apply Hi in Ha, Ha'. eauto.
  - intros a u r nm Ha. apply Hi in Ha. eauto.
  - intros a u r nm Ha. apply Hi in Ha. eauto.
  - intros fp e vs He Hb. apply (Forall2_impl_l _ _ _ _ (R8 fp e vs He Hb)). intros v x _ (c & Hc & HR). exists c.
    split; [|done]. destruct Hc as [(a & r & Ha & Hc)|Hc]; [left|by right]. exists a, r. by rewrite <- Hi.
Qed.

(** ** A node whose recipes are written out *)

(** The recipe file [nm] gets the content of the buffer [r]; nothing else changes
    on the disk, as far as recipes are concerned. *)
Definition writtenOut s s' nm r : Prop :=
  recipeFileDirName_ s' = recipeFileDirName_ s /\
  (forall i nm', isRecipeName i nm' -> nm' <> nm -> disk s' !! recipePath s' nm' = disk s !! recipePath s nm') /\
  (0 < recipeFileBufferCurrLen r -> disk s' !! recipePath s' nm = Some (recData r)) /\
  (recipeFileBufferCurrLen r = 0 -> disk s' !! recipePath s' nm = disk s !! recipePath s nm).

Lemma versionHolds_written s s' ids ids' a uid r nm kr u v x :
  recipes s !! a = Some r -> recipeFileName r = nm ++ [Byte.x00] -> wfBuffer kr r ->
  writtenOut s s' nm r -> disk s !! recipePath s nm = None ->
  (forall a' u', (a', u') ∈ ids -> a' = a -> u' = uid) ->
  (forall a' u', (a', u') ∈ ids -> a' <> a -> (a', u') ∈ ids' /\ recipes s' !! a' = recipes s !! a') ->
  (exists n, isRecipeName n (v_file v)) ->
  versionHolds s ids u v x -> versionHolds s' ids' u v x.
Proof.
  intros Hr En Hw (E1 & E2 & E3 & E4) Habs Hu Hids [n Hn] (c & Hc & HR). exists c. split; [|done].
  destruct Hc as [(a' & r' & Ha & Hr' & En' & ->)|Hc].
  - destruct (decide (a' = a)) as [->|Hne].
    + right. simplify_eq. rewrite En in En'. apply app_inj_tail in En' as [<- _].
      apply E3. destruct (decide (recipeFileBufferCurrLen r = 0)) as [E0|]; [|destruct Hw; lia].
      exfalso. apply (recipeAt_nonempty _ _ _ HR). unfold recData. by rewrite E0.
    + left. exists a', r'. destruct (Hids _ _ Ha Hne) as [Ha' Er]. by rewrite Er.
  - right. destruct (decide (v_file v = nm)) as [E|Hne]; [congruence|]. by rewrite (E2 n).
Qed.

(** The node is freed. *)
Lemma RInv_free I F s s' ids1 a uid ids2 kr r nm :
  RInv I F s (ids1 ++ (a, uid) :: ids2) kr -> versionNames I -> NoDup (ids1 ++ (a, uid) :: ids2).*1 ->
  recipes s !! a = Some r -> recipeFileName r = nm ++ [Byte.x00] -> writtenOut s s' nm r ->
  recipes s' = delete a (recipes s) -> globalRecipeFileName_ s' = globalRecipeFileName_ s ->
  RInv I F s' (ids1 ++ ids2) kr.
Proof.
  intros HR HN Hnd Hr En HW Er Eg. pose proof HR as [R1 R2 R3 R4 R5 R6 R7 R8 R9].
  assert ((a, uid) ∈ ids1 ++ (a, uid) :: ids2) as Hin by set_solver.
  destruct (RInv_name _ _ _ _ _ _ _ _ _ HR Hin Hr En) as (i & Hi & Hik).
  pose proof (RInv_buffer _ _ _ _ _ _ _ _ HR Hin Hr) as Hw.
  assert (forall a' u', (a', u') ∈ ids1 ++ ids2 -> (a', u') ∈ ids1 ++ (a, uid) :: ids2 /\ a' <> a) as Hsub.
  { intros a' u' Ha. split; [set_solver|]. rewrite fmap_app in Hnd. cbn in Hnd.
    apply list.NoDup_app in Hnd as (_ & N1 & N2). apply list.NoDup_cons in N2 as [N2 _].
    apply elem_of_app in Ha as [Ha|Ha]; apply (list_elem_of_fmap_2 fst) in Ha; cbn in Ha; intros ->.
    - specialize (N1 a Ha). set_solver.
    - done. }
  assert (forall a' u', (a', u') ∈ ids1 ++ (a, uid) :: ids2 -> a' = a -> u' = uid) as Huid.
  { intros a' u' Ha ->. assert ((a, u') ∈ ids1 ++ ids2 \/ u' = uid) as [Ha'|] by set_solver; [|done].
    by destruct (Hsub _ _ Ha'). }
  pose proof HW as (E1 & E2 & E3 & E4). split; rewrite ?Eg; try done.
  - intros a' u' Ha. apply Hsub in Ha as [Ha Hne]. rewrite Er, lookup_delete_ne by done. eauto.
  - intros a1 u1 a2 u2 r1 r2 H1 H2. apply Hsub in H1 as [H1 N1], H2 as [H2 N2].
    rewrite Er, !lookup_delete_ne by done. by eapply R4.
  - intros a' u' r' nm' Ha Hr' En'. apply Hsub in Ha as [Ha Hne]. rewrite Er, lookup_delete_ne in Hr' by done.
    destruct (RInv_name _ _ _ _ _ _ _ _ _ HR Ha Hr' En') as (j & Hj & _).
    rewrite (E2 j); [by eapply R5|done|]. intros ->. apply Hne. eapply R4; [exact Ha|exact Hin|done|done|congruence].
  - intros j nm' Hj Hk. rewrite (E2 j); [by apply (R6 j)|done|]. intros ->.
    pose proof (containerName_inj _ _ _ Hi Hj). lia.
  - intros a' u' r' nm' Ha Hr'. apply Hsub in Ha as [Ha Hne]. rewrite Er, lookup_delete_ne in Hr' by done.
    by eapply R7.
  - intros fp e vs He Hb. apply (Forall2_impl_l _ _ _ _ (R8 fp e vs He Hb)). intros v x Hv Hx.
    eapply (versionHolds_written s s'); try done; [by eapply R5| |].
    + intros a' u' Ha Hne. split; [set_solver|]. by rewrite Er, lookup_delete_ne.
    + apply (HN fp). unfold versionsOf. by rewrite He, Hb.
Qed.

(** ** New names *)

(** A name that was not used yet is not the name of a node. *)
Lemma RInv_newName I F s ids kr a u r nm :
  RInv I F s ids kr -> (a, u) ∈ ids -> recipes s !! a = Some r -> recipeFileName r = nm ++ [Byte.x00] ->
  nm <> globalRecipeFileName_ s.
Proof.
  intros HR Ha Hr En ->. destruct (RInv_name _ _ _ _ _ _ _ _ _ HR Ha Hr En) as (i & Hi & Hk).
  pose proof (containerName_inj _ _ _ Hi (ri_global _ _ _ _ _ HR)). lia.
Qed.

(** The node [a] gets the next recipe file; its old recipes, if any, are written
    out, or the node is new. *)
Lemma RInv_renew I F s s' ids ids' a uid kr r' :
  RInv I F s ids kr -> versionNames I ->
  (forall x, x ∈ ids' <-> x = (a, uid) \/ (x ∈ ids /\ x.1 <> a)) ->
  recipes s' = <[a := r']> (recipes s) -> recipeFileName r' = globalRecipeFileName_ s ++ [Byte.x00] ->
  wfBuffer (kr + 1) r' -> recipeFileBufferCurrLen r' = 0 ->
  isRecipeName (kr + 1) (globalRecipeFileName_ s') ->
  (forall i nm, isRecipeName i nm -> kr <= i -> disk s' !! recipePath s' nm = None) ->
  (forall a' u r nm, (a', u) ∈ ids -> a' <> a -> recipes s !! a' = Some r ->
     recipeFileName r = nm ++ [Byte.x00] -> disk s' !! recipePath s' nm = None) ->
  (forall u v x, (exists n, isRecipeName n (v_file v)) ->
     versionHolds s ids u v x -> versionHolds s' ids' u v x) ->
  RInv I F s' ids' (kr + 1).
Proof.
  intros HR HN Hids Er En Hw H0 Hg Hfr Habs Hver. pose proof HR as [R1 R2 R3 R4 R5 R6 R7 R8 R9].
  assert (forall a' u' r, (a', u') ∈ ids' -> recipes s' !! a' = Some r ->
    (a' = a /\ r = r') \/ (a' <> a /\ (a', u') ∈ ids /\ recipes s !! a' = Some r)) as Hsplit.
  { intros a' u' r Ha Hr. rewrite Er in Hr. apply Hids in Ha as [[= -> ->]|[Ha Hne]].
    - rewrite lookup_insert_eq in Hr. left. by simplify_eq.
    - cbn in Hne. rewrite lookup_insert_ne in Hr by done. by right. }
  split; try done.
  - lia.
  - intros a' u' Ha. rewrite Er. apply Hids in Ha as [[= -> ->]|[Ha Hne]].
    + rewrite lookup_insert_eq. eauto.
    + cbn in Hne. rewrite lookup_insert_ne by done. destruct (R3 _ _ Ha) as (r & Hr & Hwr).
      exists r. split; [done|]. eapply wfBuffer_mono; [|done]. lia.
  - intros a1 u1 a2 u2 r1 r2 H1 H2 Hr1 Hr2 Eq.
    destruct (Hsplit _ _ _ H1 Hr1) as [[-> ->]|(N1 & I1 & L1)],
             (Hsplit _ _ _ H2 Hr2) as [[-> ->]|(N2 & I2 & L2)]; [done|..|by eapply R4].
    + rewrite En in Eq. symmetry in Eq. by destruct (RInv_newName _ _ _ _ _ _ _ _ _ HR I2 L2 Eq).
    + rewrite En in Eq. by destruct (RInv_newName _ _ _ _ _ _ _ _ _ HR I1 L1 Eq).
  - intros a' u' r nm Ha Hr Enm. destruct (Hsplit _ _ _ Ha Hr) as [[-> ->]|(N1 & I1 & L1)]; [|by eapply Habs].
    rewrite En in Enm. apply app_inj_tail in Enm as [<- _]. by apply (Hfr kr).
  - intros i nm Hi Hk. apply (Hfr i); [done|lia].
  - intros a' u' r nm Ha Hr Enm Hc. destruct (Hsplit _ _ _ Ha Hr) as [[-> ->]|(N1 & I1 & L1)]; [lia|by eapply R7].
  - intros fp e vs He Hb. apply (Forall2_impl_l _ _ _ _ (R8 fp e vs He Hb)). intros v x Hv Hx.
    apply Hver; [|done]. apply (HN fp). unfold versionsOf. by rewrite He, Hb.
Qed.

(** ** A new version *)

Section NewVersion.
Context (digest : bytes -> bytes).

Lemma RInv_addFile I F s s' ids kr a uid name r r' nm rc :
  RInv I F s ids kr -> versionNames I -> noClash digest I uid name ->
  (forall e, I (inodeFP digest uid name) = Some e -> en_user e = uid) ->
  (a, uid) ∈ ids -> (forall a' u', (a', u') ∈ ids -> (a' = a <-> u' = uid)) ->
  recipes s !! a = Some r -> recipeFileName r = nm ++ [Byte.x00] ->
  recipes s' = <[a := r']> (recipes s) -> globalRecipeFileName_ s' = globalRecipeFileName_ s ->
  (forall i nm', isRecipeName i nm' -> disk s' !! recipePath s' nm' = disk s !! recipePath s nm') ->
  wfBuffer kr r' -> recipeFileName r' = recipeFileName r -> lastRecipeHeadPos r' = recipeFileBufferCurrLen r ->
  lastInodeFP r' = inodeFP digest uid name -> recData r' = recData r ++ encodeRecipe rc -> wfRecipe rc ->
  let v := {| v_file := nm; v_off := Z.to_nat (recipeFileBufferCurrLen r) |} in
  RInv (addFileSpec digest uid name v I)
       (<[inodeFP digest uid name := (rc_fileSize rc, rc_entries rc) :: F (inodeFP digest uid name)]> F)
       s' ids kr.
Proof.
  intros HR HN HC HU Ha Hone Hr En Er Eg Hd Hw En' El Efp Edata Wr v. set (f := inodeFP digest uid name) in *.
  pose proof HR as [R1 R2 R3 R4 R5 R6 R7 R8 R9].
  assert (forall a' u' x, (a', u') ∈ ids -> recipes s' !! a' = Some x ->
    (a' = a /\ x = r') \/ (a' <> a /\ recipes s !! a' = Some x)) as Hsplit.
  { intros a' u' x Ha' Hx. rewrite Er in Hx. destruct (decide (a' = a)) as [->|Hne].
    - rewrite lookup_insert_eq in Hx. left. by simplify_eq.
    - rewrite lookup_insert_ne in Hx by done. by right. }
  pose proof (RInv_buffer _ _ _ _ _ _ _ _ HR Ha Hr) as Hwr.
  pose proof (length_recData _ _ Hwr) as Hlr. pose proof (length_recData _ _ Hw) as Hlr'.
  assert (length (recData r') <= RECIPE_BUFFER_SIZE)%nat as Hmax by (destruct Hw; lia).
  (* old versions *)
  assert (forall u w x, (exists n, isRecipeName n (v_file w)) -> versionHolds s ids u w x -> versionHolds s' ids u w x) as Hold.
  { intros u w x [i Hi] (c & [(a' & x' & Ha' & Hx' & Enx & ->)|Hc] & Hat).
    - destruct (decide (a' = a)) as [->|Hne].
      + simplify_eq. exists (recData r'). split.
        * left. exists a, r'. split_and!; [done|rewrite Er; apply lookup_insert_eq|congruence|done].
        * rewrite Edata in Hmax |- *. by apply recipeAt_app.
      + exists (recData x'). split; [|done]. left. exists a', x'. by rewrite Er, lookup_insert_ne.
    - exists c. split; [|done]. right. by rewrite (Hd i). }
  split; rewrite ?Eg; try done.
  - intros a' u' Ha'. rewrite Er. destruct (decide (a' = a)) as [->|Hne].
    + rewrite lookup_insert_eq. eauto.
    + rewrite lookup_insert_ne by done. eauto.
  - intros a1 u1 a2 u2 r1 r2 H1 H2 Hr1 Hr2 Eq.
    destruct (Hsplit _ _ _ H1 Hr1) as [[-> ->]|(N1 & L1)], (Hsplit _ _ _ H2 Hr2) as [[-> ->]|(N2 & L2)];
      [done|..|by eapply R4].
    + rewrite En' in Eq. by apply (R4 _ _ _ _ _ _ H1 H2 Hr L2 Eq).
    + rewrite En' in Eq. by apply (R4 _ _ _ _ _ _ H1 H2 L1 Hr Eq).
  - intros a' u' x nm' Ha' Hx Enx. destruct (Hsplit _ _ _ Ha' Hx) as [[-> ->]|(N1 & L1)].
    + rewrite En' in Enx. destruct (RInv_name _ _ _ _ _ _ _ _ _ HR Ha' Hr Enx) as (i & Hi & _).
      rewrite (Hd i) by done. by eapply R5.
    + destruct (RInv_name _ _ _ _ _ _ _ _ _ HR Ha' L1 Enx) as (i & Hi & _).
      rewrite (Hd i) by done. by eapply R5.
  - intros i nm' Hi Hk. rewrite (Hd i) by done. by apply (R6 i).
  - intros a' u' x nm' Ha' Hx Enx Hc. destruct (Hsplit _ _ _ Ha' Hx) as [[-> ->]|(N1 & L1)].
    + apply Hone in Ha' as Eu. destruct Eu as [Eu _]. specialize (Eu eq_refl). subst u'.
      rewrite En', En in Enx. apply app_inj_tail in Enx as [<- _]. rewrite Efp, El.
      pose proof (addFileSpec_self digest uid name v I HC) as Hs. fold f in Hs.
      destruct (addFileSpec digest uid name v I f) as [e|] eqn:Ee; [|done]. cbn in Hs.
      destruct (en_body e) as [vs|] eqn:Eb; [|done].
      pose proof (addFileSpec_file digest uid name v I f e vs HC HU Ee Eb) as X. fold f in X.
      rewrite decide_True in X by done. destruct X as [X1 ->]. by exists e, (versionsOf I f).
    + destruct (R7 _ _ _ _ Ha' L1 Enx Hc) as (e & vs & He & Hu & Hb).
      assert (lastInodeFP x <> f) as Hne.
      { intros E. rewrite E in He. apply HU in He. apply N1. apply (Hone a' u'); [done|]. congruence. }
      exists e, vs. split; [|done]. rewrite addFileSpec_other; [done| |done]. rewrite He. cbn. by rewrite Hb.
  - intros fp e vs He Hb. pose proof (addFileSpec_file digest uid name v I fp e vs HC HU He Hb) as X.
    fold f in X. case_decide as Ef.
    + destruct X as [Eu ->]. rewrite Eu, Ef, fn_lookup_insert. constructor.
      * exists (recData r'). split; [left; exists a, r'; split_and!; [done|rewrite Er; apply lookup_insert_eq|cbn; congruence|done]|].
        exists rc, (recData r), []. cbn. split_and!; try done. by rewrite app_nil_r.
      * destruct (I f) as [e0|] eqn:Ei.
        -- destruct (en_body e0) as [l|l] eqn:Eb0; [|destruct HC as [HC _]; destruct HC; fold f; rewrite Ei; cbn; by rewrite Eb0].
           unfold versionsOf. rewrite Ei, Eb0. rewrite <- (HU e0 eq_refl).
           apply (Forall2_impl_l _ _ _ _ (R8 f e0 l Ei Eb0)). intros w x Hw' Hx. apply Hold; [|done].
           apply (HN f). unfold versionsOf. by rewrite Ei, Eb0.
        -- unfold versionsOf. rewrite Ei, R9; [constructor|]. rewrite Ei. cbn. tauto.
    + rewrite fn_lookup_insert_ne by congruence.
      apply (Forall2_impl_l _ _ _ _ (R8 fp e vs X Hb)). intros w x Hw' Hx. apply Hold; [|done].
      apply (HN fp). unfold versionsOf. by rewrite X, Hb.
  - intros fp Hnf. destruct (decide (fp = f)) as [->|Hne].
    + destruct Hnf. apply addFileSpec_self. done.
    + rewrite fn_lookup_insert_ne by congruence. apply R9. intros Hf. apply Hnf.
      by rewrite addFileSpec_other.
Qed.
End NewVersion.

Lemma takeRecipeName_spec {ret} s old k (Q : ret -> DedupCore W -> Prop) :
  globalRecipeFileNameLock_ s = false -> length old = 16%nat ->
  isRecipeName k (globalRecipeFileName_ s) -> k < 26 ^ 12 - 1 ->
  wps (takeRecipeName old) (fun name s' => exists g',
    name = globalRecipeFileName_ s ++ [Byte.x00] /\
    isRecipeName (k + 1) g' /\ s' = set_recipeName s g' false) Q s.
Proof.
  intros Hl Ho Hg Hk. pose proof (containerName_length _ _ Hg) as H15.
  unfold takeRecipeName. wstep.
  unfold wps at 1, lockRecipeName. rewrite Hl. wstep. wstep. wstep. cbn [globalRecipeFileName_ set_recipeName].
  eapply wps_lift.
  { change (INTERNAL_FILE_NAME_SIZE - 1)%nat with 15%nat. rewrite take_ge by lia.
    apply (wr_next [] old 0); [done|]. lia. }
  cbn [app]. wstep.
  destruct (drop (length (globalRecipeFileName_ s)) old) as [|x [|y d]] eqn:Ed;
    apply (f_equal length) in Ed; rewrite length_drop in Ed; cbn in Ed; try lia.
  eapply wps_lift.
  { rewrite aset_ok by (rewrite length_app; cbn; lia).
    change (INTERNAL_FILE_NAME_SIZE - 1)%nat with 15%nat.
    rewrite <- H15, insert_app_r_alt, Nat.sub_diag by lia. done. }
  wstep. destruct (containerName_incr (R := ret * DedupCore W) k _ Hg Hk) as (g' & Eg & Hg').
  eapply wps_lift; [exact Eg|]. wstep. wstep. wstep.
  unfold wps at 1, unlockRecipeName. cbn [globalRecipeFileNameLock_ set_recipeName]. wstep.
  exists g'. by split_and!.
Qed.

(** ** Writing recipes out *)

Context {REL : ReliableWorld W}.

(** The environment changes to one with the view [v]. *)
Definition viewStep s s' (v : View) : Prop := exists w, s' = set_shares s (set_world (shares s) w) /\ view w = v.

Lemma viewStep_refl s : viewStep s s (view (theWorld s)).
Proof. exists (theWorld s). split; [|done]. by destruct s as [[]]. Qed.

Lemma viewStep_trans s1 s2 s3 v v' : viewStep s1 s2 v -> viewStep s2 s3 v' -> viewStep s1 s3 v'.
Proof. intros (w1 & -> & _) (w2 & -> & E). exists w2. by destruct s1 as [[]]. Qed.

Lemma viewStep_view s s' v : viewStep s s' v -> view (theWorld s') = v.
Proof. by intros (w & -> & E). Qed.

Lemma wps_onWorldD {ret A} (f : W -> A * W) (P : A -> DedupCore W -> Prop)
    (Q : ret -> DedupCore W -> Prop) s :
  (forall a w, f (theWorld s) = (a, w) -> P a (set_shares s (set_world (shares s) w))) ->
  wps (onWorldD f) P Q s.
Proof. intros Hf. apply wps_onShares, wps_onWorld. apply Hf. Qed.

Lemma fopen_wb_spec {ret} path s (Q : ret -> DedupCore W -> Prop) :
  wps (onWorldD (fun w => fopen_wb w path))
    (fun ok s' => ok = true /\ viewStep s s' (set_files (view (theWorld s)) (<[path := []]> (disk s)))) Q s.
Proof.
  apply wps_onWorldD. intros ok w E. pose proof (fopen_wb_reliable (theWorld s) path) as X. rewrite E in X. cbn in X.
  subst ok. split; [done|]. exists w. split; [done|]. by rewrite (fopen_wb_law _ _ _ _ E).
Qed.

Lemma fopen_ab_spec {ret} path s (Q : ret -> DedupCore W -> Prop) :
  wps (onWorldD (fun w => fopen_ab w path))
    (fun ok s' => ok = true /\
       viewStep s s' (set_files (view (theWorld s)) (<[path := default [] (disk s !! path)]> (disk s)))) Q s.
Proof.
  apply wps_onWorldD. intros ok w E. pose proof (fopen_ab_reliable (theWorld s) path) as X. rewrite E in X. cbn in X.
  subst ok. split; [done|]. exists w. split; [done|]. by rewrite (fopen_ab_law _ _ _ _ E).
Qed.

Lemma writeRecipes_spec kr path r s (Q : bool -> DedupCore W -> Prop) :
  wfBuffer kr r -> 0 < recipeFileBufferCurrLen r -> disk s !! path = Some [] ->
  wps (writeRecipes path r)
    (fun _ s' => viewStep s s' (set_files (view (theWorld s)) (<[path := recData r]> (disk s)))) Q s.
Proof.
  intros Hw Hc Hp. pose proof (length_recData _ _ Hw) as Hl. destruct Hw as [_ Hb Hlen _ _].
  unfold writeRecipes. wstep. eapply wps_lift.
  { rewrite sz_ok by lia. cbn [mbind res_bind]. rewrite rd_ok by lia. by rewrite drop_0. }
  fold (recData r). wstep. apply wps_onWorldD. intros ok w E.
  assert (recData r <> []) as Hne by (intros E0; rewrite E0 in Hl; cbn in Hl; lia).
  pose proof (fwrite_reliable (theWorld s) path (recData r) Hne) as X. rewrite E in X. cbn in X. subst ok. cbn [negb].
  destruct (fwrite_law _ _ _ _ _ E) as (c & Ev & Hok). destruct (Hok eq_refl) as [_ Ec].
  wstep. exists w. split; [done|]. rewrite Ev, Ec. unfold disk in *. by rewrite Hp.
Qed.

(** A file that does not exist is created with the content of the buffer. *)
Lemma createRecipeFile_spec kr path r s (Q : bool -> DedupCore W -> Prop) :
  wfBuffer kr r -> 0 < recipeFileBufferCurrLen r ->
  wps (opened ← onWorldD (fun w => fopen_wb w path);
       if negb opened then ret_ false else writeRecipes path r)
    (fun _ s' => viewStep s s' (set_files (view (theWorld s)) (<[path := recData r]> (disk s)))) Q s.
Proof.
  intros Hw Hc. wstep. eapply wps_post; [apply fopen_wb_spec|]. intros ok s1 [-> V1]. cbn [negb].
  pose proof (viewStep_view _ _ _ V1) as E1. assert (disk s1 = <[path := []]> (disk s)) as D1 by (unfold disk; by rewrite E1).
  eapply wps_post; [eapply writeRecipes_spec; [done|done|rewrite D1; apply lookup_insert_eq]|].
  intros [] s2 V2. cbv beta in V2. rewrite E1, D1 in V2. cbn in V2. rewrite insert_insert_eq in V2. by eapply viewStep_trans.
Qed.

Lemma findOld_spec {ret} b I s a r v vs (Q : ret -> DedupCore W -> Prop) :
  DBLock_ (shares s) = false -> inodes b I (contents (view (theWorld s))) -> b < 2 ^ 24 ->
  recipes s !! a = Some r -> versionsOf I (lastInodeFP r) = v :: vs ->
  wps (findOldRecipeFile_ (Some a))
    (fun o s' => o = Some (v_file v, Z.of_nat (v_off v)) /\ s' = s) Q s.
Proof.
  intros U HI Hb Hr Hv. unfold findOldRecipeFile_. wstep. wstep. apply (wps_loadRecipe a r); [done|].
  wstep. apply wps_lockDB; [done|]. wstep. wstep. wstep. apply wps_unlockDB; [done|].
  change (theWorld (set_shares s (set_locks (shares s) true (bufferLock_ (shares s))
    (globalShareContainerNameLock_ (shares s))))) with (theWorld s).
  rewrite get_reliable. specialize (HI (lastInodeFP r)). unfold versionsOf in Hv.
  destruct (I (lastInodeFP r)) as [e|]; [|done]. destruct HI as (i & Hw & <- & ->). cbn [en_body entryOf] in Hv.
  destruct (in_body i) as [l|l] eqn:Eb; [|done]. subst l.
  wstep. eapply wps_lift; [by eapply (newestVersion_spec b)|]. wstep. done.
Qed.

(** flushBufferNodeIntoDisk_ writes the recipes of the node into its recipe file:
    directly, or by way of the inode of the last file. *)
Lemma flushRecipes_spec I F b s ids kr a u r nm (Q : bool -> DedupCore W -> Prop) :
  RInv I F s ids kr -> inodes b I (contents (view (theWorld s))) -> b < 2 ^ 24 ->
  DBLock_ (shares s) = false -> (a, u) ∈ ids -> recipes s !! a = Some r ->
  recipeFileName r = nm ++ [Byte.x00] -> 0 < recipeFileBufferCurrLen r ->
  wps (flushRecipes (Some a))
    (fun _ s' => viewStep s s' (set_files (view (theWorld s)) (<[recipePath s nm := recData r]> (disk s)))) Q s.
Proof.
  intros HR HI Hb U Ha Hr En Hc. pose proof (RInv_buffer _ _ _ _ _ _ _ _ HR Ha Hr) as Hw.
  destruct (RInv_name _ _ _ _ _ _ _ _ _ HR Ha Hr En) as (i & Hi & _).
  unfold flushRecipes. wstep. apply (wps_loadRecipe a r); [done|]. wstep. wstep.
  destruct (Z.eqb_spec (lastRecipeHeadPos r) 0) as [E0|E0].
  - destruct (ri_last _ _ _ _ _ HR a u r nm Ha Hr En Hc) as (e & vs & He & _ & Ev). rewrite E0 in Ev.
    wstep. eapply wps_post; [eapply findOld_spec; try done; unfold versionsOf; by rewrite He, Ev|]. intros o s' [-> ->]. cbn [v_file v_off].
    rewrite (containerName_prefix i) by done. wstep. eapply wps_post; [apply fopen_ab_spec|].
    intros ok s1 [-> V1]. cbn [negb].
    assert (disk s !! recipePath s nm = None) as Habs by (by eapply (ri_absent _ _ _ _ _ HR)).
    unfold recipePath in *. rewrite Habs in V1. cbn [default from_option] in V1.
    pose proof (viewStep_view _ _ _ V1) as E1.
    assert (disk s1 = <[recipeFileDirName_ s ++ nm := []]> (disk s)) as D1 by (unfold disk; by rewrite E1).
    wstep. wstep. rewrite (fsize_law _ _ []) by (fold (disk s1); rewrite D1; apply lookup_insert_eq). cbn [length].
    rewrite Z.eqb_refl. cbn [Z.to_nat Z.of_nat negb]. rewrite Z.eqb_refl. cbn [negb].
    eapply wps_post; [by eapply createRecipeFile_spec|]. intros [] s2 V2. cbv beta in V2. rewrite E1, D1 in V2. cbn in V2.
    rewrite insert_insert_eq in V2. by eapply viewStep_trans.
  - wstep. eapply wps_lift; [rewrite En; by eapply containerName_cstr|].
    rewrite (containerName_prefix i) by done. by eapply createRecipeFile_spec.
Qed.
End Recipes.
