(* ===== verification/DedupNodes.v ===== *)
(** * Buffer nodes and recipe files of DedupCore

    The functions of DedupCore that write recipe files and manage the buffer
    nodes keep both invariants: that of the shares and that of the recipes. *)

From stdpp Require Import base list numbers gmap functions.
From coqutil Require Import Byte.
From Stdlib Require Import Lia.
From S2P Require Import Prelude Structs FileNames World CryptoPrimitive MinDedupCore MinStages ShareIndex MinInvariant MinNodes MinIndex MinRestoreProof DedupCore DedupStages Inodes InodeIndex Recipes.

Local Open Scope Z_scope.

Abbreviation idsOf l := ((fun x : positive * perUserBufferNode => (x.1, userID x.2)) <$> l).

Lemma fst_idsOf (l : nodeList) : (idsOf l).*1 = l.*1.
Proof. rewrite <- list_fmap_compose. by apply list_fmap_ext. Qed.

Lemma snd_idsOf (l : nodeList) : (idsOf l).*2 = nodeUsers l.
Proof. rewrite <- !list_fmap_compose. by apply list_fmap_ext. Qed.

Section Nodes.
Context {W : Type} {WW : World W} {WL : WorldLaws W} {LM : Limits} {LOK : LimitsOk} {REL : ReliableWorld W}
        (digest : bytes -> bytes).
Implicit Types (s : DedupCore W) (x : minDedupCore W) (I : InodeMap) (F : Files).

(** The share invariant looks at the entries of shares and the container files. *)
Lemma Inv_view A x l k b w :
  (forall fp, contents (view w) !! shareFP2IndexKey_ fp = contents (view (world x)) !! shareFP2IndexKey_ fp) ->
  (forall i nm, isContainerName i nm ->
     files (view w) !! (shareContainerDirName_ x ++ nm)
     = files (view (world x)) !! (shareContainerDirName_ x ++ nm)) ->
  Inv digest A x l k b -> Inv digest A (set_world x w) l k b.
Proof.
  intros Hc Hf [H1 H2 H3 H4 H5 H6 [HR Hs]]. split; try done. split.
  - intros fp. cbn. by rewrite Hc, HR.
  - intros fp i Hi. eapply stored_mono; [|reflexivity|reflexivity|by apply Hs]. cbn.
    intros j nm c Hj _ HC _. exists c. split; [|done]. rewrite <- HC. by apply containerOf_files, (Hf j).
Qed.

(** Both invariants. *)
Record DInv A I F s (l : nodeList) (k b kr bi : Z) : Prop := {
  di_shares : Inv digest A (shares s) l k b;
  di_recipes : RInv I F s (idsOf l) kr;
  di_inodes : inodes bi I (contents (view (theWorld s)));
  di_bi : 0 <= bi < 2 ^ 24;
}.

Definition unlockedD s : Prop := unlocked (shares s) /\ globalRecipeFileNameLock_ s = false.

(** What the operations on nodes leave alone. *)
Record dframe s s' : Prop := {
  dfr_cdir : shareContainerDirName_ (shares s') = shareContainerDirName_ (shares s);
  dfr_rdir : recipeFileDirName_ s' = recipeFileDirName_ s;
  dfr_db : DBLock_ (shares s') = DBLock_ (shares s);
  dfr_buffer : bufferLock_ (shares s') = bufferLock_ (shares s);
  dfr_name : globalShareContainerNameLock_ (shares s') = globalShareContainerNameLock_ (shares s);
  dfr_rname : globalRecipeFileNameLock_ s' = globalRecipeFileNameLock_ s;
  dfr_contents : contents (view (theWorld s')) = contents (view (theWorld s));
  dfr_sent : sent (view (theWorld s')) = sent (view (theWorld s));
}.

#[export] Instance dframe_refl : Reflexive dframe.
Proof. by split. Qed.
#[export] Instance dframe_trans : Transitive dframe.
Proof. intros s1 s2 s3 [] []. split; congruence. Qed.

Lemma dframe_unlocked s s' : dframe s s' -> unlockedD s -> unlockedD s'.
Proof. intros [] [(? & ? & ?) ?]. unfold unlockedD, unlocked. split_and!; congruence. Qed.

(** ** Flushing *)

(** The environment after a flush of the node [n], [r]. *)
Definition flushed s n r nm (w : W) : Prop :=
  exists w1 name, recipeFileName r = nm ++ [Byte.x00] /\ shareContainerName n = name ++ [Byte.x00] /\
    view w1 = (if 0 <? recipeFileBufferCurrLen r
               then set_files (view (theWorld s)) (<[recipePath s nm := recData r]> (disk s))
               else view (theWorld s)) /\
    fileWritten (view w1) (view w) (shareContainerDirName_ (shares s) ++ name)
      (if true && (0 <? shareContainerBufferCurrLen n) then Some (nodeData n) else None).

Lemma flushNode_spec {ret} I F s ids a n k kr bi r (Q : ret -> DedupCore W -> Prop) :
  RInv I F s ids kr -> inodes bi I (contents (view (theWorld s))) -> 0 <= bi < 2 ^ 24 ->
  heap (shares s) !! a = Some n -> wfNode k n -> (a, userID n) ∈ ids ->
  DBLock_ (shares s) = false -> recipes s !! a = Some r ->
  wps (flushBufferNodeIntoDisk_ (Some a)) (fun ok s' => ok = true /\ exists w nm,
    s' = set_shares s (set_world (shares s) w) /\ flushed s n r nm w) Q s.
Proof.
  intros HR HN Hbi Hn Hwn Ha U Hr.
  pose proof (wn_name _ _ Hwn) as (ci & name & En & Hci & _).
  pose proof (wn_len _ _ Hwn) as Hlen. pose proof (wn_buffer _ _ Hwn) as Hbuf.
  pose proof (RInv_buffer _ _ _ _ _ _ _ _ HR Ha Hr) as Hw.
  pose proof (wb_name _ _ Hw) as (ri & nm & Enm & Hri & _).
  unfold flushBufferNodeIntoDisk_. wstep. wstep. apply (wps_loadRecipe a r); [done|]. wstep.
  eapply (wps_post _ (fun _ s' => viewStep s s' (if 0 <? recipeFileBufferCurrLen r
    then set_files (view (theWorld s)) (<[recipePath s nm := recData r]> (disk s)) else view (theWorld s)))).
  { destruct (Z.gtb_spec (recipeFileBufferCurrLen r) 0) as [Hp|Hz].
    - rewrite (proj2 (Z.ltb_lt _ _)) by lia. eapply flushRecipes_spec; try done; lia.
    - rewrite (proj2 (Z.ltb_ge _ _)) by lia. wstep. apply viewStep_refl. }
  intros [] s1 (w1 & -> & Ev). wstep. apply wps_onShares. apply (wps_load _ n); [done|].
  assert (forall ok w, fileWritten (view w1) (view w) (shareContainerDirName_ (shares s) ++ name)
      (if ok && (0 <? shareContainerBufferCurrLen n) then Some (nodeData n) else None) -> ok = true ->
      flushed s n r nm w) as Hfl.
  { intros ok w Hf ->. by exists w1, name. }
  destruct (Z.gtb_spec (shareContainerBufferCurrLen n) 0) as [Hp|Hz].
  - apply wps_onShares. eapply wps_post; [eapply (writeContainer_spec _ n name ci); [done|done|lia]|].
    intros ok x (w & -> & Hf & _ & HD). specialize (HD _ Hp). split; [done|].
    exists w, nm. split; [by destruct s as [[]]|]. apply (Hfl ok); [|done].
    rewrite (proj2 (Z.ltb_lt _ _)) by lia. by rewrite andb_true_r.
  - wstep. split; [done|]. exists w1, nm. split; [by destruct s as [[]]|]. apply (Hfl true); [|done].
    rewrite (proj2 (Z.ltb_ge _ _)) by lia. cbn. apply fileWritten_refl.
Qed.

Lemma flushD_spec {ret} A I F s l1 a n l2 k b kr bi r (Q : ret -> DedupCore W -> Prop) :
  DInv A I F s (l1 ++ (a, n) :: l2) k b kr bi -> DBLock_ (shares s) = false -> recipes s !! a = Some r ->
  wps (flushBufferNodeIntoDisk_ (Some a)) (fun ok s' => ok = true /\ exists w nm,
    s' = set_shares s (set_world (shares s) w) /\ flushed s n r nm w) Q s.
Proof.
  intros [HI HR HN Hbi] U Hr. destruct (Inv_node _ _ _ _ _ _ _ _ _ HI) as [Hn Hwn].
  eapply flushNode_spec; try done. rewrite fmap_app. set_solver.
Qed.

Lemma flushed_shares A s l k b n r nm i w :
  Inv digest A (shares s) l k b -> isRecipeName i nm -> flushed s n r nm w ->
  exists w1 name, shareContainerName n = name ++ [Byte.x00] /\
    Inv digest A (set_world (shares s) w1) l k b /\
    contents (view w1) = contents (view (theWorld s)) /\ sent (view w1) = sent (view (theWorld s)) /\
    fileWritten (view w1) (view w) (shareContainerDirName_ (shares s) ++ name)
      (if true && (0 <? shareContainerBufferCurrLen n) then Some (nodeData n) else None).
Proof.
  intros HI Hi (w1 & name & _ & En & Ev & Hf). exists w1, name.
  assert (contents (view w1) = contents (view (theWorld s)) /\ sent (view w1) = sent (view (theWorld s))) as [Ec Es]
    by (split; rewrite Ev; destruct (0 <? recipeFileBufferCurrLen r); reflexivity).
  split_and!; try done. apply Inv_view; [by intros; rewrite Ec| |done].
  intros j cn Hj. rewrite Ev. destruct (0 <? recipeFileBufferCurrLen r); [|reflexivity]. cbn. apply lookup_insert_ne.
  intros E. by eapply recipe_not_container.
Qed.

Lemma flushed_recipes s n r nm i k kr w s' :
  wfBuffer kr r -> isRecipeName i nm -> wfNode k n -> flushed s n r nm w ->
  recipeFileDirName_ s' = recipeFileDirName_ s -> disk s' = files (view w) -> writtenOut s s' nm r.
Proof.
  intros Hw Hi Hn (w1 & name & Enm & En & Ev & (_ & _ & Hq & _)) Ed Ef.
  destruct (wn_name _ _ Hn) as (ci & name' & En' & Hci & _). rewrite En in En'. apply app_inj_tail in En' as [<- _].
  assert (forall j nm', isRecipeName j nm' -> disk s' !! recipePath s' nm' = files (view w1) !! recipePath s nm') as Hd.
  { intros j nm' Hj. unfold recipePath. rewrite Ef, Ed. apply Hq. by eapply recipe_not_container. }
  split; [done|]. split; [|split].
  - intros j nm' Hj Hne. rewrite (Hd j), Ev by done. case_match; [|done]. cbn. apply lookup_insert_ne.
    unfold recipePath. intros E. by apply app_inv_head in E.
  - intros Hp. rewrite (Hd i), Ev by done. rewrite (proj2 (Z.ltb_lt _ _)) by lia. cbn. apply lookup_insert_eq.
  - intros Hz. rewrite (Hd i), Ev, Hz by done. done.
Qed.

Lemma idsOf_next l1 p pn q l2 : idsOf (l1 ++ (p, set_next pn q) :: l2) = idsOf (l1 ++ (p, pn) :: l2).
Proof. by rewrite !fmap_app. Qed.

Lemma Inv_ids A x l k b : Inv digest A x l k b -> NoDup (idsOf l).*1.
Proof. intros HI. rewrite fst_idsOf. apply HI. Qed.

(** ** Freeing a flushed node *)

Lemma DInv_remove_head A I F s a n l2 k b kr bi r nm w :
  DInv A I F s ((a, n) :: l2) k b kr bi -> recipes s !! a = Some r -> flushed s n r nm w ->
  headBufferNode_ (shares s) = Some a /\
  (headBufferNode_ (shares s) = tailBufferNode_ (shares s) <-> l2 = []) /\
  let s' := set_recipes (set_shares s (set_ends (set_heap (set_world (shares s) w) (delete a (heap (shares s))))
              (next n) (if decide (l2 = []) then None else tailBufferNode_ (shares s)))) (delete a (recipes s)) in
  DInv A I F s' l2 k b kr bi /\ dframe s s'.
Proof.
  intros [HI HR HN Hbi] Hr Hf. pose proof Hf as (_ & _ & Enm & _).
  destruct (RInv_name _ _ _ _ _ a (userID n) r nm HR) as (i & Hi & _); [cbn; set_solver|done|done|].
  destruct (flushed_shares _ _ _ _ _ _ _ _ _ _ HI Hi Hf) as (w1 & name & En & HI1 & Ec & Es & Hw).
  destruct (Inv_remove_head _ _ _ _ _ _ _ _ _ _ HI1 En Hw) as (Hh & Ht & HI2).
  pose proof Hw as (Ec' & Es' & _). split; [done|]. split; [done|]. intros s'. split.
  - split; [exact HI2| |by unfold s', theWorld; cbn; rewrite Ec', Ec|done].
    apply (RInv_ids I F s' ([] ++ idsOf l2)); [done|].
    eapply (RInv_free I F s s' [] a (userID n) (idsOf l2) kr r nm); try done.
    + by eapply inodes_names.
    + apply (Inv_ids _ _ _ _ _ HI).
    + eapply flushed_recipes; [|done| |done|done|done].
      * eapply (RInv_buffer _ _ _ _ _ _ (userID n)); [done| |done]. cbn. set_solver.
      * by apply (Inv_node _ _ _ [] _ _ _ _ _ HI).
  - split; try done; unfold s', theWorld in *; cbn; congruence.
Qed.

Lemma DInv_remove_next A I F s l1 p pn a n l2 k b kr bi r nm w :
  DInv A I F s (l1 ++ (p, pn) :: (a, n) :: l2) k b kr bi -> recipes s !! a = Some r -> flushed s n r nm w ->
  headBufferNode_ (shares s) <> Some a /\ heap (shares s) !! p = Some pn /\ p <> a /\
  (tailBufferNode_ (shares s) = Some a <-> l2 = []) /\
  let s' := set_recipes (set_shares s (set_ends (set_heap (set_world (shares s) w)
                (delete a (<[p := set_next pn (next n)]> (heap (shares s)))))
              (headBufferNode_ (shares s)) (if decide (l2 = []) then Some p else tailBufferNode_ (shares s))))
              (delete a (recipes s)) in
  DInv A I F s' (l1 ++ (p, set_next pn (next n)) :: l2) k b kr bi /\ dframe s s'.
Proof.
  intros [HI HR HN Hbi] Hr Hf. pose proof Hf as (_ & _ & Enm & _).
  assert ((a, userID n) ∈ idsOf (l1 ++ (p, pn) :: (a, n) :: l2)) as Ha by (rewrite fmap_app; set_solver).
  destruct (RInv_name _ _ _ _ _ a (userID n) r nm HR) as (i & Hi & _); [done|done|done|].
  destruct (flushed_shares _ _ _ _ _ _ _ _ _ _ HI Hi Hf) as (w1 & name & En & HI1 & Ec & Es & Hw).
  destruct (Inv_remove_next _ _ _ _ _ _ _ _ _ _ _ _ _ HI1 En Hw) as (Hh & Hp & Hpa & Ht & HI2).
  pose proof Hw as (Ec' & Es' & _). do 4 (split; [done|]). intros s'. split.
  - split; [exact HI2| |by unfold s', theWorld; cbn; rewrite Ec', Ec|done].
    rewrite idsOf_next, (app_snoc l1 (p, pn)), fmap_app.
    pose proof (Inv_ids _ _ _ _ _ HI) as Hnd.
    assert (idsOf (l1 ++ (p, pn) :: (a, n) :: l2) = idsOf (l1 ++ [(p, pn)]) ++ (a, userID n) :: idsOf l2) as E
      by (rewrite (app_snoc l1 (p, pn)), fmap_app; done).
    rewrite E in HR, Hnd.
    eapply (RInv_free I F s s' _ a (userID n) _ kr r nm); try done.
    + by eapply inodes_names.
    + eapply flushed_recipes; [|done| |done|done|done].
      * eapply (RInv_buffer _ _ _ _ _ _ (userID n)); [done| |done]. set_solver.
      * rewrite (app_snoc l1 (p, pn)) in HI. by apply (Inv_node _ _ _ _ _ _ _ _ _ HI).
  - split; try done; unfold s', theWorld in *; cbn; congruence.
Qed.

(** ** findOrCreateBufferNode_ *)

Lemma wps_freeNode {ret} a n (P : unit -> DedupCore W -> Prop) (Q : ret -> DedupCore W -> Prop) s :
  heap (shares s) !! a = Some n ->
  P tt (set_recipes (set_shares s (set_heap (shares s) (delete a (heap (shares s))))) (delete a (recipes s))) ->
  wps (freeNode (Some a)) P Q s.
Proof.
  intros Hn HP. unfold freeNode. wstep. apply wps_onShares. apply (wps_free _ n); [done|]. wstep. exact HP.
Qed.

Lemma DInv_world A I F s l k b kr bi w :
  DInv A I F s l k b kr bi -> view w = view (theWorld s) ->
  DInv A I F (set_shares s (set_world (shares s) w)) l k b kr bi /\
  dframe s (set_shares s (set_world (shares s) w)).
Proof.
  intros [HI HR HN Hbi] E. split.
  - split; [by apply (Inv_world _ _ _ _ _ _ _ HI)| |by unfold theWorld; cbn; rewrite E|done].
    eapply RInv_same; [by eapply inodes_names| |done]. split; try done.
    intros i nm Hi. unfold disk, theWorld. cbn. by rewrite E.
  - split; try done; unfold theWorld in *; cbn; by rewrite E.
Qed.

Lemma time_spec {ret} A I F s l k b kr bi (P : Z -> DedupCore W -> Prop) (Q : ret -> DedupCore W -> Prop) :
  DInv A I F s l k b kr bi ->
  (forall t w, let s' := set_shares s (set_world (shares s) w) in
     DInv A I F s' l k b kr bi -> dframe s s' -> P t s') ->
  wps (onShares getCurrTime_) P Q s.
Proof.
  intros HI HP. apply wps_onShares, wps_onWorld. intros t w E. apply time_law in E.
  destruct (DInv_world _ _ _ _ _ _ _ _ _ w HI E). by apply HP.
Qed.

Lemma DInv_touch A I F s l1 a n l2 k b kr bi t :
  DInv A I F s (l1 ++ (a, n) :: l2) k b kr bi ->
  let s' := set_shares s (set_heap (shares s) (<[a := set_lastUseTime n t]> (heap (shares s)))) in
  DInv A I F s' (l1 ++ (a, set_lastUseTime n t) :: l2) k b kr bi /\ dframe s s'.
Proof.
  intros [HI HR HN Hbi] s'. split; [|by split]. split; [by apply Inv_touch| |done|done].
  assert (idsOf (l1 ++ (a, set_lastUseTime n t) :: l2) = idsOf (l1 ++ (a, n) :: l2)) as -> by (by rewrite !fmap_app).
  apply (RInv_same I F s s'); [by eapply inodes_names|by split|done].
Qed.

Lemma DInv_recipe A I F s l1 a n l2 k b kr bi :
  DInv A I F s (l1 ++ (a, n) :: l2) k b kr bi -> exists r, recipes s !! a = Some r.
Proof.
  intros HI. destruct (ri_nodes _ _ _ _ _ (di_recipes _ _ _ _ _ _ _ _ _ HI) a (userID n)) as (r & Hr & _); [|eauto].
  rewrite fmap_app. set_solver.
Qed.

Lemma scanNodesD_spec {ret} uid l2 : forall A I F fuel s l1 k b kr bi curr pre target
    (Q : ret -> DedupCore W -> Prop),
  (length l2 <= fuel)%nat -> DInv A I F s (l1 ++ l2) k b kr bi -> chain curr l2 -> pre = lastPtr l1 ->
  isTarget uid target l1 -> DBLock_ (shares s) = false ->
  wps (scanNodes fuel uid curr pre target) (fun r s' => exists l',
    dframe s s' /\ DInv A I F s' l' k b kr bi /\ isTarget uid r l') Q s.
Proof.
  induction l2 as [|[a n] l2 IH]; intros A I F fuel s l1 k b kr bi curr pre target Q Hf HI Hc -> HT U.
  { cbn in Hc. subst curr. destruct fuel; cbn; exists (l1 ++ []); split_and!; try done;
      by rewrite app_nil_r. }
  destruct Hc as [-> Hc]. destruct fuel as [|fuel]; cbn in Hf; [lia|]. cbn [scanNodes].
  destruct (Inv_node _ _ _ _ _ _ _ _ _ (di_shares _ _ _ _ _ _ _ _ _ HI)) as [Ha Hwf].
  wstep. apply wps_onShares, (wps_load _ n); [done|].
  replace (set_shares s (shares s)) with s by (by destruct s).
  destruct (Z.eqb_spec (userID n) uid) as [Hu|Hu].
  - (* the node of the user *)
    wstep. eapply time_spec; [done|]. intros t w s1 HI1 F1. wstep.
    apply wps_onShares. apply (wps_store _ n); [done|].
    destruct (DInv_touch _ _ _ _ _ _ _ _ _ _ _ _ t HI1) as [HI2 F2].
    rewrite app_snoc in HI2. eapply wps_post.
    + eapply IH; [lia|exact HI2|done|by rewrite lastPtr_snoc| |done].
      cbn. rewrite fmap_app. set_solver.
    + intros r s' (l' & F3 & HI' & HT'). exists l'. split; [|done]. etrans; [exact F1|]. by etrans.
  - wstep. eapply time_spec; [done|]. intros t w s1 HI1 F1.
    destruct (t - lastUseTime n >? MAX_BUFFER_WAIT).
    + (* a stale node of another user *)
      destruct (DInv_recipe _ _ _ _ _ _ _ _ _ _ _ _ HI1) as [r Hr].
      wstep. eapply wps_post; [by eapply flushD_spec|].
      intros ok s' [_ (w' & nm & -> & Hw)]. wstep. wstep. wstep. wstep.
      cbn [shares set_shares headBufferNode_ tailBufferNode_ set_world s1].
      destruct l1 as [|[p pn] l1 _] using rev_ind.
      * destruct (DInv_remove_head _ _ _ _ _ _ _ _ _ _ _ _ _ _ HI1 Hr Hw) as (Hh & Ht & HI2 & F2).
        cbn [shares set_shares headBufferNode_ tailBufferNode_ set_world s1] in Hh, Ht, HI2, F2.
        rewrite Hh in *. rewrite decide_True by done. wstep. eapply wps_freeNode; [done|]. wstep.
        wcase E; [apply Ht in E|]; apply wps_onShares; wstep.
        -- subst l2. cbn in Hc. rewrite Hc in *. destruct fuel; cbn;
             (exists []; split_and!; [etrans; [exact F1|exact F2]|exact HI2|]); destruct target; cbn in *; done.
        -- rewrite (decide_False (P := l2 = [])) in * by tauto.
           eapply wps_post; [eapply (IH _ _ _ _ _ []); [lia|exact HI2|done|done|done|done]|].
           intros o s' (l' & F3 & HI' & HT'). exists l'. split; [|done]. etrans; [exact F1|]. by etrans.
      * rewrite <- app_assoc in HI1. cbn [app] in HI1.
        destruct (DInv_remove_next _ _ _ _ _ _ _ _ _ _ _ _ _ _ _ _ _ HI1 Hr Hw) as (Hh & Hp & Hpa & Ht & HI2 & F2).
        cbn [shares set_shares headBufferNode_ tailBufferNode_ set_world heap s1] in Hh, Ht, HI2, Hp, F2.
        rewrite decide_False by congruence. rewrite lastPtr_snoc in *.
        wstep. apply wps_onShares, (wps_load _ pn); [done|]. wstep. apply wps_onShares, (wps_store _ pn); [done|]. wstep.
        eapply wps_freeNode; [cbn; rewrite lookup_insert_ne by done; done|].
        rewrite app_snoc in HI2.
        assert (isTarget uid target (l1 ++ [(p, set_next pn (next n))])) as HT2.
        { destruct target; cbn in *; by rewrite !fmap_app in *. }
        wcase E.
        -- symmetry in E. apply Ht in E. wstep. apply wps_onShares. wstep. subst l2.
           rewrite app_nil_r in HI2. destruct fuel; cbn;
             (eexists; split_and!; [etrans; [exact F1|exact F2]|exact HI2|done]).
        -- rewrite (decide_False (P := l2 = [])) in * by (intros E'; apply E; symmetry; tauto).
           wstep. apply wps_onShares. eapply wps_load.
           { cbn. rewrite lookup_delete_ne by done. apply lookup_insert_eq. }
           eapply wps_post.
           { eapply IH; [lia|exact HI2|done|by rewrite lastPtr_snoc|done|done]. }
           intros o s' (l' & F3 & HI' & HT'). exists l'. split; [|done]. etrans; [exact F1|]. by etrans.
    + (* another user *)
      rewrite app_snoc in HI1. eapply wps_post.
      * eapply IH; [lia|exact HI1|done|by rewrite lastPtr_snoc|by apply isTarget_snoc|done].
      * intros o s' (l' & F2 & HI' & HT'). exists l'. split; [|done]. by etrans.
Qed.

Lemma DInv_kr A I F s l k b kr bi : DInv A I F s l k b kr bi -> isRecipeName kr (globalRecipeFileName_ s).
Proof. intros HI. apply (di_recipes _ _ _ _ _ _ _ _ _ HI). Qed.

(** The recipe part of a new node. *)
Lemma RInv_create I F bi s s' ids a uid kr r :
  RInv I F s ids kr -> inodes bi I (contents (view (theWorld s))) -> a ∉ ids.*1 ->
  recipes s' = <[a := r]> (recipes s) -> recipeFileName r = globalRecipeFileName_ s ++ [Byte.x00] ->
  length (recipeFileBuffer r) = RECIPE_BUFFER_SIZE -> recipeFileBufferCurrLen r = 0 -> lastRecipeHeadPos r = 0 ->
  length (lastInodeFP r) = FP_SIZE -> isRecipeName (kr + 1) (globalRecipeFileName_ s') ->
  recipeFileDirName_ s' = recipeFileDirName_ s -> disk s' = disk s ->
  RInv I F s' (ids ++ [(a, uid)]) (kr + 1).
Proof.
  intros HR HN Ha Er En Hb H0 Hl Hfp Hg Ed Ef. pose proof HR as [R1 R2 R3 R4 R5 R6 R7 R8 R9].
  assert (forall nm, disk s' !! recipePath s' nm = disk s !! recipePath s nm) as Hd
    by (intros nm; unfold recipePath; by rewrite Ed, Ef).
  eapply (RInv_renew I F s s' ids _ a uid kr r); try done.
  - by eapply inodes_names.
  - intros x. rewrite elem_of_app, list_elem_of_singleton. split; [|tauto].
    intros [Hx|Hx]; [right; split; [done|]|by left]. intros E. apply Ha. rewrite <- E. by apply list_elem_of_fmap_2.
  - split; [|done|lia|done|lia]. exists kr, (globalRecipeFileName_ s). split_and!; [done|done|lia|lia].
  - intros i nm Hi Hk. rewrite Hd. by eapply R6.
  - intros a' u r' nm Ha' _ Hr' En'. rewrite Hd. by eapply R5.
  - intros u v x _ (c & Hc & HRc). exists c. split; [|done]. destruct Hc as [(a' & r' & Ha' & Hr' & Hc)|Hc].
    + left. exists a', r'. split; [set_solver|]. rewrite Er, lookup_insert_ne; [done|].
      intros <-. apply Ha. by apply (list_elem_of_fmap_2 fst) in Ha'.
    + right. by rewrite Hd.
Qed.

Lemma wps_allocNode {ret} n r (P : ptr -> DedupCore W -> Prop) (Q : ret -> DedupCore W -> Prop) s :
  let a := fresh (dom (heap (shares s))) in
  P (Some a) (set_recipes (set_shares s (set_heap (shares s) (<[a := n]> (heap (shares s))))) (<[a := r]> (recipes s))) ->
  wps (allocNode n r) P Q s.
Proof. intros a HP. exact HP. Qed.

Lemma createBufferNodeD_spec {ret} A I F s l k b kr bi uid (Q : ret -> DedupCore W -> Prop) :
  unlockedD s -> DInv A I F s l k b kr bi -> k < 26 ^ 12 - 1 -> kr < 26 ^ 12 - 1 -> uid ∉ nodeUsers l ->
  wps (createBufferNode uid) (fun r s' => exists l' a n,
    r = Some a /\ dframe s s' /\ DInv A I F s' (l' ++ [(a, n)]) (k + 1) (b + 1) (kr + 1) bi /\ userID n = uid) Q s.
Proof.
  intros [(U1 & U2 & U3) U4] [HI HR HN Hbi] Hk Hkr Hu. unfold createBufferNode. do 4 (wstep; wstep). wstep.
  eapply wps_post.
  { eapply (takeRecipeName_spec s _ kr); [done|apply uninit_length|apply HR|done]. }
  intros rname s1 (gr & -> & Hgr & ->). wstep. apply wps_onShares. eapply wps_post.
  { eapply (takeContainerName_spec (shares s) _ k); [done|apply uninit_length|apply HI|done]. }
  intros name x1 (g' & -> & Hg' & ->). wstep. apply wps_onShares, wps_onWorld. cbn [shares set_shares set_recipeName world set_name].
  intros t w Et. apply time_law in Et. wstep. apply wps_allocNode. cbn [shares set_shares heap set_world set_name].
  set (a := fresh (dom (heap (shares s)))).
  assert (heap (shares s) !! a = None) as Ha by (apply not_elem_of_dom, is_fresh).
  match goal with |- context [<[a := ?x]> (heap (shares s))] => set (n := x) end.
  match goal with |- context [<[a := ?x]> (recipes _)] => set (rb := x) end.
  wstep. apply wps_onShares. unfold wps at 1, lockBuffer. cbn [shares set_recipes set_shares bufferLock_ set_heap set_world set_name]. rewrite U2.
  wstep. wstep. wstep. wstep.
  cbn [shares set_recipes set_shares headBufferNode_ tailBufferNode_ set_heap set_world set_name set_locks].
  pose proof (linked_snoc _ _ _ _ a n (inv_linked _ _ _ _ _ _ HI) Ha eq_refl) as Hl.
  destruct (Inv_world _ _ _ _ _ _ w HI Et) as [HI1 _].
  assert (a ∉ (idsOf l).*1) as Hal.
  { rewrite fst_idsOf. rewrite (lk_heap _ _ _ _ (inv_linked _ _ _ _ _ _ HI)) in Ha. by apply not_elem_of_list_to_map in Ha. }
  assert (forall s', recipes s' = <[a := rb]> (recipes s) -> globalRecipeFileName_ s' = gr ->
    recipeFileDirName_ s' = recipeFileDirName_ s -> theWorld s' = w ->
    RInv I F s' (idsOf l ++ [(a, uid)]) (kr + 1) /\ inodes bi I (contents (view (theWorld s')))) as HR'.
  { intros s' E1 E2 E3 E4. split; [|rewrite E4, Et; done].
    eapply (RInv_create I F bi s s'); try done; [apply uninit_length|apply uninit_length|by rewrite E2|].
    unfold disk. by rewrite E4, Et. }
  assert (forall s', shareContainerDirName_ (shares s') = shareContainerDirName_ (shares s) ->
    recipeFileDirName_ s' = recipeFileDirName_ s -> DBLock_ (shares s') = false -> bufferLock_ (shares s') = false ->
    globalShareContainerNameLock_ (shares s') = false -> globalRecipeFileNameLock_ s' = false -> theWorld s' = w ->
    dframe s s') as HF.
  { intros s' E1 E2 E3 E4 E5 E6 E7. split; try congruence; by rewrite E7, Et. }
  destruct l as [|y l].
  - destruct Hl as [Eh Hl]. rewrite Eh. wstep. apply wps_onShares. wstep. wstep. apply wps_onShares. unfold wps at 1, unlockBuffer.
    cbn [shares set_recipes set_shares bufferLock_ set_locks set_ends]. wstep.
    match goal with |- context [DInv _ _ _ ?x] => set (s' := x) end.
    exists [], a, n. split; [done|]. split; [by apply HF|]. split; [|done].
    destruct (HR' s') as [HR'' HN']; [done..|]. split; [|exact HR''|exact HN'|done].
    eapply (Inv_ext _ _ (set_name (set_ends (set_heap (set_world (shares s) w) _) _ (Some a)) g')); [reflexivity..|].
    eapply (Inv_create _ _ (set_world (shares s) w) [] k b a n g' _ HI1 Ha); try done. apply uninit_length.
  - destruct Hl as (l1 & tp & tn & E & [hp Eh] & Et' & Htn & Hl). rewrite E in *. clear y l E.
    rewrite Eh, Et'. wstep. wstep.
    assert (tp <> a) as Hne by congruence.
    apply wps_onShares. eapply wps_load; [cbn; by rewrite lookup_insert_ne|].
    wstep. apply wps_onShares. eapply wps_store; [cbn; by rewrite lookup_insert_ne|].
    apply wps_onShares. wstep. wstep. apply wps_onShares. unfold wps at 1, unlockBuffer.
    cbn [shares set_recipes set_shares bufferLock_ set_locks set_ends set_heap]. wstep.
    match goal with |- context [DInv _ _ _ ?x] => set (s' := x) end.
    exists (l1 ++ [(tp, set_next tn (Some a))]), a, n. split; [done|].
    split; [by apply HF|]. split; [|done]. rewrite Eh, app_snoc in Hl.
    destruct (HR' s') as [HR'' HN']; [done..|]. split; [| |exact HN'|done].
    + eapply (Inv_ext _ _ (set_name (set_ends (set_heap (set_world (shares s) w) _) _ (Some a)) g')); [reflexivity..|].
      eapply (Inv_create _ _ (set_world (shares s) w) (l1 ++ [(tp, tn)]) k b a n g' _ HI1 Ha); try done;
        [apply uninit_length|..].
      * intros dir fs nm. rewrite <- !app_assoc. apply containerOf_next.
      * destruct HI. rewrite fmap_app in *. apply Forall_app in inv_nodes as [F1 F2].
        inversion F2 as [|? ? F3 _]; subst. apply Forall_app.
        split; [eapply list.Forall_impl; [exact F1|]; intros; eapply wfNode_mono; [|done]; lia|].
        apply list.Forall_singleton. cbn. apply (wfNode_mono k); [lia|]. by destruct F3.
      * by rewrite !fmap_app.
      * by rewrite !fmap_app.
    + assert (idsOf ((l1 ++ [(tp, set_next tn (Some a))]) ++ [(a, n)]) = idsOf (l1 ++ [(tp, tn)]) ++ [(a, uid)]) as -> by (by rewrite !fmap_app). exact HR''.
Qed.

(** The locks are not part of the invariants. *)
Lemma DInv_locks A I F s l k b kr bi b1 b2 b3 :
  DInv A I F s l k b kr bi -> DInv A I F (set_shares s (set_locks (shares s) b1 b2 b3)) l k b kr bi.
Proof.
  intros [HI HR HN Hbi]. split; [by apply Inv_locks| |done|done].
  apply (RInv_same I F s); [by eapply inodes_names|by split|done].
Qed.

Lemma DInv_budget A I F s l k b b' kr bi bi' :
  DInv A I F s l k b kr bi -> b <= b' -> bi <= bi' < 2 ^ 24 -> DInv A I F s l k b' kr bi'.
Proof.
  intros [HI HR HN Hbi] Hb Hb'. split; [by eapply Inv_budget|done|eapply inodes_mono; [|done]; lia|lia].
Qed.

Lemma findOrCreateD_spec {ret} A I F s l k b kr bi uid (Q : ret -> DedupCore W -> Prop) :
  unlockedD s -> DInv A I F s l k b kr bi -> k < 26 ^ 12 - 1 -> kr < 26 ^ 12 - 1 ->
  wps (findOrCreateBufferNode_ uid) (fun r s' => exists l1 a n l2 k' kr',
    r = Some a /\ dframe s s' /\ k <= k' <= k + 1 /\ kr <= kr' <= kr + 1 /\
    DInv A I F s' (l1 ++ (a, n) :: l2) k' (b + 1) kr' bi /\ userID n = uid) Q s.
Proof.
  intros [(U1 & U2 & U3) U4] HI Hk Hkr. unfold findOrCreateBufferNode_.
  wstep. apply wps_onShares. unfold wps at 1, lockBuffer. rewrite U2. wstep. wstep. wstep. wstep.
  cbn [shares set_shares headBufferNode_ heap set_locks]. wstep.
  pose proof (di_shares _ _ _ _ _ _ _ _ _ HI) as HIs. eapply wps_post.
  { eapply (scanNodesD_spec uid l A I F _ _ []); cbn [app].
    - rewrite (length_linked _ _ _ _ (inv_linked _ _ _ _ _ _ HIs)). cbn. lia.
    - by apply DInv_locks.
    - apply HIs.
    - done.
    - by apply not_elem_of_nil.
    - done. }
  intros r s1 (l' & F1 & HI1 & HT). wstep. apply wps_onShares. unfold wps at 1, unlockBuffer.
  assert (bufferLock_ (shares s1) = true) as -> by (by rewrite (dfr_buffer _ _ F1)).
  set (s2 := set_shares s1 _).
  assert (dframe s s2) as F2.
  { destruct F1; split; unfold s2, theWorld in *; cbn in *; congruence. }
  assert (unlockedD s2) as U' by (by eapply dframe_unlocked).
  destruct r as [a|].
  - wstep. destruct (isTarget_split _ _ _ HT) as (l1 & n & l2 & -> & Hu).
    exists l1, a, n, l2, k, kr. split_and!; [done|done|lia|lia|lia|lia| |done].
    eapply DInv_budget; [by apply DInv_locks|lia|]. destruct HI. lia.
  - eapply wps_post.
    + eapply (createBufferNodeD_spec A I F s2 l' k b); [done|by apply DInv_locks|done|done|done].
    + intros r s3 (l1 & a & n & -> & F3 & HI3 & Hu). exists l1, a, n, [], (k + 1), (kr + 1).
      split_and!; [done|by etrans|lia|lia|lia|lia|done|done].
Qed.

(** ** storeNewRecipeFile_ *)

Lemma storeNew_spec {ret} A I F s l1 a n l2 k b kr bi r (Q : ret -> DedupCore W -> Prop) :
  unlockedD s -> DInv A I F s (l1 ++ (a, n) :: l2) k b kr bi -> kr < 26 ^ 12 - 1 ->
  recipes s !! a = Some r -> 0 < recipeFileBufferCurrLen r ->
  wps (storeNewRecipeFile_ (Some a)) (fun ok s' => ok = true /\ dframe s s' /\
    DInv A I F s' (l1 ++ (a, n) :: l2) k b (kr + 1) bi /\
    exists r', recipes s' !! a = Some r' /\ recipeFileBufferCurrLen r' = 0) Q s.
Proof.
  intros [(U1 & U2 & U3) U4] [HI HR HN Hbi] Hkr Hr Hc.
  assert ((a, userID n) ∈ idsOf (l1 ++ (a, n) :: l2)) as Ha by (rewrite fmap_app; set_solver).
  pose proof (RInv_buffer _ _ _ _ _ _ _ _ HR Ha Hr) as Hw.
  pose proof (wb_name _ _ Hw) as (i & nm & En & Hi & Hik).
  unfold storeNewRecipeFile_. wstep. wstep. apply (wps_loadRecipe a r); [done|]. wstep.
  eapply wps_lift; [rewrite En; by eapply containerName_cstr|]. wstep. wstep.
  rewrite (containerName_prefix i) by done. fold (recipePath s nm).
  wstep. eapply wps_post; [apply fopen_wb_spec|]. intros ok s1 [-> V1]. cbn [negb].
  pose proof (viewStep_view _ _ _ V1) as E1.
  assert (disk s1 = <[recipePath s nm := []]> (disk s)) as D1 by (unfold disk; by rewrite E1).
  wstep. eapply wps_post; [eapply writeRecipes_spec; [done|done|rewrite D1; apply lookup_insert_eq]|].
  intros [] s2 V2. cbv beta in V2. rewrite E1, D1 in V2. cbn in V2. rewrite insert_insert_eq in V2.
  destruct (viewStep_trans _ _ _ _ _ V1 V2) as (w & -> & Ew). clear V1 V2 E1 D1 s1. wstep.
  eapply wps_post.
  { eapply (takeRecipeName_spec _ _ kr); [done| |apply HR|done].
    rewrite En, length_app, (containerName_length _ _ Hi). done. }
  intros name' s2 (g' & -> & Hg' & ->). wstep. eapply wps_storeRecipe; [done|]. wstep.
  set (r' := set_positions _ 0 0). set (s' := set_recipes _ _).
  assert (disk s' = <[recipePath s nm := recData r]> (disk s)) as Ed by (unfold disk, theWorld; cbn; by rewrite Ew).
  assert (forall nm', recipePath s' nm' = recipePath s nm') as Hp by done.
  assert (forall nm', nm' <> nm -> disk s' !! recipePath s' nm' = disk s !! recipePath s nm') as Hd.
  { intros nm' Hne. rewrite Hp, Ed. apply lookup_insert_ne. unfold recipePath. intros E. by apply app_inv_head in E. }
  pose proof HR as [R1 R2 R3 R4 R5 R6 R7 R8 R9].
  split; [done|]. split; [split; try done; unfold theWorld; cbn; by rewrite Ew|]. split.
  - split.
    + apply Inv_view; [by intros; rewrite Ew| |done]. intros j cn Hj. rewrite Ew. cbn. apply lookup_insert_ne.
      by eapply recipe_not_container.
    + pose proof (Inv_ids _ _ _ _ _ HI) as Hnd.
      assert (forall a' u', (a', u') ∈ idsOf (l1 ++ (a, n) :: l2) -> a' = a -> u' = userID n) as Huid.
      { intros a' u' Ha' ->. apply list_elem_of_lookup in Ha as [j1 L1], Ha' as [j2 L2].
        assert (j1 = j2) as <-; [|congruence]. eapply NoDup_lookup; [exact Hnd|..];
          rewrite list_lookup_fmap, ?L1, ?L2; done. }
      eapply (RInv_renew I F s s' _ _ a (userID n) kr r'); try done.
      * by eapply inodes_names.
      * intros [a' u']. split.
        -- intros Hx. destruct (decide (a' = a)) as [->|]; [left|by right]. f_equal. by eapply Huid.
        -- intros [->|[Hx _]]; done.
      * destruct Hw. split; cbn; try done; [|lia]. exists kr, (globalRecipeFileName_ s). split_and!; [done|done|lia|lia].
      * intros j nm' Hj Hk. rewrite Hd; [by apply (R6 j)|]. intros ->. pose proof (containerName_inj _ _ _ Hi Hj). lia.
      * intros a' u rr nm' Ha' Hne Hrr Enn. rewrite Hd; [by eapply R5|]. intros ->. apply Hne. eapply R4; try done. congruence.
      * intros u v x Hn' Hv.
        eapply (versionHolds_written s s' _ _ a (userID n) r nm kr); try done; [|by eapply R5|].
        -- split; [done|]. split; [by intros; apply Hd|]. split; [intros; rewrite Hp, Ed; apply lookup_insert_eq|lia].
        -- intros a' u' Ha' Hne. split; [done|]. unfold s'. cbn. by rewrite lookup_insert_ne.
    + unfold theWorld. cbn. by rewrite Ew.
    + done.
  - exists r'. split; [apply lookup_insert_eq|done].
Qed.
End Nodes.
