(* ===== verification/DedupUpload.v ===== *)
(** * Uploading files to DedupCore

    The second stage on packages of whole files: next to what minDedupCore does
    for the shares, every file gets a new version with its recipe. *)

From stdpp Require Import base list numbers gmap functions.
From coqutil Require Import Byte.
From Stdlib Require Import Lia.
From S2P Require Import Prelude Structs FileNames World CryptoPrimitive MinDedupCore MinStages ShareIndex MinInvariant MinNodes MinIndex MinPackage MinUpload MinRestoreProof DedupCore DedupStages Inodes InodeIndex Recipes DedupNodes.

Local Open Scope Z_scope.

(** ** Whole files *)

(** A file that lies completely in one package; [up_pad1], [up_pad2] and [up_pad3]
    are the padding of [fileShareMDHead_t], [up_coming] its sizeOfComingSecrets. *)
Record Upload := {
  up_pad1 : bytes;
  up_pad2 : bytes;
  up_pad3 : bytes;
  up_size : Z;
  up_coming : Z;
  up_name : bytes;
  up_shares : list ShareMD;
}.

Definition mdOf (u : Upload) : FileMD :=
  {| fm_mid := up_pad1 u ++ le64 (up_size u) ++ le32 0 ++ up_pad2 u ++ le64 0;
     fm_end := up_pad3 u ++ le64 (up_coming u); fm_name := up_name u; fm_shares := up_shares u |}.

Definition recipeEntryOf (e : ShareMD) : RecipeEntry :=
  {| re_fp := sm_fp e; re_secretID := sm_secretID e; re_secretSize := sm_secretSize e |}.
Definition contentOf (u : Upload) : Content := (up_size u, recipeEntryOf <$> up_shares u).

(** The name the server uses for the file. *)
Definition serverName (u : Upload) : bytes := default [] (formatFullFileName_ (up_name u)).

Record wfUpload `{Limits} (u : Upload) : Prop := {
  wu_pad1 : length (up_pad1 u) = 4%nat;
  wu_pad2 : length (up_pad2 u) = 4%nat;
  wu_pad3 : length (up_pad3 u) = 4%nat;
  wu_size : int64 (up_size u);
  wu_coming : int64 (up_coming u);
  wu_shares : Forall (fun e => wfShare e /\ int32 (sm_secretID e) /\ int32 (sm_secretSize e)) (up_shares u);
  wu_name : is_Some (formatFullFileName_ (up_name u));
  wu_length : Z.of_nat (length (serverName u)) + 1 < 2 ^ 29;
  wu_fits : (fileRecipeHeadSize_ + fileRecipeEntrySize_ * length (up_shares u) <= RECIPE_BUFFER_SIZE)%nat;
}.

Lemma wfFile_mdOf `{Limits} u : wfUpload u -> wfFile (mdOf u).
Proof.
  intros [H1 H2 H3 _ _ H5 _ _ _]. split; cbn.
  - by rewrite !length_app, !length_le64, length_le32, H1, H2.
  - by rewrite !length_app, length_le64, H3.
  - eapply list.Forall_impl; [exact H5|]. by intros e [? _].
Qed.

Lemma wfEntry_of e : wfShare e -> int32 (sm_secretID e) -> int32 (sm_secretSize e) -> wfEntry (recipeEntryOf e).
Proof. by intros [? _] ? ?. Qed.

Section Reading.
Context {R : Type} `{Limits} (md pre post : bytes) (u : Upload).
Hypothesis Emd : md = pre ++ encodeFile (mdOf u) ++ post.
Hypothesis Wu : wfUpload u.

Lemma read_fileSize : lfield (R := R) md (Z.of_nat (length pre)) 8 = Ok (up_size u).
Proof.
  destruct Wu. unfold lfield. rewrite sz_ok by lia. cbn [mbind res_bind]. rewrite Nat2Z.id, Emd.
  eapply (getI64_at (pre ++ le32 (Z.of_nat (length (up_name u))) ++ up_pad1 u)); [| |done].
  - unfold encodeFile. cbn [mdOf fm_mid fm_end fm_name fm_shares]. rewrite <- !app_assoc. reflexivity.
  - rewrite !length_app, length_le32, wu_pad4. lia.
Qed.

Lemma read_past : field (R := R) md (Z.of_nat (length pre)) 16 = Ok 0.
Proof.
  destruct Wu. unfold field. rewrite sz_ok by lia. cbn [mbind res_bind]. rewrite Nat2Z.id, Emd.
  eapply (getI32_at (pre ++ le32 (Z.of_nat (length (up_name u))) ++ up_pad1 u ++ le64 (up_size u))); [| |done].
  - unfold encodeFile. cbn [mdOf fm_mid fm_end fm_name fm_shares]. rewrite <- !app_assoc. reflexivity.
  - rewrite !length_app, length_le32, length_le64, wu_pad4. lia.
Qed.

Lemma read_sizePast : lfield (R := R) md (Z.of_nat (length pre)) 24 = Ok 0.
Proof.
  destruct Wu. unfold lfield. rewrite sz_ok by lia. cbn [mbind res_bind]. rewrite Nat2Z.id, Emd.
  eapply (getI64_at (pre ++ le32 (Z.of_nat (length (up_name u))) ++ up_pad1 u ++ le64 (up_size u) ++ le32 0 ++ up_pad2 u));
    [| |done].
  - unfold encodeFile. cbn [mdOf fm_mid fm_end fm_name fm_shares]. rewrite <- !app_assoc. reflexivity.
  - rewrite !length_app, !length_le32, length_le64, wu_pad4, wu_pad5. lia.
Qed.

Lemma read_sizeComing : lfield (R := R) md (Z.of_nat (length pre)) 40 = Ok (up_coming u).
Proof.
  destruct Wu. unfold lfield. rewrite sz_ok by lia. cbn [mbind res_bind]. rewrite Nat2Z.id, Emd.
  eapply (getI64_at (pre ++ le32 (Z.of_nat (length (up_name u))) ++ fm_mid (mdOf u)
            ++ le32 (Z.of_nat (length (up_shares u))) ++ up_pad3 u)); [| |done].
  - unfold encodeFile. cbn [mdOf fm_mid fm_end fm_name fm_shares]. rewrite <- !app_assoc. reflexivity.
  - cbn [mdOf fm_mid]. rewrite !length_app, !length_le32, !length_le64, wu_pad4, wu_pad5, wu_pad6. lia.
Qed.
End Reading.

(** The head of a recipe, written at the end of the used part of the buffer. *)
Lemma putHead_bytes {R} buf pos pre rest uid fileSize coming :
  buf = pre ++ rest -> pos = length pre -> (24 <= length rest)%nat ->
  exists pad1 pad2, length pad1 = 4%nat /\ length pad2 = 4%nat /\
    (b ← setI32 (R := R) buf pos uid; b ← setI64 b (pos + 8) fileSize; setI32 b (pos + 16) coming)
    = Ok ((pre ++ le32 uid ++ pad1 ++ le64 fileSize ++ le32 coming ++ pad2) ++ drop 24 rest).
Proof.
  intros -> -> Hl. do 8 (destruct rest as [|? rest]; [cbn in Hl; lia|]).
  do 8 (destruct rest as [|? rest]; [cbn in Hl; lia|]). do 8 (destruct rest as [|? rest]; [cbn in Hl; lia|]).
  eexists [_; _; _; _], [_; _; _; _]. split; [done|]. split; [done|].
  rewrite (setI32_at pre [_; _; _; _] (_ :: _)) by done. cbn [mbind res_bind].
  unfold setI64.
  match goal with |- context [wr (pre ++ le32 uid ++ ?a :: ?b :: ?c :: ?d :: ?x1 :: ?x2 :: ?x3 :: ?x4 :: ?x5 :: ?x6 :: ?x7 :: ?x8 :: ?t)] =>
    replace (pre ++ le32 uid ++ a :: b :: c :: d :: x1 :: x2 :: x3 :: x4 :: x5 :: x6 :: x7 :: x8 :: t)
      with ((pre ++ le32 uid ++ [a; b; c; d]) ++ [x1; x2; x3; x4; x5; x6; x7; x8] ++ t) by (by rewrite <- !app_assoc);
    rewrite (wr_mid (pre ++ le32 uid ++ [a; b; c; d])) by (rewrite ?length_app, ?length_le32, ?length_le64; done)
  end.
  cbn [mbind res_bind].
  match goal with |- context [setI32 ((?p) ++ le64 fileSize ++ ?x1 :: ?x2 :: ?x3 :: ?x4 :: ?t)] =>
    rewrite (setI32_at (p ++ le64 fileSize) [x1; x2; x3; x4] t);
      [|by rewrite <- !app_assoc|rewrite !length_app, length_le32, length_le64; cbn; lia|done]
  end.
  f_equal. cbn [drop]. rewrite <- !app_assoc. done.
Qed.

(** An entry of a recipe, likewise. *)
Lemma putEntry_bytes {R} md pre e post off buf used rest len :
  md = pre ++ encodeShare e ++ post -> off = Z.of_nat (length pre) -> wfShare e ->
  int32 (sm_secretID e) -> int32 (sm_secretSize e) ->
  buf = used ++ rest -> len = Z.of_nat (length used) -> (40 <= length rest)%nat ->
  (o ← sz off;
   fp ← rd (R := R) md o FP_SIZE;
   secretID ← getI32 md (o + 32);
   secretSize ← getI32 md (o + 36);
   pos ← sz len;
   b ← wr buf pos fp;
   b ← setI32 b (pos + 32) secretID;
   setI32 b (pos + 36) secretSize)
  = Ok ((used ++ encodeEntry (recipeEntryOf e)) ++ drop 40 rest).
Proof.
  intros Emd -> We H1 H2 -> -> Hl. rewrite !sz_ok by lia. cbn [mbind res_bind]. rewrite !Nat2Z.id.
  pose proof We as [Hf _]. assert (length (sm_fp e) = 32%nat) as Hf' by done.
  assert (rd (R := R) md (length pre) FP_SIZE = Ok (sm_fp e)) as ->.
  { rewrite Emd. unfold encodeShare. rewrite <- !app_assoc. by apply rd_mid. }
  assert (getI32 (R := R) md (length pre + 32) = Ok (sm_secretID e)) as ->.
  { rewrite Emd. eapply (getI32_at (pre ++ sm_fp e)); [|by rewrite length_app, Hf'|done].
    unfold encodeShare. rewrite <- !app_assoc. reflexivity. }
  assert (getI32 (R := R) md (length pre + 36) = Ok (sm_secretSize e)) as ->.
  { rewrite Emd. eapply (getI32_at (pre ++ sm_fp e ++ le32 (sm_secretID e))); [| |done].
    - unfold encodeShare. rewrite <- !app_assoc. reflexivity.
    - rewrite !length_app, Hf', length_le32. lia. }
  cbn [mbind res_bind]. rewrite (wr_next used rest) by (rewrite ?Hf'; done || lia). cbn [mbind res_bind]. rewrite Hf'.
  unfold setI32. rewrite (wr_next (used ++ sm_fp e)); [|by rewrite length_app, Hf'|rewrite length_le32, length_drop; lia].
  cbn [mbind res_bind]. rewrite length_le32, drop_drop.
  rewrite (wr_next ((used ++ sm_fp e) ++ le32 (sm_secretID e)));
    [|rewrite !length_app, Hf', length_le32; lia|rewrite length_le32, length_drop; lia].
  rewrite length_le32, drop_drop. unfold encodeEntry, recipeEntryOf. cbn [re_fp re_secretID re_secretSize].
  by rewrite <- !app_assoc.
Qed.

(** [r'] is [r] with [data] appended. *)
Record extended `{Limits} (r r' : recipeBuffer) (data : bytes) : Prop := {
  ex_name : recipeFileName r' = recipeFileName r;
  ex_last : lastRecipeHeadPos r' = lastRecipeHeadPos r;
  ex_fp : lastInodeFP r' = lastInodeFP r;
  ex_buffer : length (recipeFileBuffer r') = length (recipeFileBuffer r);
  ex_len : recipeFileBufferCurrLen r' = recipeFileBufferCurrLen r + Z.of_nat (length data);
  ex_data : recData r' = recData r ++ data;
}.

Lemma extended_wf `{Limits} kr r r' data :
  extended r r' data -> wfBuffer kr r -> recipeFileBufferCurrLen r' <= Z.of_nat RECIPE_BUFFER_SIZE -> wfBuffer kr r'.
Proof. intros [E1 E2 E3 E4 E5 E6] [H1 H2 H3 H4 H5] Hl. split; rewrite ?E1, ?E2, ?E3, ?E4; try done. lia. Qed.

Lemma recData_set r buf len hd used rest :
  buf = used ++ rest -> len = Z.of_nat (length used) ->
  recData (set_positions (set_recipeData r buf) len hd) = used.
Proof. intros -> ->. unfold recData. cbn. rewrite Nat2Z.id. apply take_app_length. Qed.

Section Stage.
Context {W : Type} {WW : World W} {WL : WorldLaws W} {LM : Limits} {LOK : LimitsOk} {REL : ReliableWorld W}
        {SSL : OpenSSL} (digest : bytes -> bytes) (crypto : CryptoPrimitive) {HOK : HashOk crypto FP_SIZE digest}.
Implicit Types (s : DedupCore W) (I : InodeMap) (F : Files).

Abbreviation DInv := (DInv digest).

(** ** Room for a recipe *)

Lemma recData_buffer kr r : wfBuffer kr r ->
  recipeFileBuffer r = recData r ++ drop (Z.to_nat (recipeFileBufferCurrLen r)) (recipeFileBuffer r).
Proof. intros _. unfold recData. by rewrite take_drop. Qed.

(** The number of shares in the first head of a buffer that holds one recipe. *)
Lemma firstHead I F s ids kr a u r nm :
  RInv I F s ids kr -> (a, u) ∈ ids -> recipes s !! a = Some r -> recipeFileName r = nm ++ [Byte.x00] ->
  0 < recipeFileBufferCurrLen r -> lastRecipeHeadPos r = 0 ->
  (forall a' u', (a', u') ∈ ids -> u' = u -> a' = a) ->
  exists n, getI32 (R := bool * DedupCore W) (recipeFileBuffer r) 16 = Ok n /\ 0 <= n.
Proof.
  intros HR Ha Hr En Hc Hl Hu. destruct (ri_last _ _ _ _ _ HR a u r nm Ha Hr En Hc) as (e & vs & He & Eu & Hb).
  pose proof (ri_files _ _ _ _ _ HR _ _ _ He Hb) as HF. rewrite Hl in HF.
  apply list.Forall2_cons_inv_l in HF as (x & xs & (c & Hh & rc & pre & post & E1 & E2 & Wr & Ec & Ep & _) & _ & _).
  cbn [v_file v_off] in *. destruct pre; [|done]. cbn in Ec.
  assert (c = recData r) as ->.
  { destruct Hh as [(a' & r' & Ha' & Hr' & _ & ->)|Hd].
    - rewrite Eu in Ha'. assert (a' = a) as -> by (by eapply Hu). by simplify_eq.
    - rewrite (ri_absent _ _ _ _ _ HR a u r nm Ha Hr En) in Hd. done. }
  pose proof (RInv_buffer _ _ _ _ _ _ _ _ HR Ha Hr) as Hw. exists (Z.of_nat (length (rc_entries rc))). split; [|lia].
  rewrite (recData_buffer _ _ Hw), Ec. destruct Wr as [W1 W2 W3 W4 W5].
  eapply (getI32_at (le32 (rc_user rc) ++ rc_pad1 rc ++ le64 (rc_fileSize rc))); [| |done].
  - unfold encodeRecipe, encodeHead. rewrite <- !app_assoc. reflexivity.
  - by rewrite !length_app, length_le32, length_le64, W1.
Qed.

Lemma ids_unique A s l1 (a : positive) n l2 k b a' u' :
  Inv digest A (shares s) (l1 ++ (a, n) :: l2) k b ->
  (a', u') ∈ idsOf (l1 ++ (a, n) :: l2) -> (a' = a <-> u' = userID n).
Proof.
  intros HI Ha'. assert ((a, userID n) ∈ idsOf (l1 ++ (a, n) :: l2)) as Ha by (rewrite fmap_app; set_solver).
  apply list_elem_of_lookup in Ha as [j1 L1], Ha' as [j2 L2]. split.
  - intros ->. assert (j1 = j2) as <-; [|congruence].
    eapply NoDup_lookup; [exact (Inv_ids _ _ _ _ _ _ HI)|..]; rewrite list_lookup_fmap, ?L1, ?L2; done.
  - intros ->. assert (j1 = j2) as <-; [|congruence].
    pose proof (inv_users _ _ _ _ _ _ HI) as Hn. rewrite <- snd_idsOf in Hn.
    eapply NoDup_lookup; [exact Hn|..]; rewrite list_lookup_fmap, ?L1, ?L2; done.
Qed.

Lemma makeRoom_spec A I F s l1 a n l2 k b kr bi m (Q : bool -> DedupCore W -> Prop) :
  unlockedD s -> DInv A I F s (l1 ++ (a, n) :: l2) k b kr bi -> kr < 26 ^ 12 - 1 ->
  (fileRecipeHeadSize_ + fileRecipeEntrySize_ * m <= RECIPE_BUFFER_SIZE)%nat ->
  wps (makeRoom (Some a) 0 (Z.of_nat m)) (fun _ s' => dframe s s' /\ exists kr' r,
    kr <= kr' <= kr + 1 /\ DInv A I F s' (l1 ++ (a, n) :: l2) k b kr' bi /\ recipes s' !! a = Some r /\
    recipeFileBufferCurrLen r + Z.of_nat (fileRecipeHeadSize_ + fileRecipeEntrySize_ * m)
      <= Z.of_nat RECIPE_BUFFER_SIZE) Q s.
Proof.
  intros U HI Hkr Hm. pose proof lim_recipe_max as Hmax. unfold fileRecipeHeadSize_, fileRecipeEntrySize_ in *.
  destruct (DInv_recipe _ _ _ _ _ _ _ _ _ _ _ _ _ HI) as [r Hr]. pose proof HI as [HIs HR _ _].
  assert ((a, userID n) ∈ idsOf (l1 ++ (a, n) :: l2)) as Ha by (rewrite fmap_app; set_solver).
  pose proof (RInv_buffer _ _ _ _ _ _ _ _ HR Ha Hr) as Hw. pose proof (wb_len _ _ Hw) as Hc.
  pose proof (wb_name _ _ Hw) as (i & nm & En & _).
  unfold makeRoom. wstep. apply (wps_loadRecipe a r); [done|]. wstep. eapply wps_lift.
  { unfold addedLen, fileRecipeEntrySize_, fileRecipeHeadSize_. rewrite sint_ok by lia. cbn [mbind res_bind orb Z.eqb].
    apply sint_ok. lia. }
  wstep. eapply wps_lift; [apply sint_ok; lia|].
  destruct (Z.gtb_spec (recipeFileBufferCurrLen r + (Z.of_nat 24 + Z.of_nat 40 * Z.of_nat m)) (Z.of_nat RECIPE_BUFFER_SIZE)) as [Hbig|Hok].
  - wstep. eapply (wps_post _ (fun old s' => old = false /\ s' = s)).
    { unfold continuesOldFile. destruct (Z.eqb_spec (lastRecipeHeadPos r) 0) as [E0|E0]; [|by wstep].
      destruct (firstHead _ _ _ _ _ _ _ _ _ HR Ha Hr En) as (x & Ex & Hx); [lia|done| |].
      { intros a' u' Ha' ->. by apply (ids_unique _ _ _ _ _ _ _ _ _ _ HIs Ha'). }
      wstep. eapply wps_lift; [exact Ex|]. wstep. split; [|done]. destruct (Z.gtb_spec 0 x); [lia|done]. }
    intros old s' [-> ->]. wstep. eapply wps_post; [eapply storeNew_spec; try done; lia|].
    intros ok s' (-> & F1 & HI' & r' & Hr' & E0). cbn [negb]. wstep. split; [done|]. exists (kr + 1), r'.
    split_and!; [lia|lia|done|done|lia].
  - wstep. split; [done|]. exists kr, r. split_and!; [lia|lia|done|done|lia].
Qed.

Lemma putHead_spec kr s a r uid size m name (Q : bool -> DedupCore W -> Prop) :
  recipes s !! a = Some r -> wfBuffer kr r ->
  recipeFileBufferCurrLen r + Z.of_nat fileRecipeHeadSize_ <= Z.of_nat RECIPE_BUFFER_SIZE ->
  wps (putRecipeHead (Some a) uid size (Z.of_nat m) name crypto) (fun _ s' => exists r' pad1 pad2,
    s' = set_recipes s (<[a := r']> (recipes s)) /\ length pad1 = 4%nat /\ length pad2 = 4%nat /\
    wfBuffer kr r' /\ recipeFileName r' = recipeFileName r /\
    recipeFileBufferCurrLen r' = recipeFileBufferCurrLen r + Z.of_nat fileRecipeHeadSize_ /\
    lastRecipeHeadPos r' = recipeFileBufferCurrLen r /\ lastInodeFP r' = inodeFP digest uid name /\
    recData r' = recData r ++ le32 uid ++ pad1 ++ le64 size ++ le32 (Z.of_nat m) ++ pad2) Q s.
Proof.
  intros Hr Hw Hl. pose proof (length_recData _ _ Hw) as Hd. pose proof (recData_buffer _ _ Hw) as Eb.
  pose proof lim_recipe_max as Hmax. pose proof Hw as [Wn Wb Wl Wf Wp]. unfold fileRecipeHeadSize_ in *.
  unfold putRecipeHead. wstep. apply (wps_loadRecipe a r); [done|].
  destruct (putHead_bytes (R := bool * DedupCore W) (recipeFileBuffer r) (Z.to_nat (recipeFileBufferCurrLen r))
    (recData r) _ uid size (Z.of_nat m) Eb) as (pad1 & pad2 & P1 & P2 & E); [done|rewrite length_drop; lia|].
  wstep. eapply wps_lift; [rewrite sz_ok by lia; cbn [mbind res_bind]; exact E|].
  wstep. eapply wps_lift; [apply sint_ok; unfold fileRecipeHeadSize_; lia|].
  wstep. eapply wps_lift; [by apply (fileName2InodeFP_spec digest crypto)|].
  eapply wps_storeRecipe; [done|].
  match goal with |- context [set_lastInodeFP ?x ?y] => set (r' := set_lastInodeFP x y) end.
  exists r', pad1, pad2.
  assert (length (le32 uid ++ pad1 ++ le64 size ++ le32 (Z.of_nat m) ++ pad2) = 24%nat) as H24
    by (rewrite !length_app, !length_le32, length_le64, P1, P2; done).
  split_and!; try done.
  - split; cbn; try done; [|unfold fileRecipeHeadSize_; lia|by apply (length_inodeFP digest crypto)|lia].
    rewrite !length_app, !length_drop in *. rewrite Hd, H24, Wb. lia.
  - unfold r', recData. cbn [recipeFileBufferCurrLen recipeFileBuffer set_lastInodeFP set_positions set_recipeData].
    replace (Z.to_nat _) with (length (recData r ++ le32 uid ++ pad1 ++ le64 size ++ le32 (Z.of_nat m) ++ pad2)).
    + apply take_app_length.
    + rewrite length_app, H24, Hd. unfold fileRecipeHeadSize_. lia.
Qed.

(** ** One file *)

Section Second.
Context (uid : Z) (A : Index) (l1 : nodeList) (a : positive) (l2 : nodeList) (b B : Z) (stat : list bool)
        (md data : bytes) (allShares : list ShareMD) (fs : list FileMD).
Hypothesis uid_int : int32 uid.
Hypothesis md_int : Z.of_nat (length md) < 2 ^ 31.
Hypothesis data_int : Z.of_nat (length data) < 2 ^ 31.
Hypothesis budget : B <= 2 ^ 27.
Hypothesis data_enough : totalSize (selected stat allShares) <= Z.of_nat (length data).
Hypothesis sizes_good : Forall (fun e => goodSize (Z.of_nat (sm_size e))) (selected stat allShares).
Hypothesis data_good : authentic digest data (selected stat allShares).
Hypothesis names_good : Forall validName fs.

Abbreviation secondI s0 := (secondI digest uid A s0 l1 a l2 b stat).

Lemma secondFail_False (m0 m : minDedupCore W) ok : ~ secondFail digest m0 B stat data allShares fs ok m.
Proof. intros (_ & _ & _ & _ & _ & HN). by apply HN. Qed.

(** The object outside of the shares and the recipe buffer of [a] is as in [s1]. *)
Record restSame s1 s r : Prop := {
  rs_recipes : recipes s = <[a := r]> (recipes s1);
  rs_global : globalRecipeFileName_ s = globalRecipeFileName_ s1;
  rs_dir : recipeFileDirName_ s = recipeFileDirName_ s1;
  rs_lock : globalRecipeFileNameLock_ s = globalRecipeFileNameLock_ s1;
}.

Lemma recipeShare_spec s1 p e rest pre post st s r kr (Q : bool -> DedupCore W -> Prop) :
  secondI (shares s1) p st (shares s) -> st.1.1 = Z.of_nat (length pre) ->
  allShares = (p ++ [e]) ++ rest -> md = pre ++ encodeShare e ++ post -> wfShare e ->
  int32 (sm_secretID e) -> int32 (sm_secretSize e) ->
  (length p < length stat)%nat -> b + Z.of_nat (length p) < B ->
  restSame s1 s r -> wfBuffer kr r ->
  recipeFileBufferCurrLen r + Z.of_nat fileRecipeEntrySize_ <= Z.of_nat RECIPE_BUFFER_SIZE ->
  wps (recipeShare uid md stat data crypto (Some a) st) (fun st' s' =>
    secondI (shares s1) (p ++ [e]) st' (shares s') /\ st'.1.1 = Z.of_nat (length (pre ++ encodeShare e)) /\
    exists r', restSame s1 s' r' /\ extended r r' (encodeEntry (recipeEntryOf e))) Q s.
Proof.
  intros HS Eo Esh Emd We H1 H2 Hst HB [E1 E2 E3 E4] Hw Hl. pose proof lim_recipe_max as Hmax.
  pose proof (recData_buffer _ _ Hw) as Eb. pose proof (length_recData _ _ Hw) as Hd.
  pose proof Hw as [Wn Wb Wl Wf Wp]. unfold fileRecipeEntrySize_ in *.
  unfold recipeShare. wstep. apply wps_onShares. eapply wps_mono.
  - by eapply (secondShare_spec digest uid A (shares s1) l1 a l2 b B stat md data crypto allShares fs).
  - intros st' x [HS' Eo']. cbv beta. wstep. apply (wps_loadRecipe a r); [cbn; rewrite E1; apply lookup_insert_eq|].
    wstep. eapply wps_lift.
    { eapply (putEntry_bytes md pre e post _ _ _ _ _ Emd Eo We H1 H2 Eb); [rewrite Hd; lia|rewrite length_drop; lia]. }
    wstep. eapply wps_lift; [apply sint_ok; unfold fileRecipeEntrySize_; lia|].
    wstep. eapply wps_storeRecipe; [cbn; rewrite E1; apply lookup_insert_eq|]. wstep.
    split; [done|]. split; [done|]. eexists. split.
    + split; cbn; try done. by rewrite E1, insert_insert_eq.
    + pose proof (length_encodeEntry _ (wfEntry_of e We H1 H2)) as Hel. unfold fileRecipeEntrySize_ in Hel.
      split; cbn [recipeFileName lastRecipeHeadPos lastInodeFP recipeFileBuffer recipeFileBufferCurrLen set_positions set_recipeData]; try done.
      * change (sm_fp e ++ le32 (sm_secretID e) ++ le32 (sm_secretSize e)) with (encodeEntry (recipeEntryOf e)).
        rewrite length_app, (length_app (recData r)), Hel, Hd, !length_drop. lia.
      * rewrite Hel. done.
      * eapply recData_set; [done|]. rewrite length_app, Hel, Hd. unfold fileRecipeEntrySize_. lia.
  - intros ok x HF. by destruct (secondFail_False (shares s1) x ok).
Qed.

Lemma extended_trans r1 r2 r3 d1 d2 : extended r1 r2 d1 -> extended r2 r3 d2 -> extended r1 r3 (d1 ++ d2).
Proof.
  intros [] []. split; try congruence.
  - rewrite length_app. lia.
  - rewrite app_assoc. congruence.
Qed.

Lemma recipeShares_spec s1 p u rest pre post st r1 kr (Q : bool -> DedupCore W -> Prop) :
  secondI (shares s1) p st (shares s1) -> st.1.1 = Z.of_nat (length (pre ++ beforeShares (mdOf u))) ->
  allShares = p ++ up_shares u ++ rest -> md = pre ++ encodeFile (mdOf u) ++ post -> wfUpload u ->
  (length p + length (up_shares u) <= length stat)%nat ->
  b + Z.of_nat (length p + length (up_shares u)) <= B ->
  recipes s1 !! a = Some r1 -> wfBuffer kr r1 ->
  recipeFileBufferCurrLen r1 + Z.of_nat (fileRecipeEntrySize_ * length (up_shares u)) <= Z.of_nat RECIPE_BUFFER_SIZE ->
  wps (forM (length (up_shares u)) 0 (fun _ st => recipeShare uid md stat data crypto (Some a) st) st)
    (fun st' s' => secondI (shares s1) (p ++ up_shares u) st' (shares s') /\
       st'.1.1 = Z.of_nat (length (pre ++ encodeFile (mdOf u))) /\
       exists r', restSame s1 s' r' /\ extended r1 r' (encodeEntries (recipeEntryOf <$> up_shares u))) Q s1.
Proof.
  intros HS Eoff Esh Emd Wu Hst HB Hr Hw Hl. set (es := up_shares u) in *.
  assert (forall i, (i <= length es)%nat -> length (encodeEntries (recipeEntryOf <$> take i es)) = (40 * i)%nat) as Hlen.
  { intros i Hi. assert (Forall wfEntry (recipeEntryOf <$> take i es)) as HF.
    { apply Forall_fmap, Forall_take. eapply list.Forall_impl; [apply (wu_shares _ Wu)|].
      intros e (? & ? & ?). by apply wfEntry_of. }
    assert (length (recipeEntryOf <$> take i es) = i) as Hli by (rewrite length_fmap, length_take; lia).
    rewrite <- Hli at 2. clear Hli. induction HF as [|e l He _ IH]; [done|].
    change (encodeEntries (e :: l)) with (encodeEntry e ++ encodeEntries l).
    rewrite length_app, IH, length_encodeEntry by done. unfold fileRecipeEntrySize_. cbn [length]. lia. }
  eapply wps_post.
  - eapply (wps_forM (fun i st s => secondI (shares s1) (p ++ take i es) st (shares s) /\
      st.1.1 = Z.of_nat (length (pre ++ beforeShares (mdOf u) ++ encodeShares (take i es))) /\
      exists r, restSame s1 s r /\ extended r1 r (encodeEntries (recipeEntryOf <$> take i es)))).
    + cbn [take]. rewrite !app_nil_r. split; [done|]. split; [done|]. exists r1. split.
      * split; try done. by rewrite insert_id.
      * change (encodeEntries (recipeEntryOf <$> take 0 es)) with (@nil byte). split; try done; [cbn [length]; lia|by rewrite app_nil_r].
    + intros i st' s' Hi (HS' & Eo & r & HRS & HX).
      destruct (lookup_lt_is_Some_2 es i) as [e Ee]; [lia|].
      pose proof (wu_shares _ Wu) as HFs. fold es in HFs.
      destruct (Forall_lookup_1 _ _ _ _ HFs Ee) as (We & H1 & H2).
      assert (length (take i es) = i) as Hti by (rewrite length_take; lia).
      pose proof (encodeShares_at _ _ _ Ee) as Ese.
      pose proof (ex_len _ _ _ HX) as El. rewrite Hlen in El by lia. unfold fileRecipeEntrySize_ in Hl.
      eapply wps_post.
      * eapply (recipeShare_spec s1 (p ++ take i es) e (drop (S i) es ++ rest)
                  (pre ++ beforeShares (mdOf u) ++ encodeShares (take i es))
                  (encodeShares (drop (S i) es) ++ post) _ _ _ kr); try done.
        -- rewrite Esh, <- (take_drop_middle es i e) at 1 by done. by rewrite <- !app_assoc.
        -- rewrite Emd, encodeFile_split. cbn [mdOf fm_shares]. fold es. rewrite Ese. by rewrite <- !app_assoc.
        -- rewrite length_app, Hti. lia.
        -- rewrite length_app, Hti. lia.
        -- eapply extended_wf; [done|done|]. nia.
        -- unfold fileRecipeEntrySize_. nia.
      * intros st'' s'' (HS'' & Eo' & r' & HRS' & HX'). rewrite (take_snoc es i e Ee), encodeShares_app.
        rewrite <- app_assoc in HS''. split; [done|]. split.
        { rewrite Eo', <- !app_assoc. do 5 f_equal. unfold encodeShares. cbn. by rewrite app_nil_r. }
        exists r'. split; [done|]. rewrite fmap_app, encodeEntries_app.
        eapply extended_trans; [exact HX|]. unfold encodeEntries. cbn. by rewrite app_nil_r.
  - intros st' s' (HS' & Eo & r & HRS & HX). rewrite take_ge in Eo, HS', HX by (fold es; lia).
    split; [done|]. split; [by rewrite Eo, encodeFile_split|]. by exists r.
Qed.

Abbreviation ids := (idsOf l1 ++ (a, uid) :: idsOf l2).

Lemma idsOf_node n : userID n = uid -> idsOf (l1 ++ (a, n) :: l2) = ids.
Proof. intros <-. by rewrite fmap_app. Qed.

(** No other user's inode has the fingerprint of the name. *)
Definition ownFile I (name : bytes) : Prop := forall e, I (inodeFP digest uid name) = Some e -> en_user e = uid.

(** The object after the head of the recipe of [u] was written: [s2] is the object
    before its inode was added. *)
Definition started A' I F n k bb kr bi (u : Upload) s s1 : Prop :=
  let name := serverName u in
  exists s2 kr' r r1 nm pad1 pad2,
    kr <= kr' <= kr + 1 /\ RInv I F s2 ids kr' /\ recipes s2 !! a = Some r /\
    recipeFileName r = nm ++ [Byte.x00] /\ unlockedD s1 /\
    Inv digest A' (shares s1) (l1 ++ (a, n) :: l2) k bb /\
    inodes (bi + 1 + Z.of_nat (length (dirsOf name)))
      (addFileSpec digest uid name {| v_file := nm; v_off := Z.to_nat (recipeFileBufferCurrLen r) |} I)
      (contents (view (theWorld s1))) /\
    recipes s1 = <[a := r1]> (recipes s2) /\ globalRecipeFileName_ s1 = globalRecipeFileName_ s2 /\
    recipeFileDirName_ s1 = recipeFileDirName_ s2 /\ recipeFileDirName_ s2 = recipeFileDirName_ s /\
    shareContainerDirName_ (shares s1) = shareContainerDirName_ (shares s) /\
    sent (view (theWorld s1)) = sent (view (theWorld s)) /\ disk s1 = disk s2 /\
    length pad1 = 4%nat /\ length pad2 = 4%nat /\ wfBuffer kr' r1 /\
    recipeFileName r1 = recipeFileName r /\ lastRecipeHeadPos r1 = recipeFileBufferCurrLen r /\
    lastInodeFP r1 = inodeFP digest uid name /\
    recipeFileBufferCurrLen r1 + Z.of_nat (fileRecipeEntrySize_ * length (up_shares u)) <= Z.of_nat RECIPE_BUFFER_SIZE /\
    recData r1 = recData r ++ le32 uid ++ pad1 ++ le64 (up_size u) ++ le32 (Z.of_nat (length (up_shares u))) ++ pad2.

Lemma startFile_spec A' I F s n k bb kr bi u (Q : bool -> DedupCore W -> Prop) :
  unlockedD s -> DInv A' I F s (l1 ++ (a, n) :: l2) k bb kr bi -> userID n = uid -> kr < 26 ^ 12 - 1 ->
  wfUpload u -> noClash digest I uid (serverName u) -> ownFile I (serverName u) ->
  bi + 1 + Z.of_nat (length (dirsOf (serverName u))) < 2 ^ 24 ->
  wps (_ ← makeRoom (Some a) 0 (Z.of_nat (length (up_shares u)));
       recipeHead (Some a) uid 0 (up_size u) (Z.of_nat (length (up_shares u))) (serverName u) crypto)
    (fun _ s1 => started A' I F n k bb kr bi u s s1) Q s.
Proof.
  intros U HI Hn Hkr Wu HC HO Hbi. pose proof lim_recipe_max as Hmax. wstep.
  eapply wps_post; [eapply makeRoom_spec; [done|done|done|apply Wu]|].
  intros [] s2 (F2 & kr' & r & Hkr' & HI2 & Hr & Hroom). cbv beta.
  pose proof HI2 as [HI2s HR2 HN2 Hbi2]. rewrite (idsOf_node n Hn) in HR2.
  assert ((a, uid) ∈ ids) as Ha by set_solver.
  pose proof (RInv_buffer _ _ _ _ _ _ _ _ HR2 Ha Hr) as Hw. pose proof (wb_name _ _ Hw) as (i & nm & En & Hi & _).
  pose proof (wb_len _ _ Hw) as Hc. pose proof (dframe_unlocked _ _ F2 U) as U2. unfold recipeHead. cbn [Z.eqb].
  unfold fileRecipeHeadSize_, fileRecipeEntrySize_ in Hroom.
  wstep. eapply wps_post.
  { eapply (addFile_spec digest crypto bi I s2 a r i (serverName u) nm uid); try done; [apply U2|apply Wu|lia|lia]. }
  intros ok s3 (F3 & Hok & I' & HN3 & HI'). rewrite (Hok REL). cbn [negb]. specialize (HI' REL). subst I'.
  destruct F3 as [[w ->] Ff Fs Fk].
  eapply wps_post; [eapply (putHead_spec kr'); [done|done|unfold fileRecipeHeadSize_; lia]|].
  intros [] s1 (r1 & pad1 & pad2 & -> & P1 & P2 & Hw1 & E1 & E2 & E3 & E4 & E5). cbv beta.
  exists s2, kr', r, r1, nm, pad1, pad2.
  split; [done|]. split; [done|]. split; [done|]. split; [done|]. split; [exact U2|]. split.
  { apply Inv_view; [|by intros; unfold theWorld in Ff; cbn in Ff; rewrite Ff|done].
    intros fp. apply Fk. intros fp'. done. }
  split; [done|]. do 2 (split; [done|]). split; [done|]. split; [by rewrite (dfr_rdir _ _ F2)|].
  split; [apply (dfr_cdir _ _ F2)|]. split; [cbn; unfold theWorld in *; cbn in *; rewrite Fs; apply (dfr_sent _ _ F2)|].
  split; [done|]. do 2 (split; [done|]). split; [done|]. do 3 (split; [done|]). split; [|done].
  rewrite E2. unfold fileRecipeHeadSize_, fileRecipeEntrySize_. lia.
Qed.

(** ** The files of a package *)

(** The names of a package are not confused with each other or with what is there. *)
Record goodNames I (names : list bytes) : Prop := {
  gn_dir : forall nm, nm ∈ names -> ~ isDirInode (I (inodeFP digest uid nm));
  gn_own : forall nm, nm ∈ names -> ownFile I nm;
  gn_file : forall nm d, nm ∈ names -> d ∈ dirsOf nm -> ~ isFileInode (I (inodeFP digest uid d));
  gn_apart : forall nm nm' d, nm ∈ names -> nm' ∈ names -> d ∈ dirsOf nm' ->
    inodeFP digest uid d <> inodeFP digest uid nm;
}.

Lemma ownFile_kept I I' nm : usersKept uid I I' -> ownFile I nm -> ownFile I' nm.
Proof.
  intros HU HO e He. specialize (HU (inodeFP digest uid nm)). destruct (I (inodeFP digest uid nm)) as [e0|] eqn:E0.
  - destruct HU as (e' & E' & U'). rewrite He in E'. simplify_eq. rewrite U'. by apply HO.
  - by apply HU.
Qed.

Lemma goodNames_noClash I nm names : goodNames I (nm :: names) -> noClash digest I uid nm.
Proof.
  intros [G1 G2 G3 G4]. split; [apply G1; set_solver|]. apply list.Forall_forall. intros d Hd.
  split; [by eapply G3; [|done]; set_solver|]. by eapply G4; [..|done]; set_solver.
Qed.

Lemma goodNames_step I nm names v :
  goodNames I (nm :: names) -> goodNames (addFileSpec digest uid nm v I) names.
Proof.
  intros [G1 G2 G3 G4]. split.
  - intros m Hm HD. apply addFileSpec_dir in HD as (d & Hd & E); [|apply G1; set_solver].
    eapply (G4 m nm d); [set_solver|set_solver|done|done].
  - intros m Hm. eapply ownFile_kept; [apply addFileSpec_users|]. apply G2. set_solver.
  - intros m d Hm Hd HF. apply addFileSpec_isFile in HF as [HF|E].
    + eapply (G3 m d); [set_solver|done|done].
    + eapply (G4 nm m d); [set_solver|set_solver|done|done].
  - intros m m' d Hm Hm'. apply G4; set_solver.
Qed.

(** The versions after the upload. *)
Definition uploaded F (us : list Upload) : Files :=
  foldl (fun F u => <[inodeFP digest uid (serverName u) := contentOf u :: F (inodeFP digest uid (serverName u))]> F) F us.

Definition inodeCost (us : list Upload) : Z :=
  foldr (fun u z => 1 + Z.of_nat (length (dirsOf (serverName u))) + z) 0 us.

Lemma inodeCost_nonneg us : 0 <= inodeCost us.
Proof. unfold inodeCost. induction us as [|u us IH]; cbn [foldr]; lia. Qed.

(** The object between two files. *)
Definition fileI p st I F kr bi s : Prop :=
  unlockedD s /\ secondI (shares s) p st (shares s) /\ RInv I F s ids kr /\
  inodes bi I (contents (view (theWorld s))) /\ 0 <= bi.

Definition sameDirs s s' : Prop :=
  recipeFileDirName_ s' = recipeFileDirName_ s /\
  shareContainerDirName_ (shares s') = shareContainerDirName_ (shares s) /\
  sent (view (theWorld s')) = sent (view (theWorld s)).

Lemma inodes_otherKeys bi I m m' : otherKeys m m' -> inodes bi I m -> inodes bi I m'.
Proof.
  intros HK HI fp. specialize (HI fp). assert (m' !! inodeFP2IndexKey_ fp = m !! inodeFP2IndexKey_ fp) as E
    by (apply HK; intros fp'; done).
  by rewrite E.
Qed.

Lemma finishFile A' I F n k bb kr bi u s s1 s' p st r1 r' :
  started A' I F n k bb kr bi u s s1 -> recipes s1 !! a = Some r1 -> wfUpload u ->
  goodNames I (serverName u :: []) -> versionNames I -> 0 <= bi -> userID n = uid ->
  secondI (shares s1) p st (shares s') -> restSame s1 s' r' ->
  extended r1 r' (encodeEntries (recipeEntryOf <$> up_shares u)) ->
  exists v kr', kr <= kr' <= kr + 1 /\ sameDirs s s' /\
    fileI p st (addFileSpec digest uid (serverName u) v I) (uploaded F [u]) kr'
      (bi + 1 + Z.of_nat (length (dirsOf (serverName u)))) s'.
Proof.
  intros (s2 & kr' & r & r1' & nm & pad1 & pad2 & Hkr & HR & Hr & En & U1 & HI1 & HN & Er & Eg & Ed & Ed2 & Ec & Es & Ef
    & P1 & P2 & Hw1 & E1 & E2 & E3 & E4 & E5) Hr1 Wu HG HV Hbi Hun HS [X1 X2 X3 X4] HX.
  rewrite Er, lookup_insert_eq in Hr1. injection Hr1 as ->.
  set (name := serverName u) in *. set (v := {| v_file := nm; v_off := Z.to_nat (recipeFileBufferCurrLen r) |}) in *.
  set (rc := {| rc_user := uid; rc_pad1 := pad1; rc_fileSize := up_size u; rc_pad2 := pad2;
                rc_entries := recipeEntryOf <$> up_shares u |}).
  assert (Forall wfEntry (recipeEntryOf <$> up_shares u)) as HFe.
  { apply Forall_fmap. eapply list.Forall_impl; [apply (wu_shares _ Wu)|]. intros e (? & ? & ?). by apply wfEntry_of. }
  assert (wfRecipe rc) as Wr.
  { pose proof (wu_fits _ Wu) as Hf. pose proof lim_recipe_max. unfold fileRecipeHeadSize_, fileRecipeEntrySize_ in Hf.
    split; cbn; try done; [apply Wu|]. rewrite length_fmap. unfold int32. lia. }
  assert (length (encodeEntries (recipeEntryOf <$> up_shares u)) = fileRecipeEntrySize_ * length (up_shares u))%nat as Hle.
  { rewrite <- (length_fmap recipeEntryOf (up_shares u)). revert HFe. generalize (recipeEntryOf <$> up_shares u).
    induction 1 as [|e l He _ IH]; [done|]. change (encodeEntries (e :: l)) with (encodeEntry e ++ encodeEntries l).
    rewrite length_app, IH, length_encodeEntry by done. cbn [length]. lia. }
  assert (wfBuffer kr' r') as Hw'.
  { eapply extended_wf; [done|done|]. rewrite (ex_len _ _ _ HX), Hle. done. }
  pose proof HS as (off & A'' & n' & k' & Est & U' & Dc & Ds & Of & Ok' & Hu' & HI' & HC).
  assert ((a, uid) ∈ ids) as Ha by set_solver.
  exists v, kr'. split; [done|]. split; [split_and!; [congruence|congruence|unfold theWorld in *; congruence]|].
  split; [split; [done|rewrite X4; apply U1]|]. split.
  { exists off, A'', n', k'. by split_and!. }
  split; [|split; [eapply inodes_otherKeys; [exact Ok'|exact HN]|lia]].
  unfold uploaded. cbn [foldl]. fold name.
  eapply (RInv_addFile digest I F s2 s' ids kr' a uid name r r' nm rc); try done.
  - eapply goodNames_noClash. exact HG.
  - apply (gn_own _ _ HG). set_solver.
  - intros a' u' Ha'. rewrite <- (idsOf_node n' Hu') in Ha'. rewrite (ids_unique A'' s' l1 a n' l2 k' _ a' u' HI' Ha').
    by rewrite Hu'.
  - rewrite X1, Er. by rewrite insert_insert_eq.
  - congruence.
  - intros j nm' Hj. unfold recipePath, disk, theWorld in *. rewrite X3, Ed.
    rewrite Of; [by rewrite Ef|]. intros j' cn Hcn. by eapply recipe_not_container.
  - rewrite (ex_name _ _ _ HX). done.
  - rewrite (ex_last _ _ _ HX). done.
  - rewrite (ex_fp _ _ _ HX). done.
  - rewrite (ex_data _ _ _ HX), E5. unfold encodeRecipe, encodeHead. cbn [rc_user rc_pad1 rc_fileSize rc_pad2 rc_entries rc].
    rewrite length_fmap. by rewrite <- !app_assoc.
Qed.

Lemma uploaded_cons F u us : uploaded F (u :: us) = uploaded (uploaded F [u]) us.
Proof. done. Qed.

Lemma recipeEnd_spec s coming size (Q : bool -> DedupCore W -> Prop) r kr I F :
  RInv I F s ids kr -> (forall a' u', (a', u') ∈ ids -> u' = uid -> a' = a) -> recipes s !! a = Some r ->
  0 < recipeFileBufferCurrLen r -> int64 coming ->
  wps (recipeEnd (Some a) 0 0 coming size) (fun _ s' => s' = s) Q s.
Proof.
  intros HR Hu Hr Hc Hs. assert ((a, uid) ∈ ids) as Ha by set_solver.
  destruct (RInv_buffer _ _ _ _ _ _ _ _ HR Ha Hr) as [(i & nm & En & _) _ _ _ _].
  unfold recipeEnd. wstep. eapply wps_lift.
  { unfold slong. by rewrite Z.add_0_l, decide_True. }
  destruct (coming =? size); [|by wstep].
  wstep. apply (wps_loadRecipe a r); [done|]. wstep. unfold continuesOldFile.
  destruct (Z.eqb_spec (lastRecipeHeadPos r) 0) as [E0|E0].
  - destruct (firstHead _ _ _ _ _ _ _ _ _ HR Ha Hr En Hc E0 Hu) as (x & Ex & Hx).
    wstep. eapply wps_lift; [exact Ex|]. wstep. destruct (Z.gtb_spec 0 x); [lia|]. by wstep.
  - wstep. by wstep.
Qed.

Lemma secondFilesD_spec us : forall p pre st s fuel slack I F kr bi (Q : bool -> DedupCore W -> Prop),
  fileI p st I F kr bi s -> st.1.1 = Z.of_nat (length pre) -> Forall wfUpload us ->
  md = pre ++ encodePackage (mdOf <$> us) ++ slack -> allShares = p ++ sharesOf (mdOf <$> us) ->
  (length us <= fuel)%nat -> (length allShares <= length stat)%nat -> b + Z.of_nat (length allShares) <= B ->
  goodNames I (serverName <$> us) -> bi + inodeCost us < 2 ^ 24 -> kr + Z.of_nat (length us) <= 26 ^ 12 - 1 ->
  wps (secondFiles fuel uid md (Z.of_nat (length (pre ++ encodePackage (mdOf <$> us)))) stat data crypto (Some a) st)
    (fun st' s' => exists I' kr', usersKept uid I I' /\ kr <= kr' <= kr + Z.of_nat (length us) /\ sameDirs s s' /\
       fileI allShares st' I' (uploaded F us) kr' (bi + inodeCost us) s') Q s.
Proof.
  induction us as [|u us IH]; intros p pre st s fuel slack I F kr bi Q HI Eoff Hwf Emd Esh Hf Hst HB HG Hbi Hkr.
  { rewrite !app_nil_r in *. subst p. destruct st as [[off dOff] num]. cbn in Eoff. subst off.
    assert (exists I' kr', usersKept uid I I' /\ kr <= kr' <= kr + Z.of_nat (@length Upload []) /\ sameDirs s s /\
       fileI allShares (Z.of_nat (length pre), dOff, num) I' (uploaded F []) kr' (bi + inodeCost []) s).
    { exists I, kr. split; [done|]. split; [cbn; lia|]. split; [done|]. cbn. by rewrite Z.add_0_r. }
    destruct fuel; cbn [secondFiles]; rewrite Z.ltb_irrefl; by wstep. }
  apply list.Forall_cons in Hwf as [Wu Hwf]. cbn in Hf. destruct fuel as [|fuel]; [lia|].
  cbn [fmap list_fmap] in *. change (list_fmap _ _ mdOf us) with (mdOf <$> us) in *.
  change (list_fmap _ _ serverName us) with (serverName <$> us) in *.
  rewrite encodePackage_cons in *. rewrite sharesOf_cons in *. cbn [mdOf fm_shares] in Esh.
  pose proof (wfFile_mdOf u Wu) as Wf. pose proof (length_encodeFile _ Wf) as Hlf. cbn [mdOf fm_shares fm_name] in Hlf.
  unfold fileShareMDHeadSize_, shareMDEntrySize_ in Hlf.
  assert (length md = length pre + length (encodeFile (mdOf u)) + length (encodePackage (mdOf <$> us)) + length slack)%nat
    as Hlen by (rewrite Emd, !length_app; lia).
  assert (length allShares = length p + length (up_shares u) + length (sharesOf (mdOf <$> us)))%nat
    as Hshl by (rewrite Esh, !length_app; lia).
  change (inodeCost (u :: us)) with (1 + Z.of_nat (length (dirsOf (serverName u))) + inodeCost us) in *.
  pose proof (inodeCost_nonneg us) as Hcost. cbn [length] in Hkr.
  destruct st as [[off dOff] num]. cbn in Eoff. subst off.
  cbn [secondFiles]. rewrite (proj2 (Z.ltb_lt _ _)) by (rewrite !length_app; lia).
  rewrite <- app_assoc in Emd.
  wstep. eapply wps_lift; [eapply (read_nameSize md pre); [done|unfold int32; cbn; lia]|]. cbn [mdOf fm_name].
  wstep. eapply wps_lift; [by eapply (read_fileSize md pre)|].
  wstep. eapply wps_lift; [by eapply (read_past md pre)|].
  wstep. eapply wps_lift; [by eapply (read_sizePast md pre)|].
  wstep. eapply wps_lift; [eapply (read_coming md pre); [done|done|unfold int32; cbn; lia]|]. cbn [mdOf fm_shares].
  wstep. eapply wps_lift; [by eapply (read_sizeComing md pre)|].
  wstep. eapply wps_lift; [apply sint_ok; unfold fileShareMDHeadSize_; lia|].
  wstep. eapply wps_lift; [by eapply (read_name md pre _ (mdOf u))|]. cbn [mdOf fm_name].
  wstep. eapply wps_lift; [apply sint_ok; unfold fileShareMDHeadSize_; lia|].
  destruct (wu_name _ Wu) as [name Ename]. rewrite Ename.
  assert (name = serverName u) as -> by (unfold serverName; by rewrite Ename).
  destruct HI as (U & HS & HR & HN & Hbi0).
  pose proof HS as (o & A' & n & k & Est & Us & _ & _ & _ & _ & Hun & HIs & HC).
  assert (DInv A' I F s (l1 ++ (a, n) :: l2) k (b + Z.of_nat (length p)) kr bi) as HD
    by (split; [done|by rewrite (idsOf_node n Hun)|done|lia]).
  apply wps_bind. (* makeRoom and recipeHead *)
  assert (forall (P : unit -> DedupCore W -> Prop) (g : SM (DedupCore W) bool unit),
    wps (_ ← makeRoom (Some a) 0 (Z.of_nat (length (up_shares u))); g) P Q s ->
    wps (makeRoom (Some a) 0 (Z.of_nat (length (up_shares u)))) (fun _ s1 => wps g P Q s1) Q s) as Hcat.
  { intros P g. unfold wps, mbind, SM_bind. by destruct (makeRoom _ _ _ _) as [[[] ?]|[]| | |]. }
  eapply wps_post; [apply Hcat; eapply (startFile_spec A' I F s n k _ kr bi u); try done|].
  { lia. }
  { by eapply goodNames_noClash. }
  { apply (gn_own _ _ HG). set_solver. }
  { lia. }
  intros [] sx Hsx. cbv beta in Hsx |- *. wstep. eapply wps_post; [exact Hsx|]. clear Hsx sx Hcat.
  intros [] s1 HS1. cbv beta.
  pose proof HS1 as (s2 & kr2 & r & r1 & nm & pad1 & pad2 & Hkr2 & HR2 & Hr & En & U1 & HI1 & HN1 & Er & _ & _ & _ & _ & _ & _
    & P1 & P2 & Hw1 & _ & _ & _ & Hfit & Edat).
  assert (recipes s1 !! a = Some r1) as Hr1 by (rewrite Er; apply lookup_insert_eq).
  rewrite Nat2Z.id. wstep. eapply wps_post.
  { eapply (recipeShares_spec s1 p u (sharesOf (mdOf <$> us)) pre _ _ r1 kr2); try done; [| |lia|lia].
    - exists (Z.of_nat (length pre) + Z.of_nat fileShareMDHeadSize_ + Z.of_nat (length (up_name u))), A', n, k.
      split_and!; try done; [by simplify_eq|apply U1].
    - cbn [fst]. rewrite length_app, length_beforeShares by done. cbn [mdOf fm_name]. lia. }
  intros st' s' (HS' & Eo' & r' & HRS & HX). cbv beta.
  assert (goodNames I [serverName u]) as HG1.
  { destruct HG as [G1 G2 G3 G4]. split; intros; [apply G1|apply G2|eapply G3|eapply G4]; set_solver. }
  destruct (finishFile A' I F n k _ kr bi u s s1 s' _ st' r1 r' HS1 Hr1 Wu HG1 ltac:(by eapply inodes_names) Hbi0 Hun HS' HRS HX)
    as (v & kr3 & Hkr3 & HSD & HF'). pose proof HF' as (U' & HS'' & HR' & HN' & Hbi').
  wstep. eapply wps_post.
  { eapply (recipeEnd_spec s' (up_coming u)); [done| | | |apply Wu].
    - destruct HS'' as (? & A3 & n3 & k3 & _ & _ & _ & _ & _ & _ & Hu3 & HI3 & _).
      intros a' u' Ha' ->. rewrite <- (idsOf_node n3 Hu3) in Ha'. apply (ids_unique _ _ _ _ _ _ _ _ _ _ HI3 Ha'). done.
    - rewrite (rs_recipes _ _ _ HRS). apply lookup_insert_eq.
    - rewrite (ex_len _ _ _ HX). pose proof (length_recData _ _ Hw1) as Hlr. rewrite Edat in Hlr.
      rewrite !length_app, !length_le32 in Hlr. lia. }
  intros [] s'' ->. rewrite app_assoc.
  eapply wps_post.
  { eapply (IH (p ++ up_shares u) (pre ++ encodeFile (mdOf u)) st' s' fuel slack); try done.
    - by rewrite <- app_assoc.
    - by rewrite <- app_assoc.
    - lia.
    - by apply goodNames_step.
    - lia.
    - lia. }
  intros st2 s3 (I' & kr4 & HU & Hkr4 & HSD' & HF2). exists I', kr4.
  split; [etrans; [apply addFileSpec_users|exact HU]|]. split; [cbn [length]; lia|]. split.
  - destruct HSD as (? & ? & ?), HSD' as (? & ? & ?). split_and!; congruence.
  - rewrite uploaded_cons. by replace (bi + (1 + Z.of_nat (length (dirsOf (serverName u))) + inodeCost us))
      with (bi + 1 + Z.of_nat (length (dirsOf (serverName u))) + inodeCost us) by lia.
Qed.
End Second.

(** ** Both stages *)

Lemma secondStageD_spec {ret} uid A I F s l k b kr bi us slack stat data fuel (Q : ret -> DedupCore W -> Prop) :
  let fs := mdOf <$> us in
  let n := length (sharesOf fs) in
  let sel := selected stat (sharesOf fs) in
  int32 uid -> Z.of_nat (length (encodePackage fs ++ slack)) < 2 ^ 31 -> Z.of_nat (length data) < 2 ^ 31 ->
  unlockedD s -> DInv A I F s l k b kr bi -> Forall wfUpload us -> (length us <= fuel)%nat ->
  (n <= length stat)%nat -> b + 1 + Z.of_nat n <= 2 ^ 27 ->
  totalSize sel <= Z.of_nat (length data) -> Forall (fun e => goodSize (Z.of_nat (sm_size e))) sel ->
  authentic digest data sel -> goodNames uid I (serverName <$> us) ->
  bi + inodeCost us < 2 ^ 24 -> kr + 1 + Z.of_nat (length us) <= 26 ^ 12 - 1 ->
  wps (secondStageDedup fuel uid (encodePackage fs ++ slack) (Z.of_nat (length (encodePackage fs))) stat data (Some crypto))
    (fun ok s' => ok = true /\ unlockedD s' /\ sameDirs s s' /\
       exists A' I' l' k' kr', DInv A' I' (uploaded uid F us) s' l' k' (b + 1 + Z.of_nat n) kr' (bi + inodeCost us) /\
         kr <= kr' <= kr + 1 + Z.of_nat (length us) /\ usersKept uid I I' /\ counted uid A A' sel) Q s.
Proof.
  intros fs n sel Hu Hmd Hdl U HI Hwf Hf Hst HB Htot Hsz Hau HG Hbi Hkr.
  unfold secondStageDedup. wstep. wstep.
  assert (k < 26 ^ 12 - 1) as Hk by (destruct HI as [HIs _ _ _]; destruct HIs; lia).
  eapply wps_post; [eapply findOrCreateD_spec; [done|done|done|lia]|].
  intros o s1 (l1 & a & nd & l2 & k' & kr1 & -> & F1 & Hk' & Hkr1 & HI1 & Hun). wstep.
  pose proof (dframe_unlocked _ _ F1 U) as U1. pose proof HI1 as [HIs1 HR1 HN1 Hbi1].
  eapply wps_post.
  - assert (Forall validName fs) as Hnames.
    { apply Forall_fmap. eapply list.Forall_impl; [exact Hwf|]. intros u Wu. apply Wu. }
    eapply (secondFilesD_spec uid A l1 a l2 (b + 1) (b + 1 + Z.of_nat n) stat (encodePackage fs ++ slack) data (sharesOf fs) fs
              Hu Hmd Hdl HB Htot Hsz Hau Hnames us [] [] (0, 0, 0%nat) s1 fuel slack I F kr1 bi);
      [|done|exact Hwf|done|done|done|done|done|done|done|lia].
    + split; [done|]. split.
      * exists 0, A, nd, k'. split; [by destruct stat|]. split; [apply U1|]. do 5 (split; [done|]).
        cbn [length]. rewrite Z.add_0_r. split; [done|].
        intros _ u fp. assert (selected stat [] = []) as -> by (by destruct stat).
        unfold occurrences. rewrite filter_nil. cbn. case_decide; lia.
      * split; [rewrite fmap_app, fmap_cons in HR1; cbn [fst snd] in HR1; by rewrite Hun in HR1|]. split; [done|lia].
  - intros st s' (I' & kr' & HU & Hkr' & HSD & U' & HS & HR' & HN' & Hb0). wstep.
    destruct HS as (off & A' & n' & k'' & _ & _ & _ & _ & _ & _ & Hu' & HI' & HC).
    split; [done|]. split; [done|]. split.
    { destruct HSD as (? & ? & ?), F1. split_and!; congruence. }
    exists A', I', (l1 ++ (a, n') :: l2), k'', kr'. split; [|split; [lia|split; [done|by apply HC]]].
    split; [done|rewrite fmap_app, fmap_cons; cbn [fst snd]; by rewrite Hu'|done|lia].
Qed.

Lemma firstStageD_spec {ret} uid A I F s l k b kr bi us slack stat fuel (Q : ret -> DedupCore W -> Prop) :
  let fs := mdOf <$> us in
  let shs := sharesOf fs in
  let n := length shs in
  int32 uid -> Z.of_nat (length (encodePackage fs ++ slack)) < 2 ^ 31 ->
  unlockedD s -> DInv A I F s l k b kr bi -> Forall wfUpload us -> (length us <= fuel)%nat ->
  (n <= length stat)%nat -> b + Z.of_nat n <= 2 ^ 27 -> totalSize (toSend uid A shs) < 2 ^ 31 ->
  wps (firstStageDedup fuel uid (encodePackage fs ++ slack) (Z.of_nat (length (encodePackage fs))) stat)
    (fun r s' => unlockedD s' /\ sameDirs s s' /\ DInv (firstSpec uid A shs) I F s' l k (b + Z.of_nat n) kr bi /\
       r = (true, (dupFlags uid A shs ++ drop n stat, n, totalSize (toSend uid A shs)))) Q s.
Proof.
  intros fs shs n Hu Hmd [U U4] [HIs HR HN Hbi] Hwf Hf Hst HB Hts.
  apply wps_onShares. eapply wps_post.
  { eapply (MinUpload.firstStage_spec digest uid A (shares s) l k b fs slack stat fuel); try done.
    - apply Forall_fmap. eapply list.Forall_impl; [exact Hwf|]. intros u Wu. by apply wfFile_mdOf.
    - unfold fs. by rewrite length_fmap. }
  intros [ok out] x (U' & _ & HF & HT). cbn [fst snd] in *. destruct ok; [|by destruct (HF eq_refl)].
  destruct (HT eq_refl) as ([F1 F2 F3 F4 F5 F6 F7 F8] & HI' & ->). split; [by split|]. split; [by split_and!|].
  split; [|done]. split; [done| |eapply inodes_otherKeys; [exact F8|exact HN]|done].
  apply (RInv_same I F s); [by eapply inodes_names| |done]. split; try done.
  intros i nm Hi. unfold disk, recipePath, theWorld. cbn. by rewrite F6.
Qed.
End Stage.
