(* ===== verification/DedupRestore.v ===== *)
(** * Restoring files from DedupCore

    restoreShareFile finds the recipe of a version through the inode index and
    sends the shares it names. *)

From stdpp Require Import base list numbers gmap functions.
From coqutil Require Import Byte.
From Stdlib Require Import Lia.
From S2P Require Import Prelude Structs FileNames World CryptoPrimitive MinDedupCore MinStages MinRestore ShareIndex MinInvariant MinNodes MinIndex MinRestoreProof DedupCore DedupStages Inodes InodeIndex Recipes DedupNodes.

Local Open Scope Z_scope.

Section Restore.
Context {W : Type} {WW : World W} {WL : WorldLaws W} {LM : Limits} {LOK : LimitsOk} {REL : ReliableWorld W}
        {SSL : OpenSSL} (digest : bytes -> bytes) (crypto : CryptoPrimitive) {HOK : HashOk crypto FP_SIZE digest}.
Implicit Types (s : DedupCore W) (x : minDedupCore W) (I : InodeMap) (F : Files).

Abbreviation DInv := (DInv digest).
Abbreviation Cof s l := (containerOf l (shareContainerDirName_ (shares s)) (files (view (theWorld s)))).

(** ** Finding the recipe *)

(** The search of a node by user. *)
Lemma findNode_user {ret} (l2 : nodeList) : forall fuel A x l1 k b curr pre uid
    (Q : ret -> minDedupCore W -> Prop),
  (length l2 <= fuel)%nat -> Inv digest A x (l1 ++ l2) k b -> chain curr l2 ->
  wps (findNode fuel (fun n => Ok (userID n =? uid)) curr pre) (fun r x' => x' = x /\
    match r.1 with
    | None => forall a, (a, uid) ∉ idsOf l2
    | Some a => (a, uid) ∈ idsOf l2
    end) Q x.
Proof.
  induction l2 as [|[a n] l2 IH]; intros fuel A x l1 k b curr pre uid Q Hf HI Hc.
  { cbn in Hc. subst curr. destruct fuel; cbn; split; try done; intros; apply not_elem_of_nil. }
  destruct Hc as [-> Hc]. destruct fuel as [|fuel]; cbn in Hf; [lia|]. cbn [findNode].
  destruct (Inv_node _ _ _ _ _ _ _ _ _ HI) as [Ha _].
  wstep. eapply wps_load; [done|]. wstep. eapply wps_lift; [done|].
  destruct (Z.eqb_spec (userID n) uid) as [E|E].
  - wstep. split; [done|]. cbn. rewrite E. set_solver.
  - eapply wps_post.
    { eapply (IH fuel A x (l1 ++ [(a, n)])); [lia|by rewrite <- app_assoc|done]. }
    intros [r p] x' [-> HR]. split; [done|]. cbn [fst] in *. rewrite fmap_cons. cbn [fst snd]. destruct r as [a'|].
    + set_solver.
    + intros a' Hin. apply elem_of_cons in Hin as [[= _ ->]|Hin]; [done|]. by apply (HR a').
Qed.

(** The buffer nodes deliver the recipes exactly if the node of the user is
    filling the recipe file. *)
Lemma readFromBufferD_spec {ret} A I F s l k b kr bi uid nm i rest dst (Q : ret -> DedupCore W -> Prop) :
  bufferLock_ (shares s) = false -> DInv A I F s l k b kr bi -> isRecipeName i nm ->
  length dst = RECIPE_BUFFER_SIZE ->
  wps (readRecipeFileFromBuffer_ uid (nm ++ Byte.x00 :: rest) dst) (fun r s' => s' = s /\
    if r.1 then exists a rb, (a, uid) ∈ idsOf l /\ recipes s !! a = Some rb /\
                  recipeFileName rb = nm ++ [Byte.x00] /\ r.2 = recData rb ++ drop (length (recData rb)) dst
    else r.2 = dst /\ forall a rb, (a, uid) ∈ idsOf l -> recipes s !! a = Some rb ->
           recipeFileName rb <> nm ++ [Byte.x00]) Q s.
Proof.
  intros U2 [HIs HR HN Hbi] Hi Hl. unfold readRecipeFileFromBuffer_. wstep. wstep. apply wps_onShares.
  unfold wps at 1, lockBuffer. rewrite U2. wstep. wstep. wstep. wstep.
  cbn [shares set_shares headBufferNode_ heap set_locks]. wstep. apply wps_onShares. eapply wps_post.
  { eapply (findNode_user l _ A _ [] k b); cbn [app].
    - cbn. rewrite (length_linked _ _ _ _ (inv_linked _ _ _ _ _ _ HIs)). lia.
    - cbn. by apply Inv_locks.
    - apply HIs. }
  intros [target pre] x' [-> HT]. cbn [fst] in HT. cbn [shares set_shares].
  match goal with |- wps _ _ _ ?y => set (s1 := y) end.
  assert (set_shares s1 (set_locks (shares s1) (DBLock_ (shares s)) false (globalShareContainerNameLock_ (shares s))) = s) as Es
    by (destruct s as [[]]; cbn in *; by subst).
  assert (forall (r : bool * bytes) (P Q' : bool * bytes -> DedupCore W -> Prop), Q' r s ->
    wps (onShares unlockBuffer ≫= λ _, ret_ r) P Q' s1) as Hun.
  { intros r P Q' HQ. wstep. apply wps_onShares. unfold wps at 1, unlockBuffer.
    change (bufferLock_ (shares s1)) with true. cbv beta match. wstep.
    change (DBLock_ (shares s1)) with (DBLock_ (shares s)).
    change (globalShareContainerNameLock_ (shares s1)) with (globalShareContainerNameLock_ (shares s)). by rewrite Es. }
  destruct target as [a|].
  - destruct (ri_nodes _ _ _ _ _ HR a uid HT) as (rb & Hr & Hw). pose proof (wb_name _ _ Hw) as (j & nm' & En & Hj & _).
    pose proof (length_recData _ _ Hw) as Hd. pose proof Hw as [_ Wb Wl _ _].
    wstep. wstep. apply (wps_loadRecipe a rb); [done|]. eapply wps_lift.
    { unfold strcmpEq. rewrite En, (containerName_cstr _ _ [] Hj), (containerName_cstr _ _ rest Hi). done. }
    case_bool_decide as E.
    + subst nm'. wstep. apply (wps_loadRecipe a rb); [done|]. wstep. eapply wps_lift.
      { rewrite sz_ok by lia. cbn [mbind res_bind]. rewrite memcpy_ok by lia. done. }
      rewrite drop_0. cbn [take app]. apply Hun. cbn [fst snd]. split; [done|]. exists a, rb.
      split_and!; [done|done|done|]. by rewrite Hd.
    + apply Hun. split; [done|]. cbn [fst snd]. split; [done|]. intros a' rb' Ha' Hr' En'.
      assert (a' = a) as ->.
      { apply list_elem_of_lookup in HT as [j1 L1], Ha' as [j2 L2]. assert (j1 = j2) as <-; [|congruence].
        pose proof (inv_users _ _ _ _ _ _ HIs) as Hnd. rewrite <- snd_idsOf in Hnd.
        eapply NoDup_lookup; [exact Hnd|..]; rewrite list_lookup_fmap, ?L1, ?L2; done. }
      rewrite Hr in Hr'. simplify_eq. rewrite En in En'. by apply app_inj_tail in En' as [-> _].
  - wstep. wstep. apply Hun. split; [done|]. cbn [fst snd]. split; [done|]. intros a' rb' Ha'. by destruct (HT a').
Qed.

(** The recipe buffer after the recipe file was read. *)
Lemma openRecipe_spec A I F s l k b kr bi uid nm i rest c loc off y (Q : bool -> DedupCore W -> Prop) :
  unlockedD s -> DInv A I F s l k b kr bi -> isRecipeName i nm -> holds s (idsOf l) uid nm c -> recipeAt c off y ->
  length (rRecipe loc) = RECIPE_BUFFER_SIZE ->
  wps (openRecipe uid (nm ++ Byte.x00 :: rest) loc) (fun r s' => s' = s /\
    rRecipe r.2 = c ++ drop (length c) (rRecipe loc) /\ rBuf r.2 = rBuf loc /\ rOff r.2 = rOff loc /\
    rCache r.2 = rCache loc) Q s.
Proof.
  intros [(U1 & U2 & U3) U4] HI Hi Hh Hat Hl. pose proof HI as [_ HR _ _].
  assert (length c <= RECIPE_BUFFER_SIZE)%nat as Hcl by (by destruct Hat as (rc & pre & post & _ & _ & _ & _ & _ & ?)).
  pose proof (recipeAt_nonempty _ _ _ Hat) as Hne.
  unfold openRecipe. wstep. eapply wps_post; [by eapply readFromBufferD_spec|].
  intros [found recipe] s' [-> Hb]. cbn [fst snd] in Hb. cbv beta match. destruct found.
  - destruct Hb as (a & rb & Ha & Hr & En & ->). wstep. split; [done|]. cbn [snd rRecipe rBuf rOff rCache].
    assert (c = recData rb) as ->; [|done]. destruct Hh as [(a' & rb' & Ha' & Hr' & En' & ->)|Hd].
    + assert (a = a') as <- by (eapply (ri_inj _ _ _ _ _ HR); try done; congruence). congruence.
    + rewrite (ri_absent _ _ _ _ _ HR a uid rb nm Ha Hr En) in Hd. done.
  - destruct Hb as [-> Hno]. destruct Hh as [(a' & rb' & Ha' & Hr' & En' & ->)|Hd]; [by destruct (Hno a' rb' Ha' Hr')|].
    wstep. eapply wps_lift; [by eapply containerName_cstr|]. wstep. wstep.
    rewrite (containerName_prefix i) by done. fold (recipePath s nm). wstep. wstep.
    rewrite fopen_rb_reliable by (by eexists). cbn [negb]. wstep. wstep.
    rewrite fread_reliable. unfold disk in Hd. rewrite Hd. change (default [] (Some c)) with c. rewrite drop_0, take_ge by done.
    wcase E; [done|]. wstep. eapply wps_lift; [apply (wr_next [] (rRecipe loc) 0); [done|lia]|]. wstep. done.
Qed.

(** ** The entries of the recipe *)

(** [s'] is [s] after sending [msgs]. *)
Definition sendsToD s s' (msgs : list bytes) : Prop := exists x, s' = set_shares s x /\ sendsTo (shares s) x msgs.

Lemma sendsToD_Inv A s s' m l k b :
  sendsToD s s' m -> Inv digest A (shares s) l k b -> unlocked (shares s) ->
  Inv digest A (shares s') l k b /\ unlocked (shares s') /\ Cof s' l = Cof s l.
Proof. intros (x & -> & HS) HI U. by apply (sendsTo_Inv _ _ _ _ _ _ _ _ HS). Qed.

Lemma restoreEntryD_spec A s nl k b inB path loc out sentOut pre e post roff (Q : bool -> DedupCore W -> Prop) :
  unlocked (shares s) -> Inv digest A (shares s) nl k b -> restoring (Cof s nl) loc out sentOut ->
  rRecipe loc = pre ++ encodeEntry e ++ post -> roff = Z.of_nat (length pre) -> wfEntry e -> is_Some (A (re_fp e)) ->
  wps (restoreEntry inB path (roff, loc)) (fun st s' => exists share sentOut',
    digest share = re_fp e /\ st.1 = Z.of_nat (length (pre ++ encodeEntry e)) /\ rRecipe st.2 = rRecipe loc /\
    restoring (Cof s nl) st.2 (out ++ [encodeRestored (re_secretID e) (re_secretSize e) share]) (sentOut ++ sentOut') /\
    sendsToD s s' (message <$> sentOut')) Q s.
Proof.
  intros U HI HR Er -> We [info HA]. pose proof We as (Hfp & Hi1 & Hi2). pose proof lim_recipe_max as Hmax.
  pose proof HR as (past & last & E1 & Eg & En & E2 & E3 & E4 & E5 & E6). pose proof (length_encodeEntry e We) as Hel.
  assert (length pre + 40 <= RECIPE_BUFFER_SIZE)%nat as Hfit.
  { rewrite <- E6, Er, !length_app, Hel. unfold fileRecipeEntrySize_. lia. }
  unfold restoreEntry, refillRecipe. wstep. cbn [fst snd].
  destruct (Z.gtb_spec (Z.of_nat (length pre) + Z.of_nat fileRecipeEntrySize_) (Z.of_nat RECIPE_BUFFER_SIZE)) as [Hbig|_];
    [unfold fileRecipeEntrySize_ in *; lia|].
  wstep. cbv beta match. wstep. eapply wps_lift; [apply sz_ok; lia|]. rewrite Nat2Z.id. wstep.
  eapply wps_lift; [rewrite Er; unfold encodeEntry; rewrite <- !app_assoc; by apply rd_mid|]. wstep.
  eapply wps_lift; [apply sint_ok; unfold fileRecipeEntrySize_; lia|]. wstep.
  apply wps_lockDB; [apply U|]. wstep. wstep. wstep. apply wps_unlockDB; [apply U|].
  change (theWorld (set_shares s (set_locks (shares s) true (bufferLock_ (shares s))
    (globalShareContainerNameLock_ (shares s))))) with (theWorld s).
  rewrite get_reliable. pose proof (inv_index _ _ _ _ _ _ HI) as [HRep _]. unfold theWorld. rewrite HRep, HA.
  cbn [fmap option_fmap option_map]. wstep. apply wps_onShares. eapply wps_post.
  { eapply (restoreShare_spec digest A (shares s) nl k b (re_fp e) info loc out sentOut (re_secretID e) (re_secretSize e) pre post);
      [done|done|done|done| |done|done|done|done].
    rewrite Er. unfold encodeEntry. by rewrite <- !app_assoc. }
  intros loc' x (share & sentOut' & Hd & _ & Hpos & Hrec & HR' & HS). wstep. exists share, sentOut'. cbn [fst snd].
  split_and!; [done| |done|done|by exists x].
  rewrite length_app, Hel. lia.
Qed.

(** The state of the loop after [i] entries. *)
Definition restoredI s nl (es : list RecipeEntry) (c0 hd : bytes) (pre : bytes) (i : nat) (st : Z * restoreLocals) s' : Prop :=
  exists shs sentOut,
    Forall2 (fun e share => digest share = re_fp e) (take i es) shs /\
    st.1 = Z.of_nat (length (pre ++ encodeEntries (take i es))) /\ rRecipe st.2 = c0 /\
    restoring (Cof s nl) st.2 (hd :: restoredPieces (take i es) shs) sentOut /\
    sendsToD s s' (message <$> sentOut).

Lemma restoreEntries_spec A s nl k b inB path es c0 pre post hd loc roff (Q : bool -> DedupCore W -> Prop) :
  unlocked (shares s) -> Inv digest A (shares s) nl k b -> Forall wfEntry es ->
  Forall (fun e => is_Some (A (re_fp e))) es -> c0 = pre ++ encodeEntries es ++ post ->
  restoring (Cof s nl) loc [hd] [] -> rRecipe loc = c0 -> roff = Z.of_nat (length pre) ->
  wps (forM (length es) 0 (fun _ st => restoreEntry inB path st) (roff, loc))
    (restoredI s nl es c0 hd pre (length es)) Q s.
Proof.
  intros U HI Wes HA Ec HR Er ->. eapply (wps_forM (restoredI s nl es c0 hd pre)).
  - exists [], []. cbn [take fst snd]. split_and!; [by constructor|by rewrite app_nil_r|done|done|].
    exists (shares s). split; [by destruct s|apply sendsTo_nil].
  - intros i [roff' loc'] s' Hi (shs & sentOut & Hsh & Hpos & Hrec & HR' & HS). cbn [fst snd] in *.
    destruct (lookup_lt_is_Some_2 es i) as [e Ee]; [lia|].
    destruct (sendsToD_Inv A s s' _ nl k b HS HI U) as (HI' & U' & EC).
    assert (wfEntry e) as We by (eapply (Forall_lookup_1 _ _ _ _ Wes); exact Ee).
    assert (is_Some (A (re_fp e))) as HAe by (eapply (Forall_lookup_1 _ _ _ _ HA); exact Ee).
    eapply wps_post.
    { eapply (restoreEntryD_spec A s' nl k b inB path loc' _ sentOut (pre ++ encodeEntries (take i es)) e
                (encodeEntries (drop (S i) es) ++ post)); [done|done|by rewrite EC| |done|done|done].
      rewrite Hrec, Ec, (encodeEntries_at es i e Ee). by rewrite <- !app_assoc. }
    intros [roff'' loc''] s'' (share & sentOut' & Hd & Hpos' & Hrec' & HR'' & HS'). cbn [fst snd] in *.
    assert (length (take i es) = length shs) as Hls by (by eapply Forall2_length).
    exists (shs ++ [share]), (sentOut ++ sentOut'). cbn [fst snd]. rewrite (take_S_r es i e Ee). split_and!.
    + apply Forall2_app; [done|]. by constructor.
    + rewrite Hpos', encodeEntries_app, <- !app_assoc. do 4 f_equal. unfold encodeEntries. cbn. by rewrite app_nil_r.
    + congruence.
    + rewrite restoredPieces_snoc by done. by rewrite EC in HR''.
    + rewrite fmap_app. destruct HS as (x & -> & HS), HS' as (x' & -> & HS'). exists x'. split; [by destruct s|].
      by eapply sendsTo_trans.
Qed.

(** What is sent for a file: its head and for each entry a share with its fingerprint;
    every message holds whole pieces. *)
Definition restoredFile (size : Z) (es : list RecipeEntry) (payloads : list bytes) : Prop :=
  exists shs pad, Forall2 (fun e share => digest share = re_fp e) es shs /\ length pad = 4%nat /\
    grouped ((le64 size ++ le32 (Z.of_nat (length es)) ++ pad) :: restoredPieces es shs) payloads /\
    Forall (fun m => length m <= SHARE_FILE_BUFFER_SIZE)%nat payloads.

(** The recipe in the recipe buffer. *)
Lemma recipe_fields {R} c off (y : Content) tail :
  recipeAt c off y ->
  exists pre post, c ++ tail = pre ++ encodeEntries y.2 ++ post /\ length pre = (off + 24)%nat /\
    getI64 (R := R) (c ++ tail) (off + 8) = Ok y.1 /\
    getI32 (R := R) (c ++ tail) (off + 16) = Ok (Z.of_nat (length y.2)) /\ Forall wfEntry y.2.
Proof.
  intros (rc & pre & post & <- & <- & Wr & -> & <- & Hl). pose proof (length_encodeHead rc Wr) as Hh.
  destruct Wr as [W1 W2 W3 W4 W5]. exists (pre ++ encodeHead rc), (post ++ tail). split_and!; [| | | |done].
  - unfold encodeRecipe. by rewrite <- !app_assoc.
  - rewrite length_app, Hh. done.
  - eapply (getI64_at (pre ++ le32 (rc_user rc) ++ rc_pad1 rc)); [| |done].
    + unfold encodeRecipe, encodeHead. rewrite <- !app_assoc. reflexivity.
    + rewrite !length_app, length_le32, W1. lia.
  - eapply (getI32_at (pre ++ le32 (rc_user rc) ++ rc_pad1 rc ++ le64 (rc_fileSize rc))); [| |done].
    + unfold encodeRecipe, encodeHead. rewrite <- !app_assoc. reflexivity.
    + rewrite !length_app, length_le32, length_le64, W1. lia.
Qed.

Lemma restoreFound_spec A I F s l k b kr bi uid i vs (ver : nat) v (y : Content) (Q : bool -> DedupCore W -> Prop) :
  unlockedD s -> DInv A I F s l k b kr bi -> wfInode bi i -> in_body i = FileBody vs -> vs !! ver = Some v ->
  versionHolds s (idsOf l) uid v y -> Forall (fun e => is_Some (A (re_fp e))) y.2 ->
  wps (restoreFound uid (- Z.of_nat ver) (encodeInode i)) (fun _ s' => exists payloads,
    restoredFile y.1 y.2 payloads /\ sendsToD s s' (message <$> payloads)) Q s.
Proof.
  intros U HI Hw Eb Hv (c & Hh & Hat) HA. pose proof HI as [HIs HR HN Hbi]. pose proof lim_cached as Hnum.
  pose proof lim_recipe_max as Hmax.
  apply lookup_lt_Some in Hv as Hlt. pose proof (wi_count _ _ Hw) as Hcnt. rewrite Eb in Hcnt. cbn in Hcnt.
  destruct (version_at bi i Hw vs ver v Eb Hv) as (_ & _ & _ & _ & [j Hj] & Ho).
  destruct (versionEntry_spec (R := bool * DedupCore W) bi i Hw ltac:(lia) vs ver v Eb Hv) as [rest Ever].
  unfold restoreFound. do 4 (wstep; wstep).
  set (cache := {| cacheNodes := _; cacheIndex := _; numCached := _ |}). wstep.
  eapply wps_lift; [eapply (get_children bi); [done|lia]|]. wstep.
  eapply wps_lift; [apply sint_ok; lia|]. rewrite Z.opp_involutive, Eb. cbn [bodyCount].
  destruct (Z.geb_spec (Z.of_nat ver) (Z.of_nat (length vs))) as [?|_]; [lia|].
  wstep. eapply wps_lift; [exact Ever|]. wstep. eapply wps_post.
  { eapply (openRecipe_spec A I F s l k b kr bi uid (v_file v) j rest c); try done. cbn. apply uninit_length. }
  intros [[inB path] loc] s' (-> & Erec & Ebuf & Eoff & Ecache). cbn [snd] in *. cbv beta match.
  cbn [rRecipe rBuf rOff rCache] in Erec, Ebuf, Eoff, Ecache.
  assert (length c <= RECIPE_BUFFER_SIZE)%nat as Hcl by (by destruct Hat as (rc & pre & post & _ & _ & _ & _ & _ & ?)).
  set (tail := drop (length c) _) in Erec.
  destruct (recipe_fields (R := bool * DedupCore W) c (v_off v) y tail Hat) as (pre & post & Ec & Hpre & G1 & G2 & Wes).
  rewrite <- Erec in Ec, G1, G2.
  assert (length (rRecipe loc) = RECIPE_BUFFER_SIZE) as Hrl.
  { rewrite Erec, length_app. unfold tail. rewrite length_drop, uninit_length. lia. }
  assert (v_off v + 24 <= RECIPE_BUFFER_SIZE)%nat as Hvo by (rewrite <- Hrl, Ec, length_app, Hpre; lia).
  wstep. eapply wps_lift; [unfold lfield; rewrite sz_ok by lia; cbn [mbind res_bind]; rewrite Nat2Z.id; exact G1|].
  wstep. eapply wps_lift; [unfold field; rewrite sz_ok by lia; cbn [mbind res_bind]; rewrite Nat2Z.id; exact G2|].
  wstep. eapply wps_lift; [apply sint_ok; unfold fileRecipeHeadSize_; lia|].
  destruct (shareFileHead_spec (R := bool * DedupCore W) (uninit (theWorld s) sentShareFileBufferSize)
              y.1 (Z.of_nat (length y.2)) (uninit_length _ _)) as (b1 & b2 & pad & E1 & E2 & Hpad & HB).
  rewrite Ebuf. wstep. eapply wps_lift; [exact E1|]. wstep. eapply wps_lift; [exact E2|]. wstep.
  rewrite Nat2Z.id. eapply wps_post.
  { eapply (restoreEntries_spec A s l k b inB path y.2 (rRecipe loc) pre post
              (le64 y.1 ++ le32 (Z.of_nat (length y.2)) ++ pad)); try done; [apply U| |].
    - exists [], [le64 y.1 ++ le32 (Z.of_nat (length y.2)) ++ pad]. split; [done|]. split; [apply grouped_nil|]. split; [done|].
      cbn [rBuf rOff rCache rRecipe mjoin list_join]. rewrite app_nil_r.
      split; [done|]. split; [by rewrite !length_app, length_le64, length_le32, Hpad|].
      split; [|split; [by constructor|done]]. rewrite Ecache.
      split; cbn; rewrite ?length_replicate; try done; try lia.
      + apply Forall_replicate. cbn. apply uninit_length.
      + by apply Forall_replicate.
    - rewrite Hpre. unfold fileRecipeHeadSize_. lia. }
  intros [roff' loc'] s' (shs & sentOut & Hsh & _ & _ & (past & last & Eout & Hgr & Hne & HBp & Eo & _ & Hm & _) & (x & -> & HS)).
  cbn [fst snd] in *. rewrite take_ge in Hsh, Eout by lia. cbv beta match.
  assert (mjoin last <> []) as Hne' by (eapply restoredPieces_last; [|exact Eout|done]; by apply shareFileHead_nonempty).
  rewrite (proj2 (Nat.ltb_lt _ _)) by (destruct (mjoin last); [done|]; cbn [length] in Eo; lia).
  wstep. apply wps_onShares. eapply wps_post; [by eapply (sendBuffer_spec x _ (mjoin last))|].
  intros buf' x' [HS' _]. wstep. exists (sentOut ++ [mjoin last]). split.
  - exists shs, pad. split_and!; [done|done| |].
    + rewrite Eout. apply grouped_app; [done|by apply grouped_one].
    + apply Forall_app. split; [done|]. apply list.Forall_singleton. by eapply bufferHolds_bound.
  - exists x'. split; [by destruct s|]. rewrite fmap_app. by eapply sendsTo_trans.
Qed.

Lemma restoreD_spec {ret} A I F s l k b kr bi uid full name (ver : nat) (y : Content) (Q : ret -> DedupCore W -> Prop) :
  unlockedD s -> DInv A I F s l k b kr bi -> formatFullFileName_ full = Some name ->
  (forall e, I (inodeFP digest uid name) = Some e -> en_user e = uid) ->
  F (inodeFP digest uid name) !! ver = Some y -> Forall (fun e => is_Some (A (re_fp e))) y.2 ->
  wps (restoreShareFile uid full (- Z.of_nat ver) (Some crypto)) (fun ok s' => ok = true /\ exists payloads,
    restoredFile y.1 y.2 payloads /\ sendsToD s s' (message <$> payloads)) Q s.
Proof.
  intros U HI Ename HO Hy HA. pose proof HI as [HIs HR HN Hbi]. set (fp := inodeFP digest uid name) in *.
  unfold restoreShareFile. wstep. rewrite Ename. wstep. wstep. wstep.
  eapply wps_lift; [apply (fileName2InodeFP_spec digest crypto), uninit_length|]. wstep.
  apply wps_lockDB; [apply U|]. wstep. wstep. wstep. apply wps_unlockDB; [apply U|].
  change (theWorld (set_shares s (set_locks (shares s) true (bufferLock_ (shares s))
    (globalShareContainerNameLock_ (shares s))))) with (theWorld s). fold fp.
  rewrite get_reliable. specialize (HN fp).
  destruct (decide (isFileInode (I fp))) as [Hf|Hf]; [|by rewrite (ri_empty _ _ _ _ _ HR fp Hf) in Hy].
  destruct (I fp) as [e|] eqn:Ei; [|done]. destruct HN as (i & Hw & <- & Ek). rewrite Ek. cbn in Hf.
  destruct (in_body i) as [vs|] eqn:Eb; [|done].
  pose proof (ri_files _ _ _ _ _ HR fp _ vs Ei Eb) as HF2. rewrite (HO _ eq_refl) in HF2.
  destruct (Forall2_lookup_r _ _ _ _ _ HF2 Hy) as (v & Hv & Hh).
  wstep. eapply wps_post; [by eapply (restoreFound_spec A I F s l k b kr bi uid i vs ver v y)|].
  intros [] s' HP. wstep. by split.
Qed.
End Restore.
