(* ===== verification/DedupTheorems.v ===== *)
(** * Theorems on the metadata server

    What DedupCore guarantees: the inode index, and files that are uploaded,
    kept and restored version by version. *)

From stdpp Require Import base list numbers gmap functions.
From coqutil Require Import Byte.
From Stdlib Require Import Lia.
From S2P Require Import Prelude Structs FileNames World CryptoPrimitive MinDedupCore MinStages MinRestore ShareIndex MinInvariant MinNodes MinIndex MinPackage MinUpload MinRestoreProof MinTheorems DedupCore DedupStages Inodes InodeIndex Recipes DedupNodes DedupUpload DedupRestore.

Local Open Scope Z_scope.

Section Claims.
Context {W : Type} {WW : World W} {WL : WorldLaws W} {LM : Limits} {LOK : LimitsOk} {SSL : OpenSSL}
        (digest : bytes -> bytes).
Implicit Types (s : DedupCore W) (I : InodeMap) (F : Files).

(** ** The state of the server *)

(** Every share of every version is referenced. *)
Definition available (A : Index) F : Prop :=
  forall fp y e, y ∈ F fp -> e ∈ y.2 -> exists u, 0 < refsOf u (refs A (re_fp e)).

(** The server between two calls: it serves the versions [F]. *)
Record Serving (A : Index) I F s (l : nodeList) (k b kr bi : Z) : Prop := {
  sv_unlocked : unlockedD s;
  sv_inv : DInv digest A I F s l k b kr bi;
  sv_available : available A F;
}.

Lemma available_some A F fp y : available A F -> y ∈ F fp -> Forall (fun e => is_Some (A (re_fp e))) y.2.
Proof.
  intros HA Hy. apply list.Forall_forall. intros e He. destruct (HA fp y e Hy He) as [u Hu].
  apply (refs_indexed A _ u). lia.
Qed.

Lemma uploaded_elem uid us : forall F fp y,
  y ∈ uploaded digest uid F us fp -> y ∈ F fp \/ exists u, u ∈ us /\ y = contentOf u.
Proof.
  induction us as [|u us IH]; intros F fp y Hy; [by left|].
  change (uploaded digest uid F (u :: us)) with (uploaded digest uid (uploaded digest uid F [u]) us) in Hy.
  apply IH in Hy as [Hy|(u' & Hu' & ->)]; [|right; exists u'; split; [by apply elem_of_cons; right|done]].
  unfold uploaded in Hy. cbn [foldl] in Hy. set (f := inodeFP digest uid (serverName u)) in Hy.
  destruct (decide (f = fp)) as [<-|Hne].
  - rewrite fn_lookup_insert in Hy. apply elem_of_cons in Hy as [->|Hy]; [right|by left].
    exists u. split; [apply elem_of_cons; by left|done].
  - rewrite fn_lookup_insert_ne in Hy by done. by left.
Qed.

Lemma uploaded_snoc uid F us u :
  uploaded digest uid F (us ++ [u]) (inodeFP digest uid (serverName u))
  = contentOf u :: uploaded digest uid F us (inodeFP digest uid (serverName u)).
Proof. unfold uploaded. rewrite foldl_snoc. by rewrite fn_lookup_insert. Qed.

Lemma available_uploaded A A2 F (x : minDedupCore W) l k b uid us :
  Inv digest A x l k b -> available A F ->
  (forall u fp, refsOf u (refs A2 fp) = refsOf u (refs A fp)
     + (if decide (u = uid) then occurrences fp (sharesOf (mdOf <$> us)) else 0)) ->
  available A2 (uploaded digest uid F us).
Proof.
  intros HI HA HC fp y e Hy He.
  assert (forall x, 0 <= occurrences x (sharesOf (mdOf <$> us))) as Hocc by (intros; unfold occurrences; lia).
  apply uploaded_elem in Hy as [Hy|(u & Hu & ->)].
  - destruct (HA fp y e Hy He) as [v Hv]. exists v. rewrite HC. specialize (Hocc (re_fp e)). case_decide; lia.
  - exists uid. rewrite HC, decide_True by done. pose proof (refsOf_nonneg _ _ _ _ _ _ uid (re_fp e) HI) as Hn.
    cbn [contentOf snd] in He. apply list_elem_of_fmap in He as (m & -> & Hm). cbn [re_fp recipeEntryOf] in *.
    assert (m ∈ filter (fun x => sm_fp x = sm_fp m) (sharesOf (mdOf <$> us))) as Hin.
    { apply list_elem_of_filter. split; [done|]. unfold sharesOf. rewrite <- list_fmap_compose.
      apply list_elem_of_join. exists (up_shares u). split; [done|]. apply list_elem_of_fmap. by exists u. }
    unfold occurrences. destruct (filter _ _); [by apply not_elem_of_nil in Hin|]. cbn [length]. lia.
Qed.

(** ** Upload *)

(** Files that can be added: whole files, well formed, whose names are not
    confused with others, within the limits of the counters. *)
Record goodFiles uid I (kr bi : Z) (us : list Upload) : Prop := {
  gf_wf : Forall wfUpload us;
  gf_names : goodNames digest uid I (serverName <$> us);
  gf_inodes : bi + inodeCost us < 2 ^ 24;
  gf_recipes : kr + 1 + Z.of_nat (length us) <= 26 ^ 12 - 1;
}.

Lemma upload_files {REL : ReliableWorld W} (crypto : CryptoPrimitive) {HOK : HashOk crypto FP_SIZE digest}
    uid A I F s l k b kr bi us slack data stat fuel :
  Serving A I F s l k b kr bi -> goodFiles uid I kr bi us ->
  goodUpload digest uid A b (mdOf <$> us) slack data stat fuel ->
  let fs := mdOf <$> us in
  let n := length (sharesOf fs) in
  let md := encodePackage fs ++ slack in
  let mdSize := Z.of_nat (length (encodePackage fs)) in
  exists s1 s2 A2 I2 l2 k2 kr2,
    firstStageDedup (ret := False) fuel uid md mdSize stat s
      = Ok ((true, (flagsOf uid A fs stat, n, totalSize (toSend uid A (sharesOf fs)))), s1) /\
    secondStageDedup (ret := False) fuel uid md mdSize (flagsOf uid A fs stat) data (Some crypto) s1
      = Ok (true, s2) /\
    Serving A2 I2 (uploaded digest uid F us) s2 l2 k2 (b + 1 + 2 * Z.of_nat n) kr2 (bi + inodeCost us) /\
    sameDirs s s2 /\ usersKept uid I I2 /\
    (forall u fp, refsOf u (refs A2 fp)
       = refsOf u (refs A fp) + (if decide (u = uid) then occurrences fp (sharesOf fs) else 0)).
Proof.
  intros [U HI HA] [Gw Gn Gi Gr] [Hu Hwf Hval Hfuel Hst HB Hmd Hdl Hsz Htot Hauth] fs n md mdSize.
  rewrite length_fmap in Hfuel. set (flags := flagsOf uid A fs stat).
  destruct (wps_result (ret := False) (firstStageDedup fuel uid md mdSize stat) _ s
    (firstStageD_spec digest uid A I F s l k b kr bi us slack stat fuel (fun _ _ => False) Hu Hmd U HI Gw Hfuel Hst
       ltac:(lia) ltac:(lia))) as (r & s1 & E1 & U1 & SD1 & HI1 & ->).
  assert (selected flags (sharesOf fs) = toSend uid A (sharesOf fs)) as Esel by apply selected_toSend.
  destruct (wps_result (ret := False) (secondStageDedup fuel uid md mdSize flags data (Some crypto)) _ s1
    (secondStageD_spec digest crypto uid _ I F s1 l k _ kr bi us slack flags data fuel (fun _ _ => False) Hu Hmd Hdl U1
       HI1 Gw Hfuel ltac:(unfold flags, flagsOf, dupFlags, fs; rewrite length_app, length_fmap; lia) ltac:(lia)
       ltac:(fold fs; by rewrite Esel) ltac:(fold fs; by rewrite Esel) ltac:(fold fs; by rewrite Esel) Gn Gi Gr))
    as (ok & s2 & E2 & -> & U2 & SD2 & A2 & I2 & l2 & k2 & kr2 & HI2 & Hkr2 & HU & HC).
  fold fs in HC. rewrite Esel in HC.
  assert (forall u fp, refsOf u (refs A2 fp)
       = refsOf u (refs A fp) + (if decide (u = uid) then occurrences fp (sharesOf fs) else 0)) as HC2
    by (intros u fp; by eapply upload_counts).
  exists s1, s2, A2, I2, l2, k2, kr2. split_and!; [done|done| | |done|done].
  - split; [done| |].
    + eapply DInv_budget; [exact HI2|unfold n, fs; lia|]. destruct HI2. lia.
    + eapply available_uploaded; [apply HI|done|exact HC2].
  - destruct SD1 as (? & ? & ?), SD2 as (? & ? & ?). split_and!; congruence.
Qed.

(** ** Restoration *)

Lemma Serving_sent A I F s s' l k b kr bi msgs :
  sendsToD s s' msgs -> Serving A I F s l k b kr bi ->
  Serving A I F s' l k b kr bi /\ sent (view (theWorld s')) = sent (view (theWorld s)) ++ msgs.
Proof.
  intros (x & -> & HS) [[U U4] [HIs HR HN Hbi] HA].
  destruct (sendsTo_Inv digest A (shares s) x msgs l k b HS HIs U) as (HI' & U' & _).
  destruct HS as (w & -> & Ec & Ef & Es). split; [|done]. split; [by split| |done]. split; [done| | |done].
  - apply (RInv_same I F s); [by eapply inodes_names| |done]. split; try done.
    intros i nm Hi. unfold disk, recipePath, theWorld. cbn. by rewrite Ef.
  - unfold theWorld. cbn. by rewrite Ec.
Qed.

Lemma restore_file {REL : ReliableWorld W} (crypto : CryptoPrimitive) {HOK : HashOk crypto FP_SIZE digest}
    uid A I F s l k b kr bi full name ver y :
  Serving A I F s l k b kr bi -> formatFullFileName_ full = Some name -> ownFile digest uid I name ->
  F (inodeFP digest uid name) !! ver = Some y ->
  exists s' payloads,
    restoreShareFile (ret := False) uid full (- Z.of_nat ver) (Some crypto) s = Ok (true, s') /\
    restoredFile digest y.1 y.2 payloads /\ Serving A I F s' l k b kr bi /\
    sent (view (theWorld s')) = sent (view (theWorld s)) ++ (message <$> payloads).
Proof.
  intros HS Ename HO Hy. pose proof HS as [U HI HA].
  destruct (wps_result (ret := False) (restoreShareFile uid full (- Z.of_nat ver) (Some crypto)) _ s
    (restoreD_spec digest crypto A I F s l k b kr bi uid full name ver y (fun _ _ => False) U HI Ename HO Hy
       ltac:(eapply available_some; [done|by eapply list_elem_of_lookup_2])))
    as (ok & s' & E & -> & payloads & HP & HSD).
  destruct (Serving_sent _ _ _ _ _ _ _ _ _ _ _ HSD HS) as [HS' Es]. by exists s', payloads.
Qed.

(** ** Shutdown *)

(** The nodes are written out and freed one by one; the ends of the list stay as they
    are, so the invariant is stated with the ends the rest of the list would have. *)
Lemma cleanupNodesD_spec {REL : ReliableWorld W} A I F l2 : forall fuel s k b kr bi curr (Q : bool -> DedupCore W -> Prop),
  (length l2 <= fuel)%nat -> DBLock_ (shares s) = false ->
  DInv digest A I F (set_shares s (set_ends (shares s) curr (lastPtr l2))) l2 k b kr bi -> chain curr l2 ->
  wps (cleanupNodes flushBufferNodeIntoDisk_ fuel curr) (fun _ s' => dframe s s' /\
    DInv digest A I F (set_shares s' (set_ends (shares s') None None)) [] k b kr bi) Q s.
Proof.
  induction l2 as [|[a n] l2 IH]; intros fuel s k b kr bi curr Q Hf U HI Hc.
  { cbn in Hc. subst curr. destruct fuel; cbn [cleanupNodes]; wstep; by split. }
  destruct Hc as [-> Hc]. destruct fuel as [|fuel]; cbn in Hf; [lia|]. cbn [cleanupNodes].
  pose proof HI as [HIs HR HN Hbi]. destruct (Inv_node _ _ _ [] _ _ _ _ _ HIs) as [Ha Hwn].
  destruct (DInv_recipe digest _ _ _ _ [] _ _ _ _ _ _ _ HI) as [r Hr].
  assert (RInv I F s (idsOf ((a, n) :: l2)) kr) as HR'.
  { eapply RInv_same; [by eapply inodes_names| |exact HR]. by split. }
  wstep. eapply wps_post; [eapply flushNode_spec; try done; cbn; set_solver|].
  intros ok s' [-> (w & nm & -> & Hw)]. cbn [negb].
  wstep. apply wps_onShares, (wps_load _ n); [done|]. wstep. eapply wps_freeNode; [done|].
  destruct (DInv_remove_head digest _ _ _ _ _ _ _ _ _ _ _ _ _ w HI Hr Hw) as (_ & _ & HI2 & F2).
  eapply wps_post.
  { eapply (IH fuel _ k b kr bi); [lia|done| |done].
    replace (lastPtr l2) with (if decide (l2 = []) then None else lastPtr ((a, n) :: l2)); [exact HI2|].
    case_decide as E; [by rewrite E|]. destruct l2; [done|]. apply lastPtr_cons. }
  intros _ s' (F3 & HI'). split; [|done]. destruct F2, F3. unfold theWorld in *. cbn in *. split; unfold theWorld; congruence.
Qed.


(** C27: the inode index.  For a name whose inodes are not confused with others,
    addFileIntoInodeIndex_ succeeds in an environment without faults and makes
    exactly the abstract update: the file gets the version (recipe file and offset of
    the user's buffer) in front of its older ones, other files keep theirs, and a new
    file is reachable: every directory of its path has the inode below it as a child.
    Nothing but inodes in the database changes. *)
Theorem addFileIntoInodeIndex_correct {REL : ReliableWorld W} (crypto : CryptoPrimitive)
    {HOK : HashOk crypto FP_SIZE digest} b I s (a : positive) r i (name rname : bytes) uid :
  DBLock_ (shares s) = false -> inodes b I (contents (view (theWorld s))) ->
  noClash digest I uid name -> int32 uid -> Z.of_nat (length name) + 1 < 2 ^ 29 ->
  0 <= b -> b + 1 + Z.of_nat (length (dirsOf name)) < 2 ^ 24 ->
  recipes s !! a = Some r -> recipeFileName r = rname ++ [Byte.x00] -> isRecipeName i rname ->
  0 <= recipeFileBufferCurrLen r < 2 ^ 31 ->
  let v := {| v_file := rname; v_off := Z.to_nat (recipeFileBufferCurrLen r) |} in
  let I' := addFileSpec digest uid name v I in
  exists s', addFileIntoInodeIndex_ (ret := False) name uid (Some a) crypto s = Ok (true, s') /\
    inodeFrame s s' /\
    inodes (b + 1 + Z.of_nat (length (dirsOf name))) I' (contents (view (theWorld s'))) /\
    (forall fp, versionsOf I' fp = if decide (fp = inodeFP digest uid name) then v :: versionsOf I fp
                                   else versionsOf I fp) /\
    (I (inodeFP digest uid name) = None -> onPath digest I' uid (inodeFP digest uid name) (dirsOf name)).
Proof.
  intros U HI HC Hu Hl Hb0 Hb Ha En Hn Hc v I'.
  destruct (wps_result (ret := False) (addFileIntoInodeIndex_ name uid (Some a) crypto) _ s
    (addFile_spec digest crypto b I s a r i name rname uid (fun _ _ => False) U HI HC Hu Hl Hb0 Hb Ha En Hn Hc))
    as (ok & s' & E & F & Hok & J & HJ & EJ).
  rewrite (EJ REL) in HJ. rewrite (Hok REL) in E. exists s'. split_and!; [done|done|done| |].
  - intros fp. by apply addFileSpec_versions.
  - intros HN. unfold I', addFileSpec. rewrite HN. apply dirsSpec_path.
    destruct HC as [_ HF]. eapply list.Forall_impl; [exact HF|]. cbn. intros d [H1 H2].
    by rewrite fn_lookup_insert_ne.
Qed.

(** C13: uploading files.  In an environment without faults, for a package of whole
    files of a correct client, the first stage answers exactly which shares the user
    owns, the second stage succeeds, and afterwards the server serves, on top of the
    versions it served before, one new version of every file of the package, in
    order; the reference counters grow by the shares of the package. *)
Theorem uploadFiles_correct {REL : ReliableWorld W} (crypto : CryptoPrimitive) {HOK : HashOk crypto FP_SIZE digest}
    uid A I F s l k b kr bi us slack data stat fuel :
  Serving A I F s l k b kr bi -> goodFiles uid I kr bi us ->
  goodUpload digest uid A b (mdOf <$> us) slack data stat fuel ->
  let fs := mdOf <$> us in
  let n := length (sharesOf fs) in
  let md := encodePackage fs ++ slack in
  let mdSize := Z.of_nat (length (encodePackage fs)) in
  exists s1 s2 A2 I2 l2 k2 kr2,
    firstStageDedup (ret := False) fuel uid md mdSize stat s
      = Ok ((true, (flagsOf uid A fs stat, n, totalSize (toSend uid A (sharesOf fs)))), s1) /\
    secondStageDedup (ret := False) fuel uid md mdSize (flagsOf uid A fs stat) data (Some crypto) s1
      = Ok (true, s2) /\
    Serving A2 I2 (uploaded digest uid F us) s2 l2 k2 (b + 1 + 2 * Z.of_nat n) kr2 (bi + inodeCost us) /\
    sameDirs s s2 /\ usersKept uid I I2 /\
    (forall u fp, refsOf u (refs A2 fp)
       = refsOf u (refs A fp) + (if decide (u = uid) then occurrences fp (sharesOf fs) else 0)).
Proof. exact (upload_files crypto uid A I F s l k b kr bi us slack data stat fuel). Qed.

(** C14: restoring a version.  In an environment without faults, restoreShareFile
    with version number [-ver] succeeds for every version the server serves: the
    payloads it sends are, joined, the size of the file, the number of its shares and,
    entry by entry of that version's recipe, the secret's id and size and a share with
    the entry's fingerprint; no payload exceeds the share file buffer; and the server
    still serves the same versions. *)
Theorem restoreVersion_correct {REL : ReliableWorld W} (crypto : CryptoPrimitive) {HOK : HashOk crypto FP_SIZE digest}
    uid A I F s l k b kr bi full name ver y :
  Serving A I F s l k b kr bi -> formatFullFileName_ full = Some name -> ownFile digest uid I name ->
  F (inodeFP digest uid name) !! ver = Some y ->
  exists s' payloads,
    restoreShareFile (ret := False) uid full (- Z.of_nat ver) (Some crypto) s = Ok (true, s') /\
    restoredFile digest y.1 y.2 payloads /\ Serving A I F s' l k b kr bi /\
    sent (view (theWorld s')) = sent (view (theWorld s)) ++ (message <$> payloads).
Proof. exact (restore_file crypto uid A I F s l k b kr bi full name ver y). Qed.

(** C7: round trip of files.  In an environment without faults, after a package of
    whole files has been uploaded, restoring the last file of the package delivers its
    size and, in order, its shares; if the server had a version of it before (and the
    package has no other file of that name), restoring version -1 still delivers that
    older version. *)
Theorem upload_restore_file_roundtrip {REL : ReliableWorld W} (crypto : CryptoPrimitive)
    {HOK : HashOk crypto FP_SIZE digest} uid A I F s l k b kr bi us u slack data stat fuel :
  Serving A I F s l k b kr bi -> goodFiles uid I kr bi (us ++ [u]) ->
  goodUpload digest uid A b (mdOf <$> us ++ [u]) slack data stat fuel ->
  let fs := mdOf <$> us ++ [u] in
  let md := encodePackage fs ++ slack in
  let mdSize := Z.of_nat (length (encodePackage fs)) in
  let fp := inodeFP digest uid (serverName u) in
  exists s1 s2 s3 payloads flags n total,
    firstStageDedup (ret := False) fuel uid md mdSize stat s = Ok ((true, (flags, n, total)), s1) /\
    secondStageDedup (ret := False) fuel uid md mdSize flags data (Some crypto) s1 = Ok (true, s2) /\
    restoreShareFile (ret := False) uid (up_name u) 0 (Some crypto) s2 = Ok (true, s3) /\
    restoredFile digest (up_size u) (recipeEntryOf <$> up_shares u) payloads /\
    sent (view (theWorld s3)) = sent (view (theWorld s)) ++ (message <$> payloads) /\
    (forall y vs, F fp = y :: vs -> Forall (fun u' => inodeFP digest uid (serverName u') <> fp) us ->
       exists s4 older, restoreShareFile (ret := False) uid (up_name u) (-1) (Some crypto) s3 = Ok (true, s4) /\
         restoredFile digest y.1 y.2 older /\
         sent (view (theWorld s4)) = sent (view (theWorld s3)) ++ (message <$> older)).
Proof.
  intros HS HG HU fs md mdSize fp.
  destruct (upload_files crypto uid A I F s l k b kr bi (us ++ [u]) slack data stat fuel HS HG HU)
    as (s1 & s2 & A2 & I2 & l2 & k2 & kr2 & E1 & E2 & HS2 & SD & HK & _).
  assert (u ∈ us ++ [u]) as Hu by (apply elem_of_app; right; by apply list_elem_of_singleton).
  pose proof (gf_wf _ _ _ _ _ HG) as Hwf. rewrite list.Forall_forall in Hwf. destruct (wu_name _ (Hwf u Hu)) as [name En].
  assert (name = serverName u) as Ename by (unfold serverName; by rewrite En). subst name.
  assert (ownFile digest uid I2 (serverName u)) as HO.
  { eapply ownFile_kept; [done|]. apply (gn_own _ _ _ _ (gf_names _ _ _ _ _ HG)). by apply list_elem_of_fmap_2. }
  pose proof (uploaded_snoc uid F us u) as EF. fold fp in EF.
  destruct (restore_file crypto uid A2 I2 _ s2 l2 k2 _ kr2 _ (up_name u) (serverName u) 0 (contentOf u) HS2 En HO)
    as (s3 & payloads & E3 & HP & HS3 & Es); [fold fp; by rewrite EF|].
  exists s1, s2, s3, payloads, (flagsOf uid A fs stat), (length (sharesOf fs)), (totalSize (toSend uid A (sharesOf fs))).
  split_and!; [exact E1|exact E2|exact E3|exact HP|by destruct SD as (_ & _ & <-)|].
  intros y vs Ey Hne.
  assert (uploaded digest uid F us fp = F fp) as Eus.
  { clear -Hne. revert F Hne. induction us as [|v us IH]; intros F Hne; [done|].
    apply list.Forall_cons in Hne as [Hv Hne].
    change (uploaded digest uid F (v :: us)) with (uploaded digest uid (uploaded digest uid F [v]) us).
    rewrite IH by done. unfold uploaded. cbn [foldl]. by rewrite fn_lookup_insert_ne. }
  destruct (restore_file crypto uid A2 I2 _ s3 l2 k2 _ kr2 _ (up_name u) (serverName u) 1 y HS3 En HO)
    as (s4 & older & E4 & HP4 & _ & Es4); [fold fp; by rewrite EF, Eus, Ey|]. by exists s4, older.
Qed.

(** C29: the inode index survives faults.  In any environment that keeps the
    [WorldLaws], whatever database operation fails, addFileIntoInodeIndex_ neither
    reads nor writes outside of its buffers, returns, leaves everything but inodes
    alone, and the database holds well-formed inodes again. *)
Theorem addFileIntoInodeIndex_safe (crypto : CryptoPrimitive)
    {HOK : HashOk crypto FP_SIZE digest} b I s (a : positive) r i (name rname : bytes) uid :
  DBLock_ (shares s) = false -> inodes b I (contents (view (theWorld s))) ->
  noClash digest I uid name -> int32 uid -> Z.of_nat (length name) + 1 < 2 ^ 29 ->
  0 <= b -> b + 1 + Z.of_nat (length (dirsOf name)) < 2 ^ 24 ->
  recipes s !! a = Some r -> recipeFileName r = rname ++ [Byte.x00] -> isRecipeName i rname ->
  0 <= recipeFileBufferCurrLen r < 2 ^ 31 ->
  exists ok s' I', addFileIntoInodeIndex_ (ret := False) name uid (Some a) crypto s = Ok (ok, s') /\
    inodeFrame s s' /\ inodes (b + 1 + Z.of_nat (length (dirsOf name))) I' (contents (view (theWorld s'))).
Proof.
  intros U HI HC Hu Hl Hb0 Hb Ha En Hn Hc.
  destruct (wps_result (ret := False) (addFileIntoInodeIndex_ name uid (Some a) crypto) _ s
    (addFile_spec digest crypto b I s a r i name rname uid (fun _ _ => False) U HI HC Hu Hl Hb0 Hb Ha En Hn Hc))
    as (ok & s' & E & F & _ & I' & HI' & _). by exists ok, s', I'.
Qed.

(** ** Start *)

Definition noInodes : InodeMap := fun _ => None.
Definition noFiles : Files := fun _ => [].

(** A new object in the environment [w]. *)
Definition newServer (w : W) (rdir cdir : bytes) : DedupCore W :=
  {| shares := MinTheorems.started w cdir; recipes := ∅;
     globalRecipeFileName_ := replicate recipeFileNameValidLen_ letter_a ++ postfix_rf;
     recipeFileDirName_ := rdir; globalRecipeFileNameLock_ := false |}.

Lemma Serving_new (w : W) (rdir cdir : bytes) :
  (forall fp, contents (view w) !! shareFP2IndexKey_ fp = None) ->
  (forall fp, contents (view w) !! inodeFP2IndexKey_ fp = None) ->
  (forall i nm, isRecipeName i nm -> files (view w) !! (rdir ++ nm) = None) ->
  Serving noShares noInodes noFiles (newServer w rdir cdir) [] 0 0 0 0.
Proof.
  intros H1 H2 H3. split; [done| |].
  - split; [by apply Inv_started| |by intros fp; apply H2|done].
    split; try done; try (intros; exfalso; by eapply not_elem_of_nil).
    + exists (replicate 12 letter_a). split_and!; [done| |done|done]. apply Forall_replicate. by unfold isLetter.
    + intros i nm Hi _. by apply (H3 i).
  - intros fp y e Hy. exfalso. by eapply not_elem_of_nil.
Qed.

End Claims.
