(* ===== verification/DedupExamples.v ===== *)
(** * The metadata server on concrete inputs

    Instances of the theorems of DedupTheorems.v on a configuration with small
    buffers, and runs of the model that show where the code loses data or leaves
    its buffers. *)

From stdpp Require Import base list numbers gmap functions.
From coqutil Require Import Byte.
From Stdlib Require Import Lia Strings.String.
From S2P Require Import Prelude Structs FileNames World CryptoPrimitive MinDedupCore MinStages MinRestore ShareIndex MinInvariant MinNodes MinIndex MinPackage MinUpload MinRestoreProof MinTheorems DedupCore DedupStages Inodes InodeIndex Recipes DedupNodes DedupUpload DedupRestore DedupTheorems.

Local Open Scope Z_scope.

Module DedupWitness.
Import SampleSSL.

Definition str (s : string) : bytes := list_byte_of_string s.

#[local] Instance small : Limits := {|
  RECIPE_BUFFER_SIZE := 160; CONTAINER_BUFFER_SIZE := 16; SHARE_FILE_BUFFER_SIZE := 48;
  NUM_OF_CACHED_CONTAINERS := 2; MAX_BUFFER_WAIT := 1000 |}.

Lemma smallD_ok : LimitsOk.
Proof. split; vm_compute; repeat split; try discriminate; lia. Qed.
#[local] Existing Instance smallD_ok.

Abbreviation sha := (digest EVP_sha256).
Abbreviation Mem := (MemWorld false false).

Definition share1 : bytes := str "hello"%string.
Definition share2 : bytes := str "metadata"%string.
Definition share3 : bytes := str "dedup"%string.

Definition entryOf (d : bytes) : ShareMD :=
  {| sm_fp := sha d; sm_secretID := 7; sm_secretSize := 9; sm_size := List.length d |}.
Definition pad : bytes := replicate 4 Byte.x00.
Definition uploadOf (name : string) (shs : list bytes) : Upload :=
  {| up_pad1 := pad; up_pad2 := pad; up_pad3 := pad; up_size := 10; up_coming := 10; up_name := str name; up_shares := entryOf <$> shs |}.

(** A directory with two files; the second file needs a new recipe file. *)
Definition us : list Upload := [uploadOf "a/b"%string [share1; share2]; uploadOf "c"%string [share1; share3]].
Definition data : bytes := share1 ++ share2 ++ share1 ++ share3.
Definition stat0 : list bool := replicate 8 true.
Abbreviation fs := (mdOf <$> us).
Abbreviation md := (encodePackage fs ++ []).
Abbreviation mdSize := (Z.of_nat (List.length (encodePackage fs))).

Definition s0 : DedupCore Mem := newServer (freshMem 1) (str "rf/"%string) (str "sc/"%string).

Lemma s0_Serving : Serving sha noShares noInodes noFiles s0 [] 0 0 0 0.
Proof. apply Serving_new; intros; apply lookup_empty. Qed.

(** A test for [authentic]. *)
Fixpoint authAt (off : nat) (sel : list ShareMD) : bool :=
  match sel with
  | [] => true
  | e :: sel' => bool_decide (sha (take (sm_size e) (drop off data)) = sm_fp e)
                 && authAt (off + sm_size e) sel'
  end.

Lemma authAt_sound sel : forall off, authAt off sel = true ->
  forall x e y, sel = x ++ e :: y ->
    sha (take (sm_size e) (drop (off + Z.to_nat (totalSize x)) data)) = sm_fp e.
Proof.
  induction sel as [|e0 sel IH]; intros off H x e y E; [by destruct x|].
  cbn [authAt] in H. apply andb_true_iff in H as [H1 H2]. destruct x as [|x0 x]; cbn in E; simplify_eq.
  - apply bool_decide_eq_true in H1. cbn. by rewrite Nat.add_0_r.
  - rewrite <- (IH _ H2 x e y eq_refl). do 3 f_equal. cbn. fold (totalSize x).
    pose proof (totalSize_nonneg x). lia.
Qed.

Lemma good_us : goodUpload sha 1 noShares 0 fs [] data stat0 2.
Proof.
  split; try (cbn; lia).
  - unfold int32. lia.
  - repeat constructor; cbn; unfold int32; lia.
  - repeat constructor; cbn; by eexists.
  - vm_compute. done.
  - repeat constructor; vm_compute; done.
  - vm_compute. done.
  - assert (authAt 0 (toSend 1 noShares (sharesOf fs)) = true) as H by (vm_compute; reflexivity).
    intros x e y E. rewrite <- (authAt_sound _ 0 H x e y E). by rewrite Nat.add_0_l.
Qed.

(** The fingerprints of directories differ from those of files. *)
Definition apart (names : list bytes) : bool :=
  forallb (fun n => forallb (fun m => forallb (fun d => bool_decide (inodeFP sha 1 d <> inodeFP sha 1 n)) (dirsOf m)) names) names.

Lemma goodFiles_us : goodFiles sha 1 noInodes 0 0 us.
Proof.
  split; [|split|vm_compute; reflexivity|vm_compute; discriminate].
  - repeat constructor; cbn; unfold int32, int64; try lia; by eexists.
  - intros nm _ [].
  - intros nm _ e E. discriminate E.
  - intros nm d _ _ [].
  - assert (apart (serverName <$> us) = true) as H by (vm_compute; reflexivity).
    intros nm nm' d H1 H2 Hd. unfold apart in H. rewrite forallb_forall in H.
    specialize (H nm ltac:(by apply list_elem_of_In)). rewrite forallb_forall in H.
    specialize (H nm' ltac:(by apply list_elem_of_In)). rewrite forallb_forall in H.
    specialize (H d ltac:(by apply list_elem_of_In)). by apply bool_decide_eq_true in H.
Qed.

Lemma uploadFiles_correct_witness :
  exists s1 s2 A2 I2 l2 k2 kr2,
    firstStageDedup (ret := False) 2 1 md mdSize stat0 s0
      = Ok ((true, (flagsOf 1 noShares fs stat0, List.length (sharesOf fs),
                    totalSize (toSend 1 noShares (sharesOf fs)))), s1) /\
    secondStageDedup (ret := False) 2 1 md mdSize (flagsOf 1 noShares fs stat0) data (Some shaCrypto) s1
      = Ok (true, s2) /\
    Serving sha A2 I2 (uploaded sha 1 noFiles us) s2 l2 k2 (0 + 1 + 2 * Z.of_nat (List.length (sharesOf fs))) kr2
      (0 + inodeCost us) /\
    sameDirs s0 s2 /\ usersKept 1 noInodes I2 /\
    (forall u fp, refsOf u (refs A2 fp)
       = refsOf u (refs noShares fp) + (if decide (u = 1) then occurrences fp (sharesOf fs) else 0)).
Proof.
  exact (uploadFiles_correct sha shaCrypto 1 noShares noInodes noFiles s0 [] 0 0 0 0 us [] data stat0 2
           s0_Serving goodFiles_us good_us).
Defined.

(** The first file, after the upload of both. *)
Lemma restoreVersion_correct_witness :
  exists (s2 : DedupCore Mem) A2 I2 l2 k2 kr2 s' payloads,
    Serving sha A2 I2 (uploaded sha 1 noFiles us) s2 l2 k2 (0 + 1 + 2 * Z.of_nat (List.length (sharesOf fs))) kr2
      (0 + inodeCost us) /\
    restoreShareFile (ret := False) 1 (str "a/b"%string) (- Z.of_nat 0) (Some shaCrypto) s2 = Ok (true, s') /\
    restoredFile sha 10 (recipeEntryOf <$> (entryOf <$> [share1; share2])) payloads /\
    Serving sha A2 I2 (uploaded sha 1 noFiles us) s' l2 k2 (0 + 1 + 2 * Z.of_nat (List.length (sharesOf fs))) kr2
      (0 + inodeCost us) /\
    sent (view (theWorld s')) = sent (view (theWorld s2)) ++ (message <$> payloads).
Proof.
  destruct (upload_files sha shaCrypto 1 noShares noInodes noFiles s0 [] 0 0 0 0 us [] data stat0 2
              s0_Serving goodFiles_us good_us) as (s1 & s2 & A2 & I2 & l2 & k2 & kr2 & _ & _ & HS & _ & HK & _).
  assert (ownFile sha 1 I2 (str "/a/b"%string)) as HO.
  { eapply ownFile_kept; [exact HK|]. intros e E. discriminate E. }
  assert (uploaded sha 1 noFiles us (inodeFP sha 1 (str "/a/b"%string)) !! 0%nat
          = Some (contentOf (uploadOf "a/b"%string [share1; share2]))) as Hy.
  { unfold uploaded, us. cbn [foldl]. rewrite fn_lookup_insert_ne; [|vm_compute; discriminate].
    change (serverName (uploadOf "a/b"%string [share1; share2])) with (str "/a/b"%string).
    by rewrite fn_lookup_insert. }
  destruct (restoreVersion_correct sha shaCrypto 1 A2 I2 (uploaded sha 1 noFiles us) s2 l2 k2 _ kr2 _
              (str "a/b"%string) (str "/a/b"%string) 0 _ HS eq_refl HO Hy) as (s' & payloads & E & HP & HS' & Es).
  exists s2, A2, I2, l2, k2, kr2, s', payloads. by split_and!.
Defined.

Lemma upload_restore_file_roundtrip_witness :
  exists s1 s2 s3 payloads flags n total,
    firstStageDedup (ret := False) 2 1 md mdSize stat0 s0 = Ok ((true, (flags, n, total)), s1) /\
    secondStageDedup (ret := False) 2 1 md mdSize flags data (Some shaCrypto) s1 = Ok (true, s2) /\
    restoreShareFile (ret := False) 1 (str "c"%string) 0 (Some shaCrypto) s2 = Ok (true, s3) /\
    restoredFile sha 10 (recipeEntryOf <$> (entryOf <$> [share1; share3])) payloads /\
    sent (view (theWorld s3)) = sent (view (theWorld s0)) ++ (message <$> payloads).
Proof.
  destruct (upload_restore_file_roundtrip sha shaCrypto 1 noShares noInodes noFiles s0 [] 0 0 0 0
              [uploadOf "a/b"%string [share1; share2]] (uploadOf "c"%string [share1; share3]) [] data stat0 2
              s0_Serving goodFiles_us good_us)
    as (s1 & s2 & s3 & payloads & flags & n & total & E1 & E2 & E3 & HP & Es & _).
  exists s1, s2, s3, payloads, flags, n, total. split; [exact E1|]. split; [exact E2|]. split; [exact E3|]. by split.
Defined.



(** An object with one recipe buffer, over a database that may refuse writes. *)
Definition rname : bytes := replicate 12 letter_a ++ postfix_rf.
Definition buf1 : recipeBuffer :=
  {| recipeFileName := rname ++ [Byte.x00]; recipeFileBuffer := replicate 160 Byte.x00;
     recipeFileBufferCurrLen := 64; lastRecipeHeadPos := 0; lastInodeFP := replicate 32 Byte.x00 |}.
Definition one {db : bool} : DedupCore (MemWorld false db) :=
  set_recipes (newServer (freshMem 1) (str "rf/"%string) (str "sc/"%string)) {[1%positive := buf1]}.
Definition path1 : bytes := str "/a/b"%string.

Lemma one_noClash : noClash sha noInodes 1 path1.
Proof.
  split; [intros []|]. change (dirsOf path1) with [str "/a/"%string; str "/"%string].
  constructor; [|constructor; [|constructor]]; (split; [intros []|vm_compute; discriminate]).
Qed.

Lemma rname_ok : isRecipeName 0 rname.
Proof.
  exists (replicate 12 letter_a). split_and!; [done| |done|done]. apply Forall_replicate. by unfold isLetter.
Qed.

Lemma addFileIntoInodeIndex_correct_witness :
  let v := {| v_file := rname; v_off := 64 |} in
  let I' := addFileSpec sha 1 path1 v noInodes in
  exists s', addFileIntoInodeIndex_ (ret := False) path1 1 (Some 1%positive) shaCrypto (one (db := false)) = Ok (true, s') /\
    inodeFrame one s' /\
    inodes (0 + 1 + Z.of_nat (List.length (dirsOf path1))) I' (contents (view (theWorld s'))) /\
    (forall fp, versionsOf I' fp = if decide (fp = inodeFP sha 1 path1) then v :: versionsOf noInodes fp
                                   else versionsOf noInodes fp) /\
    (noInodes (inodeFP sha 1 path1) = None -> onPath sha I' 1 (inodeFP sha 1 path1) (dirsOf path1)).
Proof.
  refine (addFileIntoInodeIndex_correct sha shaCrypto 0 noInodes one 1%positive buf1 0 path1 rname 1
           eq_refl _ one_noClash _ _ _ _ eq_refl eq_refl rname_ok _).
  - intros fp. apply lookup_empty.
  - unfold int32. lia.
  - vm_compute. reflexivity.
  - lia.
  - vm_compute. reflexivity.
  - cbn. lia.
Defined.

Lemma addFileIntoInodeIndex_safe_witness :
  exists ok s' I', addFileIntoInodeIndex_ (ret := False) path1 1 (Some 1%positive) shaCrypto (one (db := true)) = Ok (ok, s') /\
    inodeFrame one s' /\
    inodes (0 + 1 + Z.of_nat (List.length (dirsOf path1))) I' (contents (view (theWorld s'))).
Proof.
  refine (addFileIntoInodeIndex_safe sha shaCrypto 0 noInodes one 1%positive buf1 0 path1 rname 1
           eq_refl _ one_noClash _ _ _ _ eq_refl eq_refl rname_ok _).
  - intros fp. apply lookup_empty.
  - unfold int32. lia.
  - vm_compute. reflexivity.
  - lia.
  - vm_compute. reflexivity.
  - cbn. lia.
Defined.
End DedupWitness.

(** ** Runs that lose data or leave their buffers *)

Module DedupRuns.
Import SampleSSL DedupWitness.
#[local] Existing Instance small.

(** One package with one part of a file: [past] shares were sent before. *)
Definition partOf (name : string) (past size sizePast sizeComing : Z) (shs : list bytes) : FileMD :=
  {| fm_mid := pad ++ le64 size ++ le32 past ++ pad ++ le64 sizePast; fm_end := pad ++ le64 sizeComing;
     fm_name := str name; fm_shares := entryOf <$> shs |}.

Definition upload (uid : Z) (f : FileMD) (shs : list bytes) : SM (DedupCore Mem) False bool :=
  let size := Z.of_nat (List.length (encodePackage [f])) in
  '(_, (stat, _, _)) ← firstStageDedup 1 uid (encodePackage [f]) size (replicate 9 true);
  secondStageDedup 1 uid (encodePackage [f]) size stat
    (mjoin (imap (fun i d => if (nth i stat true : bool) then [] else d) shs)) (Some shaCrypto).

(** The payloads of what was sent. *)
Definition delivered (s : DedupCore Mem) : bytes := mjoin (drop 8 <$> sent (mem (theWorld s))).

(** A file in two packages: the first part fills the recipe buffer behind another
    file and is written out with it; the second part, as large as the first or
    larger, is then not recognised as the rest of an older recipe and never appended
    to it.  All uploads succeed, and restoring the file reports success with one of
    its three shares. *)
Example two_packages_lose_shares :
  match (a ← upload 1 (partOf "x"%string 0 1 0 1 [share1]) [share1];
         b ← upload 1 (partOf "a"%string 0 10 0 5 [share1]) [share1];
         c ← upload 1 (partOf "a"%string 1 10 5 5 [share2; share3]) [share2; share3];
         d ← upload 1 (partOf "y"%string 0 1 0 1 [share1]) [share1];
         r ← restoreShareFile 1 (str "a"%string) 0 (Some shaCrypto);
         mret (a, b, c, d, r)) s0 with
  | Ok ((a, b, c, d, r), s) =>
      a && b && c && d && r && bool_decide (drop 16 (delivered s) = encodeRestored 7 9 share1)
  | _ => false
  end = true.
Proof. vm_compute. reflexivity. Qed.

(** A file with more shares than the recipe buffer has room for, behind another file:
    the buffer is written out, and the entries then run over its end. *)
Example big_recipe_overflows :
  (_ ← upload 1 (partOf "x"%string 0 1 0 1 [share1]) [share1];
   upload 1 (partOf "a"%string 0 10 0 10 (replicate 4 share1)) (replicate 4 share1)) s0 = UB.
Proof. vm_compute. reflexivity. Qed.

(** A positive version number is not rejected; the entry is looked for in front of
    the inode. *)
Example positive_version_reads_before_value :
  (_ ← upload 1 (partOf "a"%string 0 10 0 10 [share1]) [share1];
   restoreShareFile 1 (str "a"%string) 5 (Some shaCrypto)) s0 = UB.
Proof. vm_compute. reflexivity. Qed.

(** The destructor deletes the database before it writes the buffers out: with one
    file in the buffer of a user, the recipe file is then looked up in the deleted
    database. *)
Example destructor_uses_deleted_database :
  (_ ← upload 1 (partOf "a"%string 0 10 0 10 [share1]) [share1]; delete_DedupCore) s0 = UB.
Proof. vm_compute. reflexivity. Qed.

(** With the database still open the same buffers are written out. *)
Example cleanup_with_open_database :
  match (_ ← upload 1 (partOf "a"%string 0 10 0 10 [share1]) [share1]; cleanupAllBufferNodes) s0 with
  | Ok (ok, s) => ok && bool_decide (size (files (mem (theWorld s))) = 2%nat)
  | _ => false
  end = true.
Proof. vm_compute. reflexivity. Qed.
End DedupRuns.
