(* ===== verification/BackendStorer.v ===== *)
(** * The backend storer

    BackendStorer (server/backend/BackendStorer.cc) keeps recipe and container files in
    a cache directory and copies new files to a backend storage: addNewFile and
    openOldFile are called by the threads of the server, storeNewFile and updateCache
    are the bodies of two threads that take their work from two linked lists.  The
    server passes NULL for its storers, so the class is compiled but not used.

    The nodes of the lists are a heap with [next] pointers.  [exec] lets the threads
    take their steps in any order: a section between lock and unlock is one step, but
    updateCache, which holds its lock for a whole round, takes several. *)

From stdpp Require Import base list numbers gmap.
From coqutil Require Import Byte.
From Stdlib Require Import Lia.
From S2P Require Import Prelude Structs FileNames World MinDedupCore DedupCore.

Local Open Scope Z_scope.

(** ** Code outside the repository *)

(** The calls on files that only this class uses *)
Class CacheFiles (W : Type) := {
  remove : W -> bytes -> W;
  (** [access(name, F_OK) == 0] and [access(name, R_OK | W_OK) == 0] *)
  access_F : W -> bytes -> bool;
  access_RW : W -> bytes -> bool;
  get_current_dir_name : W -> bytes;
}.

(** boost::bimap<set_of<std::string>, list_of<long>>: entries in the order of the list,
    found by their names *)
Class Bimap := {
  cache_t : Type;
  cache_empty : cache_t;
  (** [cache.left.find(name) != cache.left.end()] *)
  left_find : cache_t -> bytes -> bool;
  cache_insert : cache_t -> bytes -> Z -> cache_t;
  (** [cache.right.relocate(cache.right.end(), ...)] of the entry with this name *)
  right_relocate : cache_t -> bytes -> cache_t;
  (** what [cache.right.begin()] points to, [None] for the end *)
  right_begin : cache_t -> option (Z * bytes);
  right_erase_begin : cache_t -> cache_t;
}.

(** ** Data *)

Definition IPSERVER : Z := 0.
Definition AMAZON : Z := 1.
Definition GOOGLE : Z := 2.
Definition MSAZURE : Z := 3.
Definition RACKSPACE : Z := 4.

Record FileNode := {
  fn_shortFileName : bytes;
  fn_fileSize : Z;
  fn_next : option nat;
}.
Definition set_next (n : FileNode) (p : option nat) : FileNode :=
  {| fn_shortFileName := fn_shortFileName n; fn_fileSize := fn_fileSize n; fn_next := p |}.

(** Head, tail and length of a list of nodes *)
Record Link := {
  lk_head : option nat;
  lk_tail : option nat;
  lk_num : Z;
}.
Definition noLink : Link := {| lk_head := None; lk_tail := None; lk_num := 0 |}.

Section BackendStorer.
Context {W : Type} `{World W} {CF : CacheFiles W} {BM : Bimap}.

Record BackendStorer := {
  backendType_ : Z;
  backendDirName_ : bytes;
  backendIP_ : bytes;
  cacheDirName_ : bytes;
  maxCacheSize_ : Z;
  availCacheSize_ : Z;
  usedCacheSize_ : Z;
  cache_ : cache_t;
  newlyStored : Link;
  newlyUsed : Link;
  heap : gmap nat FileNode;
}.

Definition set_sizes (b : BackendStorer) (avail used : Z) : BackendStorer :=
  {| backendType_ := backendType_ b; backendDirName_ := backendDirName_ b; backendIP_ := backendIP_ b; cacheDirName_ := cacheDirName_ b;
     maxCacheSize_ := maxCacheSize_ b; availCacheSize_ := avail; usedCacheSize_ := used; cache_ := cache_ b;
     newlyStored := newlyStored b; newlyUsed := newlyUsed b; heap := heap b |}.
Definition set_cache (b : BackendStorer) (c : cache_t) : BackendStorer :=
  {| backendType_ := backendType_ b; backendDirName_ := backendDirName_ b; backendIP_ := backendIP_ b; cacheDirName_ := cacheDirName_ b;
     maxCacheSize_ := maxCacheSize_ b; availCacheSize_ := availCacheSize_ b; usedCacheSize_ := usedCacheSize_ b; cache_ := c;
     newlyStored := newlyStored b; newlyUsed := newlyUsed b; heap := heap b |}.
Definition set_newlyStored (b : BackendStorer) (q : Link) (h : gmap nat FileNode) : BackendStorer :=
  {| backendType_ := backendType_ b; backendDirName_ := backendDirName_ b; backendIP_ := backendIP_ b; cacheDirName_ := cacheDirName_ b;
     maxCacheSize_ := maxCacheSize_ b; availCacheSize_ := availCacheSize_ b; usedCacheSize_ := usedCacheSize_ b; cache_ := cache_ b;
     newlyStored := q; newlyUsed := newlyUsed b; heap := h |}.
Definition set_newlyUsed (b : BackendStorer) (q : Link) (h : gmap nat FileNode) : BackendStorer :=
  {| backendType_ := backendType_ b; backendDirName_ := backendDirName_ b; backendIP_ := backendIP_ b; cacheDirName_ := cacheDirName_ b;
     maxCacheSize_ := maxCacheSize_ b; availCacheSize_ := availCacheSize_ b; usedCacheSize_ := usedCacheSize_ b; cache_ := cache_ b;
     newlyStored := newlyStored b; newlyUsed := q; heap := h |}.

(** ** Names *)

Definition blank : byte := Byte.x20.

(** The character behind an erased blank is skipped. *)
Fixpoint eraseBlanks (IP : bytes) : bytes :=
  match IP with
  | [] => []
  | c :: rest =>
      if decide (c = blank) then match rest with [] => [] | d :: rest' => d :: eraseBlanks rest' end
      else c :: eraseBlanks rest
  end.
Definition formatIP_ (IP : bytes) : option bytes :=
  match eraseBlanks IP with [] => None | IP' => Some IP' end.

(** [s.substr(pos)] throws an exception that nobody catches when [pos] is behind the end. *)
Definition substr {R} (s : bytes) (pos : nat) : res R bytes :=
  if decide (pos <= length s)%nat then Ok (drop pos s) else Exit 134.

Definition stdDirName {R} (currDir dirName : bytes) : res R bytes :=
  if decide (dirName !! 0%nat = Some slash) then Ok dirName
  else if decide (take 2 dirName <> [dot; slash]) then rest ← substr dirName 2; Ok (currDir ++ rest)
  else Ok (currDir ++ dirName).

Definition equDirName_ {R} (w : W) (dirName1 dirName2 : bytes) : res R bool :=
  let cwd := get_current_dir_name w in
  let currDir := if decide (last cwd = Some slash) then cwd else cwd ++ [slash] in
  stdDirName1 ← stdDirName currDir dirName1;
  stdDirName2 ← stdDirName currDir dirName2;
  Ok (bool_decide (stdDirName1 = stdDirName2)).

Definition shortenFileName_ {R} (b : BackendStorer) (w : W) (fullFileName : bytes) : res R (option bytes) :=
  match rfindSlash fullFileName (length fullFileName) with
  | Some currPos =>
      same ← equDirName_ w (take (currPos + 1) fullFileName) (cacheDirName_ b);
      Ok (if same : bool then Some (drop (currPos + 1) fullFileName) else None)
  | None => Ok None
  end.

(** ** Files *)

Definition checkFileExistence_ (w : W) (fullFileName : bytes) : bool := access_F w fullFileName.
Definition checkFilePermissions_ (w : W) (fullFileName : bytes) : bool := access_RW w fullFileName.

(** A file pointer: the name of the file it was opened with, [None] for a null or
    uninitialised pointer. *)
Definition getOpenedFileSize_ {R} (w : W) (fp : option bytes) : res R Z :=
  match fp with Some name => Ok (fsize w name) | None => UB end.

Definition getUnopenedFileSize_ (w : W) (fullFileName : bytes) : Z :=
  if fopen_rb w fullFileName then fsize w fullFileName else 0.

(** The loop; every turn but the last copies at least one byte, so the size of the
    source is enough fuel. *)
Fixpoint copyLoop {R} (fuel pos : nat) (w : W) (dest src : bytes) : res R (bool * W) :=
  match fuel with
  | O => Hang
  | S fuel' =>
      match fread w src pos 4096 with
      | [] => Ok (true, w)
      | buffer =>
          let '(ok, w) := fwrite w dest buffer in
          if ok : bool then copyLoop fuel' (pos + length buffer) w dest src else Ok (false, w)
      end
  end.
Definition localCopyFile_ {R} (w : W) (destFullFileName srcFullFileName : bytes) : res R (bool * W) :=
  if fopen_rb w srcFullFileName then
    let '(ok, w) := fopen_wb w destFullFileName in
    if ok : bool then copyLoop (S (Z.to_nat (fsize w srcFullFileName))) 0 w destFullFileName srcFullFileName
    else Ok (false, w)
  else Ok (false, w).

Definition IPCopyFile_ (w : W) (destIP destFullFileName srcIP srcFullFileName : bytes) : bool * W := (true, w).

Definition localhost : bytes := [Byte.x31; Byte.x32; Byte.x37; Byte.x2e; Byte.x30; Byte.x2e; Byte.x30; Byte.x2e; Byte.x31].

(** The other types of backend do nothing. *)
Definition backendStoreNewFile_ {R} (b : BackendStorer) (w : W) (shortFileName : bytes) : res R (bool * W) :=
  if decide (backendType_ b = IPSERVER) then
    if decide (backendIP_ b = localhost) then localCopyFile_ w (backendDirName_ b ++ shortFileName) (cacheDirName_ b ++ shortFileName)
    else Ok (IPCopyFile_ w (backendIP_ b) (backendDirName_ b ++ shortFileName) [] (cacheDirName_ b ++ shortFileName))
  else Ok (true, w).

(** [fp] is not set. *)
Definition backendRestoreOldFile_ {R} (b : BackendStorer) (w : W) (shortFileName : bytes) (fp : option bytes) : res R (bool * option bytes * W) :=
  if decide (backendType_ b = IPSERVER) then
    if decide (backendIP_ b = localhost) then
      '(ok, w) ← localCopyFile_ w (cacheDirName_ b ++ shortFileName) (backendDirName_ b ++ shortFileName);
      Ok (ok, fp, w)
    else let '(ok, w) := IPCopyFile_ w [] (cacheDirName_ b ++ shortFileName) (backendIP_ b) (backendDirName_ b ++ shortFileName) in Ok (ok, fp, w)
  else Ok (true, fp, w).

(** ** Construction and destruction *)

(** Two mutexes and two condition variables; the environment answers both kinds of call
    alike. *)
Definition initLocks {R} (w : W) : res R W :=
  let '(ok, w) := mutex_init w in
  if ok : bool then
    let '(ok, w) := mutex_init w in
    if ok : bool then
      let '(ok, w) := mutex_init w in
      if ok : bool then
        let '(ok, w) := mutex_init w in
        if ok : bool then Ok w else Exit 1
      else Exit 1
    else Exit 1
  else Exit 1.

Definition new_BackendStorer {R} (w : W) (cacheDirName : bytes) (maxCacheSize : Z) (backendIP backendDirName : bytes) : res R (BackendStorer * W) :=
  match formatDirName_ cacheDirName with
  | None => Exit 1
  | Some cacheDirName =>
      if decide (maxCacheSize <= 0) then Exit 1 else
      match formatIP_ backendIP, formatDirName_ backendDirName with
      | Some backendIP, Some backendDirName =>
          w ← initLocks w;
          Ok ({| backendType_ := IPSERVER; backendDirName_ := backendDirName; backendIP_ := backendIP; cacheDirName_ := cacheDirName;
                 maxCacheSize_ := maxCacheSize; availCacheSize_ := maxCacheSize; usedCacheSize_ := 0; cache_ := cache_empty;
                 newlyStored := noLink; newlyUsed := noLink; heap := ∅ |}, w)
      | _, _ => Exit 1
      end
  end.

Definition new_TypedStorer {R} (w : W) (cacheDirName : bytes) (maxCacheSize backendType : Z) : res R (BackendStorer * W) :=
  match formatDirName_ cacheDirName with
  | None => Exit 1
  | Some cacheDirName =>
      if decide (maxCacheSize <= 0) then Exit 1 else
      if decide (backendType <> AMAZON /\ backendType <> GOOGLE /\ backendType <> MSAZURE /\ backendType <> RACKSPACE) then Exit 1 else
      w ← initLocks w;
      Ok ({| backendType_ := backendType; backendDirName_ := []; backendIP_ := []; cacheDirName_ := cacheDirName;
             maxCacheSize_ := maxCacheSize; availCacheSize_ := maxCacheSize; usedCacheSize_ := 0; cache_ := cache_empty;
             newlyStored := noLink; newlyUsed := noLink; heap := ∅ |}, w)
  end.

Definition deref {R} (h : gmap nat FileNode) (p : option nat) : res R FileNode :=
  match p ≫= (h !!.) with Some n => Ok n | None => UB end.

(** A loop of the destructor; a list is not longer than the heap. *)
Fixpoint freeNodes {R} (fuel : nat) (h : gmap nat FileNode) (currBufferNode : option nat) : res R (gmap nat FileNode) :=
  match currBufferNode with
  | None => Ok h
  | Some p =>
      match fuel with
      | O => Hang
      | S fuel' => n ← deref h (Some p); freeNodes fuel' (delete p h) (fn_next n)
      end
  end.
Definition delete_BackendStorer {R} (b : BackendStorer) : res R (gmap nat FileNode) :=
  h ← freeNodes (size (heap b)) (heap b) (lk_head (newlyStored b));
  freeNodes (size (heap b)) h (lk_head (newlyUsed b)).

(** ** Lists of nodes *)

(** A node is put behind the tail. *)
Definition appendNode {R} (h : gmap nat FileNode) (q : Link) (targetFileNode : nat) : res R (gmap nat FileNode * Link) :=
  '(h, hd) ← match lk_tail q with
             | None => Ok (h, Some targetFileNode)
             | Some t => n ← deref h (Some t); Ok (<[t := set_next n (Some targetFileNode)]> h, lk_head q)
             end;
  num ← sint (lk_num q + 1);
  Ok (h, {| lk_head := hd; lk_tail := Some targetFileNode; lk_num := num |}).

(** The head is taken off. *)
Definition takeNode {R} (h : gmap nat FileNode) (q : Link) : res R (option nat * Link) :=
  let targetFileNode := lk_head q in
  '(hd, tl) ← (if decide (lk_head q = lk_tail q) then Ok (None, None)
               else n ← deref h (lk_head q); Ok (fn_next n, lk_tail q));
  num ← sint (lk_num q - 1);
  Ok (targetFileNode, {| lk_head := hd; lk_tail := tl; lk_num := num |}).

(** ** The operations *)

(** The result of a [long] operation *)
Definition slong {R} (x : Z) : res R Z := if decide (- 2 ^ 63 <= x < 2 ^ 63) then Ok x else UB.

(** The node made for a file, at the address malloc has returned; strcpy. *)
Definition newNode {R} (h : gmap nat FileNode) (p : nat) (shortFileName : bytes) (fileSize : Z) : res R (gmap nat FileNode) :=
  name ← cstr (shortFileName ++ [Byte.x00]);
  if decide (length name < INTERNAL_FILE_NAME_SIZE)%nat
  then Ok (<[p := {| fn_shortFileName := name; fn_fileSize := fileSize; fn_next := None |}]> h) else UB.

(** addNewFile up to the first unlock: the size of the file, and whether the cache
    updater is signalled. *)
Definition addSize {R} (b : BackendStorer) (w : W) (fullFileName : bytes) : res R (Z * BackendStorer * bool) :=
  let fileSize := getUnopenedFileSize_ w fullFileName in
  avail ← slong (availCacheSize_ b - fileSize);
  Ok (fileSize, set_sizes b avail (usedCacheSize_ b), bool_decide (avail < usedCacheSize_ b)).

(** The rest: the result, and whether the file storer is signalled. *)
Definition addLink {R} (b : BackendStorer) (w : W) (fullFileName : bytes) (fileSize : Z) (p : nat) : res R (bool * BackendStorer * bool) :=
  short ← shortenFileName_ b w fullFileName;
  match short with
  | None => Ok (false, b, false)
  | Some shortFileName =>
      h ← newNode (heap b) p shortFileName fileSize;
      '(h, q) ← appendNode h (newlyStored b) p;
      Ok (true, set_newlyStored b q h, bool_decide (0 < lk_num q))
  end.

Definition addNewFile {R} (b : BackendStorer) (w : W) (fullFileName : bytes) (p : nat) : res R (bool * BackendStorer) :=
  '(fileSize, b, _) ← addSize b w fullFileName;
  '(ok, b, _) ← addLink b w fullFileName fileSize p;
  Ok (ok, b).

(** openOldFile before the lock: the file that was opened or restored, or [None] for
    the result 0, and the file pointer. *)
Definition openFile {R} (b : BackendStorer) (w : W) (fullFileName : bytes) (fp : option bytes)
  : res R (option (bytes * Z * bool) * option bytes * W) :=
  short ← shortenFileName_ b w fullFileName;
  match short with
  | None => Ok (None, fp, w)
  | Some shortFileName =>
      if checkFileExistence_ w fullFileName then
        if checkFilePermissions_ w fullFileName then
          if fopen_rb w fullFileName then
            fileSize ← getOpenedFileSize_ w (Some fullFileName);
            Ok (Some (shortFileName, fileSize, false), Some fullFileName, w)
          else Ok (None, None, w)
        else Ok (None, fp, w)
      else
        '(ok, fp, w) ← backendRestoreOldFile_ b w shortFileName fp;
        if ok : bool then
          fileSize ← getOpenedFileSize_ w fp;
          Ok (Some (shortFileName, fileSize, true), fp, w)
        else Ok (None, fp, w)
  end.

(** The rest; the cache updater is always signalled. *)
Definition openLink {R} (b : BackendStorer) (shortFileName : bytes) (fileSize : Z) (restored : bool) (p : nat) : res R (BackendStorer * bool) :=
  h ← newNode (heap b) p shortFileName fileSize;
  '(h, q) ← appendNode h (newlyUsed b) p;
  used ← (if restored then slong (usedCacheSize_ b + fileSize) else Ok (usedCacheSize_ b));
  Ok (set_sizes (set_newlyUsed b q h) (availCacheSize_ b) used,
      bool_decide (0 < lk_num q) || (restored && bool_decide (availCacheSize_ b < used))).

Definition openOldFile {R} (b : BackendStorer) (w : W) (fullFileName : bytes) (fp : option bytes) (p : nat)
  : res R (bool * option bytes * BackendStorer * W) :=
  '(opened, fp, w) ← openFile b w fullFileName fp;
  match opened with
  | None => Ok (false, fp, b, w)
  | Some (shortFileName, fileSize, restored) =>
      '(b, _) ← openLink b shortFileName fileSize restored p;
      Ok (true, fp, b, w)
  end.

(** ** The threads *)

(** storeNewFile: the first node is taken, *)
Definition takeNewFile {R} (b : BackendStorer) : res R (option nat * BackendStorer) :=
  '(p, q) ← takeNode (heap b) (newlyStored b);
  Ok (p, set_newlyStored b q (heap b)).

(** its file is stored, *)
Definition storeFile {R} (b : BackendStorer) (w : W) (targetFileNode : option nat) : res R W :=
  n ← deref (heap b) targetFileNode;
  '(ok, w) ← backendStoreNewFile_ b w (fn_shortFileName n);
  if ok : bool then Ok w else Exit 1.

(** and it goes to the other list. *)
Definition linkStored {R} (b : BackendStorer) (targetFileNode : option nat) : res R (BackendStorer * bool) :=
  match targetFileNode with
  | None => UB
  | Some p =>
      n ← deref (heap b) (Some p);
      '(h, q) ← appendNode (<[p := set_next n None]> (heap b)) (newlyUsed b) p;
      avail ← slong (availCacheSize_ b + fn_fileSize n);
      used ← slong (usedCacheSize_ b - fn_fileSize n);
      Ok (set_sizes (set_newlyUsed b q h) avail used, bool_decide (0 < lk_num q))
  end.

(** updateCache: an entry for the first newly used file, *)
Definition touch (cache : cache_t) (name : bytes) (fileSize : Z) : cache_t :=
  if left_find cache name then right_relocate cache name else cache_insert cache name fileSize.
Definition addEntry {R} (b : BackendStorer) : res R BackendStorer :=
  '(p, q) ← takeNode (heap b) (newlyUsed b);
  match p with
  | None => UB
  | Some p =>
      n ← deref (heap b) (Some p);
      Ok (set_newlyUsed (set_cache b (touch (cache_ b) (fn_shortFileName n) (fn_fileSize n))) q (delete p (heap b)))
  end.

(** or the eviction of the least recently used one. *)
Definition evict {R} (b : BackendStorer) (w : W) : res R (BackendStorer * W) :=
  match right_begin (cache_ b) with
  | None => UB
  | Some (fileSize, shortFileName) =>
      used ← slong (usedCacheSize_ b - fileSize);
      Ok (set_sizes (set_cache b (right_erase_begin (cache_ b))) (availCacheSize_ b) used, remove w (cacheDirName_ b ++ shortFileName))
  end.

(** Where the threads are.  A sleeping thread waits for its condition variable. *)
Inductive StorerPc := SAwake | SAsleep | SHold (p : option nat) | SDone (p : option nat).
Inductive UpdaterPc := UAwake | UAsleep | ULocked.

(** The calls of the server between their two halves *)
Inductive Call :=
| Adding (fullFileName : bytes) (fileSize : Z)
| Opening (shortFileName : bytes) (fileSize : Z) (restored : bool).

Record Sys := {
  sy_obj : BackendStorer;
  sy_world : W;
  sy_calls : list Call;
  sy_storer : StorerPc;
  sy_updater : UpdaterPc;
}.

Definition wakeStorer (sig : bool) (pc : StorerPc) : StorerPc := match pc with SAsleep => if sig then SAwake else SAsleep | _ => pc end.
Definition wakeUpdater (sig : bool) (pc : UpdaterPc) : UpdaterPc := match pc with UAsleep => if sig then UAwake else UAsleep | _ => pc end.

(** [None]: the thread waits for a lock. *)
Definition storeNewFile {R} (s : Sys) : res R (option Sys) :=
  let b := sy_obj s in
  match sy_storer s with
  | SAsleep => Ok None
  | SAwake =>
      if decide (lk_num (newlyStored b) <= 0)
      then Ok (Some {| sy_obj := b; sy_world := sy_world s; sy_calls := sy_calls s; sy_storer := SAsleep; sy_updater := sy_updater s |})
      else '(p, b) ← takeNewFile b;
           Ok (Some {| sy_obj := b; sy_world := sy_world s; sy_calls := sy_calls s; sy_storer := SHold p; sy_updater := sy_updater s |})
  | SHold p =>
      w ← storeFile b (sy_world s) p;
      Ok (Some {| sy_obj := b; sy_world := w; sy_calls := sy_calls s; sy_storer := SDone p; sy_updater := sy_updater s |})
  | SDone p =>
      match sy_updater s with
      | ULocked => Ok None
      | pc => '(b, sig) ← linkStored b p;
              Ok (Some {| sy_obj := b; sy_world := sy_world s; sy_calls := sy_calls s; sy_storer := SAwake; sy_updater := wakeUpdater sig pc |})
      end
  end.

Definition updateCache {R} (s : Sys) : res R (option Sys) :=
  let b := sy_obj s in
  match sy_updater s with
  | UAsleep => Ok None
  | UAwake =>
      Ok (Some {| sy_obj := b; sy_world := sy_world s; sy_calls := sy_calls s; sy_storer := sy_storer s;
                  sy_updater := if decide (lk_num (newlyUsed b) <= 0 /\ availCacheSize_ b >= usedCacheSize_ b) then UAsleep else ULocked |})
  | ULocked =>
      if decide (lk_num (newlyUsed b) > 0) then
        b ← addEntry b;
        Ok (Some {| sy_obj := b; sy_world := sy_world s; sy_calls := sy_calls s; sy_storer := sy_storer s; sy_updater := ULocked |})
      else if decide (availCacheSize_ b < usedCacheSize_ b) then
        '(b, w) ← evict b (sy_world s);
        Ok (Some {| sy_obj := b; sy_world := w; sy_calls := sy_calls s; sy_storer := sy_storer s; sy_updater := ULocked |})
      else Ok (Some {| sy_obj := b; sy_world := sy_world s; sy_calls := sy_calls s; sy_storer := sy_storer s; sy_updater := UAwake |})
  end.

(** What can happen: the server writes a file or calls one of the two functions, a call
    goes on with a node at a free address, a thread takes a step, or a sleeping thread
    wakes up by itself. *)
Inductive Event :=
| WriteFile (fullFileName data : bytes)
| BeginAdd (fullFileName : bytes)
| BeginOpen (fullFileName : bytes) (fp : option bytes)
| EndCall (i p : nat)
| StoreNewFile
| UpdateCache
| SpuriousStorer
| SpuriousUpdater.

Definition exec {R} (e : Event) (s : Sys) : res R (option Sys) :=
  let b := sy_obj s in
  match e with
  | WriteFile name data =>
      Ok (Some {| sy_obj := b; sy_world := (fwrite (fopen_wb (sy_world s) name).2 name data).2; sy_calls := sy_calls s;
                  sy_storer := sy_storer s; sy_updater := sy_updater s |})
  | BeginAdd name =>
      match sy_updater s with
      | ULocked => Ok None
      | pc => '(fileSize, b, sig) ← addSize b (sy_world s) name;
              Ok (Some {| sy_obj := b; sy_world := sy_world s; sy_calls := sy_calls s ++ [Adding name fileSize];
                          sy_storer := sy_storer s; sy_updater := wakeUpdater sig pc |})
      end
  | BeginOpen name fp =>
      '(opened, _, w) ← openFile b (sy_world s) name fp;
      let new := match opened with Some (short, fileSize, restored) => [Opening short fileSize restored] | None => [] end in
      Ok (Some {| sy_obj := b; sy_world := w; sy_calls := sy_calls s ++ new; sy_storer := sy_storer s; sy_updater := sy_updater s |})
  | EndCall i p =>
      match heap b !! p, sy_calls s !! i with
      | None, Some (Adding name fileSize) =>
          '(_, b, sig) ← addLink b (sy_world s) name fileSize p;
          Ok (Some {| sy_obj := b; sy_world := sy_world s; sy_calls := delete i (sy_calls s);
                      sy_storer := wakeStorer sig (sy_storer s); sy_updater := sy_updater s |})
      | None, Some (Opening short fileSize restored) =>
          match sy_updater s with
          | ULocked => Ok None
          | pc => '(b, sig) ← openLink b short fileSize restored p;
                  Ok (Some {| sy_obj := b; sy_world := sy_world s; sy_calls := delete i (sy_calls s);
                              sy_storer := sy_storer s; sy_updater := wakeUpdater sig pc |})
          end
      | _, _ => Ok None
      end
  | StoreNewFile => storeNewFile s
  | UpdateCache => updateCache s
  | SpuriousStorer =>
      Ok (Some {| sy_obj := b; sy_world := sy_world s; sy_calls := sy_calls s; sy_storer := wakeStorer true (sy_storer s); sy_updater := sy_updater s |})
  | SpuriousUpdater =>
      Ok (Some {| sy_obj := b; sy_world := sy_world s; sy_calls := sy_calls s; sy_storer := sy_storer s; sy_updater := wakeUpdater true (sy_updater s) |})
  end.

(** The object and its two threads at their start *)
Definition newSys (b : BackendStorer) (w : W) : Sys :=
  {| sy_obj := b; sy_world := w; sy_calls := []; sy_storer := SAwake; sy_updater := UAwake |}.
End BackendStorer.
Arguments BackendStorer {BM}.
Arguments Sys W {BM}.
