(* ===== verification/BackendLists.v ===== *)
(** * The lists of the backend storer

    The linked lists of nodes behave as first-in first-out queues: [linked h q ns] says
    that the list with head, tail and length [q] holds the nodes [ns] in the heap [h]. *)

From stdpp Require Import base list numbers gmap.
From coqutil Require Import Byte.
From Stdlib Require Import Lia.
From S2P Require Import Prelude Structs FileNames World MinDedupCore DedupCore BackendStorer.

Local Open Scope Z_scope.

(** ** Results that may be undefined where the inputs are not safe *)

Definition outcome {R A} (safe : Prop) (m : res R A) (P : A -> Prop) : Prop :=
  match m with Ok a => P a | UB => ~ safe | _ => False end.

Section Outcome.
Context {R : Type} (safe : Prop).

Lemma outcome_bind {A B} (m : res R A) (f : A -> res R B) P :
  outcome safe m (fun a => outcome safe (f a) P) -> outcome safe (mbind f m) P.
Proof. by destruct m. Qed.

Lemma outcome_ok {A} (m : res R A) a (P : A -> Prop) : m = Ok a -> P a -> outcome safe m P.
Proof. by intros -> HP. Qed.

Lemma outcome_mono {A} (m : res R A) (P Q : A -> Prop) : outcome safe m P -> (forall a, P a -> Q a) -> outcome safe m Q.
Proof. destruct m; cbn; auto. Qed.

Lemma outcome_sint x (P : Z -> Prop) : (safe -> - 2 ^ 31 <= x < 2 ^ 31) -> P x -> outcome safe (sint (R := R) x) P.
Proof. intros Hs HP. unfold sint. case_decide; [done|]. intros Hsafe. auto. Qed.

Lemma outcome_slong x (P : Z -> Prop) : (safe -> - 2 ^ 63 <= x < 2 ^ 63) -> P x -> outcome safe (slong (R := R) x) P.
Proof. intros Hs HP. unfold slong. case_decide; [done|]. intros Hsafe. auto. Qed.

(** A safe input has a result. *)
Lemma outcome_safe {A} (m : res R A) P : outcome safe m P -> safe -> exists a, m = Ok a /\ P a.
Proof. destruct m; cbn; try done. intros. eauto. Qed.
End Outcome.

(** ** Queues *)

(** A node: its address, the name and the size in it. *)
Abbreviation node := (nat * (bytes * Z))%type.

Definition nodeAt (h : gmap nat FileNode) (x : node) (next : option nat) : Prop :=
  h !! x.1 = Some {| fn_shortFileName := x.2.1; fn_fileSize := x.2.2; fn_next := next |}.

Fixpoint chain (h : gmap nat FileNode) (ns : list node) : Prop :=
  match ns with
  | [] => True
  | x :: rest => nodeAt h x (head rest.*1) /\ chain h rest
  end.

Record linked (h : gmap nat FileNode) (q : Link) (ns : list node) : Prop := {
  l_head : lk_head q = head ns.*1;
  l_tail : lk_tail q = last ns.*1;
  l_num : lk_num q = Z.of_nat (length ns);
  l_chain : chain h ns;
}.

Lemma chain_ext h h' ns : (forall p, p ∈ ns.*1 -> h' !! p = h !! p) -> chain h ns -> chain h' ns.
Proof.
  induction ns as [|x ns IH]; [done|]. intros E [Hx Hn]. split.
  - unfold nodeAt. rewrite E by (cbn; set_solver). exact Hx.
  - apply IH; [|done]. intros p Hp. apply E. cbn. set_solver.
Qed.

Lemma linked_ext h h' q ns : (forall p, p ∈ ns.*1 -> h' !! p = h !! p) -> linked h q ns -> linked h' q ns.
Proof. intros E [? ? ? ?]. split; try done. by eapply chain_ext. Qed.

Lemma linked_nil h : linked h noLink [].
Proof. done. Qed.

Lemma linked_empty h q ns : linked h q ns -> lk_num q <= 0 -> ns = [].
Proof. intros L Hq. rewrite (l_num _ _ _ L) in Hq. destruct ns; [done|cbn in Hq; lia]. Qed.

Lemma linked_cons h q ns : linked h q ns -> 0 < lk_num q -> exists x rest, ns = x :: rest.
Proof. intros L Hq. rewrite (l_num _ _ _ L) in Hq. destruct ns; [cbn in Hq; lia|eauto]. Qed.

(** The last node gets a successor. *)
Lemma chain_append h ns y x next : NoDup (ns.*1 ++ [y.1]) -> x.1 ∉ ns.*1 -> x.1 <> y.1 ->
  chain h (ns ++ [y]) -> nodeAt h x next -> next = None ->
  chain (<[y.1 := {| fn_shortFileName := y.2.1; fn_fileSize := y.2.2; fn_next := Some x.1 |}]> h) ((ns ++ [y]) ++ [x]).
Proof.
  intros ND Hx Hxy. induction ns as [|z ns IH]; cbn [app chain]; intros HC HN ->.
  - split_and!; [|unfold nodeAt; by rewrite lookup_insert_ne|done]. unfold nodeAt. by rewrite lookup_insert_eq.
  - destruct HC as [Hz HC]. cbn [fmap list_fmap app] in ND, Hx. apply NoDup_cons in ND as [Hzn ND]. split.
    + unfold nodeAt. rewrite lookup_insert_ne by set_solver. unfold nodeAt in Hz. rewrite Hz. by destruct ns.
    + apply IH; [done|set_solver|done|done|done].
Qed.

Lemma appendNode_spec {R} safe h q ns x :
  linked h q ns -> NoDup (ns.*1 ++ [x.1]) -> nodeAt h x None -> (safe -> lk_num q < 2 ^ 31 - 1) ->
  outcome safe (appendNode (R := R) h q x.1) (fun '(h', q') => linked h' q' (ns ++ [x]) /\ forall p, p ∉ ns.*1 -> h' !! p = h !! p).
Proof.
  intros [Lh Lt Ln Lc] ND Hx Hnum. unfold appendNode. apply outcome_bind.
  apply NoDup_app in ND as (ND & Hd & _). assert (x.1 ∉ ns.*1) as Hxn by set_solver.
  destruct ns as [|y ns _] using rev_ind.
  - rewrite Lt. cbn [last]. apply outcome_bind, outcome_sint; [intros Hs; apply Hnum in Hs; cbn in Ln; lia|]. split; [|done].
    split; cbn [lk_head lk_tail lk_num]; [done|done|rewrite Ln; cbn; lia|by split].
  - rewrite fmap_app in *. cbn [fmap list_fmap] in *. rewrite last_snoc in Lt. rewrite Lt.
    assert (x.1 <> y.1) as Hxy by set_solver.
    assert (exists nx, nodeAt h y nx) as [nx Hy]. { clear -Lc. induction ns as [|z ns IH]; cbn in Lc; destruct Lc; eauto. }
    unfold deref. cbn [mbind option_bind]. unfold nodeAt in Hy. rewrite Hy. cbn [mbind res_bind].
    apply outcome_bind, outcome_sint; [intros Hs; apply Hnum in Hs; rewrite length_app in Ln; cbn in Ln; lia|]. split.
    + split; cbn [lk_head lk_tail lk_num].
      * rewrite Lh, fmap_app. by destruct ns.
      * rewrite (fmap_app fst (ns ++ [y]) [x]). symmetry. exact (last_snoc x.1 _).
      * rewrite Ln, !length_app. cbn. lia.
      * eapply chain_append; try done. set_solver.
    + intros p Hp. rewrite lookup_insert_ne by set_solver. done.
Qed.

(** A node that is in none of the lists is put at the end of one. *)
Lemma push_spec {R} safe h q ns x :
  linked h q ns -> NoDup ns.*1 -> x.1 ∉ ns.*1 -> (safe -> lk_num q < 2 ^ 31 - 1) ->
  outcome safe (appendNode (R := R) (<[x.1 := {| fn_shortFileName := x.2.1; fn_fileSize := x.2.2; fn_next := None |}]> h) q x.1)
    (fun '(h', q') => linked h' q' (ns ++ [x]) /\ forall p, p ∉ ns.*1 -> p <> x.1 -> h' !! p = h !! p).
Proof.
  intros L ND Hx Hnum. eapply outcome_mono; [apply appendNode_spec; [|apply NoDup_app; split_and!; [done|set_solver|apply NoDup_singleton]| |exact Hnum]|].
  - eapply linked_ext; [|exact L]. intros p Hp. rewrite lookup_insert_ne; [done|set_solver].
  - unfold nodeAt. by rewrite lookup_insert_eq.
  - intros [h' q'] [L' E]. split; [done|]. intros p Hp Hpx. rewrite E by done. by rewrite lookup_insert_ne.
Qed.

Lemma take_spec {R} safe h q x ns :
  linked h q (x :: ns) -> NoDup (x.1 :: ns.*1) -> (safe -> lk_num q < 2 ^ 31) ->
  outcome safe (takeNode (R := R) h q) (fun '(p, q') => p = Some x.1 /\ linked h q' ns).
Proof.
  intros [Lh Lt Ln [Hx Lc]] ND Hnum. unfold takeNode. apply outcome_bind. apply NoDup_cons in ND as [Hxn ND]. rewrite Lh. cbn [fmap list_fmap head].
  assert (forall hd tl, hd = head ns.*1 -> tl = last ns.*1 ->
    outcome safe (num ← sint (R := R) (lk_num q - 1); Ok (Some x.1, {| lk_head := hd; lk_tail := tl; lk_num := num |}))
      (fun '(p, q') => p = Some x.1 /\ linked h q' ns)) as HO.
  { intros hd tl -> ->. apply outcome_bind, outcome_sint; [intros Hs; apply Hnum in Hs; cbn in Ln; lia|]. split; [done|].
    split; cbn [lk_head lk_tail lk_num]; [done|done|rewrite Ln; cbn; lia|done]. }
  destruct (decide (Some x.1 = lk_tail q)) as [E|E]; cbn [outcome].
  - rewrite Lt in E. cbn in E. destruct ns as [|y ns]; [by apply HO|]. exfalso. apply Hxn.
    symmetry in E. change (last (y :: ns).*1 = Some x.1) in E. apply last_Some_elem_of in E. exact E.
  - unfold deref. cbn [mbind option_bind]. unfold nodeAt in Hx. rewrite Hx. cbn [mbind res_bind outcome fn_next].
    apply HO; [done|]. rewrite Lt. destruct ns; [|done]. rewrite Lt in E. done.
Qed.

Lemma chain_some h ns p : chain h ns -> p ∈ ns.*1 -> is_Some (h !! p).
Proof.
  induction ns as [|x ns IH]; cbn; [set_solver|]. intros [Hx Hc] Hp. apply elem_of_cons in Hp as [->|Hp]; [by eexists|by apply IH].
Qed.

(** The other lists are not changed when a node is put into one. *)
Lemma frame_others (h h' : gmap nat FileNode) (p : nat) (l others : list nat) :
  NoDup (l ++ others) -> p ∉ l ++ others -> (forall q, q ∉ l -> q <> p -> h' !! q = h !! q) -> forall q, q ∈ others -> h' !! q = h !! q.
Proof. intros (_ & Hd & _)%NoDup_app Hp E q Hq. apply E; [intros Hl; by apply (Hd q Hl)|set_solver]. Qed.

Lemma frame_dom (h h' : gmap nat FileNode) (p : nat) (l others locs : list nat) :
  (forall q, q ∉ l -> q <> p -> h' !! q = h !! q) -> (forall q, is_Some (h !! q) -> q ∈ p :: l ++ others) -> locs ≡ₚ p :: l ++ others ->
  forall q, is_Some (h' !! q) -> q ∈ locs.
Proof.
  intros E HD EL q Hq. rewrite EL. destruct (decide (q = p)) as [->|Hp]; [apply elem_of_cons; by left|].
  destruct (decide (q ∈ l)); [apply elem_of_cons; right; apply elem_of_app; by left|]. apply HD. by rewrite <- E.
Qed.

(** The loop of the destructor frees the nodes of a list. *)
Lemma freeNodes_spec {R} h ns : forall fuel, (length ns <= fuel)%nat -> NoDup ns.*1 -> chain h ns ->
  exists h', freeNodes (R := R) fuel h (head ns.*1) = Ok h' /\ (forall p, p ∈ ns.*1 -> h' !! p = None) /\ forall p, p ∉ ns.*1 -> h' !! p = h !! p.
Proof.
  revert h. induction ns as [|x ns IH]; intros h fuel Hf ND HC; [exists h; split; [by destruct fuel|]; set_solver|].
  destruct fuel as [|fuel]; [cbn in Hf; lia|]. destruct HC as [Hx HC]. cbn [fmap list_fmap] in ND. apply NoDup_cons in ND as [Hxn ND].
  cbn [fmap list_fmap head freeNodes]. unfold deref. cbn [mbind option_bind]. unfold nodeAt in Hx. rewrite Hx. cbn [mbind res_bind fn_next].
  destruct (IH (delete x.1 h) fuel) as (h' & E & H1 & H2); [cbn in Hf; lia|done|eapply chain_ext; [|exact HC]; intros p Hp; rewrite lookup_delete_ne; [done|set_solver]|].
  exists h'. split; [exact E|]. split.
  - intros p Hp. destruct (decide (p ∈ ns.*1)) as [Hpn|Hpn]; [by apply H1|]. rewrite H2 by done.
    assert (p = x.1) as -> by set_solver. apply lookup_delete_eq.
  - intros p Hp. rewrite H2 by set_solver. rewrite lookup_delete_ne by set_solver. done.
Qed.

(** A list is not longer than the heap. *)
Lemma chain_size (h : gmap nat FileNode) ns : NoDup ns.*1 -> chain h ns -> (length ns <= size h)%nat.
Proof.
  intros ND HC. rewrite <- size_dom. rewrite <- (length_fmap fst ns), <- (size_list_to_set (C := gset nat)) by done. apply subseteq_size.
  intros p Hp. apply elem_of_list_to_set in Hp. apply elem_of_dom. by apply (chain_some h ns).
Qed.
