(* ===== verification/BackendProof.v ===== *)
(** * The backend storer loses no file

    Whatever the order in which the threads take their steps, a file given to the
    backend storer is in the backend storage or still in the cache directory, and only
    files of the backend storage are removed from the cache. *)

From stdpp Require Import base list numbers gmap.
From coqutil Require Import Byte.
From Stdlib Require Import Lia.
From S2P Require Import Prelude Structs FileNames World MinDedupCore DedupCore BackendStorer BackendLists.

Local Open Scope Z_scope.

(** What the class relies on: remove removes a file or fails, access tells whether a
    file exists and the program's own files are accessible. *)
Class CacheFilesLaws (W : Type) `{WorldLaws W} {CF : CacheFiles W} : Prop := {
  remove_law w p : view (remove w p) = set_files (view w) (delete p (files (view w))) \/ view (remove w p) = view w;
  access_F_law w p : access_F w p = bool_decide (is_Some (files (view w) !! p));
  access_RW_law w p : is_Some (files (view w) !! p) -> access_RW w p = true;
}.

(** The documented behaviour of the bimap *)
Class BimapLaws {BM : Bimap} := {
  entries : cache_t -> list (bytes * Z);
  entries_empty : entries cache_empty = [];
  left_find_law c n : left_find c n = bool_decide (n ∈ (entries c).*1);
  insert_law c n z : n ∉ (entries c).*1 -> entries (cache_insert c n z) = entries c ++ [(n, z)];
  relocate_law c n z l1 l2 : NoDup (entries c).*1 -> entries c = l1 ++ (n, z) :: l2 -> entries (right_relocate c n) = l1 ++ l2 ++ [(n, z)];
  begin_law c : right_begin c = ((fun e => (e.2, e.1)) <$> head (entries c));
  erase_law c : entries (right_erase_begin c) = tail (entries c);
}.

(** ** Names *)

Definition endsDir (d : bytes) : Prop := last d = Some slash.
Definition goodName (n : bytes) : Prop := (length n < INTERNAL_FILE_NAME_SIZE)%nat /\ (slash ∉ n) /\ (Byte.x00 ∉ n).
#[global] Instance goodName_dec n : Decision (goodName n).
Proof. unfold goodName. apply _. Defined.

Lemma rfind_name d n : endsDir d -> slash ∉ n -> rfindSlash (d ++ n) (length (d ++ n)) = Some ((length d - 1)%nat).
Proof.
  intros Hd Hn. apply last_Some in Hd as [d' ->]. unfold rfindSlash. rewrite take_ge by lia.
  assert (list_find (eq slash) (rev ((d' ++ [slash]) ++ n)) = Some (length n, slash)) as ->.
  { apply list_find_Some. rewrite !rev_app_distr. cbn [rev app]. split_and!; [|done|].
    - rewrite lookup_app_r; rewrite length_rev; [|lia]. by rewrite Nat.sub_diag.
    - intros j y Hy Hj Ey. subst y. rewrite lookup_app_l in Hy by (rewrite length_rev; lia). apply list_elem_of_lookup_2 in Hy.
      apply Hn. by apply list_elem_of_In, in_rev, list_elem_of_In. }
  f_equal. rewrite !length_app. cbn. lia.
Qed.

Lemma endsDir_length d : endsDir d -> (0 < length d)%nat.
Proof. intros Hd. destruct d; [done|cbn; lia]. Qed.

Lemma path_inj d d' n n' : endsDir d -> endsDir d' -> slash ∉ n -> slash ∉ n' -> d ++ n = d' ++ n' -> d = d' /\ n = n'.
Proof.
  intros Hd Hd' Hn Hn' E. pose proof (rfind_name d n Hd Hn) as H1. rewrite E, (rfind_name d' n' Hd' Hn') in H1.
  apply endsDir_length in Hd, Hd'. injection H1 as H1. apply app_inj_1 in E; [done|lia].
Qed.

Lemma cstr_good {R} n : Byte.x00 ∉ n -> cstr (R := R) (n ++ [Byte.x00]) = Ok n.
Proof. intros Hn. apply cstr_app. exact Hn. Qed.

(** A piece of the list behind the first [pos] elements *)
Lemma take_piece {A} (l : list A) pos k : take pos l ++ take k (drop pos l) = take (pos + (k `min` (length l - pos))) l.
Proof.
  rewrite <- (take_take_drop l pos (k `min` (length l - pos))). f_equal. destruct (decide (k <= length l - pos)%nat); [by rewrite Nat.min_l by lia|].
  rewrite Nat.min_r by lia. rewrite !take_ge by (rewrite length_drop; lia). done.
Qed.

Section Files.
Context {W : Type} `{ReliableWorld W} {CF : CacheFiles W} {BM : Bimap}.

Lemma stdDirName_ok {R} cwd d : endsDir d -> exists d', stdDirName (R := R) cwd d = Ok d'.
Proof.
  intros Hd. unfold stdDirName. case_decide as Hs; [by eexists|]. case_decide as Ht; [|by eexists]. unfold substr.
  rewrite decide_True; [by eexists|]. destruct d as [|c [|c' d]]; [done| |cbn; lia]. exfalso. apply Hs. by injection Hd as ->.
Qed.

Lemma shorten_ok {R} b (w : W) n : endsDir (cacheDirName_ b) -> slash ∉ n ->
  shortenFileName_ (R := R) b w (cacheDirName_ b ++ n) = Ok (Some n).
Proof.
  intros Hd Hn. unfold shortenFileName_. rewrite rfind_name by done. pose proof (endsDir_length _ Hd).
  replace (length (cacheDirName_ b) - 1 + 1)%nat with (length (cacheDirName_ b)) by lia. rewrite take_app_length, drop_app_length.
  unfold equDirName_. destruct (stdDirName_ok (R := R) (if decide (last (get_current_dir_name w) = Some slash) then get_current_dir_name w
    else get_current_dir_name w ++ [slash]) (cacheDirName_ b) Hd) as [d' ->].
  cbn [mbind res_bind]. by rewrite bool_decide_true.
Qed.

(** The loop copies the rest of the file. *)
Lemma copyLoop_ok {R} (w : W) dest src c : forall fuel pos, dest <> src -> files (view w) !! src = Some c ->
  files (view w) !! dest = Some (take pos c) -> (length c - pos < fuel)%nat ->
  exists w', copyLoop (R := R) fuel pos w dest src = Ok (true, w') /\ files (view w') = <[dest := c]> (files (view w)).
Proof.
  intros fuel. revert w. induction fuel as [|fuel IH]; intros w pos Hne Hs Hd Hf; [lia|]. cbn [copyLoop].
  rewrite fread_reliable, Hs. change (default [] (Some c)) with c.
  destruct (take 4096 (drop pos c)) as [|x data] eqn:E.
  - exists w. split; [done|]. symmetry. apply insert_id. rewrite Hd. f_equal. apply take_ge.
    apply (f_equal length) in E. rewrite length_take, length_drop in E. cbn [length] in E. lia.
  - set (buffer := x :: data) in *. destruct (fwrite w dest buffer) as [ok w1] eqn:EW.
    pose proof (fwrite_reliable w dest buffer ltac:(done)) as Hok. rewrite EW in Hok. cbn in Hok. subst ok.
    destruct (fwrite_law _ _ _ _ _ EW) as (c1 & EV & Hc1). destruct (Hc1 eq_refl) as [_ ->]. rewrite Hd in EV. change (default [] (Some (take pos c))) with (take pos c) in EV.
    assert (take pos c ++ buffer = take (pos + length buffer) c) as Ep.
    { rewrite <- E. rewrite length_take, length_drop. apply take_piece. }
    destruct (IH w1 (pos + length buffer)%nat) as (w' & E' & V').
    + done.
    + rewrite EV. cbn. by rewrite lookup_insert_ne.
    + rewrite EV. cbn. rewrite lookup_insert_eq. by rewrite Ep.
    + apply (f_equal length) in E. rewrite length_take, length_drop in E. unfold buffer in *. cbn [length] in *. lia.
    + exists w'. split; [exact E'|]. rewrite V', EV. cbn. by rewrite insert_insert_eq.
Qed.
End Files.

Section Copy.
Context {W : Type} `{ReliableWorld W}.

Lemma localCopyFile_ok {R} (w : W) dest src c : dest <> src -> files (view w) !! src = Some c ->
  exists w', localCopyFile_ (R := R) w dest src = Ok (true, w') /\ files (view w') = <[dest := c]> (files (view w)).
Proof.
  intros Hne Hs. unfold localCopyFile_. rewrite fopen_rb_reliable by by eexists.
  destruct (fopen_wb w dest) as [ok w1] eqn:EO. pose proof (fopen_wb_reliable w dest) as Hok. rewrite EO in Hok. cbn in Hok. subst ok.
  pose proof (fopen_wb_law _ _ _ _ EO) as EV. cbn in EV.
  assert (files (view w1) !! src = Some c) as Hs1 by (rewrite EV; cbn; by rewrite lookup_insert_ne).
  destruct (copyLoop_ok (R := R) w1 dest src c (S (Z.to_nat (fsize w1 src))) 0) as (w' & E & V); [done|done| | |].
  - rewrite EV. cbn. by rewrite lookup_insert_eq.
  - rewrite (fsize_law _ _ _ Hs1). lia.
  - exists w'. split; [exact E|]. rewrite V, EV. cbn. by rewrite insert_insert_eq.
Qed.
End Copy.

(** ** The files

    [added]: the names and contents of the files given to addNewFile.  [pend]: the files
    that are still to be stored, [rest]: those in nodes, calls and entries of the
    cache that are stored. *)

Definition sized (added : list (bytes * bytes)) (e : bytes * Z) : Prop := exists c, (e.1, c) ∈ added /\ e.2 = Z.of_nat (length c).

Record filesOk (cd bd : bytes) (added : list (bytes * bytes)) (fs : gmap bytes bytes) (pend rest : list (bytes * Z)) : Prop := {
  f_sized : Forall (sized added) (pend ++ rest);
  f_nodup : NoDup pend.*1;
  f_disj : forall n, n ∈ rest.*1 -> n ∉ pend.*1;
  f_cache : forall n c, (n, c) ∈ added -> fs !! (cd ++ n) = Some c \/ (n ∉ pend.*1) /\ fs !! (cd ++ n) = None;
  f_back : forall n c, (n, c) ∈ added -> n ∈ pend.*1 /\ fs !! (bd ++ n) = None \/ (n ∉ pend.*1) /\ fs !! (bd ++ n) = Some c;
  f_names : Forall goodName added.*1;
  f_added : NoDup added.*1;
}.

Section FilesOk.
Context (cd bd : bytes) (Hcd : endsDir cd) (Hbd : endsDir bd) (Hne : cd <> bd).
Abbreviation ok := (filesOk cd bd).

Lemma added_inj added fs pend rest n c c' : ok added fs pend rest -> (n, c) ∈ added -> (n, c') ∈ added -> c = c'.
Proof.
  intros F H1 H2. apply list_elem_of_lookup in H1 as [i H1]. apply list_elem_of_lookup in H2 as [j H2].
  assert (i = j) as <-. { eapply (NoDup_lookup _ _ _ n (f_added _ _ _ _ _ _ F)); rewrite list_lookup_fmap; [by rewrite H1|by rewrite H2]. }
  congruence.
Qed.

Lemma name_good added fs pend rest n c : ok added fs pend rest -> (n, c) ∈ added -> goodName n.
Proof. intros F Hn. apply (proj1 (list.Forall_forall _ _) (f_names _ _ _ _ _ _ F)). apply list_elem_of_fmap. by exists (n, c). Qed.

Lemma filesOk_perm added fs pend rest pend' rest' : pend ≡ₚ pend' -> rest ≡ₚ rest' -> ok added fs pend rest -> ok added fs pend' rest'.
Proof.
  intros Ep Er [HS ? Hd Hc Hb ? ?]. assert (forall n, n ∈ pend'.*1 <-> n ∈ pend.*1) as Mp by (intros n; by rewrite Ep).
  split; [|by rewrite <- Ep| | | |done|done].
  - apply list.Forall_forall. intros x Hx. apply (proj1 (list.Forall_forall _ _) HS). apply elem_of_app in Hx as [Hx|Hx]; apply elem_of_app; [left; by rewrite Ep|right; by rewrite Er].
  - intros n Hn. rewrite Mp. apply Hd. by rewrite Er.
  - intros n c Hn. rewrite Mp. by apply Hc.
  - intros n c Hn. rewrite Mp. by apply Hb.
Qed.

(** The set of stored files may shrink. *)
Lemma filesOk_rest added fs pend rest rest' : rest' ⊆ rest -> ok added fs pend rest -> ok added fs pend rest'.
Proof.
  intros Hs [F ? ? ? ? ? ?]. split; try done.
  - apply list.Forall_app in F as [? F]. apply list.Forall_app. split; [done|]. apply list.Forall_forall. intros x Hx.
    apply (proj1 (list.Forall_forall _ _) F). by apply Hs.
  - intros n Hn. apply list_elem_of_fmap in Hn as (x & -> & Hx). apply f_disj0. apply list_elem_of_fmap. exists x. split; [done|]. by apply Hs.
Qed.

(** A file that is not one of ours is written. *)
Lemma filesOk_write added fs pend rest p data : (forall n, n ∈ added.*1 -> p <> cd ++ n /\ p <> bd ++ n) ->
  ok added fs pend rest -> ok added (<[p := data]> fs) pend rest.
Proof.
  intros Hp [? ? ? Hc Hb ? ?]. split; try done; intros n c Hn;
    (destruct (Hp n) as [? ?]; [apply list_elem_of_fmap; by exists (n, c)|]); rewrite lookup_insert_ne by done; auto.
Qed.

(** A stored file is evicted. *)
Lemma filesOk_evict added fs pend rest n : n ∈ rest.*1 -> ok added fs pend rest -> ok added (delete (cd ++ n) fs) pend rest.
Proof.
  intros Hn F. pose proof F as [? ? Hd Hc Hb ? ?]. 
  assert (goodName n) as (_ & Hsl & _).
  { apply list_elem_of_fmap in Hn as (x & -> & Hx). pose proof (f_sized _ _ _ _ _ _ F) as HF. apply list.Forall_app in HF as [_ HF].
    destruct (proj1 (list.Forall_forall _ _) HF x Hx) as (c & Hc' & _). by eapply name_good. }
  split; try done; intros n' c Hn'; pose proof (name_good _ _ _ _ _ _ F Hn') as (_ & Hsl' & _).
  - destruct (decide (n' = n)) as [->|Hnn]; [right; split; [by apply Hd|apply lookup_delete_eq]|].
    rewrite lookup_delete_ne; [by apply Hc|]. intros E. by apply path_inj in E as [_ ->].
  - rewrite lookup_delete_ne; [by apply Hb|]. intros E. by apply path_inj in E as [? _].
Qed.

(** A pending file is stored. *)
Lemma filesOk_store added fs n z pend rest : ok added fs ((n, z) :: pend) rest ->
  exists c, fs !! (cd ++ n) = Some c /\ ok added (<[bd ++ n := c]> fs) pend ((n, z) :: rest).
Proof.
  intros F. pose proof F as [HS ND Hd Hc Hb ? ?]. cbn [app fmap list_fmap fst] in *. apply list.Forall_cons in HS as [(c & Hca & Hz) HS]. cbn [fst snd] in *.
  apply NoDup_cons in ND as [Hnp ND]. pose proof (name_good _ _ _ _ _ _ F Hca) as (_ & Hsl & _).
  exists c. split; [destruct (Hc n c Hca) as [|[Hx _]]; [done|set_solver]|]. split; try done.
  - apply list.Forall_app in HS as [? ?]. apply list.Forall_app. split; [done|]. constructor; [by exists c|done].
  - intros n' Hn'. cbn in Hn'. apply elem_of_cons in Hn' as [->|Hn']; [done|]. apply Hd in Hn'. set_solver.
  - intros n' c' Hn'. pose proof (name_good _ _ _ _ _ _ F Hn') as (_ & Hsl' & _).
    rewrite lookup_insert_ne; [|intros E; apply path_inj in E as [? _]; done]. destruct (Hc n' c' Hn') as [?|[??]]; [by left|right; set_solver].
  - intros n' c' Hn'. pose proof (name_good _ _ _ _ _ _ F Hn') as (_ & Hsl' & _). destruct (decide (n' = n)) as [->|Hnn].
    + right. rewrite lookup_insert_eq. rewrite (added_inj _ _ _ _ _ _ _ F Hn' Hca). done.
    + rewrite lookup_insert_ne; [|intros E; apply path_inj in E as [? ?]; done]. destruct (Hb n' c' Hn') as [[? ?]|[? ?]]; [left|right]; set_solver.
Qed.

(** A new file is added. *)
Lemma filesOk_add added fs n c pend rest : goodName n -> n ∉ added.*1 -> fs !! (cd ++ n) = Some c -> fs !! (bd ++ n) = None ->
  ok added fs pend rest -> ok ((n, c) :: added) fs ((n, Z.of_nat (length c)) :: pend) rest.
Proof.
  intros Hg Hn Hc Hb F. pose proof F as [HS ND Hd HC HB HN HA].
  assert (forall m z, (m, z) ∈ pend ++ rest -> m <> n) as Hnew.
  { intros m z Hm ->. destruct (proj1 (list.Forall_forall _ _) HS _ Hm) as (c' & Hc' & _). apply Hn. apply list_elem_of_fmap. by exists (n, c'). }
  split.
  - constructor; [exists c; split; [cbn; set_solver|done]|]. eapply list.Forall_impl; [exact HS|]. intros x (c' & Hc' & ?). exists c'. set_solver.
  - cbn. apply NoDup_cons. split; [|done]. intros Hx. apply list_elem_of_fmap in Hx as ([m z] & E & Hx). cbn in E. subst. apply (Hnew m z); [set_solver|done].
  - intros m Hm. cbn. apply not_elem_of_cons. split; [|by apply Hd]. apply list_elem_of_fmap in Hm as ([m' z] & -> & Hx). apply (Hnew _ z). cbn. set_solver.
  - intros m c' Hm. cbn. apply elem_of_cons in Hm as [[= -> ->]|Hm]; [by left|]. destruct (HC m c' Hm) as [?|[??]]; [by left|right]. split; [|done].
    apply not_elem_of_cons. split; [|done]. intros ->. apply Hn. apply list_elem_of_fmap. by exists (n, c').
  - intros m c' Hm. cbn. apply elem_of_cons in Hm as [[= -> ->]|Hm]; [left; set_solver|]. destruct (HB m c' Hm) as [[??]|[??]]; [left; set_solver|right]. split; [|done].
    apply not_elem_of_cons. split; [|done]. intros ->. apply Hn. apply list_elem_of_fmap. by exists (n, c').
  - by constructor.
  - cbn. by constructor.
Qed.
End FilesOk.
