(* ===== verification/BackendThreads.v ===== *)
(** * The threads of the backend storer

    The invariant of the lists, the calls and the files, and that every step keeps it. *)

From stdpp Require Import base list numbers gmap.
From coqutil Require Import Byte.
From Stdlib Require Import Lia Permutation.
From S2P Require Import Prelude Structs FileNames World MinDedupCore DedupCore BackendStorer BackendLists BackendProof.

Local Open Scope Z_scope.
#[local] Existing Instances Permutation_cons Permutation_app'.

(** ** Sums and calls *)

Definition total (l : list (bytes * Z)) : Z := foldr (fun e t => e.2 + t) 0 l.

Lemma total_app l1 l2 : total (l1 ++ l2) = total l1 + total l2.
Proof. induction l1 as [|e l1 IH]; cbn; [done|]. unfold total in *. lia. Qed.

#[global] Instance total_perm : Proper ((≡ₚ) ==> (=)) total.
Proof. intros l l' E. induction E; cbn; unfold total in *; lia. Qed.

Lemma total_nonneg added l : Forall (sized added) l -> 0 <= total l.
Proof. induction 1 as [|e l (c & _ & E) _ IH]; cbn; [done|]. unfold total in IH. lia. Qed.

Definition addOf (cd : bytes) (c : Call) : option (bytes * Z) :=
  match c with Adding full z => Some (drop (length cd) full, z) | Opening _ _ _ => None end.
Definition openOf (c : Call) : option (bytes * Z) :=
  match c with Adding _ _ => None | Opening n z _ => Some (n, z) end.
Abbreviation adds cd := (omap (addOf cd)).
Abbreviation opens := (omap openOf).

(** A call of ours has a name in the cache directory; no file is restored. *)
Definition callOk (cd : bytes) (c : Call) : Prop :=
  match c with Adding full _ => exists n, full = cd ++ n | Opening _ _ restored => restored = false end.

(** ** The invariant *)

Section Threads.
Context {W : Type} `{RW : ReliableWorld W} {CF : CacheFiles W} {CFL : CacheFilesLaws W} {BM : Bimap} {BL : BimapLaws}.
Context (cd bd : bytes) (max : Z).
Context (Hcd : endsDir cd) (Hbd : endsDir bd) (Hne : cd <> bd) (Hmax : 0 < max < 2 ^ 63).

(** The node the storer works on: before and after its file is stored *)
Definition handAt (h : gmap nat FileNode) (pc : StorerPc) (hs hd : list node) : Prop :=
  match pc with
  | SHold p => exists x next, hs = [x] /\ hd = [] /\ p = Some x.1 /\ nodeAt h x next
  | SDone p => exists x next, hs = [] /\ hd = [x] /\ p = Some x.1 /\ nodeAt h x next
  | _ => hs = [] /\ hd = []
  end.

Record sysInv (added : list (bytes * bytes)) (s : Sys W) (ns1 ns2 hs hd : list node) (pend rest : list (bytes * Z)) : Prop := {
  v_static : backendType_ (sy_obj s) = IPSERVER /\ backendIP_ (sy_obj s) = localhost /\ cacheDirName_ (sy_obj s) = cd /\
             backendDirName_ (sy_obj s) = bd /\ maxCacheSize_ (sy_obj s) = max;
  v_q1 : linked (heap (sy_obj s)) (newlyStored (sy_obj s)) ns1;
  v_q2 : linked (heap (sy_obj s)) (newlyUsed (sy_obj s)) ns2;
  v_hand : handAt (heap (sy_obj s)) (sy_storer s) hs hd;
  v_locs : NoDup (ns1.*1 ++ hs.*1 ++ hd.*1 ++ ns2.*1);
  v_dom : forall p, is_Some (heap (sy_obj s) !! p) -> p ∈ ns1.*1 ++ hs.*1 ++ hd.*1 ++ ns2.*1;
  v_pend : pend ≡ₚ adds cd (sy_calls s) ++ ns1.*2 ++ hs.*2;
  v_rest : rest ≡ₚ hd.*2 ++ ns2.*2 ++ opens (sy_calls s) ++ entries (cache_ (sy_obj s));
  v_calls : Forall (callOk cd) (sy_calls s);
  v_files : filesOk cd bd added (files (view (sy_world s))) pend rest;
  v_avail : availCacheSize_ (sy_obj s) = max - total pend - total hd.*2;
  v_used : usedCacheSize_ (sy_obj s) <= 0;
  v_keys : NoDup (entries (cache_ (sy_obj s))).*1;
  v_storer : sy_storer s = SAsleep -> ns1 = [];
  v_updater : sy_updater s = UAsleep -> ns2 = [] /\ usedCacheSize_ (sy_obj s) <= availCacheSize_ (sy_obj s);
}.

Definition Good (added : list (bytes * bytes)) (s : Sys W) : Prop :=
  exists ns1 ns2 hs hd pend rest, sysInv added s ns1 ns2 hs hd pend rest.

(** What the server may do: write other files than those of the storer, add a complete
    file of a new name, and open a file that is stored and still in the cache. *)
Definition allowed (added : list (bytes * bytes)) (s : Sys W) (e : Event) : Prop :=
  let fs := files (view (sy_world s)) in
  match e with
  | WriteFile name _ => forall n, n ∈ added.*1 -> name <> cd ++ n /\ name <> bd ++ n
  | BeginAdd name => exists n c, name = cd ++ n /\ goodName n /\ (n ∉ added.*1) /\ fs !! name = Some c /\ fs !! (bd ++ n) = None /\ Z.of_nat (length c) < 2 ^ 63
  | BeginOpen name _ => exists n c, name = cd ++ n /\ (n, c) ∈ added /\ is_Some (fs !! name) /\ fs !! (bd ++ n) = Some c
  | _ => True
  end.

Definition track (added : list (bytes * bytes)) (s : Sys W) (e : Event) : list (bytes * bytes) :=
  match e with
  | BeginAdd name => (drop (length cd) name, default [] (files (view (sy_world s)) !! name)) :: added
  | _ => added
  end.

(** The cache is not overfull, and the counters are in range. *)
Definition safe (s : Sys W) : Prop :=
  0 <= availCacheSize_ (sy_obj s) /\ - 2 ^ 63 <= usedCacheSize_ (sy_obj s) - max /\
  lk_num (newlyStored (sy_obj s)) < 2 ^ 31 - 1 /\ lk_num (newlyUsed (sy_obj s)) < 2 ^ 31 - 1.

Abbreviation keeps added s m := (outcome (safe s) m (fun r => forall s', r = Some s' -> Good added s')).

(** ** What the server does *)

Lemma hand_some h pc hs hd p : handAt h pc hs hd -> p ∈ hs.*1 ++ hd.*1 -> is_Some (h !! p).
Proof.
  destruct pc; cbn [handAt].
  - intros [-> ->] Hp. by apply not_elem_of_nil in Hp.
  - intros [-> ->] Hp. by apply not_elem_of_nil in Hp.
  - intros (x & nx & -> & -> & _ & Hx) Hp. apply list_elem_of_singleton in Hp as ->. by eexists.
  - intros (x & nx & -> & -> & _ & Hx) Hp. apply list_elem_of_singleton in Hp as ->. by eexists.
Qed.

(** A free address is in none of the lists. *)
Lemma free_address added s ns1 ns2 hs hd pend rest p : sysInv added s ns1 ns2 hs hd pend rest -> heap (sy_obj s) !! p = None ->
  p ∉ ns1.*1 ++ hs.*1 ++ hd.*1 ++ ns2.*1.
Proof.
  intros V Hp Hin. assert (is_Some (heap (sy_obj s) !! p)) as [? E]; [|congruence].
  rewrite (app_assoc hs.*1), !elem_of_app in Hin. destruct Hin as [Hin|[Hin|Hin]].
  - eapply chain_some; [apply (v_q1 _ _ _ _ _ _ _ _ V)|done].
  - eapply hand_some; [apply (v_hand _ _ _ _ _ _ _ _ V)|by apply elem_of_app].
  - eapply chain_some; [apply (v_q2 _ _ _ _ _ _ _ _ V)|done].
Qed.

Lemma write_keeps added s name data : Good added s -> allowed added s (WriteFile name data) ->
  keeps added s (exec (R := False) (WriteFile name data) s).
Proof.
  intros (ns1 & ns2 & hs & hd & pend & rest & V) HA. cbn [exec outcome]. intros s' [= <-].
  exists ns1, ns2, hs, hd, pend, rest. destruct V. split; try done. cbn [sy_world].
  destruct (fopen_wb (sy_world s) name) as [ok1 w1] eqn:E1. cbn [snd]. destruct (fwrite w1 name data) as [ok2 w2] eqn:E2. cbn [snd].
  destruct (fwrite_law _ _ _ _ _ E2) as (c & -> & _). cbn. apply filesOk_write; [done|].
  rewrite (fopen_wb_law _ _ _ _ E1). destruct ok1; [|done]. cbn. by apply filesOk_write.
Qed.

Lemma add_keeps added s name : Good added s -> allowed added s (BeginAdd name) ->
  keeps (track added s (BeginAdd name)) s (exec (R := False) (BeginAdd name) s).
Proof.
  intros (ns1 & ns2 & hs & hd & pend & rest & V) (n & c & -> & Hg & Hn & Hc & Hb & Hl).
  assert (getUnopenedFileSize_ (sy_world s) (cd ++ n) = Z.of_nat (length c)) as Ez.
  { unfold getUnopenedFileSize_. rewrite fopen_rb_reliable by by eexists. by apply fsize_law. }
  assert (forall pc, sy_updater s = pc -> pc <> ULocked -> keeps (track added s (BeginAdd (cd ++ n))) s
    ('(fileSize, b, sig) ← addSize (R := False) (sy_obj s) (sy_world s) (cd ++ n);
     Ok (Some {| sy_obj := b; sy_world := sy_world s; sy_calls := sy_calls s ++ [Adding (cd ++ n) fileSize];
                 sy_storer := sy_storer s; sy_updater := wakeUpdater sig pc |}))) as HK.
  2: { cbn [exec]. destruct (sy_updater s) eqn:Eu; [by apply HK|by apply HK|]. cbn. intros s' [=]. }
  intros pc Epc Hpc. unfold addSize. rewrite Ez. pose proof V as [HS Q1 Q2 HH HL HDom HP HR HC HF HA HU HD HSt HUp].
  pose proof (f_sized _ _ _ _ _ _ HF) as Hsz. pose proof Hsz as Hsz'. apply list.Forall_app in Hsz' as [Hsz1 Hsz2].
  assert (0 <= total hd.*2) as Hhd.
  { apply (total_nonneg added). apply list.Forall_forall. intros x Hx. apply (proj1 (list.Forall_forall _ _) Hsz2). rewrite HR. set_solver. }
  apply total_nonneg in Hsz1.
  apply outcome_bind, outcome_bind, outcome_slong. { intros (Ha & _). lia. }
  cbn. intros s' [= <-]. exists ns1, ns2, hs, hd, ((n, Z.of_nat (length c)) :: pend), rest. split; cbn; try done.
  - rewrite omap_app. cbn. rewrite drop_app_length, HP. solve_Permutation.
  - rewrite omap_app. cbn. by rewrite app_nil_r.
  - apply list.Forall_app. split; [done|]. constructor; [by exists n|done].
  - rewrite drop_app_length, Hc. cbn. by apply filesOk_add.
  - unfold total in *. cbn. lia.
  - destruct pc; try done. cbn. case_bool_decide as Hlt; [done|]. intros _. destruct (HUp Epc) as [-> _]. split; [done|lia].
Qed.

Lemma filesOk_open added fs pend rest n c : (n, c) ∈ added -> fs !! (bd ++ n) = Some c -> filesOk cd bd added fs pend rest ->
  filesOk cd bd added fs pend ((n, Z.of_nat (length c)) :: rest).
Proof.
  intros Hn Hb [HS ND Hd Hc HB HN HA]. split; try done.
  - apply list.Forall_app in HS as [? ?]. apply list.Forall_app. split; [done|]. constructor; [by exists c|done].
  - intros m Hm. cbn in Hm. apply elem_of_cons in Hm as [->|Hm]; [|by apply Hd]. destruct (HB n c Hn) as [[_ E]|[? _]]; [congruence|done].
Qed.

Lemma open_keeps added s name fp : Good added s -> allowed added s (BeginOpen name fp) ->
  keeps added s (exec (R := False) (BeginOpen name fp) s).
Proof.
  intros (ns1 & ns2 & hs & hd & pend & rest & V) (n & c & -> & Hn & Hex & Hb). pose proof V as [HS Q1 Q2 HH HL HDom HP HR HC HF HA HU HD HSt HUp].
  destruct HS as (ET & EI & ECD & EBD & EM). destruct (name_good cd bd _ _ _ _ _ _ HF Hn) as (_ & Hsl & _).
  assert (files (view (sy_world s)) !! (cd ++ n) = Some c) as Hc. { destruct (f_cache _ _ _ _ _ _ HF n c Hn) as [?|[_ E]]; [done|]. rewrite E in Hex. by destruct Hex. }
  cbn [exec]. apply outcome_bind. unfold openFile.
  pose proof (shorten_ok (R := False) (sy_obj s) (sy_world s) n) as ES. rewrite ECD in ES. rewrite ES by done. cbn [mbind res_bind].
  unfold checkFileExistence_, checkFilePermissions_. rewrite access_F_law, bool_decide_true, access_RW_law, fopen_rb_reliable by done.
  cbn. rewrite (fsize_law _ _ _ Hc). intros s' [= <-]. exists ns1, ns2, hs, hd, pend, ((n, Z.of_nat (length c)) :: rest). split; cbn; try done.
  - rewrite omap_app. cbn. by rewrite app_nil_r.
  - rewrite omap_app. cbn. rewrite HR. solve_Permutation.
  - apply list.Forall_app. split; [done|]. by constructor.
  - by apply filesOk_open.
Qed.

(** ** The second halves of the calls *)

Lemma hand_ext h h' pc hs hd : (forall p, p ∈ hs.*1 ++ hd.*1 -> h' !! p = h !! p) -> handAt h pc hs hd -> handAt h' pc hs hd.
Proof.
  intros E. destruct pc; cbn [handAt]; try done; intros (x & nx & -> & -> & Ep & Hx); exists x, nx; split_and!; try done;
    unfold nodeAt; rewrite E; [done|set_solver|done|set_solver].
Qed.

Lemma newNode_ok {R} h p n z : goodName n -> newNode (R := R) h p n z = Ok (<[p := {| fn_shortFileName := n; fn_fileSize := z; fn_next := None |}]> h).
Proof. intros (Hl & _ & Hz). unfold newNode. rewrite cstr_good by done. cbn [mbind res_bind]. by rewrite decide_True. Qed.

Lemma sized_good added fs pend rest n z : filesOk cd bd added fs pend rest -> (n, z) ∈ pend ++ rest -> goodName n /\ 0 <= z.
Proof.
  intros F Hn. destruct (proj1 (list.Forall_forall _ _) (f_sized _ _ _ _ _ _ F) _ Hn) as (c & Hc & Hz). cbn in *.
  split; [by eapply name_good|lia].
Qed.

Lemma endAdd_keeps added s i p name z : Good added s -> heap (sy_obj s) !! p = None -> sy_calls s !! i = Some (Adding name z) ->
  keeps added s (exec (R := False) (EndCall i p) s).
Proof.
  intros (ns1 & ns2 & hs & hd & pend & rest & V) Hp Hi. pose proof V as [HS Q1 Q2 HH HL HDom HP HR HC HF HA HU HD HSt HUp].
  destruct HS as (ET & EI & ECD & EBD & EM). destruct (proj1 (list.Forall_lookup _ _) HC i _ Hi) as [n ->].
  pose proof (delete_Permutation _ _ _ Hi) as EC.
  assert (adds cd (sy_calls s) ≡ₚ (n, z) :: adds cd (delete i (sy_calls s))) as EA by (rewrite EC at 1; cbn; by rewrite drop_app_length).
  destruct (sized_good _ _ _ _ n z HF) as [Hg Hz]; [apply elem_of_app; left; rewrite HP, EA; set_solver|].
  pose proof (free_address _ _ _ _ _ _ _ _ p V Hp) as Hfree.
  cbn [exec]. rewrite Hp, Hi. apply outcome_bind. unfold addLink.
  pose proof (shorten_ok (R := False) (sy_obj s) (sy_world s) n) as ES. rewrite ECD in ES. rewrite ES by (done || apply Hg). cbn [mbind res_bind].
  rewrite newNode_ok by done. cbn [mbind res_bind]. apply outcome_bind.
  eapply outcome_mono; [apply (push_spec _ _ _ ns1 (p, (n, z)) Q1)|].
  - by apply NoDup_app in HL as (? & _).
  - set_solver.
  - intros (_ & _ & ? & _). done.
  - intros [h' q'] [L' E']. pose proof (frame_others _ _ _ _ _ HL Hfree E') as E. cbn. intros s' [= <-]. exists (ns1 ++ [(p, (n, z))]), ns2, hs, hd, pend, rest. split; cbn; try done.
    + eapply linked_ext; [|exact Q2]. intros q Hq. apply E. set_solver.
    + assert (handAt h' (sy_storer s) hs hd) as HH' by (eapply hand_ext; [|exact HH]; intros q Hq; apply E; set_solver).
      rewrite (l_num _ _ _ L'), length_app. cbn [length]. rewrite bool_decide_true by lia. by destruct (sy_storer s).
    + rewrite fmap_app. cbn. assert ((ns1.*1 ++ [p]) ++ hs.*1 ++ hd.*1 ++ ns2.*1 ≡ₚ p :: ns1.*1 ++ hs.*1 ++ hd.*1 ++ ns2.*1) as -> by solve_Permutation.
      by apply NoDup_cons.
    + rewrite fmap_app. eapply frame_dom; [exact E'|intros r Hr; apply elem_of_cons; right; exact (HDom r Hr)|]. cbn. solve_Permutation.
    + rewrite HP, EA, fmap_app. cbn. solve_Permutation.
    + rewrite HR. rewrite EC at 1. done.
    + rewrite EC in HC. by apply list.Forall_cons in HC as [_ ?].
    + rewrite (l_num _ _ _ L'), length_app. cbn [length]. rewrite bool_decide_true by lia. by destruct (sy_storer s).
Qed.

Lemma endOpen_keeps added s i p n z restored : Good added s -> heap (sy_obj s) !! p = None -> sy_calls s !! i = Some (Opening n z restored) ->
  keeps added s (exec (R := False) (EndCall i p) s).
Proof.
  intros (ns1 & ns2 & hs & hd & pend & rest & V) Hp Hi. pose proof V as [HS Q1 Q2 HH HL HDom HP HR HC HF HA HU HD HSt HUp].
  pose proof (proj1 (list.Forall_lookup _ _) HC i _ Hi) as Hr. cbn in Hr. subst restored.
  pose proof (delete_Permutation _ _ _ Hi) as EC.
  assert (opens (sy_calls s) ≡ₚ (n, z) :: opens (delete i (sy_calls s))) as EO by (rewrite EC at 1; done).
  destruct (sized_good _ _ _ _ n z HF) as [Hg Hz]; [apply elem_of_app; right; rewrite HR, EO; set_solver|].
  pose proof (free_address _ _ _ _ _ _ _ _ p V Hp) as Hfree.
  assert (forall pc, pc <> ULocked -> keeps added s
    ('(b, sig) ← openLink (R := False) (sy_obj s) n z false p;
     Ok (Some {| sy_obj := b; sy_world := sy_world s; sy_calls := delete i (sy_calls s); sy_storer := sy_storer s; sy_updater := wakeUpdater sig pc |}))) as HK.
  2: { cbn [exec]. rewrite Hp, Hi. destruct (sy_updater s); [by apply HK|by apply HK|]. cbn. intros s' [=]. }
  intros pc Hpc. apply outcome_bind. unfold openLink. rewrite newNode_ok by done. cbn [mbind res_bind]. apply outcome_bind.
  assert (ns1.*1 ++ hs.*1 ++ hd.*1 ++ ns2.*1 ≡ₚ ns2.*1 ++ ns1.*1 ++ hs.*1 ++ hd.*1) as EL by solve_Permutation. rewrite EL in HL, Hfree.
  eapply outcome_mono; [apply (push_spec _ _ _ ns2 (p, (n, z)) Q2)|].
  - by apply NoDup_app in HL as (? & _).
  - set_solver.
  - intros (_ & _ & _ & ?). done.
  - intros [h' q'] [L' E']. pose proof (frame_others _ _ _ _ _ HL Hfree E') as E. cbn. intros s' [= <-]. exists ns1, (ns2 ++ [(p, (n, z))]), hs, hd, pend, rest. split; cbn; try done.
    + eapply linked_ext; [|exact Q1]. intros q Hq. apply E. set_solver.
    + eapply hand_ext; [|exact HH]. intros q Hq. apply E. set_solver.
    + rewrite fmap_app. cbn. assert (ns1.*1 ++ hs.*1 ++ hd.*1 ++ ns2.*1 ++ [p] ≡ₚ p :: ns2.*1 ++ ns1.*1 ++ hs.*1 ++ hd.*1) as -> by solve_Permutation.
      by apply NoDup_cons.
    + rewrite fmap_app. eapply frame_dom; [exact E'|intros r Hr; apply elem_of_cons; right; rewrite <- EL; exact (HDom r Hr)|]. cbn. solve_Permutation.
    + rewrite HP. rewrite EC at 1. done.
    + rewrite HR, EO, fmap_app. cbn. solve_Permutation.
    + rewrite EC in HC. by apply list.Forall_cons in HC as [_ ?].
    + rewrite (l_num _ _ _ L'), length_app. cbn [length]. rewrite bool_decide_true by lia. cbn. by destruct pc.
Qed.

(** ** The storer *)

Lemma take_keeps added s : Good added s -> sy_storer s = SAwake -> keeps added s (storeNewFile (R := False) s).
Proof.
  intros (ns1 & ns2 & hs & hd & pend & rest & V) Est. pose proof V as [HS Q1 Q2 HH HL HDom HP HR HC HF HA HU HD HSt HUp].
  rewrite Est in HH. destruct HH as [-> ->]. unfold storeNewFile. rewrite Est. case_decide as Hnum.
  - cbn. intros s' [= <-]. pose proof (linked_empty _ _ _ Q1 Hnum) as ->. by exists [], ns2, [], [], pend, rest.
  - destruct (linked_cons _ _ _ Q1 ltac:(lia)) as (x & ns & ->). apply outcome_bind. unfold takeNewFile. apply outcome_bind.
    eapply outcome_mono; [apply (take_spec _ _ _ x ns Q1)|].
    + by apply NoDup_app in HL as (? & _).
    + intros (_ & _ & ? & _). lia.
    + intros [p q'] [-> L']. cbn. intros s' [= <-]. exists ns, ns2, [x], [], pend, rest. split; cbn; try done.
      * exists x, (head ns.*1). split_and!; try done. by destruct (l_chain _ _ _ Q1).
      * cbn in HL. assert (ns.*1 ++ x.1 :: ns2.*1 ≡ₚ x.1 :: ns.*1 ++ ns2.*1) as -> by solve_Permutation. exact HL.
      * intros q Hq. specialize (HDom q Hq). cbn in HDom. set_solver.
      * rewrite HP. cbn. solve_Permutation.
Qed.

Lemma store_keeps added s p : Good added s -> sy_storer s = SHold p -> keeps added s (storeNewFile (R := False) s).
Proof.
  intros (ns1 & ns2 & hs & hd & pend & rest & V) Est. pose proof V as [HS Q1 Q2 HH HL HDom HP HR HC HF HA HU HD HSt HUp].
  rewrite Est in HH. destruct HH as (x & nx & -> & -> & -> & Hx). destruct HS as (ET & EI & ECD & EBD & EM).
  destruct x as [p [n z]]. cbn [fst snd fmap list_fmap] in *.
  assert (pend ≡ₚ (n, z) :: adds cd (sy_calls s) ++ ns1.*2) as EP by (rewrite HP; solve_Permutation).
  apply (filesOk_perm _ _ _ _ _ _ _ _ EP (reflexivity rest)) in HF.
  destruct (sized_good _ _ _ _ n z HF) as [(_ & Hsl & _) _]; [set_solver|].
  destruct (filesOk_store cd bd Hcd Hbd Hne _ _ _ _ _ _ HF) as (c & Hc & HF').
  unfold storeNewFile. rewrite Est. unfold storeFile, deref. cbn [mbind option_bind]. unfold nodeAt in Hx. cbn [fst snd] in Hx. rewrite Hx. cbn [mbind res_bind].
  unfold backendStoreNewFile_. rewrite decide_True by done. rewrite decide_True by done. rewrite ECD, EBD. cbn [fn_shortFileName].
  destruct (localCopyFile_ok (R := False) (sy_world s) (bd ++ n) (cd ++ n) c) as (w' & E & EV); [|done|].
  { intros E. by apply path_inj in E as [? _]. }
  rewrite E. cbn. intros s' [= <-]. exists ns1, ns2, [], [(p, (n, z))], (adds cd (sy_calls s) ++ ns1.*2), ((n, z) :: rest). split; cbn; try done.
  - by exists (p, (n, z)), nx.
  - by rewrite app_nil_r.
  - by rewrite HR.
  - by rewrite EV.
  - rewrite HA, EP. cbn. unfold total. lia.
Qed.

Lemma link_keeps added s p : Good added s -> sy_storer s = SDone p -> keeps added s (storeNewFile (R := False) s).
Proof.
  intros (ns1 & ns2 & hs & hd & pend & rest & V) Est. pose proof V as [HS Q1 Q2 HH HL HDom HP HR HC HF HA HU HD HSt HUp].
  rewrite Est in HH. destruct HH as (x & nx & -> & -> & -> & Hx).
  pose proof (f_sized _ _ _ _ _ _ HF) as Hsz. apply list.Forall_app in Hsz as [Hp0%total_nonneg _].
  destruct (sized_good _ _ _ _ x.2.1 x.2.2 HF) as [_ Hz]; [apply elem_of_app; right; rewrite HR; destruct x as [? [? ?]]; cbn; set_solver|].
  assert (availCacheSize_ (sy_obj s) = max - total pend - x.2.2) as HA' by (rewrite HA; unfold total; cbn; lia).
  cbn [fmap list_fmap app] in HL.
  assert (ns1.*1 ++ x.1 :: ns2.*1 ≡ₚ x.1 :: ns2.*1 ++ ns1.*1) as EL by solve_Permutation. rewrite EL in HL. apply NoDup_cons in HL as [Hxl HL].
  assert (forall pc, pc <> ULocked -> keeps added s
    ('(b, sig) ← linkStored (R := False) (sy_obj s) (Some x.1);
     Ok (Some {| sy_obj := b; sy_world := sy_world s; sy_calls := sy_calls s; sy_storer := SAwake; sy_updater := wakeUpdater sig pc |}))) as HK.
  2: { unfold storeNewFile. rewrite Est. destruct (sy_updater s); [by apply HK|by apply HK|]. cbn. intros s' [=]. }
  intros pc Hpc. apply outcome_bind. unfold linkStored, deref. cbn [mbind option_bind]. unfold nodeAt in Hx. rewrite Hx. cbn [mbind res_bind].
  apply outcome_bind. eapply outcome_mono; [apply (push_spec _ _ _ ns2 x Q2)|].
  - by apply NoDup_app in HL as (? & _).
  - set_solver.
  - intros (_ & _ & _ & ?). done.
  - intros [h' q'] [L' E']. pose proof (frame_others _ _ _ _ _ HL Hxl E') as E. cbn [fn_fileSize]. apply outcome_bind, outcome_slong; [intros (Ha & _); lia|].
    apply outcome_bind, outcome_slong; [intros (Ha & Hu & _); lia|]. cbn. intros s' [= <-].
    exists ns1, (ns2 ++ [x]), [], [], pend, rest. split; cbn; try done.
    + eapply linked_ext; [|exact Q1]. intros q Hq. by apply E.
    + rewrite fmap_app. cbn. assert (ns1.*1 ++ ns2.*1 ++ [x.1] ≡ₚ x.1 :: ns2.*1 ++ ns1.*1) as -> by solve_Permutation. by apply NoDup_cons.
    + rewrite fmap_app. eapply frame_dom; [exact E'|intros r Hr; rewrite <- EL; exact (HDom r Hr)|]. cbn. solve_Permutation.
    + rewrite HR, fmap_app. cbn. solve_Permutation.
    + lia.
    + lia.
    + rewrite (l_num _ _ _ L'), length_app. cbn [length]. rewrite bool_decide_true by lia. by destruct pc.
Qed.

Lemma storer_keeps added s : Good added s -> keeps added s (exec (R := False) StoreNewFile s).
Proof.
  intros HG. cbn [exec]. destruct (sy_storer s) as [| |p|p] eqn:Est; [by apply take_keeps| |by eapply store_keeps|by eapply link_keeps].
  unfold storeNewFile. rewrite Est. cbn. intros s' [=].
Qed.

(** ** The cache updater *)

(** The entry of a used file goes to the end; names stay unique. *)
Lemma touch_spec c n z : NoDup (entries c).*1 ->
  NoDup (entries (touch c n z)).*1 /\ forall y, y ∈ entries (touch c n z) -> y = (n, z) \/ y ∈ entries c.
Proof.
  intros HD. unfold touch. rewrite left_find_law. case_bool_decide as Hin.
  - apply list_elem_of_fmap in Hin as ([m z'] & -> & Hin). apply list_elem_of_split in Hin as (l1 & l2 & El). cbn [fst].
    rewrite (relocate_law _ _ _ _ _ HD El). rewrite El in *.
    assert (l1 ++ l2 ++ [(m, z')] ≡ₚ l1 ++ (m, z') :: l2) as EE by solve_Permutation. split; [by rewrite EE|]. intros y Hy. right. by rewrite <- EE.
  - rewrite insert_law by done. split; [|intros y Hy; set_solver]. rewrite fmap_app. apply NoDup_app. split_and!; [done| |apply NoDup_singleton].
    intros y Hy Hy'. apply list_elem_of_singleton in Hy' as ->. done.
Qed.

Lemma entry_keeps added s : Good added s -> 0 < lk_num (newlyUsed (sy_obj s)) ->
  keeps added s (b ← addEntry (R := False) (sy_obj s);
    Ok (Some {| sy_obj := b; sy_world := sy_world s; sy_calls := sy_calls s; sy_storer := sy_storer s; sy_updater := ULocked |})).
Proof.
  intros (ns1 & ns2 & hs & hd & pend & rest & V) Hnum. pose proof V as [HS Q1 Q2 HH HL HDom HP HR HC HF HA HU HD HSt HUp].
  destruct (linked_cons _ _ _ Q2 Hnum) as (x & ns & ->). cbn [fmap list_fmap] in HL, HR.
  assert (ns1.*1 ++ hs.*1 ++ hd.*1 ++ x.1 :: ns.*1 ≡ₚ (x.1 :: ns.*1) ++ ns1.*1 ++ hs.*1 ++ hd.*1) as EL by solve_Permutation. rewrite EL in HL.
  apply outcome_bind. unfold addEntry. apply outcome_bind. eapply outcome_mono; [apply (take_spec _ _ _ x ns Q2)|].
  - by apply NoDup_app in HL as (? & _).
  - intros (_ & _ & _ & ?). lia.
  - intros [p q'] [-> L']. destruct (l_chain _ _ _ Q2) as [Hx _]. unfold deref. cbn [mbind option_bind]. unfold nodeAt in Hx. rewrite Hx. cbn.
    intros s' [= <-]. cbn [app] in HL. apply NoDup_cons in HL as [Hxl HL].
    assert (forall l : list nat, x.1 ∉ l -> forall p, p ∈ l -> delete x.1 (heap (sy_obj s)) !! p = heap (sy_obj s) !! p) as HE.
    { intros l Hl p Hp. rewrite lookup_delete_ne; [done|set_solver]. }
    destruct (touch_spec (cache_ (sy_obj s)) x.2.1 x.2.2 HD) as [Hkeys Hsub].
    exists ns1, ns, hs, hd, pend, (hd.*2 ++ ns.*2 ++ opens (sy_calls s) ++ entries (touch (cache_ (sy_obj s)) x.2.1 x.2.2)). split; cbn; try done.
    + eapply linked_ext; [|exact Q1]. apply HE. set_solver.
    + eapply linked_ext; [|exact L']. apply HE. set_solver.
    + eapply hand_ext; [|exact HH]. apply HE. set_solver.
    + assert (ns1.*1 ++ hs.*1 ++ hd.*1 ++ ns.*1 ≡ₚ ns.*1 ++ ns1.*1 ++ hs.*1 ++ hd.*1) as -> by solve_Permutation. done.
    + intros q [n Hq]. apply lookup_delete_Some in Hq as [Hqx Hq]. specialize (HDom q ltac:(by eexists)). cbn in HDom. set_solver.
    + apply (filesOk_rest _ _ _ _ _ rest); [|done]. intros y Hy. rewrite HR. rewrite !elem_of_app in Hy. specialize (Hsub y).
      destruct x as [? [? ?]]. cbn in *. set_solver.
Qed.

Lemma evict_keeps added s : Good added s -> lk_num (newlyUsed (sy_obj s)) <= 0 -> availCacheSize_ (sy_obj s) < usedCacheSize_ (sy_obj s) ->
  keeps added s ('(b, w) ← evict (R := False) (sy_obj s) (sy_world s);
    Ok (Some {| sy_obj := b; sy_world := w; sy_calls := sy_calls s; sy_storer := sy_storer s; sy_updater := ULocked |})).
Proof.
  intros (ns1 & ns2 & hs & hd & pend & rest & V) Hnum Hlt. pose proof V as [HS Q1 Q2 HH HL HDom HP HR HC HF HA HU HD HSt HUp].
  pose proof (linked_empty _ _ _ Q2 Hnum) as ->. destruct HS as (ET & EI & ECD & EBD & EM).
  assert (~ safe s) as Hns by (intros (Ha & _); lia). apply outcome_bind. unfold evict. rewrite begin_law.
  destruct (entries (cache_ (sy_obj s))) as [|[n z] es] eqn:Ee; [exact Hns|]. cbn [head fmap option_fmap option_map fst snd].
  destruct (sized_good _ _ _ _ n z HF) as [_ Hz]; [apply elem_of_app; right; rewrite HR; set_solver|].
  apply outcome_bind, outcome_slong; [done|]. cbn. intros s' [= <-].
  exists ns1, [], hs, hd, pend, (hd.*2 ++ opens (sy_calls s) ++ es). split; cbn; try done.
  - by rewrite erase_law, Ee.
  - assert (n ∈ rest.*1) as Hn by (rewrite HR; rewrite !fmap_app; cbn; set_solver).
    apply (filesOk_rest _ _ _ _ _ rest); [intros y Hy; rewrite HR; set_solver|].
    destruct (remove_law (sy_world s) (cd ++ n)) as [E|E]; rewrite ECD, E; [cbn|done]. by apply filesOk_evict.
  - lia.
  - rewrite erase_law, Ee. cbn in HD. by apply NoDup_cons in HD as [_ ?].
Qed.

Lemma updater_keeps added s : Good added s -> keeps added s (exec (R := False) UpdateCache s).
Proof.
  intros HG. cbn [exec]. unfold updateCache. destruct (sy_updater s) eqn:Eu.
  - cbn. intros s' [= <-]. destruct HG as (ns1 & ns2 & hs & hd & pend & rest & V). exists ns1, ns2, hs, hd, pend, rest.
    pose proof (v_q2 _ _ _ _ _ _ _ _ V) as Q2. destruct V. split; cbn; try done. case_decide as Hd; [|done]. intros _.
    split; [eapply linked_empty; [exact Q2|lia]|lia].
  - cbn. intros s' [=].
  - case_decide as H1; [apply entry_keeps; [done|lia]|]. case_decide as H2; [apply evict_keeps; [done|lia|done]|].
    cbn. intros s' [= <-]. destruct HG as (ns1 & ns2 & hs & hd & pend & rest & V). exists ns1, ns2, hs, hd, pend, rest.
    destruct V. by split.
Qed.

(** ** Every step *)

Lemma exec_keeps added s e : Good added s -> allowed added s e -> keeps (track added s e) s (exec (R := False) e s).
Proof.
  intros HG HA. destruct e as [name data|name|name fp|i p| | | |].
  - by apply write_keeps.
  - by apply add_keeps.
  - by apply open_keeps.
  - destruct (heap (sy_obj s) !! p) eqn:Ep; [cbn; rewrite Ep; cbn; intros s' [=]|].
    destruct (sy_calls s !! i) as [[name z|n z r]|] eqn:Ei; [by eapply endAdd_keeps|by eapply endOpen_keeps|].
    cbn. rewrite Ep, Ei. cbn. intros s' [=].
  - by apply storer_keeps.
  - by apply updater_keeps.
  - cbn. intros s' [= <-]. destruct HG as (ns1 & ns2 & hs & hd & pend & rest & V). exists ns1, ns2, hs, hd, pend, rest.
    destruct V. split; cbn; try done; by destruct (sy_storer s).
  - cbn. intros s' [= <-]. destruct HG as (ns1 & ns2 & hs & hd & pend & rest & V). exists ns1, ns2, hs, hd, pend, rest.
    destruct V. split; cbn; try done. by destruct (sy_updater s).
Qed.
End Threads.
