(* ===== verification/BackendTheorems.v ===== *)
(** * What the backend storer guarantees

    Every sequence of steps of the server's calls and of the two threads, from a newly
    constructed object on. *)

From stdpp Require Import base list numbers gmap.
From coqutil Require Import Byte.
From Stdlib Require Import Lia.
From S2P Require Import Prelude Structs FileNames World MinDedupCore DedupCore BackendStorer BackendLists BackendProof BackendThreads.

Local Open Scope Z_scope.

Section Runs.
Context {W : Type} `{RW : ReliableWorld W} {CF : CacheFiles W} {CFL : CacheFilesLaws W} {BM : Bimap} {BL : BimapLaws}.

(** A run of the object [b]: the files added so far and the state *)
Inductive run (b : BackendStorer) (w : W) : list (bytes * bytes) -> Sys W -> Prop :=
| run_new : run b w [] (newSys b w)
| run_step added s e s' :
    run b w added s -> allowed (cacheDirName_ b) (backendDirName_ b) added s e -> exec (R := False) e s = Ok (Some s') ->
    run b w (track (cacheDirName_ b) added s e) s'.

Lemma formatDirName_ends d d' : formatDirName_ d = Some d' -> endsDir d'.
Proof.
  unfold formatDirName_, endsDir. destruct (d !! (length d - 1)%nat) as [c|] eqn:E; [|done]. intros [= <-]. case_decide as Hc.
  - subst c. rewrite last_lookup. by rewrite <- Nat.sub_1_r.
  - apply last_snoc.
Qed.

Lemma initLocks_view {R} (w w' : W) : initLocks (R := R) w = Ok w' -> view w' = view w.
Proof.
  unfold initLocks. intros E.
  repeat match type of E with context [mutex_init ?x] =>
    let ok := fresh in let y := fresh "w" in let M := fresh "M" in destruct (mutex_init x) as [ok y] eqn:M; destruct ok; [|done]; apply mutex_law in M end.
  injection E as <-. congruence.
Qed.

Lemma new_storer {R} (w0 w : W) cacheDirName maxCacheSize backendIP backendDirName b :
  new_BackendStorer (R := R) w0 cacheDirName maxCacheSize backendIP backendDirName = Ok (b, w) ->
  endsDir (cacheDirName_ b) /\ endsDir (backendDirName_ b) /\ 0 < maxCacheSize /\ view w = view w0 /\
  b = {| backendType_ := IPSERVER; backendDirName_ := backendDirName_ b; backendIP_ := backendIP_ b; cacheDirName_ := cacheDirName_ b;
         maxCacheSize_ := maxCacheSize; availCacheSize_ := maxCacheSize; usedCacheSize_ := 0; cache_ := cache_empty;
         newlyStored := noLink; newlyUsed := noLink; heap := ∅ |}.
Proof.
  unfold new_BackendStorer. destruct (formatDirName_ cacheDirName) as [cd|] eqn:E1; [|done]. case_decide; [done|].
  destruct (formatIP_ backendIP) as [ip|]; [|done]. destruct (formatDirName_ backendDirName) as [bd|] eqn:E2; [|done].
  destruct (initLocks (R := R) w0) as [w1| | | |] eqn:E3; try done. cbn. intros [= <- <-].
  split_and!; [by eapply formatDirName_ends|by eapply formatDirName_ends|cbn; lia|by eapply initLocks_view|done].
Qed.

Lemma new_good cd bd max (w : W) :
  Good cd bd max [] (newSys {| backendType_ := IPSERVER; backendDirName_ := bd; backendIP_ := localhost; cacheDirName_ := cd;
    maxCacheSize_ := max; availCacheSize_ := max; usedCacheSize_ := 0; cache_ := cache_empty; newlyStored := noLink; newlyUsed := noLink; heap := ∅ |} w).
Proof.
  exists [], [], [], [], [], []. split; cbn; rewrite ?entries_empty; try done; try lia; try apply NoDup_nil_2.
  1: { intros p [n Hp]. by rewrite lookup_empty in Hp. }
  split; cbn; try done; try apply NoDup_nil_2; [set_solver|..]; intros n c Hn; by apply not_elem_of_nil in Hn.
Qed.

Lemma run_good b w (max := maxCacheSize_ b) added s :
  endsDir (cacheDirName_ b) -> endsDir (backendDirName_ b) -> cacheDirName_ b <> backendDirName_ b -> 0 < max < 2 ^ 63 ->
  Good (cacheDirName_ b) (backendDirName_ b) max [] (newSys b w) -> run b w added s -> Good (cacheDirName_ b) (backendDirName_ b) max added s.
Proof.
  intros Hcd Hbd Hne Hmax Hnew HR. induction HR as [|added s e s' _ IH HA E]; [done|].
  pose proof (exec_keeps _ _ max Hcd Hbd Hne Hmax added s e IH HA) as HK. rewrite E in HK. by apply HK.
Qed.

(** The files that have not been stored in the backend *)
Definition unstored (bd : bytes) (fs : gmap bytes bytes) (added : list (bytes * bytes)) : list (bytes * Z) :=
  (fun p => (p.1, Z.of_nat (length p.2))) <$> filter (fun p => fs !! (bd ++ p.1) = None) added.

Lemma NoDup_keys_filter {A B} (P : A * B -> Prop) `{!forall x, Decision (P x)} (l : list (A * B)) : NoDup l.*1 -> NoDup (filter P l).*1.
Proof.
  induction l as [|x l IH]; [done|]. cbn [fmap list_fmap]. intros [Hx ND]%NoDup_cons. rewrite filter_cons. case_decide; [|by apply IH].
  cbn. apply NoDup_cons. split; [|by apply IH]. intros Hin. apply Hx. apply list_elem_of_fmap in Hin as (y & -> & Hy).
  apply list_elem_of_filter in Hy as [_ Hy]. apply list_elem_of_fmap. by exists y.
Qed.

Lemma unstored_pend cd bd added fs pend rest : filesOk cd bd added fs pend rest -> unstored bd fs added ≡ₚ pend.
Proof.
  intros F. pose proof F as [HS ND Hd HC HB HN HA]. apply NoDup_Permutation.
  - apply (NoDup_fmap_1 fst). unfold unstored. rewrite <- list_fmap_compose. by apply NoDup_keys_filter.
  - by apply (NoDup_fmap_1 fst).
  - intros [n z]. unfold unstored. rewrite list_elem_of_fmap. split.
    + intros ([m c] & [= -> ->] & Hp). apply list_elem_of_filter in Hp as [Hb Hin]. cbn in *.
      destruct (HB m c Hin) as [[Hp _]|[_ Hx]]; [|congruence]. apply list_elem_of_fmap in Hp as ([m' z'] & -> & Hp).
      apply list.Forall_app in HS as [HS _]. destruct (proj1 (list.Forall_forall _ _) HS _ Hp) as (c' & Hc' & Hz').
      cbn in *. subst z'. by rewrite (added_inj _ _ _ _ _ _ _ _ _ F Hin Hc').
    + intros Hp. apply list.Forall_app in HS as [HS _]. destruct (proj1 (list.Forall_forall _ _) HS _ Hp) as (c & Hc & Hz). cbn in *. subst z.
      exists (n, c). split; [done|]. apply list_elem_of_filter. split; [|done]. cbn. destruct (HB n c Hc) as [[_ ?]|[Hx _]]; [done|].
      exfalso. apply Hx. apply list_elem_of_fmap. by exists (n, Z.of_nat (length c)).
Qed.

(** ** The destructor *)

Lemma delete_frees cd bd max added s : Good cd bd max added s ->
  exists h, delete_BackendStorer (R := False) (sy_obj s) = Ok h /\
    forall p, is_Some (h !! p) -> sy_storer s = SHold (Some p) \/ sy_storer s = SDone (Some p).
Proof.
  intros (ns1 & ns2 & hs & hd & pend & rest & V). pose proof V as [_ Q1 Q2 HH HL HDom _ _ _ _ _ _ _ _ _].
  apply NoDup_app in HL as (N1 & D1 & HL). apply NoDup_app in HL as (_ & _ & HL). apply NoDup_app in HL as (_ & _ & N2).
  unfold delete_BackendStorer. rewrite (l_head _ _ _ Q1), (l_head _ _ _ Q2).
  destruct (freeNodes_spec (R := False) (heap (sy_obj s)) ns1 (size (heap (sy_obj s)))) as (h1 & -> & F1 & E1); [by apply chain_size; [|apply Q1]|done|apply Q1|].
  cbn [mbind res_bind].
  destruct (freeNodes_spec (R := False) h1 ns2 (size (heap (sy_obj s)))) as (h2 & -> & F2 & E2); [by apply chain_size; [|apply Q2]|done| |].
  { eapply chain_ext; [|apply Q2]. intros p Hp. apply E1. intros Hp1. apply (D1 p Hp1). rewrite !elem_of_app. auto. }
  exists h2. split; [done|]. intros p Hp.
  assert (p ∉ ns2.*1) as P2 by (intros Hin; rewrite (F2 p Hin) in Hp; by destruct Hp). rewrite (E2 p P2) in Hp.
  assert (p ∉ ns1.*1) as P1 by (intros Hin; rewrite (F1 p Hin) in Hp; by destruct Hp). rewrite (E1 p P1) in Hp.
  apply HDom in Hp. rewrite !elem_of_app in Hp. destruct (sy_storer s); cbn in HH.
  1, 2: destruct HH as [-> ->]; cbn in Hp; rewrite elem_of_nil in Hp; tauto.
  all: destruct HH as (x & nx & -> & -> & -> & _); cbn in Hp; rewrite elem_of_nil, list_elem_of_singleton in Hp; destruct Hp as [|[|[|]]]; try done; subst; auto.
Qed.

End Runs.
