(* ===== verification/BackendExamples.v ===== *)
(** * The backend storer on concrete inputs

    A run that adds a file and stores it, and runs that show the faults of the code. *)

From stdpp Require Import base list numbers gmap.
From coqutil Require Import Byte.
From Stdlib Require Import Lia.
From S2P Require Import Prelude Structs FileNames World MinDedupCore DedupCore BackendStorer BackendLists BackendProof BackendThreads BackendTheorems.

Local Open Scope Z_scope.

(** ** Files in memory, and the bimap as a list *)

#[export] Instance memCacheFiles : CacheFiles (MemWorld false false) := {
  remove w p := memSet w (set_files (mem w) (delete p (files (mem w))));
  access_F w p := bool_decide (is_Some (files (mem w) !! p));
  access_RW w p := bool_decide (is_Some (files (mem w) !! p));
  get_current_dir_name w := [slash; letter_a];
}.
#[export] Instance memCacheFiles_laws : CacheFilesLaws (MemWorld false false).
Proof. split; cbn; [by left|done|]. intros w p Hp. by apply bool_decide_true. Qed.

Fixpoint relocate (l : list (bytes * Z)) (n : bytes) : list (bytes * Z) :=
  match l with
  | [] => []
  | e :: l' => if decide (e.1 = n) then l' ++ [e] else e :: relocate l' n
  end.
#[export] Instance listBimap : Bimap := {
  cache_t := list (bytes * Z);
  cache_empty := [];
  left_find c n := bool_decide (n ∈ c.*1);
  cache_insert c n z := c ++ [(n, z)];
  right_relocate := relocate;
  right_begin c := (fun e => (e.2, e.1)) <$> head c;
  right_erase_begin c := tail c;
}.

(** The first entry of the name moves; names are unique. *)
Lemma relocate_spec n z (l1 l2 : list (bytes * Z)) : n ∉ l1.*1 -> relocate (l1 ++ (n, z) :: l2) n = l1 ++ l2 ++ [(n, z)].
Proof.
  induction l1 as [|e l1 IH]; cbn [app relocate fmap list_fmap]; intros Hn; [by rewrite decide_True|].
  rewrite decide_False by set_solver. rewrite IH by set_solver. done.
Qed.

#[export] Instance listBimap_laws : BimapLaws.
Proof.
  refine {| entries := fun c : @cache_t listBimap => c |}; try done.
  cbn. intros c n z l1 l2 ND ->. apply relocate_spec. rewrite fmap_app in ND. cbn in ND. apply NoDup_app in ND as (_ & Hd & _).
  intros Hn. apply (Hd n Hn). set_solver.
Defined.

(** ** A run *)

Section Play.
Context {W : Type} `{RW : ReliableWorld W} {CF : CacheFiles W} {CFL : CacheFilesLaws W} {BM : Bimap} {BL : BimapLaws}.

Definition allowedb (cd bd : bytes) (added : list (bytes * bytes)) (s : Sys W) (e : Event) : bool :=
  let fs := files (view (sy_world s)) in
  match e with
  | WriteFile name _ => forallb (fun p => bool_decide (name <> cd ++ p.1 /\ name <> bd ++ p.1)) added
  | BeginAdd name =>
      let n := drop (length cd) name in
      match fs !! name with
      | Some c => bool_decide (name = cd ++ n /\ goodName n /\ (n ∉ added.*1) /\ fs !! (bd ++ n) = None /\ Z.of_nat (length c) < 2 ^ 63)
      | None => false
      end
  | BeginOpen name _ =>
      let n := drop (length cd) name in
      match fs !! name, fs !! (bd ++ n) with Some _, Some c => bool_decide (name = cd ++ n /\ (n, c) ∈ added) | _, _ => false end
  | _ => true
  end.

Lemma allowedb_allowed cd bd added s e : allowedb cd bd added s e = true -> allowed cd bd added s e.
Proof.
  destruct e as [name data|name|name fp| | | | |]; cbn; try done.
  - rewrite forallb_forall. intros HF n Hn. apply list_elem_of_fmap in Hn as (p & -> & Hp). apply list_elem_of_In, HF, bool_decide_eq_true in Hp. done.
  - destruct (_ !! name) as [c|] eqn:E; [|done]. rewrite bool_decide_eq_true. intros (En & ? & ? & ? & ?). by exists (drop (length cd) name), c.
  - destruct (_ !! name) as [c0|] eqn:E; [|done]. destruct (_ !! (bd ++ _)) as [c|] eqn:Eb; [|done]. rewrite bool_decide_eq_true. intros (En & ?).
    exists (drop (length cd) name), c. split_and!; try done; rewrite ?E; by eexists.
Qed.

(** The events can happen one after the other, and the last state satisfies [final]. *)
Fixpoint play (cd bd : bytes) (final : list (bytes * bytes) -> Sys W -> bool) (es : list Event) (added : list (bytes * bytes)) (s : Sys W) : bool :=
  match es with
  | [] => final added s
  | e :: es' => allowedb cd bd added s e &&
      match exec (R := False) e s with Ok (Some s') => play cd bd final es' (track cd added s e) s' | _ => false end
  end.

Lemma play_run b w final es : forall added s, run b w added s -> play (cacheDirName_ b) (backendDirName_ b) final es added s = true ->
  exists added' s', run b w added' s' /\ final added' s' = true.
Proof.
  induction es as [|e es IH]; intros added s HR HE; cbn in HE; [by exists added, s|]. apply andb_true_iff in HE as [HA%allowedb_allowed HE].
  destruct (exec e s) as [[s1|]| | | |] eqn:E; try done. eapply IH; [|exact HE]. by eapply run_step.
Qed.
End Play.

Module BackendWitness.
(** The directories "/c" and "/b/", the file "f.sc" of three bytes, a cache of ten. *)
Definition cacheDir : bytes := [slash; Byte.x63].
Definition backendDir : bytes := [slash; Byte.x62; slash].
Definition name : bytes := [Byte.x66; dot; Byte.x73; Byte.x63].
Definition data : bytes := [Byte.x01; Byte.x02; Byte.x03].
Abbreviation w0 := (freshMem 1 : MemWorld false false).
Abbreviation full n := (cacheDir ++ slash :: n).

Definition events : list Event :=
  [WriteFile (full name) data; BeginAdd (full name); EndCall 0 7; StoreNewFile; StoreNewFile; UpdateCache; StoreNewFile; StoreNewFile;
   UpdateCache; UpdateCache; UpdateCache; BeginOpen (full name) None; EndCall 0 7; UpdateCache; UpdateCache; UpdateCache; UpdateCache].

Definition storer : BackendStorer :=
  {| backendType_ := IPSERVER; backendDirName_ := backendDir; backendIP_ := localhost; cacheDirName_ := cacheDir ++ [slash];
     maxCacheSize_ := 10; availCacheSize_ := 10; usedCacheSize_ := 0; cache_ := [];
     newlyStored := noLink; newlyUsed := noLink; heap := ∅ |}.
Lemma storer_new : new_BackendStorer (R := False) w0 cacheDir 10 localhost backendDir = Ok (storer, w0).
Proof. reflexivity. Qed.

Definition asleep (added : list (bytes * bytes)) (s : Sys (MemWorld false false)) : bool :=
  bool_decide (added = [(name, data)]) && match sy_storer s, sy_updater s, sy_calls s with SAsleep, UAsleep, [] => true | _, _, _ => false end.

End BackendWitness.

(** ** Faults *)

Module BackendRuns.
Import BackendWitness.

Definition isUB {R A} (m : res R A) : bool := match m with UB => true | _ => false end.
Definition after (es : list Event) (s : Sys (MemWorld false false)) : res False (option (Sys (MemWorld false false))) :=
  foldl (fun m e => match m with Ok (Some s) => exec e s | _ => m end) (Ok (Some s)) es.
Definition inFiles (p c : bytes) : MemWorld false false :=
  memSet w0 (set_files (mem w0) (<[p := c]> (files (mem w0)))).

(** A file that is only in the backend storage is copied back, but the file pointer of
    the caller, whose size is asked for, is not set. *)
Example restore_without_file_pointer : isUB (openOldFile (R := False) storer (inFiles (backendDir ++ name) data) (full name) None 0) = true.
Proof. vm_compute. reflexivity. Qed.

(** A new file larger than the cache: the updater evicts from an empty cache. *)
Example large_file_evicts_nothing : isUB (after [WriteFile (full name) (replicate 11 Byte.x01); BeginAdd (full name); UpdateCache; UpdateCache] (newSys storer w0)) = true.
Proof. vm_compute. reflexivity. Qed.

(** Four files of three bytes each are added to a cache of ten bytes and stored: usedCacheSize_
    has become negative, and all four files stay in the cache directory. *)
Definition file (i : nat) : bytes := [byte.of_Z (97 + Z.of_nat i)].
Definition storeOne (i : nat) : list Event :=
  [WriteFile (full (file i)) data; BeginAdd (full (file i)); EndCall 0 0; StoreNewFile; StoreNewFile; StoreNewFile; UpdateCache; UpdateCache; UpdateCache].
Example cache_never_evicts :
  match after (storeOne 0 ++ storeOne 1 ++ storeOne 2 ++ storeOne 3 ++ [StoreNewFile; UpdateCache]) (newSys storer w0) with
  | Ok (Some s) => bool_decide (usedCacheSize_ (sy_obj s) = -12 /\ availCacheSize_ (sy_obj s) = 10 /\
                     Forall (fun i => files (view (sy_world s)) !! (full (file i)) = Some data) [0; 1; 2; 3]%nat)
  | _ => false
  end = true.
Proof. vm_compute. reflexivity. Qed.

(** A call that fails after its first half keeps the space it has taken. *)
Example failed_add_keeps_space :
  match addNewFile (R := False) storer (inFiles (backendDir ++ name) data) (backendDir ++ name) 0 with
  | Ok (ok, b) => negb ok && bool_decide (availCacheSize_ b = 7)
  | _ => false
  end = true.
Proof. vm_compute. reflexivity. Qed.

(** Two relative names that differ in their first two characters are taken for the same. *)
Example relative_names_collide : equDirName_ (R := False) w0 [Byte.x61; Byte.x62; slash] [Byte.x63; Byte.x64; slash] = Ok true.
Proof. vm_compute. reflexivity. Qed.

(** Of two blanks one stays. *)
Example blank_stays : formatIP_ [blank; blank; Byte.x31] = Some [blank; Byte.x31].
Proof. vm_compute. reflexivity. Qed.
End BackendRuns.
