(* ===== verification/Socket.v ===== *)
(** * Socket

    client/utils/socket.cc: the messages a client exchanges with a server over a
    stream connection.  The system calls send and recv are the class [Network]: how
    many bytes a call transfers, or that it fails.  [NetworkLaws] is a connection
    without errors: a call transfers at least one byte, and the four bytes of an
    integer at once, which the code relies on. *)

From stdpp Require Import base list numbers.
From coqutil Require Import Byte.
From Stdlib Require Import Lia.
From S2P Require Import Prelude Structs.

Local Open Scope Z_scope.

(** ** Connections *)

(** The number of bytes the [t]-th call transfers of the [n] it asks for, [None] for
    a return value of -1. *)
Class Network := {
  recvLen : nat -> nat -> option nat;
  sendLen : nat -> nat -> option nat;
}.

Definition delivers (len : nat -> nat -> option nat) : Prop :=
  forall t n, (0 < n)%nat -> exists k, len t n = Some k /\ (0 < k <= n)%nat /\ (n <= 4 -> k = n)%nat.

Class NetworkLaws {N : Network} : Prop := {
  recv_delivers : delivers recvLen;
  send_delivers : delivers sendLen;
}.

(** Messages of at most 256 bytes are transferred at once: names, which the code sends
    and receives with single calls. *)
Class SmallWhole {N : Network} : Prop := {
  small_recv t n : (0 < n <= 256)%nat -> recvLen t n = Some n;
  small_send t n : (0 < n <= 256)%nat -> sendLen t n = Some n;
}.

(** A connection seen from one end: the bytes still to be received (the peer closes
    behind them), those sent, and the number of calls so far. *)
Record Conn := {
  inbox : bytes;
  outbox : bytes;
  calls : nat;
}.

(** The content of new memory *)
Class Memory := { fresh : nat -> bytes; }.
Class MemoryLaws {MM : Memory} : Prop := { fresh_length n : length (fresh n) = n; }.

Definition SEND_META : Z := -1.
Definition SEND_DATA : Z := -2.
Definition GET_STAT : Z := -3.
Definition INIT_DOWNLOAD : Z := -7.

Section Socket.
Context {N : Network}.

Abbreviation M A := (SM Conn Z A).

(** [send(fd, data, length data, 0)] *)
Definition send_ {ret} (data : bytes) : SM Conn ret Z := fun c =>
  match sendLen (calls c) (length data) with
  | None => Ok (-1, {| inbox := inbox c; outbox := outbox c; calls := S (calls c) |})
  | Some k => Ok (Z.of_nat (min k (length data)),
      {| inbox := inbox c; outbox := outbox c ++ take k data; calls := S (calls c) |})
  end.

(** [recv(fd, dst + off, n, 0)] *)
Definition recv_ {ret} (dst : bytes) (off n : nat) : SM Conn ret (Z * bytes) := fun c =>
  match recvLen (calls c) n with
  | None => Ok (-1, dst, {| inbox := inbox c; outbox := outbox c; calls := S (calls c) |})
  | Some k =>
      match wr (R := False) dst off (take (min k n) (inbox c)) with
      | Ok dst' => Ok (Z.of_nat (length (take (min k n) (inbox c))), dst',
          {| inbox := drop (min k n) (inbox c); outbox := outbox c; calls := S (calls c) |})
      | _ => UB
      end
  end.

(** ** The methods *)

(** The constructor's message: the user in network order. *)
Definition new_Socket {ret} (userID : Z) : SM Conn ret unit :=
  _ ← send_ (htonl userID); mret tt.

Fixpoint sendLoop (fuel : nat) (raw : bytes) (rawSize total : Z) : M Z :=
  if total <? rawSize then
    match fuel with
    | O => fun _ => Hang
    | S fuel' =>
        part ← lift (o ← sz total; len ← sz (rawSize - total); rd raw o len);
        bytecount ← send_ part;
        if bytecount =? -1 then ret_ (-1) else sendLoop fuel' raw rawSize (total + bytecount)
    end
  else mret total.

Definition genericSend {ret} (raw : bytes) (rawSize : Z) : SM Conn ret Z :=
  call (sendLoop (Z.to_nat rawSize) raw rawSize 0).

(** sendMeta and sendData differ in the indicator. *)
Definition sendPackage {ret} (indicator : Z) (raw : bytes) (rawSize : Z) : SM Conn ret Z := call (
  bytecount ← send_ (le32 indicator);
  if bytecount =? -1 then ret_ (-1) else
  bytecount ← send_ (le32 rawSize);
  if bytecount =? -1 then ret_ (-1) else
  _ ← genericSend raw rawSize;
  ret_ 0).

Definition sendMeta {ret} (raw : bytes) (rawSize : Z) : SM Conn ret Z := sendPackage SEND_META raw rawSize.
Definition sendData {ret} (raw : bytes) (rawSize : Z) : SM Conn ret Z := sendPackage SEND_DATA raw rawSize.

Fixpoint recvLoop (fuel : nat) (raw : bytes) (rawSize total : Z) : SM Conn (Z * bytes) bytes :=
  if total <? rawSize then
    match fuel with
    | O => fun _ => Hang
    | S fuel' =>
        '(o, len) ← lift (o ← sz total; len ← sz (rawSize - total); Ok (o, len));
        '(bytecount, raw) ← recv_ raw o len;
        if bytecount =? -1 then ret_ (-1, raw) else recvLoop fuel' raw rawSize (total + bytecount)
    end
  else mret raw.

(** The result and the buffer; a peer that closes keeps the loop running for ever. *)
Definition genericDownload {ret} (raw : bytes) (rawSize : Z) : SM Conn ret (Z * bytes) := call (
  raw ← recvLoop (Z.to_nat rawSize) raw rawSize 0;
  ret_ (0, raw)).

(** The result, statusList and [*num]. *)
Definition getStatus {ret} (statusList : bytes) (num : Z) : SM Conn ret (Z * bytes * Z) := call (
  '(bytecount, indicator) ← recv_ (le32 0) 0 4;
  if bytecount =? -1 then ret_ (-1, statusList, num) else
  indicator ← lift (getI32 indicator 0);
  if negb (indicator =? GET_STAT) then ret_ (-1, statusList, num) else
  '(bytecount, n) ← recv_ (le32 num) 0 4;
  num ← lift (getI32 n 0);
  if bytecount =? -1 then ret_ (-1, statusList, num) else
  '(_, statusList) ← genericDownload statusList num;
  ret_ (0, statusList, num)).

Definition initDownload {ret} (filename : bytes) (namesize : Z) : SM Conn ret Z := call (
  bytecount ← send_ (le32 INIT_DOWNLOAD);
  if bytecount =? -1 then ret_ (-1) else
  bytecount ← send_ (le32 namesize);
  if bytecount =? -1 then ret_ (-1) else
  name ← lift (len ← sz namesize; rd filename 0 len);
  bytecount ← send_ name;
  if bytecount =? -1 then ret_ (-1) else
  ret_ 0).

(** The result, the buffer and [*retSize]; the integers are read into [old]. *)
Definition downloadChunk {ret} (raw : bytes) (retSize : Z) (old : bytes) : SM Conn ret (Z * bytes * Z) := call (
  '(bytecount, _) ← recv_ old 0 4;
  if bytecount =? -1 then ret_ (-1, raw, retSize) else
  '(bytecount, size) ← recv_ old 0 4;
  if bytecount =? -1 then ret_ (-1, raw, retSize) else
  retSize ← lift (getI32 (rev size) 0);
  '(_, raw) ← genericDownload raw retSize;
  ret_ (0, raw, retSize)).
End Socket.

(** ** What the messages are *)

(** A package as it travels. *)
Definition package (indicator : Z) (raw : bytes) : bytes :=
  le32 indicator ++ le32 (Z.of_nat (length raw)) ++ raw.
Definition statusReply (flags : bytes) : bytes := package GET_STAT flags.

(** Everything but the in- and outgoing bytes is unspecified. *)
Definition moved (c c' : Conn) (received sent : bytes) : Prop :=
  inbox c = received ++ inbox c' /\ outbox c' = outbox c ++ sent.

Lemma moved_trans c1 c2 c3 r1 s1 r2 s2 :
  moved c1 c2 r1 s1 -> moved c2 c3 r2 s2 -> moved c1 c3 (r1 ++ r2) (s1 ++ s2).
Proof. intros [E1 F1] [E2 F2]. split; [by rewrite E1, E2, app_assoc|by rewrite F2, F1, app_assoc]. Qed.

Lemma moved_refl c : moved c c [] [].
Proof. split; [done|]. by rewrite app_nil_r. Qed.

Section SocketLaws.
Context {N : Network} {NL : NetworkLaws}.

Lemma send_short {ret} data c (Q : ret -> Conn -> Prop) :
  (0 < length data <= 4)%nat ->
  wps (send_ data) (fun n c' => n = Z.of_nat (length data) /\ moved c c' [] data) Q c.
Proof.
  intros Hl. destruct (send_delivers (calls c) (length data)) as (k & E & Hk & H4); [lia|].
  unfold wps, send_. rewrite E, H4 by lia. rewrite Nat.min_id. split; [done|].
  split; [done|]. cbn. by rewrite take_ge.
Qed.

Lemma sendLoop_spec fuel : forall raw rawSize total c (Q : Z -> Conn -> Prop),
  0 <= total <= rawSize -> rawSize <= Z.of_nat (length raw) -> (Z.to_nat (rawSize - total) <= fuel)%nat ->
  wps (sendLoop fuel raw rawSize total) (fun n c' => n = rawSize /\
    moved c c' [] (take (Z.to_nat (rawSize - total)) (drop (Z.to_nat total) raw))) Q c.
Proof.
  induction fuel as [|fuel IH]; intros raw rawSize total c Q Ht Hr Hf; cbn [sendLoop].
  { rewrite (proj2 (Z.ltb_ge _ _)) by lia. wstep. split; [lia|].
    replace (Z.to_nat (rawSize - total)) with 0%nat by lia. apply moved_refl. }
  destruct (Z.ltb_spec total rawSize) as [Hlt|Hge].
  2: { wstep. split; [lia|]. replace (Z.to_nat (rawSize - total)) with 0%nat by lia. apply moved_refl. }
  set (part := take (Z.to_nat (rawSize - total)) (drop (Z.to_nat total) raw)).
  assert (length part = Z.to_nat (rawSize - total)) as Hp by (unfold part; lens).
  wstep. eapply wps_lift.
  { rewrite !sz_ok by lia. cbn [mbind res_bind]. rewrite rd_ok by lia. reflexivity. }
  fold part. wstep.
  destruct (send_delivers (calls c) (length part)) as (k & E & Hk & _); [lia|].
  unfold wps at 1, send_. rewrite E, Nat.min_l by lia. rewrite (proj2 (Z.eqb_neq _ _)) by lia.
  eapply wps_post; [apply IH; lia|]. intros n c' [-> HM]. split; [done|].
  assert (part = take k part ++ take (Z.to_nat (rawSize - (total + Z.of_nat k))) (drop (Z.to_nat (total + Z.of_nat k)) raw)) as ->.
  { rewrite <- (take_drop k part) at 1. f_equal. unfold part. rewrite skipn_firstn_comm, drop_drop.
    f_equal; [lia|]. f_equal. lia. }
  destruct HM as [H1 H2]. split; [done|]. cbn in H2. by rewrite H2, app_assoc.
Qed.

Lemma sendPackage_spec {ret} indicator raw rawSize c (Q : ret -> Conn -> Prop) :
  0 <= rawSize <= Z.of_nat (length raw) ->
  wps (sendPackage indicator raw rawSize) (fun n c' => n = 0 /\
    moved c c' [] (package indicator (take (Z.to_nat rawSize) raw))) Q c.
Proof.
  intros Hr. unfold sendPackage. wstep.
  wstep. eapply wps_post; [apply send_short; rewrite length_le32; lia|]. intros n1 c1 [-> H1].
  rewrite length_le32. cbn [Z.of_nat Z.eqb]. rewrite (proj2 (Z.eqb_neq _ _)) by lia.
  wstep. eapply wps_post; [apply send_short; rewrite length_le32; lia|]. intros n2 c2 [-> H2].
  rewrite length_le32. cbn [Z.of_nat Z.eqb]. rewrite (proj2 (Z.eqb_neq _ _)) by lia.
  wstep. unfold genericSend. wstep. eapply wps_post; [apply (sendLoop_spec _ raw rawSize 0); lia|].
  intros n3 c3 [_ H3]. wstep. split; [done|].
  rewrite Z.sub_0_r in H3. cbn [Z.to_nat] in H3. rewrite drop_0 in H3.
  pose proof (moved_trans _ _ _ _ _ _ _ H1 (moved_trans _ _ _ _ _ _ _ H2 H3)) as HM.
  unfold package. rewrite length_take, Nat.min_l by lia. rewrite Z2Nat.id by lia. exact HM.
Qed.

(** One call of recv on a connection with enough bytes. *)
Lemma recv_some {ret} dst off n c (P : Z * bytes -> Conn -> Prop) (Q : ret -> Conn -> Prop) :
  (0 < n)%nat -> (n <= length (inbox c))%nat -> (off + n <= length dst)%nat ->
  (forall k c' , (0 < k <= n)%nat -> ((n <= 4)%nat -> k = n) -> moved c c' (take k (inbox c)) [] ->
     P (Z.of_nat k, take off dst ++ take k (inbox c) ++ drop (off + k) dst) c') ->
  wps (recv_ dst off n) P Q c.
Proof.
  intros Hn Hi Ho HP. destruct (recv_delivers (calls c) n) as (k & E & Hk & H4); [lia|].
  unfold wps, recv_. rewrite E, Nat.min_l by lia.
  assert (length (take k (inbox c)) = k) as Hl by lens.
  rewrite wr_ok by lia. rewrite Hl. apply HP; [done|done|]. split; cbn; [by rewrite take_drop|by rewrite app_nil_r].
Qed.

Lemma recv_int {ret} x rest (old : bytes) c (Q : ret -> Conn -> Prop) :
  inbox c = le32 x ++ rest -> length old = 4%nat ->
  wps (recv_ old 0 4) (fun r c' => r = (4, le32 x) /\ moved c c' (le32 x) [] /\ inbox c' = rest) Q c.
Proof.
  intros Hi Ho. apply recv_some; [lia|rewrite Hi; lens|lia|].
  intros k c' Hk H4 HM. rewrite (H4 ltac:(lia)) in *. rewrite Hi, take_app_le in * by (rewrite length_le32; lia).
  rewrite take_ge in * by (rewrite length_le32; lia). cbn [take app]. rewrite drop_ge by lia. rewrite app_nil_r.
  split; [done|]. split; [done|]. destruct HM as [E _]. rewrite Hi in E. by apply app_inv_head in E.
Qed.

Lemma recvLoop_spec fuel : forall raw rawSize total c data rest (Q : Z * bytes -> Conn -> Prop),
  0 <= total -> Z.of_nat (length data) = rawSize - total -> rawSize <= Z.of_nat (length raw) ->
  inbox c = data ++ rest -> (length data <= fuel)%nat ->
  wps (recvLoop fuel raw rawSize total) (fun b c' =>
    b = take (Z.to_nat total) raw ++ data ++ drop (Z.to_nat rawSize) raw /\ moved c c' data [] /\ inbox c' = rest) Q c.
Proof.
  induction fuel as [|fuel IH]; intros raw rawSize total c data rest Q Ht Hd Hr Hi Hf.
  { assert (data = []) as -> by (by apply nil_length_inv; lia). cbn [recvLoop length] in *.
    rewrite (proj2 (Z.ltb_ge _ _)) by lia. wstep. replace rawSize with total by lia.
    split; [cbn [app]; by rewrite take_drop|]. split; [apply moved_refl|done]. }
  cbn [recvLoop]. destruct (Z.ltb_spec total rawSize) as [Hlt|Hge].
  2: { wstep. assert (data = []) as -> by (by apply nil_length_inv; lia). cbn [length] in *.
       replace rawSize with total by lia. split; [cbn [app]; by rewrite take_drop|]. split; [apply moved_refl|done]. }
  wstep. eapply wps_lift; [rewrite !sz_ok by lia; reflexivity|]. wstep.
  apply recv_some; [lia|rewrite Hi; lens|lia|].
  intros k c1 Hk _ HM. rewrite Hi, take_app_le in * by lia.
  rewrite (proj2 (Z.eqb_neq _ _)) by lia.
  set (raw1 := take (Z.to_nat total) raw ++ take k data ++ drop (Z.to_nat total + k) raw).
  assert (length raw1 = length raw) as Hl1 by (unfold raw1; lens).
  eapply wps_post; [apply (IH raw1 rawSize (total + Z.of_nat k) c1 (drop k data) rest)|].
  - lia.
  - rewrite length_drop. lia.
  - lia.
  - destruct HM as [E _]. rewrite Hi in E. rewrite <- (take_drop k data) in E at 1. rewrite <- app_assoc in E.
    by apply app_inv_head in E.
  - rewrite length_drop. lia.
  - intros b c2 (-> & HM2 & Hrest). split; [|split; [|done]].
    + set (pre := take (Z.to_nat total) raw ++ take k data).
      assert (raw1 = pre ++ drop (Z.to_nat total + k) raw) as -> by (unfold raw1, pre; by rewrite app_assoc).
      assert (length pre = (Z.to_nat total + k)%nat) as Hpre by (unfold pre; lens).
      replace (Z.to_nat (total + Z.of_nat k)) with (length pre) by lia. rewrite take_app_length.
      rewrite drop_app_ge, drop_drop by lia. rewrite Hpre. unfold pre. rewrite <- !app_assoc. f_equal.
      rewrite app_assoc, take_drop. do 2 f_equal. lia.
    + pose proof (moved_trans _ _ _ _ _ _ _ HM HM2) as HT. by rewrite take_drop in HT.
Qed.

Lemma genericDownload_spec {ret} raw c data rest (Q : ret -> Conn -> Prop) :
  (length data <= length raw)%nat -> inbox c = data ++ rest ->
  wps (genericDownload raw (Z.of_nat (length data))) (fun r c' =>
    r = (0, data ++ drop (length data) raw) /\ moved c c' data [] /\ inbox c' = rest) Q c.
Proof.
  intros Hl Hi. unfold genericDownload. wstep. wstep.
  eapply wps_post; [apply (recvLoop_spec _ raw _ 0 c data rest); first [lia|done]|]. intros b c' (-> & HM & Hr).
  wstep. by rewrite Nat2Z.id.
Qed.

Lemma getStatus_spec {ret} list num c flags rest (Q : ret -> Conn -> Prop) :
  (length flags <= length list)%nat -> int32 (Z.of_nat (length flags)) -> inbox c = statusReply flags ++ rest ->
  wps (getStatus list num) (fun r c' =>
    r = (0, flags ++ drop (length flags) list, Z.of_nat (length flags)) /\
    moved c c' (statusReply flags) [] /\ inbox c' = rest) Q c.
Proof.
  intros Hl Hn Hi. unfold getStatus. unfold statusReply, package in Hi. rewrite <- !app_assoc in Hi. wstep.
  wstep. eapply wps_post; [by eapply recv_int|]. intros ? c1 (-> & M1 & H1).
  cbn [Z.eqb Pos.eqb]. wstep. eapply wps_lift; [by apply (getI32_at [] _ [])|].
  cbn [negb Z.eqb GET_STAT Pos.eqb]. wstep. eapply wps_post; [by eapply recv_int|]. intros ? c2 (-> & M2 & H2).
  wstep. eapply wps_lift; [by apply (getI32_at [] _ [])|]. cbn [Z.eqb Pos.eqb].
  wstep. eapply wps_post; [by eapply genericDownload_spec|]. intros ? c3 (-> & M3 & H3). wstep.
  split; [done|]. split; [|done]. exact (moved_trans _ _ _ _ _ _ _ M1 (moved_trans _ _ _ _ _ _ _ M2 M3)).
Qed.
End SocketLaws.
