(* ===== verification/Uploader.v ===== *)
(** * Uploader

    client/comm/uploader.cc: for every cloud a thread takes the file header and the
    shares of that cloud from its ring buffer, collects them in a metadata and a
    container buffer, and exchanges full buffers with the server: the metadata, the
    server's list of duplicates, the data of the others.  The threads of the data and
    of the metadata servers run the same code on items of different sizes
    (thread_handler, thread_handler_meta); the record holds the members with the
    index of one cloud. *)

From stdpp Require Import base list numbers.
From coqutil Require Import Byte.
From Stdlib Require Import Lia.
From S2P Require Import Prelude Structs Socket.

Local Open Scope Z_scope.

(** UPLOAD_BUFFER_SIZE, and the size of the data of an item: RING_BUFFER_DATA_SIZE or
    RING_BUFFER_META_SIZE. *)
Class UploadLimits := {
  UPLOAD_BUFFER_SIZE : nat;
  RING_BUFFER_SIZE : nat;
}.
Definition uploadData : UploadLimits :=
  {| UPLOAD_BUFFER_SIZE := Z.to_nat (4 * 1024 * 1024); RING_BUFFER_SIZE := Z.to_nat (16 * 1024) |}.
Definition uploadMeta : UploadLimits :=
  {| UPLOAD_BUFFER_SIZE := Z.to_nat (4 * 1024 * 1024); RING_BUFFER_SIZE := Z.to_nat (32 * 1024) |}.

(** Item_t and ItemMeta_t: a file header object, or a share object, the last one of
    which has type SHARE_END. *)
Inductive Item :=
| FileObj (file_header data : bytes)
| ShareObj (share_end : bool) (share_header data : bytes).

Record Uploader := {
  sock : Conn;
  uploadMetaBuffer_ : bytes;
  metaWP_ : Z;
  uploadContainer_ : bytes;
  containerWP_ : Z;
  numOfShares_ : Z;
  shareSizeArray_ : list Z;
  (** the position of the header in uploadMetaBuffer_ *)
  headerArray_ : option nat;
  accuData_ : Z;
  accuUnique_ : Z;
}.

Definition set_sock (u : Uploader) (c : Conn) : Uploader :=
  {| sock := c; uploadMetaBuffer_ := uploadMetaBuffer_ u; metaWP_ := metaWP_ u; uploadContainer_ := uploadContainer_ u;
     containerWP_ := containerWP_ u; numOfShares_ := numOfShares_ u; shareSizeArray_ := shareSizeArray_ u;
     headerArray_ := headerArray_ u; accuData_ := accuData_ u; accuUnique_ := accuUnique_ u |}.
Definition set_meta (u : Uploader) (b : bytes) (wp : Z) : Uploader :=
  {| sock := sock u; uploadMetaBuffer_ := b; metaWP_ := wp; uploadContainer_ := uploadContainer_ u;
     containerWP_ := containerWP_ u; numOfShares_ := numOfShares_ u; shareSizeArray_ := shareSizeArray_ u;
     headerArray_ := headerArray_ u; accuData_ := accuData_ u; accuUnique_ := accuUnique_ u |}.
Definition set_header (u : Uploader) (p : option nat) : Uploader :=
  {| sock := sock u; uploadMetaBuffer_ := uploadMetaBuffer_ u; metaWP_ := metaWP_ u; uploadContainer_ := uploadContainer_ u;
     containerWP_ := containerWP_ u; numOfShares_ := numOfShares_ u; shareSizeArray_ := shareSizeArray_ u;
     headerArray_ := p; accuData_ := accuData_ u; accuUnique_ := accuUnique_ u |}.
Definition set_container (u : Uploader) (b : bytes) (wp : Z) : Uploader :=
  {| sock := sock u; uploadMetaBuffer_ := uploadMetaBuffer_ u; metaWP_ := metaWP_ u; uploadContainer_ := b;
     containerWP_ := wp; numOfShares_ := numOfShares_ u; shareSizeArray_ := shareSizeArray_ u;
     headerArray_ := headerArray_ u; accuData_ := accuData_ u; accuUnique_ := accuUnique_ u |}.
Definition set_sizes (u : Uploader) (l : list Z) (n : Z) : Uploader :=
  {| sock := sock u; uploadMetaBuffer_ := uploadMetaBuffer_ u; metaWP_ := metaWP_ u; uploadContainer_ := uploadContainer_ u;
     containerWP_ := containerWP_ u; numOfShares_ := n; shareSizeArray_ := l;
     headerArray_ := headerArray_ u; accuData_ := accuData_ u; accuUnique_ := accuUnique_ u |}.
Definition set_accu (u : Uploader) (d q : Z) : Uploader :=
  {| sock := sock u; uploadMetaBuffer_ := uploadMetaBuffer_ u; metaWP_ := metaWP_ u; uploadContainer_ := uploadContainer_ u;
     containerWP_ := containerWP_ u; numOfShares_ := numOfShares_ u; shareSizeArray_ := shareSizeArray_ u;
     headerArray_ := headerArray_ u; accuData_ := d; accuUnique_ := q |}.

Section Uploader.
Context {N : Network} {MM : Memory} {UL : UploadLimits}.

Abbreviation M ret A := (SM Uploader ret A).

(** A call of a method of socketArray_[cloudIndex]. *)
Definition onSock {ret A} (m : SM Conn A A) : M ret A := fun u =>
  match fn (R := False) (m (sock u)) with
  | Ok (a, c) => Ok (a, set_sock u c)
  | Return r => match r with end
  | Exit c => Exit c
  | UB => UB
  | Hang => Hang
  end.

(** The part of the constructor for one cloud. *)
Definition new_Uploader {R} (c : Conn) (userID : Z) : res R Uploader :=
  match new_Socket (ret := False) userID c with
  | Ok (_, c) => Ok {| sock := c; uploadMetaBuffer_ := fresh UPLOAD_BUFFER_SIZE; metaWP_ := 0;
      uploadContainer_ := fresh UPLOAD_BUFFER_SIZE; containerWP_ := 0; numOfShares_ := 0;
      shareSizeArray_ := replicate UPLOAD_BUFFER_SIZE 0; headerArray_ := None; accuData_ := 0; accuUnique_ := 0 |}
  | Return r => match r.1 with end
  | Exit c => Exit c
  | UB => UB
  | Hang => Hang
  end.

(** A pointer that was set. *)
Definition header {ret} : M ret nat := fun u =>
  match headerArray_ u with Some p => Ok (p, u) | None => UB end.

(** One round of the loop that moves the wanted shares together; the locals are
    uploadContainer_, temp, indexCount and containerIndex. *)
Definition keepShare {R} (statusList : bytes) (sizes : list Z) (i : nat) (st : bytes * bytes * Z * Z)
  : res R (bytes * bytes * Z * Z) :=
  let '(cont, temp, indexCount, containerIndex) := st in
  currentSize ← aget sizes i;
  status ← aget statusList i;
  '(cont, temp, indexCount) ← (
    if decide (status = Byte.x00) then
      src ← sz containerIndex;
      dst ← sz indexCount;
      len ← sz currentSize;
      temp ← memcpy temp 0 cont src len;
      cont ← memcpy cont dst temp 0 len;
      indexCount ← sint (indexCount + currentSize);
      Ok (cont, temp, indexCount)
    else Ok (cont, temp, indexCount));
  containerIndex ← sint (containerIndex + currentSize);
  Ok (cont, temp, indexCount, containerIndex).

(** [junk] is the value of numOfshares before getStatus sets it. *)
Definition performUpload {ret} (junk : Z) : M ret unit :=
  meta ← gets uploadMetaBuffer_;
  wp ← gets metaWP_;
  _ ← onSock (sendMeta meta wp);
  num ← gets numOfShares_;
  len ← lift (x ← sint (num + 1); sz x);
  '(_, statusList, numOfshares) ← onSock (getStatus (fresh len) junk);
  sizes ← gets shareSizeArray_;
  cont ← gets uploadContainer_;
  '(cont, _, indexCount, containerIndex) ← lift (
    forN (Z.to_nat numOfshares) 0 (keepShare statusList sizes) (cont, fresh RING_BUFFER_SIZE, 0, 0));
  _ ← modify (fun u => set_container u cont (containerWP_ u));
  _ ← modify (fun u => set_accu u (accuData_ u + containerIndex) (accuUnique_ u + indexCount));
  _ ← onSock (sendData cont indexCount);
  mret tt.

(** [memcpy] within the metadata buffer. *)
Definition moveHeader {R} (meta : bytes) (p len : nat) : res R bytes :=
  if decide (p = 0)%nat then Ok meta
  else if decide (p < len)%nat then UB
  else memcpy meta 0 meta p len.

Definition updateHeader {ret} : M ret unit :=
  p ← header;
  meta ← gets uploadMetaBuffer_;
  '(meta, len) ← lift (
    offset ← getI32 meta p;
    past ← getI32 meta (p + 16);
    coming ← getI32 meta (p + 32);
    past ← sint (past + coming);
    meta ← setI32 meta (p + 16) past;
    sizePast ← getI64 meta (p + 24);
    sizeComing ← getI64 meta (p + 40);
    sizePast ← slong (sizePast + sizeComing);
    meta ← setI64 meta (p + 24) sizePast;
    meta ← setI32 meta (p + 32) 0;
    meta ← setI64 meta (p + 40) 0;
    len ← sint (Z.of_nat fileShareMDHeadSize_ + offset);
    n ← sz len;
    meta ← moveHeader meta p n;
    Ok (meta, len));
  _ ← modify (fun u => set_container u (uploadContainer_ u) 0);
  _ ← modify (fun u => set_sizes u (shareSizeArray_ u) 0);
  modify (fun u => set_meta u meta len).

(** Put a share into the buffers and count it in the header. *)
Definition storeShare {ret} (share_header data : bytes) (shareSize : Z) : M ret unit :=
  meta ← gets uploadMetaBuffer_;
  wp ← gets metaWP_;
  '(meta, wp) ← lift (
    o ← sz wp;
    meta ← memcpy meta o share_header 0 shareMDEntrySize_;
    wp ← sint (wp + Z.of_nat shareMDEntrySize_);
    Ok (meta, wp));
  _ ← modify (fun u => set_meta u meta wp);
  cont ← gets uploadContainer_;
  cwp ← gets containerWP_;
  '(cont, cwp) ← lift (
    o ← sz cwp;
    len ← sz shareSize;
    cont ← memcpy cont o data 0 len;
    cwp ← sint (cwp + shareSize);
    Ok (cont, cwp));
  _ ← modify (fun u => set_container u cont cwp);
  sizes ← gets shareSizeArray_;
  num ← gets numOfShares_;
  '(sizes, num) ← lift (
    i ← sz num;
    sizes ← aset sizes i shareSize;
    num ← sint (num + 1);
    Ok (sizes, num));
  _ ← modify (fun u => set_sizes u sizes num);
  p ← header;
  meta ← gets uploadMetaBuffer_;
  meta ← lift (
    coming ← getI32 meta (p + 32);
    coming ← sint (coming + 1);
    meta ← setI32 meta (p + 32) coming;
    sizeComing ← getI64 meta (p + 40);
    secretSize ← getI32 share_header 36;
    sizeComing ← slong (sizeComing + secretSize);
    setI64 meta (p + 40) sizeComing);
  modify (fun u => set_meta u meta (metaWP_ u)).

(** One item of the ring buffer; false when the thread ends. *)
Definition handleItem {ret} (junk : Z) (output : Item) : M ret bool :=
  match output with
  | FileObj file_header data =>
      meta ← gets uploadMetaBuffer_;
      wp ← gets metaWP_;
      '(meta, p, wp') ← lift (
        p ← sz wp;
        meta ← memcpy meta p file_header 0 fileShareMDHeadSize_;
        wp ← sint (wp + Z.of_nat fileShareMDHeadSize_);
        o ← sz wp;
        nameSize ← getI32 file_header 0;
        len ← sz nameSize;
        meta ← memcpy meta o data 0 len;
        nameSize ← getI32 meta p;
        wp ← sint (wp + nameSize);
        Ok (meta, p, wp));
      _ ← modify (fun u => set_header u (Some p));
      _ ← modify (fun u => set_meta u meta wp');
      mret true
  | ShareObj share_end share_header data =>
      shareSize ← lift (getI32 share_header 40);
      cwp ← gets containerWP_;
      full ← lift (x ← sint (shareSize + cwp); Ok (x >? Z.of_nat UPLOAD_BUFFER_SIZE));
      _ ← (if (full : bool) then _ ← performUpload junk; updateHeader else mret tt);
      _ ← storeShare share_header data shareSize;
      if (share_end : bool) then _ ← performUpload junk; mret false else mret true
  end.

(** The loop of the thread over the items it extracts; without an item it waits. *)
Fixpoint thread_handler {ret} (junk : Z) (items : list Item) : M ret unit :=
  match items with
  | [] => fun _ => Hang
  | output :: items' =>
      go ← handleItem junk output;
      if (go : bool) then thread_handler junk items' else mret tt
  end.
End Uploader.
