(* ===== verification/UploaderProof.v ===== *)
(** * What an Uploader sends

    The thread of a cloud packs the shares of a file greedily into packages, and
    sends for each package the metadata in the format the servers read (encodeFile of
    MinPackage.v) and the shares that the answer does not mark as duplicates. *)

From stdpp Require Import base list numbers.
From coqutil Require Import Byte.
From Stdlib Require Import Lia.
From S2P Require Import Prelude Structs Socket FileNames World MinDedupCore MinStages MinPackage Uploader.

Local Open Scope Z_scope.

(** ** Files and shares of a client *)

Record ClientFile := {
  cf_pad1 : bytes;
  cf_pad2 : bytes;
  cf_pad3 : bytes;
  cf_size : Z;
  cf_name : bytes;
}.

(** A share object: its metadata and the data of the item. *)
Record ClientShare := {
  cs_md : ShareMD;
  cs_data : bytes;
}.

Definition content (x : ClientShare) : bytes := take (sm_size (cs_md x)) (cs_data x).
Definition contents_ (l : list ClientShare) : bytes := mjoin (content <$> l).
Definition mdsOf (l : list ClientShare) : list ShareMD := cs_md <$> l.
Definition secretSizes (l : list ClientShare) : Z := foldr (fun x z => sm_secretSize (cs_md x) + z) 0 l.

(** The file in a package: the shares [l], after [past] others of total size
    [sizePast]. *)
Definition packMD (f : ClientFile) (past sizePast : Z) (l : list ClientShare) : FileMD :=
  {| fm_mid := cf_pad1 f ++ le64 (cf_size f) ++ le32 past ++ cf_pad2 f ++ le64 sizePast;
     fm_end := cf_pad3 f ++ le64 (secretSizes l); fm_name := cf_name f; fm_shares := mdsOf l |}.

(** The [fileShareMDHead_t] of a package. *)
Definition headBytes (f : ClientFile) (past sizePast coming sizeComing : Z) : bytes :=
  le32 (Z.of_nat (length (cf_name f))) ++ cf_pad1 f ++ le64 (cf_size f) ++ le32 past ++ cf_pad2 f ++ le64 sizePast
  ++ le32 coming ++ cf_pad3 f ++ le64 sizeComing.

Lemma encodeFile_pack f past sizePast l :
  encodeFile (packMD f past sizePast l)
  = headBytes f past sizePast (Z.of_nat (length l)) (secretSizes l) ++ cf_name f ++ encodeShares (mdsOf l).
Proof. unfold encodeFile, packMD, headBytes. cbn. unfold mdsOf at 1. rewrite length_fmap. by rewrite <- !app_assoc. Qed.

(** The shares that a list of flags does not mark. *)
Fixpoint unmarked (flags : list bool) (l : list ClientShare) : list ClientShare :=
  match flags, l with
  | d :: flags', x :: l' => if d then unmarked flags' l' else x :: unmarked flags' l'
  | _, _ => []
  end.

Definition flagByte (d : bool) : byte := if d then Byte.x01 else Byte.x00.

(** The two messages of an exchange. *)
Definition exchange (f : ClientFile) (past sizePast : Z) (l : list ClientShare) (flags : list bool) : bytes :=
  package SEND_META (encodeFile (packMD f past sizePast l)) ++ package SEND_DATA (contents_ (unmarked flags l)).

Section Proof.
Context {N : Network} {NL : NetworkLaws} {MM : Memory} {ML : MemoryLaws} {UL : UploadLimits}.

Record UploadOk : Prop := {
  up_limit : Z.of_nat UPLOAD_BUFFER_SIZE < 2 ^ 30;
  up_ring : (RING_BUFFER_SIZE <= UPLOAD_BUFFER_SIZE)%nat;
}.

Record wfClient (f : ClientFile) : Prop := {
  wc_pad1 : length (cf_pad1 f) = 4%nat;
  wc_pad2 : length (cf_pad2 f) = 4%nat;
  wc_pad3 : length (cf_pad3 f) = 4%nat;
  wc_name : int32 (Z.of_nat (length (cf_name f)));
}.

Record wfItem (x : ClientShare) : Prop := {
  wx_share : wfShare (cs_md x);
  wx_secret : 0 <= sm_secretSize (cs_md x) < 2 ^ 31;
  wx_ring : (sm_size (cs_md x) <= RING_BUFFER_SIZE)%nat;
  wx_data : (sm_size (cs_md x) <= length (cs_data x))%nat;
}.

Lemma length_content x : wfItem x -> length (content x) = sm_size (cs_md x).
Proof. intros [_ _ _ H]. unfold content. lens. Qed.

Lemma contents_app l1 l2 : contents_ (l1 ++ l2) = contents_ l1 ++ contents_ l2.
Proof. unfold contents_. by rewrite fmap_app, join_app. Qed.

Lemma contents_snoc l x : contents_ (l ++ [x]) = contents_ l ++ content x.
Proof. rewrite contents_app. unfold contents_ at 2. cbn. by rewrite app_nil_r. Qed.

Lemma length_headBytes f past sizePast coming sizeComing :
  wfClient f -> length (headBytes f past sizePast coming sizeComing) = fileShareMDHeadSize_.
Proof. intros [H1 H2 H3 _]. unfold headBytes. rewrite !length_app, !length_le32, !length_le64, H1, H2, H3. done. Qed.

(** ** The fields of the header *)

Lemma head_name {R} f past sizePast coming sizeComing post :
  wfClient f -> getI32 (R := R) (headBytes f past sizePast coming sizeComing ++ post) 0 = Ok (Z.of_nat (length (cf_name f))).
Proof.
  intros [H1 H2 H3 H4]. unfold headBytes. rewrite <- !app_assoc. by apply (getI32_at [] _ _ _ _ eq_refl).
Qed.

(** The parts of the header in front of a field. *)
Definition pre16 (f : ClientFile) : bytes := le32 (Z.of_nat (length (cf_name f))) ++ cf_pad1 f ++ le64 (cf_size f).
Definition pre24 (f : ClientFile) (past : Z) : bytes := pre16 f ++ le32 past ++ cf_pad2 f.
Definition pre32 (f : ClientFile) (past sizePast : Z) : bytes := pre24 f past ++ le64 sizePast.
Definition pre40 (f : ClientFile) (past sizePast coming : Z) : bytes := pre32 f past sizePast ++ le32 coming ++ cf_pad3 f.

Ltac head_bytes := unfold headBytes, pre40, pre32, pre24, pre16; rewrite <- ?app_assoc; reflexivity.
Ltac head_len := unfold pre40, pre32, pre24, pre16; rewrite ?length_app, ?length_le32, ?length_le64; lia.
Ltac head_get pre post :=
  match goal with
  | |- getI32 _ _ = _ => apply (getI32_at pre _ post); [head_bytes|head_len|assumption]
  | |- getI64 _ _ = _ => apply (getI64_at pre _ post); [head_bytes|head_len|assumption]
  end.
Ltac head_put pre old post :=
  match goal with
  | |- setI32 ?b ?o ?x = _ => rewrite (setI32_at pre old post b o x); [f_equal; head_bytes|head_bytes|head_len|apply length_le32]
  | |- setI64 ?b ?o ?x = _ => rewrite (setI64_at pre old post b o x); [f_equal; head_bytes|head_bytes|head_len|apply length_le64]
  end.

Section Fields.
Context {R : Type} (f : ClientFile) (Hf : wfClient f) (past sizePast coming sizeComing : Z) (post : bytes).

Lemma head_past : int32 past -> getI32 (R := R) (headBytes f past sizePast coming sizeComing ++ post) 16 = Ok past.
Proof.
  destruct Hf. intros. head_get (pre16 f) (cf_pad2 f ++ le64 sizePast ++ le32 coming ++ cf_pad3 f ++ le64 sizeComing ++ post).
Qed.
Lemma head_sizePast : int64 sizePast ->
  getI64 (R := R) (headBytes f past sizePast coming sizeComing ++ post) 24 = Ok sizePast.
Proof. destruct Hf. intros. head_get (pre24 f past) (le32 coming ++ cf_pad3 f ++ le64 sizeComing ++ post). Qed.
Lemma head_coming : int32 coming -> getI32 (R := R) (headBytes f past sizePast coming sizeComing ++ post) 32 = Ok coming.
Proof. destruct Hf. intros. head_get (pre32 f past sizePast) (cf_pad3 f ++ le64 sizeComing ++ post). Qed.
Lemma head_sizeComing : int64 sizeComing ->
  getI64 (R := R) (headBytes f past sizePast coming sizeComing ++ post) 40 = Ok sizeComing.
Proof. destruct Hf. intros. head_get (pre40 f past sizePast coming) post. Qed.

Lemma put_past x : setI32 (R := R) (headBytes f past sizePast coming sizeComing ++ post) 16 x
  = Ok (headBytes f x sizePast coming sizeComing ++ post).
Proof.
  destruct Hf. head_put (pre16 f) (le32 past) (cf_pad2 f ++ le64 sizePast ++ le32 coming ++ cf_pad3 f ++ le64 sizeComing ++ post).
Qed.
Lemma put_sizePast x : setI64 (R := R) (headBytes f past sizePast coming sizeComing ++ post) 24 x
  = Ok (headBytes f past x coming sizeComing ++ post).
Proof. destruct Hf. head_put (pre24 f past) (le64 sizePast) (le32 coming ++ cf_pad3 f ++ le64 sizeComing ++ post). Qed.
Lemma put_coming x : setI32 (R := R) (headBytes f past sizePast coming sizeComing ++ post) 32 x
  = Ok (headBytes f past sizePast x sizeComing ++ post).
Proof. destruct Hf. head_put (pre32 f past sizePast) (le32 coming) (cf_pad3 f ++ le64 sizeComing ++ post). Qed.
Lemma put_sizeComing x : setI64 (R := R) (headBytes f past sizePast coming sizeComing ++ post) 40 x
  = Ok (headBytes f past sizePast coming x ++ post).
Proof. destruct Hf. head_put (pre40 f past sizePast coming) (le64 sizeComing) post. Qed.
End Fields.

(** ** The buffers of a cloud *)

(** The buffers hold the shares [l] of the file, after [past] others. *)
Record loaded (f : ClientFile) (past sizePast : Z) (l : list ClientShare) (u : Uploader) : Prop := {
  ld_meta : exists rest, uploadMetaBuffer_ u = encodeFile (packMD f past sizePast l) ++ rest;
  ld_metaLen : length (uploadMetaBuffer_ u) = UPLOAD_BUFFER_SIZE;
  ld_metaWP : metaWP_ u = Z.of_nat (length (encodeFile (packMD f past sizePast l)));
  ld_container : exists rest, uploadContainer_ u = contents_ l ++ rest;
  ld_containerLen : length (uploadContainer_ u) = UPLOAD_BUFFER_SIZE;
  ld_containerWP : containerWP_ u = Z.of_nat (length (contents_ l));
  ld_num : numOfShares_ u = Z.of_nat (length l);
  ld_sizes : exists rest, shareSizeArray_ u = ((fun x => Z.of_nat (sm_size (cs_md x))) <$> l) ++ rest;
  ld_sizesLen : length (shareSizeArray_ u) = UPLOAD_BUFFER_SIZE;
  ld_header : headerArray_ u = Some 0%nat;
}.

(** ** Moving the wanted shares together *)

Lemma unmarked_snoc flags l d x :
  length flags = length l -> unmarked (flags ++ [d]) (l ++ [x]) = unmarked flags l ++ (if d then [] else [x]).
Proof.
  revert l. induction flags as [|d0 flags IH]; intros [|x0 l] Hl; try done.
  cbn in *. rewrite IH by lia. by destruct d0.
Qed.

Lemma keepShares_spec {R} (l : list ClientShare) (flags : list bool) (rest srest : bytes) (sizes : list Z) (temp : bytes) :
  Forall wfItem l -> length flags = length l -> length temp = RING_BUFFER_SIZE ->
  Z.of_nat (length (contents_ l)) < 2 ^ 31 ->
  exists cont' temp', forN (R := R) (length l) 0
      (keepShare ((flagByte <$> flags) ++ srest) (((fun x => Z.of_nat (sm_size (cs_md x))) <$> l) ++ sizes))
      (contents_ l ++ rest, temp, 0, 0)
    = Ok (cont', temp', Z.of_nat (length (contents_ (unmarked flags l))), Z.of_nat (length (contents_ l))) /\
    (exists rest', cont' = contents_ (unmarked flags l) ++ rest') /\ length cont' = length (contents_ l ++ rest).
Proof.
  intros Hwf Hfl Htl Hb.
  destruct (forN_inv (R := R) (fun i (st : bytes * bytes * Z * Z) => exists cont' temp' gap,
      st = (cont', temp', Z.of_nat (length (contents_ (unmarked (take i flags) (take i l)))),
            Z.of_nat (length (contents_ (take i l)))) /\
      cont' = contents_ (unmarked (take i flags) (take i l)) ++ gap ++ contents_ (drop i l) ++ rest /\
      (length (contents_ (unmarked (take i flags) (take i l))) + length gap = length (contents_ (take i l)))%nat /\
      length temp' = RING_BUFFER_SIZE) (length l) 0
      (keepShare ((flagByte <$> flags) ++ srest) (((fun x => Z.of_nat (sm_size (cs_md x))) <$> l) ++ sizes))
      (contents_ l ++ rest, temp, 0, 0)) as (st & E & cont' & temp' & gap & -> & Hc & Hg & _).
  - exists (contents_ l ++ rest), temp, []. by rewrite !take_0, drop_0.
  - intros i st Hi (cont' & temp' & gap & -> & Hc & Hg & Ht).
    destruct (lookup_lt_is_Some_2 l i) as [x Hx]; [lia|].
    destruct (lookup_lt_is_Some_2 flags i) as [d Hd]; [lia|].
    pose proof (Forall_lookup_1 _ _ _ _ Hwf Hx) as Hwx. pose proof (length_content x Hwx) as Hlc.
    unfold keepShare.
    rewrite (aget_ok _ i (Z.of_nat (sm_size (cs_md x)))) by (rewrite lookup_app_l by lens; by rewrite list_lookup_fmap, Hx).
    cbn [mbind res_bind].
    rewrite (aget_ok _ i (flagByte d)) by (rewrite lookup_app_l by lens; by rewrite list_lookup_fmap, Hd).
    cbn [mbind res_bind].
    assert (contents_ (take (S i) l) = contents_ (take i l) ++ content x) as Etake
      by (rewrite (take_S_r _ _ _ Hx); apply contents_snoc).
    assert (unmarked (take (S i) flags) (take (S i) l) = unmarked (take i flags) (take i l) ++ (if d then [] else [x])) as Eun.
    { rewrite (take_S_r _ _ _ Hx), (take_S_r _ _ _ Hd). apply unmarked_snoc. lens. }
    assert (contents_ (drop i l) = content x ++ contents_ (drop (S i) l)) as Edrop
      by (by rewrite (drop_S l x i Hx)).
    assert (length (contents_ l) = length (contents_ (take i l)) + length (contents_ (drop i l)))%nat as Esum
      by (by rewrite <- length_app, <- contents_app, take_drop).
    rewrite Edrop in Esum, Hc. rewrite length_app, Hlc in Esum. rewrite <- (app_assoc (content x)) in Hc.
    set (sel := contents_ (unmarked (take i flags) (take i l))) in *.
    set (rest2 := contents_ (drop (S i) l) ++ rest) in *.
    assert (sint (R := R) (Z.of_nat (length (contents_ (take i l))) + Z.of_nat (sm_size (cs_md x)))
            = Ok (Z.of_nat (length (contents_ (take (S i) l))))) as Es
      by (rewrite sint_ok by lia; f_equal; rewrite Etake, length_app; lia).
    destruct d; cbn [flagByte].
    + rewrite decide_False by done. cbn [mbind res_bind]. rewrite Es. cbn [mbind res_bind].
      rewrite app_nil_r in Eun. rewrite Eun.
      eexists. split; [reflexivity|]. exists cont', temp', (gap ++ content x).
      split; [done|]. split; [|split; [|done]].
      * fold sel rest2. rewrite Hc. by rewrite <- !app_assoc.
      * fold sel. rewrite Etake, !length_app. lia.
    + rewrite decide_True by done. rewrite !sz_ok by lia. cbn [mbind res_bind]. rewrite !Nat2Z.id.
      assert (memcpy (R := R) temp' 0 cont' (length (contents_ (take i l))) (sm_size (cs_md x))
              = Ok (content x ++ drop (sm_size (cs_md x)) temp')) as ->.
      { unfold memcpy. rewrite Hc. rewrite app_assoc. rewrite rd_mid by (rewrite ?length_app; lia). cbn [mbind res_bind].
        destruct Hwx. rewrite wr_ok by lia. cbn [take app]. rewrite Nat.add_0_l, Hlc. done. }
      cbn [mbind res_bind]. unfold memcpy. rewrite rd_front by lia. cbn [mbind res_bind].
      rewrite Hc. rewrite wr_next by (rewrite ?length_app; lia). cbn [mbind res_bind].
      rewrite Es, sint_ok by lia. cbn [mbind res_bind].
      eexists. split; [reflexivity|].
      exists ((sel ++ content x) ++ drop (length (content x)) (gap ++ content x ++ rest2)),
        (content x ++ drop (sm_size (cs_md x)) temp'), (drop (sm_size (cs_md x)) (gap ++ content x)).
      rewrite Eun, contents_snoc. fold sel. split_and!.
      * do 2 f_equal. rewrite length_app. lia.
      * fold rest2. rewrite <- !app_assoc. do 2 f_equal.
        rewrite (app_assoc gap). rewrite drop_app_le by (rewrite length_app; lia). by rewrite Hlc.
      * rewrite Etake. lens.
      * destruct Hwx. lens.
  - rewrite Nat.add_0_l in *. rewrite !take_ge in * by lia. rewrite drop_ge in Hc by lia.
    exists cont', temp'. split; [exact E|]. split.
    + exists (gap ++ rest). rewrite Hc. by unfold contents_ at 2.
    + rewrite Hc. rewrite !length_app. unfold contents_ at 2. cbn. lia.
Qed.

(** ** Sending a package *)

Lemma wps_onSock {ret A} (m : SM Conn A A) (P : A -> Uploader -> Prop) (Q : ret -> Uploader -> Prop) u :
  wps m (fun a c => P a (set_sock u c)) (fun a c => P a (set_sock u c)) (sock u) -> wps (onSock m) P Q u.
Proof. unfold wps, onSock, fn. by destruct (m (sock u)) as [[]|[]| | |]. Qed.

(** What an exchange leaves behind. *)
Record exchanged (f : ClientFile) (past sizePast : Z) (l : list ClientShare) (flags : list bool) (u u' : Uploader) : Prop := {
  ex_moved : moved (sock u) (sock u') (statusReply (flagByte <$> flags)) (exchange f past sizePast l flags);
  ex_meta : uploadMetaBuffer_ u' = uploadMetaBuffer_ u;
  ex_metaWP : metaWP_ u' = metaWP_ u;
  ex_container : length (uploadContainer_ u') = length (uploadContainer_ u);
  ex_sizes : shareSizeArray_ u' = shareSizeArray_ u;
  ex_header : headerArray_ u' = headerArray_ u;
  ex_accu : accuData_ u' = accuData_ u + Z.of_nat (length (contents_ l));
  ex_unique : accuUnique_ u' = accuUnique_ u + Z.of_nat (length (contents_ (unmarked flags l)));
}.

Lemma performUpload_spec {ret} (OK : UploadOk) junk f past sizePast l flags rest u (Q : ret -> Uploader -> Prop) :
  loaded f past sizePast l u -> Forall wfItem l -> length flags = length l ->
  inbox (sock u) = statusReply (flagByte <$> flags) ++ rest ->
  wps (performUpload junk) (fun _ u' => exchanged f past sizePast l flags u u' /\ inbox (sock u') = rest) Q u.
Proof.
  intros [(mrest & Hm) Hml Hwp (crest & Hc) Hcl Hcwp Hn (srest & Hs) Hsl Hh] Hwf Hfl Hi. destruct OK as [Hlim Hring].
  assert (length l <= UPLOAD_BUFFER_SIZE)%nat as Hll by (rewrite Hs in Hsl; rewrite length_app, length_fmap in Hsl; lia).
  assert (length (contents_ l) <= UPLOAD_BUFFER_SIZE)%nat as Hcl' by (rewrite Hc in Hcl; rewrite length_app in Hcl; lia).
  set (meta := encodeFile (packMD f past sizePast l)) in *.
  assert (length meta <= UPLOAD_BUFFER_SIZE)%nat as Hml' by (rewrite Hm in Hml; rewrite length_app in Hml; lia).
  unfold performUpload. wstep. wstep. wstep. wstep. wstep. apply wps_onSock.
  eapply wps_post; [apply sendPackage_spec; lia|]. intros _ c1 [_ M1].
  rewrite Hwp, Nat2Z.id, Hm, take_app_length in M1.
  wstep. wstep. wstep. cbn [numOfShares_ set_sock]. rewrite Hn.
  eapply wps_lift; [rewrite sint_ok by lia; cbn [mbind res_bind]; rewrite sz_ok by lia; reflexivity|].
  wstep. apply wps_onSock. cbn [sock set_sock].
  assert (inbox c1 = inbox (sock u)) as Ei1 by (destruct M1 as [E _]; by rewrite E).
  eapply wps_post.
  { apply (getStatus_spec _ _ _ (flagByte <$> flags) rest).
    - rewrite fresh_length, length_fmap. lia.
    - rewrite length_fmap. unfold int32. lia.
    - by rewrite Ei1. }
  intros ? c2 (-> & M2 & Hrest). rewrite length_fmap, Hfl. wstep. wstep. wstep. wstep. wstep.
  cbn [shareSizeArray_ uploadContainer_ set_sock]. rewrite Nat2Z.id, Hs, Hc.
  destruct (keepShares_spec (R := ret * Uploader) l flags crest (drop (length l) (fresh (Z.to_nat (Z.of_nat (length l) + 1))))
      srest (fresh RING_BUFFER_SIZE) Hwf Hfl (fresh_length _) ltac:(lia))
    as (cont' & temp' & E & (rest' & Hc') & Hcl2).
  eapply wps_lift; [exact E|]. wstep. wstep. wstep. wstep. wstep. apply wps_onSock. cbn [sock set_sock set_accu set_container].
  eapply wps_post; [apply sendPackage_spec; rewrite Hc', length_app; lia|]. intros _ c3 [_ M3]. wstep.
  rewrite Nat2Z.id, Hc', take_app_length in M3. split.
  - split; try done; cbn.
    + pose proof (moved_trans _ _ _ _ _ _ _ M1 (moved_trans _ _ _ _ _ _ _ M2 M3)) as HM. cbn [app] in HM. by rewrite app_nil_r in HM.
    + by rewrite Hcl2, Hc.
  - cbn. destruct M3 as [E3 _]. by rewrite <- Hrest, E3.
Qed.

Lemma secretSizes_snoc l x : secretSizes (l ++ [x]) = secretSizes l + sm_secretSize (cs_md x).
Proof. induction l as [|y l IH]; cbn in *; [lia|]. fold (secretSizes (l ++ [x])) (secretSizes l). lia. Qed.

Lemma secretSizes_bound l : Forall wfItem l -> 0 <= secretSizes l <= 2 ^ 31 * Z.of_nat (length l).
Proof.
  induction 1 as [|x l [_ Hx _ _] _ IH]; [cbn; lia|]. cbn [secretSizes foldr length]. fold (secretSizes l). lia.
Qed.

(** The next package of the file, empty. *)
Lemma updateHeader_spec {ret} (OK : UploadOk) f past sizePast l flags u u' (Q : ret -> Uploader -> Prop) :
  wfClient f -> Forall wfItem l -> loaded f past sizePast l u -> exchanged f past sizePast l flags u u' ->
  0 <= past -> past + Z.of_nat (length l) < 2 ^ 31 -> 0 <= sizePast <= 2 ^ 31 * past ->
  wps updateHeader (fun _ u2 => loaded f (past + Z.of_nat (length l)) (sizePast + secretSizes l) [] u2 /\
    sock u2 = sock u' /\ accuData_ u2 = accuData_ u' /\ accuUnique_ u2 = accuUnique_ u') Q u'.
Proof.
  intros Hf Hwf [(mrest & Hm) Hml Hwp (crest & Hc) Hcl Hcwp Hn (srest & Hs) Hsl Hh] [_ Em Ewp Ec Es Eh _ _] Hp Hpb Hsp.
  destruct OK as [Hlim Hring]. pose proof (secretSizes_bound l Hwf) as Hsz.
  rewrite encodeFile_pack in Hm. set (n := Z.of_nat (length l)) in *. assert (0 <= n) by (unfold n; lia).
  assert (length (cf_name f) <= UPLOAD_BUFFER_SIZE)%nat as Hnl.
  { rewrite Hm, !length_app in Hml. lia. }
  unfold updateHeader. wstep. unfold wps at 1, header. rewrite Eh, Hh. wstep. wstep. wstep. rewrite Em, Hm.
  rewrite <- !app_assoc.
  eapply wps_lift.
  { rewrite head_name by done. cbn [mbind res_bind].
    rewrite (head_past f Hf) by (unfold int32; lia). cbn [mbind res_bind].
    rewrite (head_coming f Hf) by (unfold int32; lia). cbn [mbind res_bind].
    rewrite (sint_ok (past + n)) by lia. cbn [mbind res_bind]. rewrite (put_past f Hf). cbn [mbind res_bind].
    rewrite (head_sizePast f Hf) by (unfold int64; lia). cbn [mbind res_bind].
    rewrite (head_sizeComing f Hf) by (unfold int64; lia). cbn [mbind res_bind].
    rewrite slong_ok by (unfold int64; lia). cbn [mbind res_bind]. rewrite (put_sizePast f Hf). cbn [mbind res_bind].
    rewrite (put_coming f Hf). cbn [mbind res_bind]. rewrite (put_sizeComing f Hf). cbn [mbind res_bind].
    rewrite sint_ok by (unfold fileShareMDHeadSize_; lia). cbn [mbind res_bind].
    rewrite sz_ok by lia. cbn [mbind res_bind]. unfold moveHeader. rewrite decide_True by done. reflexivity. }
  wstep. wstep. wstep. wstep. wstep. split; [|done].
  assert (encodeFile (packMD f (past + n) (sizePast + secretSizes l) [])
          = headBytes f (past + n) (sizePast + secretSizes l) 0 0 ++ cf_name f) as Enew
    by (rewrite encodeFile_pack; cbn; by rewrite app_nil_r).
  split; cbn; try congruence; try done.
  - eexists. by rewrite Enew, <- app_assoc.
  - rewrite <- Hml, Hm. rewrite !length_app, !length_headBytes by done. lia.
  - rewrite Enew, length_app, length_headBytes by done. lia.
  - by exists (uploadContainer_ u').
  - by exists (shareSizeArray_ u').
Qed.

(** ** Adding a share *)

Lemma encodeShare_size {R} x : wfItem x -> getI32 (R := R) (encodeShare (cs_md x)) 40 = Ok (Z.of_nat (sm_size (cs_md x))).
Proof.
  intros [[Hf Hs] _ _ _]. unfold encodeShare.
  apply (getI32_at (sm_fp (cs_md x) ++ le32 (sm_secretID (cs_md x)) ++ le32 (sm_secretSize (cs_md x))) _ []); [| |done].
  - by rewrite <- !app_assoc, app_nil_r.
  - rewrite !length_app, !length_le32, Hf. done.
Qed.

Lemma encodeShare_secret {R} x : wfItem x -> getI32 (R := R) (encodeShare (cs_md x)) 36 = Ok (sm_secretSize (cs_md x)).
Proof.
  intros [[Hf Hs] Hsec _ _]. unfold encodeShare.
  apply (getI32_at (sm_fp (cs_md x) ++ le32 (sm_secretID (cs_md x))) _ (le32 (Z.of_nat (sm_size (cs_md x))))).
  - by rewrite <- !app_assoc.
  - rewrite !length_app, !length_le32, Hf. done.
  - unfold int32. lia.
Qed.

(** The size of the metadata of a package. *)
Definition metaSize (f : ClientFile) (l : list ClientShare) : nat :=
  fileShareMDHeadSize_ + length (cf_name f) + shareMDEntrySize_ * length l.

Lemma wfFile_pack f past sizePast l : wfClient f -> Forall wfItem l -> wfFile (packMD f past sizePast l).
Proof.
  intros [H1 H2 H3 _] Hwf. split; cbn; [lens|lens|]. unfold mdsOf. apply Forall_fmap.
  eapply list.Forall_impl; [exact Hwf|]. by intros x [].
Qed.

Lemma length_pack f past sizePast l :
  wfClient f -> Forall wfItem l -> length (encodeFile (packMD f past sizePast l)) = metaSize f l.
Proof.
  intros Hf Hl. rewrite length_encodeFile by (by apply wfFile_pack). cbn. unfold mdsOf. by rewrite length_fmap.
Qed.

Lemma storeShare_spec {ret} (OK : UploadOk) f past sizePast l x u (Q : ret -> Uploader -> Prop) :
  wfClient f -> Forall wfItem l -> wfItem x -> loaded f past sizePast l u ->
  (length (contents_ l) + sm_size (cs_md x) <= UPLOAD_BUFFER_SIZE)%nat ->
  (metaSize f (l ++ [x]) <= UPLOAD_BUFFER_SIZE)%nat ->
  wps (storeShare (encodeShare (cs_md x)) (cs_data x) (Z.of_nat (sm_size (cs_md x))))
    (fun _ u2 => loaded f past sizePast (l ++ [x]) u2 /\
       sock u2 = sock u /\ accuData_ u2 = accuData_ u /\ accuUnique_ u2 = accuUnique_ u) Q u.
Proof.
  intros Hf Hwf Hx [(mrest & Hm) Hml Hwp (crest & Hc) Hcl Hcwp Hn (srest & Hs) Hsl Hh] Hroom Hmroom.
  destruct OK as [Hlim Hring]. pose proof (secretSizes_bound l Hwf) as Hsz.
  rewrite length_pack in Hwp by done. unfold metaSize in *. rewrite length_app in Hmroom. cbn [length] in Hmroom.
  pose proof (length_encodeShare _ (wx_share _ Hx)) as Hle.
  assert (length mrest = UPLOAD_BUFFER_SIZE - metaSize f l)%nat as Hmr.
  { rewrite Hm, length_app, length_pack in Hml by done. unfold metaSize in *. lia. }
  unfold metaSize in Hmr. unfold fileShareMDHeadSize_, shareMDEntrySize_ in *.
  unfold storeShare. wstep. wstep. wstep. wstep. wstep. rewrite Hm.
  eapply wps_lift.
  { rewrite sz_ok by lia. cbn [mbind res_bind]. unfold memcpy. rewrite <- (app_nil_r (encodeShare (cs_md x))).
    rewrite rd_front by (rewrite Hle; done). cbn [mbind res_bind].
    rewrite wr_next; [| |lia]; [|rewrite length_pack by done; unfold metaSize, fileShareMDHeadSize_, shareMDEntrySize_; lia].
    cbn [mbind res_bind]. unfold shareMDEntrySize_. rewrite sint_ok by lia. reflexivity. }
  do 7 wstep. cbn [uploadContainer_ containerWP_ set_meta]. rewrite Hc, Hcwp.
  assert (length crest = UPLOAD_BUFFER_SIZE - length (contents_ l))%nat as Hcr by (rewrite Hc, length_app in Hcl; lia).
  pose proof (length_content x Hx) as Hlx.
  eapply wps_lift.
  { rewrite !sz_ok by lia. cbn [mbind res_bind]. rewrite !Nat2Z.id. unfold memcpy.
    rewrite (rd_ok (cs_data x)) by (destruct Hx; lia). cbn [mbind res_bind]. rewrite drop_0. fold (content x).
    rewrite wr_next by lia. cbn [mbind res_bind]. rewrite sint_ok by lia. reflexivity. }
  do 7 wstep. cbn [shareSizeArray_ numOfShares_ set_meta set_container]. rewrite Hs, Hn.
  destruct srest as [|s0 srest]; [rewrite Hs, app_nil_r, length_fmap in Hsl; lia|].
  eapply wps_lift.
  { rewrite sz_ok by lia. cbn [mbind res_bind]. rewrite Nat2Z.id. rewrite aset_ok by (rewrite length_app, length_fmap; cbn; lia).
    cbn [mbind res_bind]. rewrite sint_ok by lia. reflexivity. }
  wstep. wstep. wstep. unfold wps at 1, header. cbn [headerArray_ set_sizes set_container set_meta]. rewrite Hh.
  wstep. wstep. wstep. cbn [uploadMetaBuffer_ set_sizes set_container set_meta]. rewrite Nat.add_0_l.
  rewrite encodeFile_pack. rewrite <- !app_assoc.
  eapply wps_lift.
  { rewrite (head_coming f Hf) by (unfold int32; lia). cbn [mbind res_bind]. rewrite sint_ok by lia. cbn [mbind res_bind].
    rewrite (put_coming f Hf). cbn [mbind res_bind]. rewrite (head_sizeComing f Hf) by (unfold int64; lia). cbn [mbind res_bind].
    rewrite encodeShare_secret by done. cbn [mbind res_bind]. destruct Hx as [_ Hsec _ _].
    rewrite slong_ok by (unfold int64; lia). cbn [mbind res_bind]. apply (put_sizeComing f Hf). }
  wstep. split; [|done].
  assert (encodeFile (packMD f past sizePast (l ++ [x]))
          = headBytes f past sizePast (Z.of_nat (length l) + 1) (secretSizes l + sm_secretSize (cs_md x))
            ++ cf_name f ++ encodeShares (mdsOf l) ++ encodeShare (cs_md x)) as Enew.
  { rewrite encodeFile_pack, secretSizes_snoc. unfold mdsOf. rewrite fmap_app, encodeShares_app, length_app.
    cbn [length fmap list_fmap encodeShares]. rewrite Nat2Z.inj_add. unfold encodeShares at 2. cbn. by rewrite app_nil_r. }
  assert (Forall wfItem (l ++ [x])) as Hwf' by (apply Forall_app; by split; [|constructor]).
  split; cbn; try done.
  - eexists. rewrite Enew. by rewrite <- !app_assoc.
  - rewrite !length_app, length_headBytes by done. rewrite length_drop.
    rewrite length_encodeShares by (apply (wf_shares _ (wfFile_pack f past sizePast l Hf Hwf))).
    unfold mdsOf. rewrite length_fmap. unfold fileShareMDHeadSize_, shareMDEntrySize_. lia.
  - rewrite length_pack by done. unfold metaSize. rewrite length_app. cbn. unfold fileShareMDHeadSize_, shareMDEntrySize_. lia.
  - rewrite contents_snoc. eexists. by rewrite <- app_assoc.
  - rewrite !length_app, length_drop. lia.
  - rewrite contents_snoc, length_app. lia.
  - rewrite length_app. cbn. lia.
  - exists srest. rewrite fmap_app, <- app_assoc. rewrite insert_app_r_alt by lens. rewrite length_fmap, Nat.sub_diag. done.
  - rewrite length_insert. by rewrite <- Hs.
Qed.
End Proof.
