(* ===== verification/Uploads.v ===== *)
(** * The session of an Uploader

    The whole run of the thread of a cloud: the file header, the shares, and the
    packages they are sent in. *)

From stdpp Require Import base list numbers.
From coqutil Require Import Byte.
From Stdlib Require Import Lia.
From S2P Require Import Prelude Structs Socket FileNames World MinDedupCore MinStages MinPackage Uploader UploaderProof.

Local Open Scope Z_scope.

Section Session.
Context {N : Network} {NL : NetworkLaws} {MM : Memory} {ML : MemoryLaws} {UL : UploadLimits}.

(** The packages of the shares [xs], when [cur] is in the buffers: a share that does
    not fit begins a new one. *)
Fixpoint packs (cur xs : list ClientShare) : list (list ClientShare) :=
  match xs with
  | [] => [cur]
  | x :: xs' =>
      if decide (length (contents_ cur) + sm_size (cs_md x) <= UPLOAD_BUFFER_SIZE)%nat
      then packs (cur ++ [x]) xs' else cur :: packs [x] xs'
  end.

(** What is sent for the packages [ps] if the answers are [flagss]. *)
Fixpoint exchanges (f : ClientFile) (past sizePast : Z) (ps : list (list ClientShare)) (flagss : list (list bool)) : bytes :=
  match ps, flagss with
  | p :: ps', flags :: flagss' =>
      exchange f past sizePast p flags
      ++ exchanges f (past + Z.of_nat (length p)) (sizePast + secretSizes p) ps' flagss'
  | _, _ => []
  end.

Definition replies (flagss : list (list bool)) : bytes := mjoin ((fun flags => statusReply (flagByte <$> flags)) <$> flagss).

Definition uniqueSize (ps : list (list ClientShare)) (flagss : list (list bool)) : Z :=
  Z.of_nat (length (mjoin (zip_with (fun flags p => contents_ (unmarked flags p)) flagss ps))).

(** The items of the ring buffer. *)
Definition shareItem (last : bool) (x : ClientShare) : Item := ShareObj last (encodeShare (cs_md x)) (cs_data x).
Fixpoint shareItems (xs : list ClientShare) : list Item :=
  match xs with
  | [] => []
  | [x] => [shareItem true x]
  | x :: xs' => shareItem false x :: shareItems xs'
  end.

Lemma packs_join cur xs : mjoin (packs cur xs) = cur ++ xs.
Proof.
  revert cur. induction xs as [|x xs IH]; intros cur; cbn [packs]; [done|].
  case_decide; [by rewrite IH, <- app_assoc|]. cbn. by rewrite IH.
Qed.

Lemma packs_head cur xs : exists p ps, packs cur xs = (cur ++ p) :: ps.
Proof.
  revert cur. induction xs as [|x xs IH]; intros cur; cbn [packs].
  - exists [], []. by rewrite app_nil_r.
  - case_decide; [|by exists [], (packs [x] xs); rewrite app_nil_r].
    destruct (IH (cur ++ [x])) as (p & ps & ->). exists (x :: p), ps. by rewrite <- app_assoc.
Qed.

(** Room for the metadata of every package *)
Definition metaFits (f : ClientFile) (ps : list (list ClientShare)) : Prop :=
  Forall (fun p => metaSize f p <= UPLOAD_BUFFER_SIZE)%nat ps.

Lemma metaFits_cur f cur xs : metaFits f (packs cur xs) -> (metaSize f cur <= UPLOAD_BUFFER_SIZE)%nat.
Proof.
  destruct (packs_head cur xs) as (p & ps & ->). intros H. apply list.Forall_cons in H as [H _].
  unfold metaSize in *. rewrite length_app in H. lia.
Qed.

Lemma wps_bind_inv {S ret A B} (f : A -> SM S ret B) (m : SM S ret A) P (Q : ret -> S -> Prop) s :
  wps (mbind f m) P Q s -> wps m (fun a => wps (f a) P Q) Q s.
Proof. unfold wps, mbind, SM_bind. by destruct (m s) as [[a s']|[]| | |]. Qed.

(** ** One share *)

(** A share that fits is put into the buffers; otherwise the package is sent first. *)
Lemma handleShare_spec {ret} (OK : UploadOk) junk f past sizePast cur x u (last : bool)
    (P : bool -> Uploader -> Prop) (Q : ret -> Uploader -> Prop) :
  wfClient f -> Forall wfItem (cur ++ [x]) -> loaded f past sizePast cur u ->
  (length (contents_ cur) + sm_size (cs_md x) <= UPLOAD_BUFFER_SIZE)%nat ->
  (metaSize f (cur ++ [x]) <= UPLOAD_BUFFER_SIZE)%nat ->
  (forall u2, loaded f past sizePast (cur ++ [x]) u2 -> sock u2 = sock u -> accuData_ u2 = accuData_ u ->
     accuUnique_ u2 = accuUnique_ u ->
     wps (if last then _ ← performUpload junk; mret false else mret true) P Q u2) ->
  wps (handleItem junk (shareItem last x)) P Q u.
Proof.
  intros Hf Hwf HL Hroom Hm HP. apply Forall_app in Hwf as [Hcur Hx]. apply Forall_inv in Hx.
  unfold handleItem, shareItem. wstep. eapply wps_lift; [by apply encodeShare_size|]. wstep. wstep. wstep.
  pose proof (ld_containerWP _ _ _ _ _ HL) as Ecwp. rewrite Ecwp. pose proof OK as [Hlim Hring].
  eapply wps_lift; [rewrite sint_ok by lia; reflexivity|].
  replace (Z.of_nat (sm_size (cs_md x)) + Z.of_nat (length (contents_ cur)) >? Z.of_nat UPLOAD_BUFFER_SIZE) with false
    by (symmetry; rewrite Z.gtb_ltb; apply Z.ltb_ge; lia).
  wstep. wstep. wstep. eapply wps_post; [by eapply storeShare_spec|].
  intros _ u2 (HL2 & H1 & H2 & H3). by apply HP.
Qed.

(** The packages are sent when a share does not fit. *)
Lemma handleShare_full {ret} (OK : UploadOk) junk f past sizePast cur flags rest x u (last : bool)
    (P : bool -> Uploader -> Prop) (Q : ret -> Uploader -> Prop) :
  wfClient f -> Forall wfItem (cur ++ [x]) -> loaded f past sizePast cur u ->
  (UPLOAD_BUFFER_SIZE < length (contents_ cur) + sm_size (cs_md x))%nat ->
  (metaSize f [x] <= UPLOAD_BUFFER_SIZE)%nat ->
  0 <= past -> past + Z.of_nat (length cur) < 2 ^ 31 -> 0 <= sizePast <= 2 ^ 31 * past ->
  length flags = length cur -> inbox (sock u) = statusReply (flagByte <$> flags) ++ rest ->
  (forall u1 u2, exchanged f past sizePast cur flags u u1 -> inbox (sock u1) = rest ->
     loaded f (past + Z.of_nat (length cur)) (sizePast + secretSizes cur) [x] u2 ->
     sock u2 = sock u1 -> accuData_ u2 = accuData_ u1 -> accuUnique_ u2 = accuUnique_ u1 ->
     wps (if last then _ ← performUpload junk; mret false else mret true) P Q u2) ->
  wps (handleItem junk (shareItem last x)) P Q u.
Proof.
  intros Hf Hwf HL Hroom Hm Hp Hpb Hsp Hfl Hi HP. apply Forall_app in Hwf as [Hcur Hx]. apply Forall_inv in Hx.
  unfold handleItem, shareItem. wstep. eapply wps_lift; [by apply encodeShare_size|]. wstep. wstep. wstep.
  pose proof (ld_containerWP _ _ _ _ _ HL) as Ecwp. rewrite Ecwp. pose proof OK as [Hlim Hring].
  pose proof (wx_ring _ Hx) as Hxr.
  assert (length (contents_ cur) <= UPLOAD_BUFFER_SIZE)%nat as Hcl.
  { destruct (ld_container _ _ _ _ _ HL) as [r Hr]. pose proof (ld_containerLen _ _ _ _ _ HL) as Hl.
    rewrite Hr, length_app in Hl. lia. }
  eapply wps_lift; [rewrite sint_ok by lia; reflexivity|].
  replace (Z.of_nat (sm_size (cs_md x)) + Z.of_nat (length (contents_ cur)) >? Z.of_nat UPLOAD_BUFFER_SIZE) with true
    by (symmetry; rewrite Z.gtb_ltb; apply Z.ltb_lt; lia).
  wstep. wstep. eapply wps_post; [by eapply performUpload_spec|]. intros _ u1 [HE Hi1].
  eapply wps_post; [by eapply (updateHeader_spec OK f past sizePast cur flags u u1)|].
  intros _ u2 (HL2 & H1 & H2 & H3). wstep.
  eapply wps_post; [eapply (storeShare_spec OK f _ _ [] x u2); try done; cbn; lia|].
  intros _ u3 (HL3 & G1 & G2 & G3). eapply (HP u1 u3); try done; congruence.
Qed.

(** ** The loop over the shares *)

Lemma shareItems_cons x xs : shareItems (x :: xs) = shareItem (bool_decide (xs = [])) x :: shareItems xs.
Proof. by destruct xs. Qed.

Lemma replies_cons flags flagss : replies (flags :: flagss) = statusReply (flagByte <$> flags) ++ replies flagss.
Proof. done. Qed.

Lemma uniqueSize_cons flags flagss p ps :
  uniqueSize (p :: ps) (flags :: flagss) = Z.of_nat (length (contents_ (unmarked flags p))) + uniqueSize ps flagss.
Proof. unfold uniqueSize. cbn [zip_with mjoin list_join]. rewrite length_app, Nat2Z.inj_add. reflexivity. Qed.

(** What the rest of the run does with the shares [cur] in the buffers. *)
Definition runs {ret} (m : SM Uploader ret unit) (f : ClientFile) (past sizePast : Z) (cur xs : list ClientShare)
    (u : Uploader) : Prop :=
  forall flagss rest (Q : ret -> Uploader -> Prop),
    Forall2 (fun p flags => length flags = length p) (packs cur xs) flagss ->
    inbox (sock u) = replies flagss ++ rest ->
    wps m (fun _ u' =>
      moved (sock u) (sock u') (replies flagss) (exchanges f past sizePast (packs cur xs) flagss) /\
      accuData_ u' = accuData_ u + Z.of_nat (length (contents_ (cur ++ xs))) /\
      accuUnique_ u' = accuUnique_ u + uniqueSize (packs cur xs) flagss) Q u.

(** After the last share the package is sent. *)
Lemma runs_last {ret} (OK : UploadOk) junk f past sizePast cur u :
  Forall wfItem cur -> loaded f past sizePast cur u ->
  runs (ret := ret) (_ ← performUpload junk; mret tt) f past sizePast cur [] u.
Proof.
  intros Hwf HL flagss rest Q HF Hi. cbn [packs] in *.
  apply Forall2_cons_inv_l in HF as (flags & flagss' & Hfl & HF & ->). apply Forall2_nil_inv_l in HF as ->.
  rewrite replies_cons in Hi. change (replies []) with (@nil Init.Byte.byte) in Hi. rewrite app_nil_r in Hi.
  wstep. eapply wps_post; [by eapply performUpload_spec|]. intros _ u' [[HM _ _ _ _ _ Ha Hu] _]. wstep.
  rewrite replies_cons. change (replies []) with (@nil Init.Byte.byte). cbn [exchanges]. rewrite !app_nil_r.
  split_and!; [done|done|]. rewrite Hu, uniqueSize_cons. unfold uniqueSize. cbn. lia.
Qed.

Lemma thread_shares {ret} (OK : UploadOk) junk f xs : forall past sizePast cur u,
  xs <> [] -> wfClient f -> Forall wfItem (cur ++ xs) -> loaded f past sizePast cur u ->
  metaFits f (packs cur xs) -> 0 <= past -> past + Z.of_nat (length (cur ++ xs)) < 2 ^ 31 ->
  0 <= sizePast <= 2 ^ 31 * past ->
  runs (ret := ret) (thread_handler junk (shareItems xs)) f past sizePast cur xs u.
Proof.
  induction xs as [|x xs IH]; intros past sizePast cur u Hne Hf Hwf HL HM Hp Hpb Hsp flagss rest Q HF Hi; [done|].
  clear Hne. rewrite shareItems_cons. cbn [thread_handler]. wstep.
  assert (forall past sizePast l u2, Forall wfItem (l ++ xs) -> loaded f past sizePast l u2 ->
    metaFits f (packs l xs) -> 0 <= past -> past + Z.of_nat (length (l ++ xs)) < 2 ^ 31 -> 0 <= sizePast <= 2 ^ 31 * past ->
    runs (ret := ret) (go ← (if bool_decide (xs = []) then _ ← performUpload junk; mret false else mret true);
      if (go : bool) then thread_handler junk (shareItems xs) else mret tt) f past sizePast l xs u2) as Hrest.
  { intros past1 sizePast1 l u2 Hwf2 HL2 HM2 Hp2 Hpb2 Hsp2 flagss2 rest2 Q2 HF2 Hi2. case_bool_decide as E.
    - subst xs. rewrite app_nil_r in Hwf2. pose proof (runs_last (ret := ret) OK junk f past1 sizePast1 l u2 Hwf2 HL2 flagss2 rest2 Q2 HF2 Hi2) as HR.
      unfold wps, mbind, SM_bind, mret, SM_ret in *. destruct (performUpload junk u2) as [[]|[]| | |]; done.
    - wstep. wstep. by eapply IH. }
  assert (Forall wfItem (cur ++ [x])) as Hwx by (rewrite (cons_middle x) in Hwf; rewrite app_assoc in Hwf; by apply Forall_app in Hwf as [? _]).
  cbn [packs] in HF, HM |- *. case_decide as Hroom.
  - eapply handleShare_spec; [done|done|done|done|done| |].
    { by eapply metaFits_cur. }
    intros u2 HL2 E1 E2 E3. apply wps_bind_inv. eapply wps_post.
    { eapply (Hrest past sizePast (cur ++ [x]) u2); try done.
      - by rewrite <- app_assoc.
      - by rewrite <- app_assoc.
      - by rewrite E1. }
    intros ? u'. cbv beta. rewrite E1, E2, E3, <- app_assoc. done.
  - apply Forall2_cons_inv_l in HF as (flags & flagss' & Hfl & HF & ->). apply list.Forall_cons in HM as [HMc HM].
    rewrite replies_cons, <- app_assoc in Hi. rewrite length_app in Hpb. cbn [length] in Hpb.
    pose proof (secretSizes_bound cur (proj1 (proj1 (Forall_app _ _ _) Hwx))) as Hsb.
    eapply handleShare_full; [done|done|exact Hwx|done|lia| |lia|lia|lia|done|done|].
    { by eapply metaFits_cur. }
    intros u1 u2 [HMv _ _ _ _ _ Ea Eu] Hi1 HL2 E1 E2 E3. apply wps_bind_inv. eapply wps_post.
    { eapply (Hrest _ _ [x] u2); try done.
      - apply Forall_app in Hwf as [_ Hwf]. done.
      - lia.
      - cbn [app length]. lia.
      - lia.
      - by rewrite E1. }
    intros _ u' (HMv2 & Ea2 & Eu2). rewrite E1 in HMv2. split_and!.
    + rewrite replies_cons. cbn [exchanges]. by eapply moved_trans.
    + rewrite Ea2, E2, Ea, (contents_app cur). change (x :: xs) with ([x] ++ xs). rewrite length_app. lia.
    + rewrite Eu2, E3, Eu, uniqueSize_cons. lia.
Qed.

Lemma packs_size cur xs : (length (contents_ cur) <= UPLOAD_BUFFER_SIZE)%nat -> Forall wfItem xs -> UploadOk ->
  Forall (fun p => length (contents_ p) <= UPLOAD_BUFFER_SIZE)%nat (packs cur xs).
Proof.
  intros Hc Hwf [_ Hr]. revert cur Hc. induction Hwf as [|x xs Hx _ IH]; intros cur Hc; cbn [packs]; [by constructor|].
  case_decide as Hroom.
  - apply IH. rewrite contents_snoc, length_app, length_content by done. done.
  - constructor; [done|]. apply IH. pose proof (wx_ring _ Hx). unfold contents_. cbn. rewrite length_app, length_content by done. cbn. lia.
Qed.

(** ** The file header *)

Lemma handleFile_spec {ret} (OK : UploadOk) junk f slack u (Q : ret -> Uploader -> Prop) :
  wfClient f -> (metaSize f [] <= UPLOAD_BUFFER_SIZE)%nat ->
  length (uploadMetaBuffer_ u) = UPLOAD_BUFFER_SIZE -> metaWP_ u = 0 ->
  length (uploadContainer_ u) = UPLOAD_BUFFER_SIZE -> containerWP_ u = 0 ->
  length (shareSizeArray_ u) = UPLOAD_BUFFER_SIZE -> numOfShares_ u = 0 ->
  wps (handleItem junk (FileObj (headBytes f 0 0 0 0) (cf_name f ++ slack))) (fun go u2 =>
    go = true /\ loaded f 0 0 [] u2 /\ sock u2 = sock u /\ accuData_ u2 = accuData_ u /\ accuUnique_ u2 = accuUnique_ u) Q u.
Proof.
  intros Hf Hm Hml Hwp Hcl Hcwp Hsl Hn. pose proof OK as [Hlim Hring]. unfold metaSize, fileShareMDHeadSize_, shareMDEntrySize_ in Hm. cbn [length] in Hm.
  pose proof (length_headBytes f 0 0 0 0 Hf) as Hh. unfold fileShareMDHeadSize_ in Hh.
  unfold handleItem. wstep. wstep. wstep. wstep. wstep. rewrite Hwp.
  set (rest := drop 48 (uploadMetaBuffer_ u)).
  assert (length rest = UPLOAD_BUFFER_SIZE - 48)%nat as Hrl by (unfold rest; lens).
  set (meta := headBytes f 0 0 0 0 ++ cf_name f ++ drop (length (cf_name f)) rest).
  assert (encodeFile (packMD f 0 0 []) = headBytes f 0 0 0 0 ++ cf_name f) as Enew
    by (rewrite encodeFile_pack; cbn; by rewrite app_nil_r).
  assert (forall R, getI32 (R := R) (headBytes f 0 0 0 0) 0 = Ok (Z.of_nat (length (cf_name f)))) as Ehn.
  { intros R. pose proof (head_name (R := R) f 0 0 0 0 [] Hf) as E. by rewrite app_nil_r in E. }
  assert (forall R, getI32 (R := R) meta 0 = Ok (Z.of_nat (length (cf_name f)))) as Ehm by (intros R; by apply head_name).
  eapply wps_lift.
  { rewrite sz_ok by lia. cbn [mbind res_bind]. change (Z.to_nat 0) with 0%nat. unfold memcpy.
    rewrite rd_ok by (rewrite Hh; unfold fileShareMDHeadSize_; lia). cbn [mbind res_bind]. rewrite drop_0, take_ge by (rewrite Hh; done).
    rewrite wr_ok by (rewrite Hh; lia). rewrite take_0. cbn [mbind res_bind app]. rewrite Hh, Nat.add_0_l. fold rest.
    unfold fileShareMDHeadSize_. rewrite sint_ok by lia. cbn [mbind res_bind]. rewrite sz_ok by lia. cbn [mbind res_bind].
    rewrite Ehn. cbn [mbind res_bind].
    rewrite sz_ok by lia. cbn [mbind res_bind]. rewrite Nat2Z.id. rewrite rd_front by done. cbn [mbind res_bind].
    rewrite wr_next by (rewrite ?Hh; lia). cbn [mbind res_bind]. rewrite <- app_assoc. fold meta.
    rewrite Ehm. cbn [mbind res_bind]. rewrite sint_ok by lia. reflexivity. }
  wstep. wstep. wstep. wstep. wstep. split; [done|]. split; [|done].
  split; cbn; try done.
  - exists (drop (length (cf_name f)) rest). rewrite Enew. unfold meta. by rewrite <- app_assoc.
  - unfold meta. rewrite !length_app, length_drop, Hh. lia.
  - rewrite Enew, length_app, Hh. lia.
  - by exists (uploadContainer_ u).
  - by exists (shareSizeArray_ u).
Qed.

Lemma new_Uploader_spec {R} c userID : exists u, new_Uploader (R := R) c userID = Ok u /\
  moved c (sock u) [] (htonl userID) /\
  length (uploadMetaBuffer_ u) = UPLOAD_BUFFER_SIZE /\ metaWP_ u = 0 /\
  length (uploadContainer_ u) = UPLOAD_BUFFER_SIZE /\ containerWP_ u = 0 /\
  length (shareSizeArray_ u) = UPLOAD_BUFFER_SIZE /\ numOfShares_ u = 0 /\ accuData_ u = 0 /\ accuUnique_ u = 0.
Proof.
  destruct (wps_result (ret := False) (new_Socket userID) (fun _ c' => moved c c' [] (htonl userID)) c) as ([] & c' & E & HM).
  { unfold new_Socket. wstep. eapply wps_post; [apply send_short; rewrite length_htonl; lia|].
    intros n c' [_ HM]. by wstep. }
  unfold new_Uploader. rewrite E. eexists. split; [reflexivity|]. cbn. by rewrite !fresh_length, length_replicate.
Qed.

(** The whole run. *)
Lemma thread_session (OK : UploadOk) (userID junk : Z) (f : ClientFile) (slack : bytes) (xs : list ClientShare)
    (flagss : list (list bool)) (c : Conn) (rest : bytes) :
  xs <> [] -> wfClient f -> Forall wfItem xs -> metaFits f (packs [] xs) -> Z.of_nat (length xs) < 2 ^ 31 ->
  Forall2 (fun p flags => length flags = length p) (packs [] xs) flagss ->
  inbox c = replies flagss ++ rest ->
  mjoin (packs [] xs) = xs /\
  Forall (fun p => length (contents_ p) <= UPLOAD_BUFFER_SIZE)%nat (packs [] xs) /\
  exists u u', new_Uploader (R := False) c userID = Ok u /\
    thread_handler (ret := False) junk (FileObj (headBytes f 0 0 0 0) (cf_name f ++ slack) :: shareItems xs) u = Ok (tt, u') /\
    outbox (sock u') = outbox c ++ htonl userID ++ exchanges f 0 0 (packs [] xs) flagss /\
    inbox (sock u') = rest /\
    accuData_ u' = Z.of_nat (length (contents_ xs)) /\ accuUnique_ u' = uniqueSize (packs [] xs) flagss.
Proof.
  intros Hne Hf Hwf HM Hlen HF Hi. split; [by rewrite packs_join|]. split; [apply packs_size; try done; cbn; lia|].
  destruct (new_Uploader_spec (R := False) c userID) as (u & E & [Mi Mo] & H1 & H2 & H3 & H4 & H5 & H6 & H7 & H8).
  exists u. destruct (wps_result (ret := False)
    (thread_handler junk (FileObj (headBytes f 0 0 0 0) (cf_name f ++ slack) :: shareItems xs))
    (fun _ u' => moved (sock u) (sock u') (replies flagss) (exchanges f 0 0 (packs [] xs) flagss) /\
      accuData_ u' = Z.of_nat (length (contents_ xs)) /\ accuUnique_ u' = uniqueSize (packs [] xs) flagss) u)
    as ([] & u' & E' & [Mi' Mo'] & Ha & Hu).
  - cbn [thread_handler]. wstep. eapply wps_post.
    { eapply handleFile_spec; try done. by eapply metaFits_cur. }
    intros go u2 (-> & HL & E1 & E2 & E3).
    eapply wps_post; [eapply (thread_shares OK junk f xs 0 0 [] u2); try done; cbn [app]; try lia; by rewrite E1; change (inbox c = inbox (sock u)) in Mi; rewrite <- Mi|].
    intros ? u'. cbv beta. rewrite E1, E2, E3, H7, H8. cbn [app]. intros (? & ? & ?). split_and!; [done|lia|lia].
  - exists u'. split_and!; try done.
    + by rewrite Mo', Mo, <- app_assoc.
    + cbn [app] in Mi. rewrite Mi, Mi' in Hi. by apply app_inv_head in Hi.
Qed.

End Session.
