(* ===== verification/Server.v ===== *)
(** * The message loops of the server

    server/comm/server.cc: a thread per connection receives messages and runs the
    operations of a deduplication core: SocketHandlerData those of minDedupCore,
    SocketHandlerMeta those of DedupCore and the storage of key and recipe files.
    The cores are the class [Core]; the messages come from a [Conn], what is sent
    goes to the environment of the core, as in restoreShareFile.  The code only
    prints a message when a call fails and goes on, and so does the model. *)

From Stdlib Require Import Strings.String Lia.
From stdpp Require Import base list numbers gmap.
From coqutil Require Import Byte.
From S2P Require Import Prelude Structs FileNames World CryptoPrimitive MinDedupCore MinStages MinRestore DedupCore DedupStages Socket.

Local Open Scope Z_scope.

(** BUFFER_LEN and META_LEN *)
Class ServerLimits := {
  BUFFER_LEN : nat;
  META_LEN : nat;
}.
Definition serverLimits : ServerLimits :=
  {| BUFFER_LEN := Z.to_nat (4 * 1024 * 1024); META_LEN := Z.to_nat (2 * 1024 * 1024) |}.

Definition META : Z := -1.
Definition DATA : Z := -2.
Definition STAT : Z := -3.
Definition DOWNLOAD : Z := -7.
Definition KEY_RECIPE : Z := -101.
Definition GET_KEY_RECIPE : Z := -102.
Definition FILE_RECIPE : Z := -103.

(** The operations of a core that the loops call, and its environment. *)
Class Core (W C : Type) `{World W} {SSL : OpenSSL} := {
  core_first : nat -> Z -> bytes -> Z -> list bool -> SM C False (bool * FirstOut);
  core_second : nat -> Z -> bytes -> Z -> list bool -> bytes -> option CryptoPrimitive -> SM C False bool;
  core_restore : Z -> bytes -> Z -> option CryptoPrimitive -> SM C False bool;
  core_world : C -> W;
  core_setWorld : C -> W -> C;
}.

#[export] Instance dataCore {W} `{World W} `{Limits} {SSL : OpenSSL} : Core W (minDedupCore W) := {
  core_first := MinStages.firstStageDedup;
  core_second := MinStages.secondStageDedup;
  core_restore _ name _ c := MinRestore.restoreShareFile name c;
  core_world := world;
  core_setWorld := set_world;
}.

#[export] Instance metaCore {W} `{World W} `{Limits} {SSL : OpenSSL} : Core W (DedupCore W) := {
  core_first := DedupStages.firstStageDedup;
  core_second := DedupStages.secondStageDedup;
  core_restore := DedupStages.restoreShareFile;
  core_world := theWorld;
  core_setWorld s w := set_shares s (set_world (shares s) w);
}.

(** The core, the connection and the mutex of the recipe files. *)
Record Handler (C : Type) := {
  core : C;
  conn : Conn;
  mutex : bool;
}.
Arguments core {C} _.
Arguments conn {C} _.
Arguments mutex {C} _.

(** The local variables of the loop: buffer, metaBuffer, statusList, metaSize (before
    it is set: [None]) and numOfShare. *)
Record Locals := {
  buffer : bytes;
  metaBuffer : bytes;
  statusList : list bool;
  metaSize : option Z;
  numOfShare : Z;
}.
Definition set_buffer (l : Locals) (b : bytes) : Locals :=
  {| buffer := b; metaBuffer := metaBuffer l; statusList := statusList l; metaSize := metaSize l; numOfShare := numOfShare l |}.

(** ** Names *)

(** The loop that replaces the slashes behind the first character. *)
Fixpoint slashes {R} (fuel : nat) (b : bytes) (id : nat) : res R bytes :=
  match fuel with
  | O => Hang
  | S fuel' =>
      c ← aget b id;
      if decide (c = Byte.x00) then Ok b else
      d ← aget b (S id);
      b ← (if decide (d = slash) then aset b (S id) Byte.x5f else Ok b);
      slashes fuel' b (S id)
  end.

(** [sprintf(name, "prefix%s", b)] into 256 bytes *)
Definition sprintf {R} (prefix b : bytes) : res R bytes :=
  s ← cstr b;
  if decide (length (prefix ++ s) < 256)%nat then Ok (prefix ++ s) else UB.

Definition RECIPE_FILES : bytes := String.list_byte_of_string "meta/RecipeFiles/"%string.
Definition KEY_STORE : bytes := String.list_byte_of_string "meta/keystore/"%string.

Section Server.
Context {W C : Type} {WW : World W} {SSL : OpenSSL} {CC : Core W C} {N : Network} {SL : ServerLimits}.

Abbreviation M ret A := (SM (Handler C) ret A).

Definition onCore {ret A} (m : SM C False A) : M ret A := fun h =>
  match m (core h) with
  | Ok (a, c) => Ok (a, {| core := c; conn := conn h; mutex := mutex h |})
  | Return r => match r.1 with end
  | Exit c => Exit c
  | UB => UB
  | Hang => Hang
  end.
Definition onConn {ret A} (m : SM Conn False A) : M ret A := fun h =>
  match m (conn h) with
  | Ok (a, c) => Ok (a, {| core := core h; conn := c; mutex := mutex h |})
  | Return r => match r.1 with end
  | Exit c => Exit c
  | UB => UB
  | Hang => Hang
  end.
Definition onFiles {ret A} (f : W -> A * W) : M ret A := fun h =>
  let '(a, w) := f (core_world (core h)) in
  Ok (a, {| core := core_setWorld (core h) w; conn := conn h; mutex := mutex h |}).
Definition theFiles {ret} : M ret W := gets (fun h => core_world (core h)).
(** [pthread_mutex_lock] and [pthread_mutex_unlock]; a mutex that is held is never
    released while this thread waits for it. *)
Definition lock {ret} : M ret unit := fun h =>
  if mutex h then Hang else Ok (tt, {| core := core h; conn := conn h; mutex := true |}).
Definition unlock {ret} : M ret unit := fun h =>
  if mutex h then Ok (tt, {| core := core h; conn := conn h; mutex := false |}) else UB.
Definition newMemory {ret} (n : nat) : M ret bytes := gets (fun h => uninit (core_world (core h)) n).

(** ** Receiving *)

(** [recv(*clientSock, buffer, sizeof(int), 0)] and [*(int*)buffer] *)
Definition recvInt {ret} (b : bytes) : M ret (Z * Z * bytes) :=
  '(bytecount, b) ← onConn (recv_ b 0 4);
  x ← lift (getI32 b 0);
  mret (bytecount, x, b).

(** The loop over the parts of [size] bytes; the count is -1 after an error. *)
Fixpoint recvAll {ret} (fuel : nat) (b : bytes) (size count : Z) : M ret (bytes * Z) :=
  if count <? size then
    match fuel with
    | O => fun _ => Hang
    | S fuel' =>
        '(o, len) ← lift (o ← sz count; len ← sz (size - count); Ok (o, len));
        '(bytecount, b) ← onConn (recv_ b o len);
        recvAll fuel' b size (count + bytecount)
    end
  else mret (b, count).

(** The size of a package and the package: packageSize, buffer and count. *)
Definition recvPackage {ret} (b : bytes) : M ret (Z * bytes * Z) :=
  '(_, packageSize, b) ← recvInt b;
  '(b, count) ← recvAll (Z.to_nat packageSize) b packageSize 0;
  mret (packageSize, b, count).

(** ** The messages both loops handle *)

Definition boolByte (b : bool) : byte := if b then Byte.x01 else Byte.x00.

(** [fuel]: the rounds of the loop over the files of a package. *)
Definition handleMeta {ret} (fuel : nat) (user : Z) (l : Locals) : M ret Locals :=
  '(_, b, count) ← recvPackage (buffer l);
  mb ← lift (n ← sz count; memcpy (metaBuffer l) 0 b 0 n);
  '(_, (stat, num, _)) ← onCore (core_first fuel user mb count (statusList l));
  b ← lift (wr b 0 (le32 STAT));
  _ ← onFiles (fun w => send w (le32 STAT));
  let n := Z.of_nat num in
  b ← lift (wr b 0 (le32 n));
  _ ← onFiles (fun w => send w (le32 n));
  flags ← lift (rd stat 0 num);
  _ ← onFiles (fun w => send w (boolByte <$> flags));
  mret {| buffer := b; metaBuffer := mb; statusList := stat; metaSize := Some count; numOfShare := n |}.

Definition handleData {ret} (fuel : nat) (user : Z) (hashObj : CryptoPrimitive) (l : Locals) : M ret Locals :=
  '(_, b, _) ← recvPackage (buffer l);
  size ← (match metaSize l with Some n => mret n | None => undefined end);
  _ ← onCore (core_second fuel user (metaBuffer l) size (statusList l) b (Some hashObj));
  mret (set_buffer l b).

(** ** The data server *)

Definition handleDownload {ret} (user : Z) (hashObj : CryptoPrimitive) (l : Locals) : M ret Locals :=
  '(packageSize, b, _) ← recvPackage (buffer l);
  b ← lift (n ← sz packageSize; aset b n Byte.x00);
  b ← lift (slashes (S (length b)) b 0);
  name ← lift (sprintf RECIPE_FILES b);
  _ ← lock;
  _ ← onCore (core_restore user name 0 (Some hashObj));
  _ ← unlock;
  mret (set_buffer l b).

Fixpoint dataLoop {ret} (rounds fuel : nat) (user : Z) (hashObj : CryptoPrimitive) (l : Locals) : M ret unit :=
  match rounds with
  | O => fun _ => Hang
  | S rounds' =>
      '(bytecount, indicator, b) ← recvInt (buffer l);
      if bytecount =? 0 then mret tt else
      let l := set_buffer l b in
      l ← (if indicator =? META then handleMeta fuel user l
           else if indicator =? DATA then handleData fuel user hashObj l
           else if indicator =? DOWNLOAD then handleDownload user hashObj l
           else mret l);
      dataLoop rounds' fuel user hashObj l
  end.

(** The buffers before the loop, in memory with the content [junk]. *)
Definition newLocals (b metaJunk : bytes) : Locals :=
  {| buffer := replicate (length b) Byte.x00; metaBuffer := metaJunk; statusList := replicate BUFFER_LEN false;
     metaSize := None; numOfShare := 0 |}.

(** [ntohl] of the first message *)
Definition recvUser {ret} (b : bytes) : M ret (Z * bytes) :=
  '(_, b) ← onConn (recv_ b 0 4);
  user ← lift (x ← rd b 0 4; getI32 (rev x) 0);
  mret (user, b).

Definition SocketHandlerData {ret} (rounds fuel : nat) (lockSetup : bool) : M ret unit :=
  b ← newMemory BUFFER_LEN;
  mb ← newMemory META_LEN;
  '(user, b) ← recvUser b;
  hashObj ← lift (new_CryptoPrimitive lockSetup SHA256_TYPE);
  dataLoop rounds fuel user hashObj (newLocals b mb).

(** ** The metadata server *)

(** A length, as the size of a block, and the local buffer. *)
Definition recvLength {ret} (l : Locals) : M ret (Z * Locals) :=
  '(_, n, b) ← recvInt (buffer l);
  mret (n, set_buffer l b).

(** namesize and namebuffer, and the name built from it. *)
Definition recvName {ret} (dir : bytes) (l : Locals) : M ret (bytes * Locals) :=
  '(namesize, l) ← recvLength l;
  n ← lift (sz namesize);
  namebuffer ← newMemory (n + 1);
  '(_, namebuffer) ← onConn (recv_ namebuffer 0 n);
  namebuffer ← lift (aset namebuffer n Byte.x00);
  namebuffer ← lift (slashes (S (length namebuffer)) namebuffer 0);
  name ← lift (sprintf dir namebuffer);
  mret (name, l).

(** fopen of a file to be written: what follows is undefined if it fails. *)
Definition opened {ret} (open : W -> bytes -> bool * W) (name : bytes) : M ret unit :=
  ok ← onFiles (fun w => open w name);
  if (ok : bool) then mret tt else undefined.

(** [fwrite(data, 1, length data, wp)]: no call without data. *)
Definition append {ret} (name data : bytes) : M ret unit :=
  match data with
  | [] => mret tt
  | _ => _ ← onFiles (fun w => fwrite w name data); mret tt
  end.

(** KEY_RECIPE: a key file is stored. *)
Definition handleKey {ret} (l : Locals) : M ret Locals :=
  '(len, l) ← recvLength l;
  '(name, l) ← recvName KEY_STORE l;
  len' ← lift (sz len);
  keybuffer ← newMemory len';
  _ ← opened fopen_wb name;
  '(keybuffer, _) ← recvAll len' keybuffer len 0;
  _ ← append name keybuffer;
  mret l.

(** The loop that sends [length] bytes in parts. *)
Fixpoint sendAll {ret} (fuel : nat) (data : bytes) (size total : Z) : M ret unit :=
  if total <? size then
    match fuel with
    | O => fun _ => Hang
    | S fuel' =>
        part ← lift (o ← sz total; len ← sz (size - total); rd data o len);
        bytecount ← onFiles (fun w => send w part);
        sendAll fuel' data size (total + bytecount)
    end
  else mret tt.

(** GET_KEY_RECIPE: a key file is sent; [None] when there is no such file, which
    ends the loop. *)
Definition handleGetKey {ret} (l : Locals) : M ret (option Locals) :=
  '(name, l) ← recvName KEY_STORE l;
  w ← theFiles;
  if negb (fopen_rb w name) then mret None else
  len ← lift (sint (fsize w name));
  n ← lift (sz len);
  stubtemp ← newMemory n;
  stubtemp ← lift (wr stubtemp 0 (fread w name 0 n));
  _ ← onFiles (fun w => send w (le32 len));
  _ ← sendAll n stubtemp len 0;
  mret (Some l).

(** The loop over the rest of a recipe file, at most 1000 entries at a time. *)
Fixpoint recvRecipe {ret} (fuel : nat) (name keybuffer : bytes) (size total : Z) : M ret unit :=
  if total <? size then
    match fuel with
    | O => fun _ => Hang
    | S fuel' =>
        n ← lift (sz (Z.min (size - total) (Z.of_nat fileRecipeEntrySize_ * 1000)));
        '(bytecount, keybuffer) ← onConn (recv_ keybuffer 0 n);
        part ← lift (len ← sz bytecount; rd keybuffer 0 len);
        _ ← append name part;
        recvRecipe fuel' name keybuffer size (total + bytecount)
    end
  else mret tt.

(** FILE_RECIPE: a recipe is appended to the recipe file. *)
Definition handleRecipe {ret} (l : Locals) : M ret unit :=
  _ ← lock;
  '(len, l) ← recvLength l;
  keybuffer ← newMemory (fileRecipeEntrySize_ * 1000);
  '(name, l) ← recvName RECIPE_FILES l;
  _ ← opened fopen_ab name;
  headerbuffer ← newMemory fileRecipeHeadSize_;
  '(_, headerbuffer) ← onConn (recv_ headerbuffer 0 fileRecipeHeadSize_);
  _ ← append name headerbuffer;
  len ← lift (sint (len - Z.of_nat fileRecipeHeadSize_));
  _ ← recvRecipe (Z.to_nat len) name keybuffer len 0;
  unlock.

Definition handleDownloadMeta {ret} (user : Z) (hashObj : CryptoPrimitive) (l : Locals) : M ret Locals :=
  '(_, b, count) ← recvPackage (buffer l);
  name ← lift (n ← sz count; rd b 0 n);
  _ ← onCore (core_restore user name 0 (Some hashObj));
  mret (set_buffer l b).

Fixpoint metaLoop {ret} (rounds fuel : nat) (user : Z) (hashObj : CryptoPrimitive) (l : Locals) : M ret unit :=
  match rounds with
  | O => fun _ => Hang
  | S rounds' =>
      '(bytecount, indicator, b) ← recvInt (buffer l);
      if bytecount =? 0 then mret tt else
      let l := set_buffer l b in
      if indicator =? KEY_RECIPE then l ← handleKey l; metaLoop rounds' fuel user hashObj l
      else if indicator =? GET_KEY_RECIPE then
        o ← handleGetKey l;
        match o with Some l => metaLoop rounds' fuel user hashObj l | None => mret tt end
      else if indicator =? FILE_RECIPE then handleRecipe l
      else
      l ← (if indicator =? META then handleMeta fuel user l
           else if indicator =? DATA then handleData fuel user hashObj l
           else if indicator =? DOWNLOAD then handleDownloadMeta user hashObj l
           else mret l);
      metaLoop rounds' fuel user hashObj l
  end.

Definition SocketHandlerMeta {ret} (rounds fuel : nat) (lockSetup : bool) : M ret unit :=
  b ← newMemory BUFFER_LEN;
  mb ← newMemory META_LEN;
  '(user, b) ← recvUser b;
  hashObj ← lift (new_CryptoPrimitive lockSetup SHA256_TYPE);
  metaLoop rounds fuel user hashObj (newLocals b mb).
End Server.
