(* ===== verification/ServerProof.v ===== *)
(** * What the server's message loops do

    The messages of a client, and the loop of the data server on the messages of an
    upload thread: each package goes through the two stages of minDedupCore, and the
    answers are the flags of the first stage. *)

From stdpp Require Import base list numbers gmap.
From coqutil Require Import Byte.
From Stdlib Require Import Lia.
From S2P Require Import Prelude Structs FileNames World CryptoPrimitive MinDedupCore MinStages MinRestore DedupCore DedupStages Socket Server.

Local Open Scope Z_scope.

(** A server whose connection changed. *)
Definition withConn {C} (h : Handler C) (c : Conn) : Handler C :=
  {| core := core h; conn := c; mutex := mutex h |}.
Definition withCore {C} (h : Handler C) (c : C) : Handler C :=
  {| core := c; conn := conn h; mutex := mutex h |}.

Section Receive.
Context {W C : Type} {WW : World W} {SSL : OpenSSL} {CC : Core W C} {N : Network} {NL : NetworkLaws} {SL : ServerLimits}.
Implicit Types h : Handler C.

Lemma wps_onConn {ret A} (m : SM Conn False A) (P : A -> Handler C -> Prop) (Q : ret -> Handler C -> Prop) h :
  wps m (fun a c => P a (withConn h c)) (fun _ _ => False) (conn h) -> wps (onConn m) P Q h.
Proof. unfold wps, onConn. by destruct (m (conn h)) as [[]|[[]]| | |]. Qed.

Lemma wps_onCore {ret A} (m : SM C False A) a c (P : A -> Handler C -> Prop) (Q : ret -> Handler C -> Prop) h :
  m (core h) = Ok (a, c) -> P a (withCore h c) -> wps (onCore m) P Q h.
Proof. unfold wps, onCore. by intros ->. Qed.

Lemma wps_onFiles {ret A} (f : W -> A * W) (P : A -> Handler C -> Prop) (Q : ret -> Handler C -> Prop) h :
  P (f (core_world (core h))).1 (withCore h (core_setWorld (core h) (f (core_world (core h))).2)) ->
  wps (onFiles f) P Q h.
Proof. unfold wps, onFiles. by destruct (f _). Qed.

(** [c] has received [data] and [rest] is left. *)
Definition received (c c' : Conn) (rest : bytes) : Prop := inbox c' = rest /\ outbox c' = outbox c.

Lemma moved_received c c' data rest : moved c c' data [] -> inbox c = data ++ rest -> received c c' rest.
Proof. intros [E1 E2] E. rewrite E in E1. split; [by apply app_inv_head in E1|by rewrite E2, app_nil_r]. Qed.

Lemma received_trans c1 c2 c3 r2 r3 : received c1 c2 r2 -> received c2 c3 r3 -> received c1 c3 r3.
Proof. intros [_ E1] [E2 E3]. split; [done|congruence]. Qed.

Lemma recv_bytes {ret} (x : bytes) rest (b : bytes) c (Q : ret -> Conn -> Prop) :
  (0 < length x <= 4)%nat -> inbox c = x ++ rest -> (length x <= length b)%nat ->
  wps (recv_ b 0 (length x)) (fun r c' => r = (Z.of_nat (length x), x ++ drop (length x) b) /\ received c c' rest) Q c.
Proof.
  intros Hx Hi Hb. apply recv_some; [lia|rewrite Hi; lens|lia|]. intros k c' Hk H4 HM.
  rewrite (H4 ltac:(lia)) in *. rewrite Hi, take_app_length in *. rewrite take_0. split; [done|].
  by eapply moved_received.
Qed.

Lemma recvInt_spec {ret} x rest b h (P : Z * Z * bytes -> Handler C -> Prop) (Q : ret -> Handler C -> Prop) :
  inbox (conn h) = le32 x ++ rest -> (4 <= length b)%nat -> int32 x ->
  (forall c, received (conn h) c rest -> P (4, x, le32 x ++ drop 4 b) (withConn h c)) ->
  wps (recvInt b) P Q h.
Proof.
  intros Hi Hb Hx HP. unfold recvInt. wstep. apply wps_onConn.
  pose proof (recv_bytes (ret := False) (le32 x) rest b (conn h) (fun _ _ => False)) as HR. rewrite length_le32 in HR.
  eapply wps_post; [apply HR; [lia|done|done]|]. intros ? c (-> & Hc). wstep.
  eapply wps_lift; [by apply (getI32_at [] x (drop 4 b))|]. wstep. by apply HP.
Qed.

(** The peer has closed. *)
Lemma recvInt_closed {ret} b h (P : Z * Z * bytes -> Handler C -> Prop) (Q : ret -> Handler C -> Prop) :
  inbox (conn h) = [] -> (4 <= length b)%nat ->
  (forall c x b', inbox c = [] -> outbox c = outbox (conn h) -> P (0, x, b') (withConn h c)) -> wps (recvInt b) P Q h.
Proof.
  intros Hi Hb HP. unfold recvInt. wstep. apply wps_onConn.
  destruct (recv_delivers (calls (conn h)) 4%nat) as (k & E & Hk & _); [lia|].
  unfold wps at 1, recv_. rewrite E, Hi, take_nil, drop_nil. rewrite wr_ok by (cbn [length]; lia). cbn [length take app Nat.add].
  rewrite take_drop. wstep. eapply wps_lift; [unfold getI32; rewrite rd_ok by lia; reflexivity|]. wstep. by apply HP.
Qed.

Lemma recvAll_spec {ret} fuel : forall b size count data rest h (P : bytes * Z -> Handler C -> Prop) (Q : ret -> Handler C -> Prop),
  0 <= count -> Z.of_nat (length data) = size - count -> size <= Z.of_nat (length b) ->
  inbox (conn h) = data ++ rest -> (length data <= fuel)%nat ->
  (forall c, received (conn h) c rest ->
     P (take (Z.to_nat count) b ++ data ++ drop (Z.to_nat size) b, size) (withConn h c)) ->
  wps (recvAll fuel b size count) P Q h.
Proof.
  induction fuel as [|fuel IH]; intros b size count data rest h P Q Hc Hd Hb Hi Hf HP.
  all: cbn [recvAll]; destruct (Z.ltb_spec count size) as [Hlt|Hge]; [try lia|].
  1, 3: wstep; assert (data = []) as -> by (by apply nil_length_inv; lia); cbn [length] in *;
    replace count with size in * by lia; cbn [app] in *;
    pose proof (HP (conn h) (conj Hi eq_refl)) as HP'; rewrite take_drop in HP'; by destruct h.
  wstep. eapply wps_lift; [rewrite !sz_ok by lia; reflexivity|]. wstep. apply wps_onConn.
  apply recv_some; [lia|rewrite Hi; lens|lia|].
  intros k c1 Hk _ HM. rewrite Hi, take_app_le in * by lia.
  set (b1 := take (Z.to_nat count) b ++ take k data ++ drop (Z.to_nat count + k) b).
  assert (received (conn h) c1 (drop k data ++ rest)) as HR1.
  { eapply moved_received; [exact HM|]. by rewrite app_assoc, take_drop. }
  assert (length b1 = length b) as Hl1 by (unfold b1; lens).
  apply (IH b1 size (count + Z.of_nat k) (drop k data) rest (withConn h c1)).
  - lia.
  - rewrite length_drop. lia.
  - lia.
  - by destruct HR1.
  - rewrite length_drop. lia.
  - intros c2 HR2. cbn [conn withConn] in HR2.
    set (pre := take (Z.to_nat count) b ++ take k data).
    assert (b1 = pre ++ drop (Z.to_nat count + k) b) as Eb by (unfold b1, pre; by rewrite app_assoc).
    assert (length pre = (Z.to_nat count + k)%nat) as Hpre by (unfold pre; lens).
    replace (Z.to_nat (count + Z.of_nat k)) with (length pre) by lia. rewrite Eb, take_app_length.
    rewrite drop_app_ge, drop_drop by lia. rewrite Hpre.
    replace (Z.to_nat count + k + (Z.to_nat size - (Z.to_nat count + k)))%nat with (Z.to_nat size) by lia.
    unfold pre. rewrite <- app_assoc, (app_assoc (take k data)), take_drop. apply HP. by eapply received_trans.
Qed.

Lemma recvPackage_spec {ret} (data : bytes) rest b h (P : Z * bytes * Z -> Handler C -> Prop) (Q : ret -> Handler C -> Prop) :
  inbox (conn h) = le32 (Z.of_nat (length data)) ++ data ++ rest ->
  (4 <= length b)%nat -> (length data <= length b)%nat -> Z.of_nat (length data) < 2 ^ 31 ->
  (forall c slack, received (conn h) c rest -> length (data ++ slack) = length b ->
     P (Z.of_nat (length data), data ++ slack, Z.of_nat (length data)) (withConn h c)) ->
  wps (recvPackage b) P Q h.
Proof.
  intros Hi Hb4 Hb Hn HP. unfold recvPackage. wstep.
  eapply recvInt_spec; [done|done|unfold int32; lia|]. intros c1 HR1. wstep.
  assert (length (le32 (Z.of_nat (length data)) ++ drop 4 b) = length b) as Hl by lens.
  eapply (recvAll_spec _ _ _ _ data rest (withConn h c1)).
  - lia.
  - lia.
  - lia.
  - by destruct HR1.
  - lia.
  - intros c2 HR2. wstep. change (Z.to_nat 0) with 0%nat. rewrite take_0. cbn [app].
    rewrite Nat2Z.id. apply HP; [by eapply received_trans|]. lens.
Qed.

Lemma recvUser_spec {ret} uid rest b h (P : Z * bytes -> Handler C -> Prop) (Q : ret -> Handler C -> Prop) :
  int32 uid -> inbox (conn h) = htonl uid ++ rest -> (4 <= length b)%nat ->
  (forall c b', received (conn h) c rest -> length b' = length b -> P (uid, b') (withConn h c)) ->
  wps (recvUser b) P Q h.
Proof.
  intros Hu Hi Hb HP. unfold recvUser. wstep. apply wps_onConn.
  pose proof (recv_bytes (ret := False) (htonl uid) rest b (conn h) (fun _ _ => False)) as HR. rewrite length_htonl in HR.
  eapply wps_post; [apply HR; [lia|done|done]|]. intros ? c (-> & Hc). wstep. eapply wps_lift.
  { rewrite rd_front by (by rewrite length_htonl). cbn [mbind res_bind]. unfold htonl. rewrite rev_involutive.
    apply (getI32_at [] uid []); [by rewrite app_nil_r|done|done]. }
  wstep. apply HP; [done|]. rewrite length_app, length_htonl, length_drop. lia.
Qed.

(** The loop after the other messages: the peer has closed. *)
Lemma metaLoop_closed {ret} rounds fuel user hashObj l h (P : unit -> Handler C -> Prop) (Q : ret -> Handler C -> Prop) :
  inbox (conn h) = [] -> (4 <= length (buffer l))%nat ->
  (forall c, inbox c = [] -> outbox c = outbox (conn h) -> P tt (withConn h c)) ->
  wps (metaLoop (S rounds) fuel user hashObj l) P Q h.
Proof.
  intros Hi Hb HP. cbn [metaLoop]. wstep. apply recvInt_closed; [done|done|]. intros c x b Hc Ho.
  change (0 =? 0) with true. cbv iota. wstep. by apply HP.
Qed.
End Receive.
