(* ===== verification/DataSession.v ===== *)
(** * A session of an upload thread with the data server

    SocketHandlerData on the messages of an Uploader: every package goes through the
    two stages of minDedupCore; the answers tell which shares the user owned before
    the package. *)

From stdpp Require Import base list numbers gmap.
From coqutil Require Import Byte.
From Stdlib Require Import Lia.
From S2P Require Import Prelude Structs FileNames World CryptoPrimitive MinDedupCore MinStages MinRestore ShareIndex MinInvariant MinNodes MinIndex MinPackage MinUpload MinRestoreProof MinTheorems Socket Uploader UploaderProof Uploads Server ServerProof.

Local Open Scope Z_scope.

Class ServerOk {SL : ServerLimits} : Prop := {
  so_meta : (META_LEN <= BUFFER_LEN)%nat;
  so_int : (4 <= BUFFER_LEN)%nat;
  so_buffer : Z.of_nat BUFFER_LEN < 2 ^ 31;
}.

Record okLocals {SL : ServerLimits} (l : Locals) : Prop := {
  ol_buffer : length (buffer l) = BUFFER_LEN;
  ol_meta : length (metaBuffer l) = META_LEN;
  ol_status : length (statusList l) = BUFFER_LEN;
}.

(** Whether the answers mark a share: the user owns it, or it was in an earlier
    package of the session. *)
Fixpoint sessionFlags (own : bytes -> bool) (ps : list (list ClientShare)) : list (list bool) :=
  match ps with
  | [] => []
  | p :: ps' =>
      ((fun x => own (sm_fp (cs_md x))) <$> p)
      :: sessionFlags (fun fp => own fp || bool_decide (fp ∈ sm_fp <$> mdsOf p)) ps'
  end.

Lemma sessionFlags_ext own own' ps : (forall fp, own fp = own' fp) -> sessionFlags own ps = sessionFlags own' ps.
Proof.
  revert own own'. induction ps as [|p ps IH]; intros own own' E; cbn; [done|]. f_equal.
  - apply list_fmap_ext. intros. apply E.
  - apply IH. intros fp. by rewrite E.
Qed.

Lemma sessionFlags_lengths own ps : Forall2 (fun p flags => length flags = length p) ps (sessionFlags own ps).
Proof. revert own. induction ps as [|p ps IH]; intros own; cbn; constructor; [by rewrite length_fmap|done]. Qed.

(** The part of the reference counters' range a session takes. *)
Definition budget (ps : list (list ClientShare)) : Z :=
  foldr (fun p z => 1 + 2 * Z.of_nat (length p) + z) 0 ps.

Lemma budget_nonneg ps : 0 <= budget ps.
Proof. induction ps; cbn; [done|]. unfold budget in *. lia. Qed.

(** The messages of an answer. *)
Definition answer (flags : list bool) : list bytes :=
  [le32 STAT; le32 (Z.of_nat (length flags)); flagByte <$> flags].

Lemma answer_reply flags : mjoin (answer flags) = statusReply (flagByte <$> flags).
Proof. unfold statusReply, package. rewrite length_fmap. cbn [mjoin list_join answer]. by rewrite app_nil_r. Qed.

Section Session.
Context {W : Type} {WW : World W} {WL : WorldLaws W} {REL : ReliableWorld W} {LM : Limits} {LOK : LimitsOk} {SSL : OpenSSL}.
Context {N : Network} {NL : NetworkLaws} {UL : UploadLimits} {SL : ServerLimits} {SOK : ServerOk}.
Context (digest : bytes -> bytes).
Implicit Types (s : minDedupCore W) (h : Handler (minDedupCore W)) (p : list ClientShare).

(** A share whose data has the announced fingerprint and a size the server accepts. *)
Definition goodItem (x : ClientShare) : Prop :=
  wfItem x /\ goodSize (Z.of_nat (sm_size (cs_md x))) /\ digest (content x) = sm_fp (cs_md x).

Lemma goodItem_wf p : Forall goodItem p -> Forall wfItem p.
Proof. intros H. eapply list.Forall_impl; [exact H|]. by intros x (? & _). Qed.

(** ** Shares *)

Lemma ownedBy_refs A s l k b fp uid :
  Inv digest A s l k b -> ownedBy A fp uid = bool_decide (refsOf uid (refs A fp) <> 0).
Proof.
  intros HI. unfold ownedBy, owns. apply bool_decide_ext. unfold refs. destruct (A fp) as [i|] eqn:E.
  2: { cbn. split; [by intros ?%not_elem_of_nil|done]. }
  pose proof (st_refs _ _ _ _ _ _ (Inv_stored _ _ _ _ _ _ _ _ HI E)) as [_ _ HF _].
  induction (si_refs i) as [|[v c] r IH]; cbn; [split; [by intros ?%not_elem_of_nil|done]|].
  cbn in HF. inversion HF; subst. rewrite elem_of_cons. destruct (Z.eqb_spec v uid) as [->|Hne].
  - split; [lia|by left].
  - rewrite <- IH by done. naive_solver.
Qed.

Lemma occurrences_pos fp l : occurrences fp l <> 0 <-> fp ∈ sm_fp <$> l.
Proof.
  unfold occurrences. rewrite list_elem_of_fmap. induction l as [|e l IH].
  - cbn. split; [done|]. by intros (? & _ & ?%not_elem_of_nil).
  - rewrite filter_cons. case_decide as E.
    + cbn. split; [intros _; exists e; split; [done|by left]|lia].
    + rewrite IH. split; intros (y & -> & Hy).
      * exists y. split; [done|by right].
      * apply elem_of_cons in Hy as [->|Hy]; [done|]. by exists y.
Qed.

(** After a package the user owns what was owned before and the shares of the package. *)
Lemma ownedBy_next A A2 s s2 l l2 k k2 b b2 uid es fp :
  Inv digest A s l k b -> Inv digest A2 s2 l2 k2 b2 ->
  (forall u fp, refsOf u (refs A2 fp) = refsOf u (refs A fp) + (if decide (u = uid) then occurrences fp es else 0)) ->
  ownedBy A2 fp uid = ownedBy A fp uid || bool_decide (fp ∈ sm_fp <$> es).
Proof.
  intros HI HI2 HC. rewrite (ownedBy_refs A2 s2 l2 k2 b2), (ownedBy_refs A s l k b) by done.
  rewrite HC, decide_True by done. pose proof (refsOf_nonneg _ _ _ _ _ _ uid fp HI) as Hn.
  assert (0 <= occurrences fp es) as Ho by (unfold occurrences; lia).
  rewrite (bool_decide_ext _ _ (iff_sym (occurrences_pos fp es))).
  repeat case_bool_decide; cbn; try done; lia.
Qed.

Lemma unmarked_toSend uid A p :
  mdsOf (unmarked (dupFlags uid A (mdsOf p)) p) = toSend uid A (mdsOf p).
Proof.
  unfold toSend, dupFlags, mdsOf. induction p as [|x p IH]; [done|].
  cbn [fmap list_fmap unmarked]. rewrite filter_cons. destruct (ownedBy A (sm_fp (cs_md x)) uid) eqn:E.
  - rewrite decide_False by done. exact IH.
  - rewrite decide_True by done. cbn [fmap list_fmap]. f_equal. exact IH.
Qed.

Lemma Forall_unmarked (P : ClientShare -> Prop) flags p : Forall P p -> Forall P (unmarked flags p).
Proof.
  intros HP. revert flags. induction HP as [|x p Hx _ IH]; intros [|[] flags]; cbn; try done; auto.
Qed.

Lemma totalSize_contents p : Forall wfItem p -> totalSize (mdsOf p) = Z.of_nat (length (contents_ p)).
Proof.
  intros HP. induction HP as [|x p Hx _ IH]; [done|]. change (x :: p) with ([x] ++ p).
  unfold mdsOf. rewrite fmap_app, totalSize_app, contents_app, length_app, Nat2Z.inj_add. fold (mdsOf p). rewrite IH. f_equal.
  unfold contents_, totalSize. cbn [fmap list_fmap mjoin list_join foldr]. rewrite app_nil_r, length_content by done. lia.
Qed.

Lemma authentic_contents p slack : Forall goodItem p -> authentic digest (contents_ p ++ slack) (mdsOf p).
Proof.
  intros HP x e y E. unfold mdsOf in E.
  apply fmap_app_inv in E as (l1 & l2 & -> & E2 & ->). destruct l2 as [|c l2]; [done|]. cbn in E2. simplify_eq.
  apply Forall_app in HP as [H1 H2]. apply list.Forall_cons in H2 as [(Hw & _ & Hd) _].
  fold (mdsOf l1). rewrite totalSize_contents by (by apply goodItem_wf). rewrite Nat2Z.id, contents_app, <- app_assoc, drop_app_length.
  change (c :: l2) with ([c] ++ l2). rewrite contents_app. unfold contents_ at 1. cbn [fmap list_fmap mjoin list_join].
  rewrite app_nil_r, <- app_assoc, <- (length_content c Hw), take_app_length. exact Hd.
Qed.

(** ** The two messages of a package *)

Lemma wps_send {ret} data h (P : Z -> Handler (minDedupCore W) -> Prop) (Q : ret -> Handler (minDedupCore W) -> Prop) :
  (forall n s', sendsTo (core h) s' [data] -> P n (withCore h s')) ->
  wps (onFiles (fun w => send w data)) P Q h.
Proof.
  intros HP. apply wps_onFiles. apply HP. cbn.
  destruct (send (world (core h)) data) as [n w'] eqn:E. pose proof (send_reliable (world (core h)) data) as Hr.
  rewrite E in Hr. cbn in Hr. pose proof (send_law _ _ _ _ E Hr) as Hv.
  exists w'. split; [done|]. cbn [snd]. rewrite Hv. done.
Qed.

Lemma encodePackage_one f : encodePackage [f] = encodeFile f.
Proof. unfold encodePackage. cbn. by rewrite app_nil_r. Qed.
Lemma sharesOf_one f : sharesOf [f] = fm_shares f.
Proof. unfold sharesOf. cbn. by rewrite app_nil_r. Qed.

Lemma length_mdsOf p : length (mdsOf p) = length p.
Proof. apply length_fmap. Qed.
Lemma length_dupFlags uid A l : length (dupFlags uid A l) = length l.
Proof. apply length_fmap. Qed.

(** The two stages on the package of a file, in an environment without faults. *)
Lemma firstStage_pack fuel uid A s nl k b f past sizePast p slack stat :
  let md := encodeFile (packMD f past sizePast p) in
  (1 <= fuel)%nat -> int32 uid -> unlocked s -> Inv digest A s nl k b -> wfClient f -> Forall wfItem p ->
  Z.of_nat (length (md ++ slack)) < 2 ^ 31 -> (length p <= length stat)%nat ->
  b + Z.of_nat (length p) <= 2 ^ 27 -> totalSize (toSend uid A (mdsOf p)) < 2 ^ 31 ->
  exists s', firstStageDedup (ret := False) fuel uid (md ++ slack) (Z.of_nat (length md)) stat s
      = Ok ((true, (dupFlags uid A (mdsOf p) ++ drop (length p) stat, length p, totalSize (toSend uid A (mdsOf p)))), s') /\
    unlocked s' /\ dbFrame s s' /\ Inv digest (firstSpec uid A (mdsOf p)) s' nl k (b + Z.of_nat (length p)).
Proof.
  intros md Hfuel Hu U HI Hf Hp Hmd Hst HB Ht.
  pose proof (firstStage_spec (ret := False) digest uid A s nl k b [packMD f past sizePast p] slack
    stat fuel (fun _ _ => False)) as HF. cbv zeta in HF. rewrite encodePackage_one, sharesOf_one in HF.
  cbn [fm_shares packMD] in HF. rewrite length_mdsOf in HF. fold md in HF.
  destruct (wps_result (ret := False) _ _ s (HF Hu Hmd U HI
    ltac:(constructor; [by apply wfFile_pack|constructor]) ltac:(cbn; lia) Hst HB Ht)) as ([ok out] & s1 & E1 & U1 & _ & HF0 & HT).
  destruct ok; [|by destruct (HF0 eq_refl)]. destruct (HT eq_refl) as (F & HI1 & Eout). cbn [snd] in Eout. subst out.
  by exists s1.
Qed.

Lemma secondStage_pack crypto {HOK : HashOk crypto FP_SIZE digest} fuel uid A A1 s nl k b f past sizePast p slack stat more :
  let md := encodeFile (packMD f past sizePast p) in
  let flags := dupFlags uid A (mdsOf p) in
  let data := contents_ (unmarked flags p) ++ more in
  (1 <= fuel)%nat -> int32 uid -> unlocked s -> Inv digest A1 s nl k b -> wfClient f -> Forall goodItem p ->
  is_Some (formatFullFileName_ (cf_name f)) ->
  Z.of_nat (length (md ++ slack)) < 2 ^ 31 -> Z.of_nat (length data) < 2 ^ 31 ->
  b + 1 + Z.of_nat (length p) <= 2 ^ 27 ->
  exists s' A2 nl2 k2, secondStageDedup (ret := False) fuel uid (md ++ slack) (Z.of_nat (length md)) (flags ++ stat) data (Some crypto) s
      = Ok (true, s') /\
    unlocked s' /\ shareContainerDirName_ s' = shareContainerDirName_ s /\
    sent (view (world s')) = sent (view (world s)) /\
    Inv digest A2 s' nl2 k2 (b + 1 + Z.of_nat (length p)) /\ counted uid A1 A2 (toSend uid A (mdsOf p)).
Proof.
  intros md flags data Hfuel Hu U HI Hf Hp Hname Hmd Hdl HB.
  pose proof (goodItem_wf p Hp) as Hw. pose proof (Forall_unmarked _ flags p Hp) as Hup. pose proof (goodItem_wf _ Hup) as Huw.
  pose proof (secondStage_spec (ret := False) digest uid A1 s nl k b [packMD f past sizePast p] slack
    (flags ++ stat) data crypto fuel (fun _ _ => False)) as HF. cbv zeta in HF. rewrite encodePackage_one, sharesOf_one in HF.
  cbn [fm_shares packMD] in HF. rewrite length_mdsOf in HF. fold md in HF. unfold flags in HF at 2 3 4 5 6. rewrite selected_toSend in HF.
  rewrite <- unmarked_toSend in HF |- *. fold flags in HF |- *.
  assert (Forall (fun e => goodSize (Z.of_nat (sm_size e))) (mdsOf (unmarked flags p))) as Hsz.
  { unfold mdsOf. apply Forall_fmap. eapply list.Forall_impl; [exact Hup|]. by intros x (_ & ? & _). }
  destruct (wps_result (ret := False) _ _ s (HF Hu Hmd Hdl U HI
    ltac:(constructor; [by apply wfFile_pack|constructor]) ltac:(cbn; lia)
    ltac:(unfold flags; rewrite length_app, length_dupFlags, length_mdsOf; lia) HB
    ltac:(rewrite totalSize_contents by done; unfold data; rewrite length_app; lia) Hsz))
    as (ok & s2 & E2 & U2 & Ed & Es & (A2 & l2 & k2 & HI2 & HC) & HF0).
  destruct ok.
  - exists s2, A2, l2, k2. split_and!; try done. by apply HC.
  - destruct (HF0 eq_refl). split; [done|]. split; [by apply authentic_contents|]. by constructor.
Qed.

(** The locals after the metadata of a package. *)
Record readMeta (f : ClientFile) (past sizePast : Z) (uid : Z) (A : Index) (p : list ClientShare) (l : Locals) : Prop := {
  rm_locals : okLocals l;
  rm_meta : exists slack, metaBuffer l = encodeFile (packMD f past sizePast p) ++ slack;
  rm_size : Server.metaSize l = Some (Z.of_nat (length (encodeFile (packMD f past sizePast p))));
  rm_flags : exists slack, statusList l = dupFlags uid A (mdsOf p) ++ slack;
}.

Lemma handleMeta_spec {ret} fuel uid l h f past sizePast p rest A nl k b
    (P : Locals -> Handler (minDedupCore W) -> Prop) (Q : ret -> Handler (minDedupCore W) -> Prop) :
  let md := encodeFile (packMD f past sizePast p) in
  (1 <= fuel)%nat -> int32 uid -> okLocals l -> unlocked (core h) -> Inv digest A (core h) nl k b ->
  wfClient f -> Forall wfItem p -> (UploaderProof.metaSize f p <= META_LEN)%nat ->
  b + Z.of_nat (length p) <= 2 ^ 27 -> totalSize (toSend uid A (mdsOf p)) < 2 ^ 31 ->
  inbox (conn h) = le32 (Z.of_nat (length md)) ++ md ++ rest ->
  (forall l' s' c, readMeta f past sizePast uid A p l' -> unlocked s' ->
     Inv digest (firstSpec uid A (mdsOf p)) s' nl k (b + Z.of_nat (length p)) ->
     shareContainerDirName_ s' = shareContainerDirName_ (core h) ->
     sent (view (world s')) = sent (view (world (core h))) ++ answer (dupFlags uid A (mdsOf p)) ->
     received (conn h) c rest -> P l' {| core := s'; conn := c; mutex := mutex h |}) ->
  wps (handleMeta fuel uid l) P Q h.
Proof.
  intros md Hfuel Hu [Hb Hm Hs] U HI Hf Hp Hsz HB Ht Hi HP. pose proof so_meta. pose proof so_int. pose proof so_buffer.
  assert (length md = UploaderProof.metaSize f p) as Hml by (by apply length_pack).
  assert (length p <= UploaderProof.metaSize f p)%nat as Hlp by (unfold UploaderProof.metaSize, shareMDEntrySize_; lia).
  unfold handleMeta. wstep. eapply recvPackage_spec; [exact Hi|lia|lia|lia|].
  intros c slack HR Hlen. wstep. set (mb := md ++ drop (length md) (metaBuffer l)).
  eapply wps_lift.
  { rewrite sz_ok by lia. cbn [mbind res_bind]. rewrite Nat2Z.id. rewrite memcpy_ok by lens.
    rewrite drop_0, take_app_length, take_0. reflexivity. }
  fold mb. cbn [app]. wstep. fold mb.
  destruct (firstStage_pack fuel uid A (core h) nl k b f past sizePast p (drop (length md) (metaBuffer l)) (statusList l))
    as (s1 & E1 & U1 & F & HI1); try done.
  { fold md mb. unfold mb. lens. }
  { lia. }
  fold md mb in E1. eapply wps_onCore; [exact E1|].
  assert (length (dupFlags uid A (mdsOf p)) = length p) as Hdf by (by rewrite length_dupFlags, length_mdsOf).
  wstep. eapply wps_lift; [rewrite wr_ok by (rewrite length_le32; lia); reflexivity|].
  wstep. apply wps_send. intros n1 s2 S1. wstep.
  set (b1 := take 0 (md ++ slack) ++ le32 STAT ++ drop (0 + length (le32 STAT)) (md ++ slack)).
  assert (length b1 = length (md ++ slack)) as Hb1 by (unfold b1; lens).
  eapply wps_lift; [rewrite wr_ok by (rewrite length_le32; lia); reflexivity|].
  wstep. apply wps_send. intros n2 s3 S2. wstep.
  eapply wps_lift; [by apply rd_front|]. wstep. apply wps_send. intros n3 s4 S3. wstep.
  pose proof (sendsTo_trans _ _ _ _ _ S1 (sendsTo_trans _ _ _ _ _ S2 S3)) as ST. cbn [app] in ST.
  destruct (sendsTo_Inv digest _ s1 s4 _ nl k _ ST HI1 U1) as (HI4 & U4 & _).
  pose proof F as [_ _ _ _ Fd _ Fs _].
  apply (HP _ s4 c); try done.
  - split; cbn.
    + split; [|unfold mb; cbn; lens|].
      { cbn [buffer]. rewrite !length_app, length_take, length_drop, !length_le32. lia. }
      cbn [statusList].
      rewrite length_app, Hdf, length_drop. lia.
    + by eexists.
    + done.
    + by eexists.
  - destruct ST as (w & -> & _). done.
  - destruct ST as (w & -> & _ & _ & E). cbn [world set_world]. rewrite E. cbn [core withCore]. rewrite Fs. unfold answer. by rewrite Hdf.
Qed.

Lemma handleData_spec {ret} crypto {HOK : HashOk crypto FP_SIZE digest} fuel uid l h f past sizePast p rest A A1 nl k b
    (P : Locals -> Handler (minDedupCore W) -> Prop) (Q : ret -> Handler (minDedupCore W) -> Prop) :
  let data := contents_ (unmarked (dupFlags uid A (mdsOf p)) p) in
  (1 <= fuel)%nat -> int32 uid -> readMeta f past sizePast uid A p l ->
  unlocked (core h) -> Inv digest A1 (core h) nl k b ->
  wfClient f -> Forall goodItem p -> is_Some (formatFullFileName_ (cf_name f)) ->
  (length data <= BUFFER_LEN)%nat -> b + 1 + Z.of_nat (length p) <= 2 ^ 27 ->
  inbox (conn h) = le32 (Z.of_nat (length data)) ++ data ++ rest ->
  (forall l' s' c A2 nl2 k2, okLocals l' -> unlocked s' ->
     Inv digest A2 s' nl2 k2 (b + 1 + Z.of_nat (length p)) -> counted uid A1 A2 (toSend uid A (mdsOf p)) ->
     shareContainerDirName_ s' = shareContainerDirName_ (core h) ->
     sent (view (world s')) = sent (view (world (core h))) ->
     received (conn h) c rest -> P l' {| core := s'; conn := c; mutex := mutex h |}) ->
  wps (handleData fuel uid crypto l) P Q h.
Proof.
  intros data Hfuel Hu [[Hb Hm Hs] (slack & Emb) Ems (stat & Est)] U HI Hf Hp Hname Hdl HB Hi HP.
  pose proof so_meta. pose proof so_int. pose proof so_buffer.
  unfold handleData. wstep. eapply recvPackage_spec; [exact Hi|lia|lia|lia|].
  intros c more HR Hlen. wstep. rewrite Ems. wstep. wstep. rewrite Emb, Est.
  destruct (secondStage_pack crypto fuel uid A A1 (core h) nl k b f past sizePast p slack stat more)
    as (s2 & A2 & nl2 & k2 & E2 & U2 & Ed & Es & HI2 & HC); try done.
  { rewrite <- Emb. lia. }
  { fold data. rewrite Hlen. lia. }
  fold data in E2. eapply wps_onCore; [exact E2|]. wstep. apply (HP _ s2 c A2 nl2 k2); try done.
  split; cbn; [by rewrite Hlen|done|done].
Qed.

(** ** The loop *)

Lemma unmarked_contents flags p : (length (contents_ (unmarked flags p)) <= length (contents_ p))%nat.
Proof.
  revert flags. induction p as [|x p IH]; intros [|d flags]; cbn [unmarked]; try (cbn; lia).
  change (x :: p) with ([x] ++ p). rewrite (contents_app [x] p), length_app.
  destruct d; [specialize (IH flags); lia|]. change (x :: unmarked flags p) with ([x] ++ unmarked flags p).
  rewrite contents_app, length_app. specialize (IH flags). lia.
Qed.

(** What a session leaves behind: the state [h'], the messages sent. *)
Record afterSession (uid : Z) (A : Index) (ps : list (list ClientShare)) (b : Z) h h' : Prop := {
  as_unlocked : unlocked (core h');
  as_dir : shareContainerDirName_ (core h') = shareContainerDirName_ (core h);
  as_inbox : inbox (conn h') = [];
  as_outbox : outbox (conn h') = outbox (conn h);
  as_mutex : mutex h' = mutex h;
  as_sent : sent (view (world (core h'))) = sent (view (world (core h)))
    ++ mjoin (answer <$> sessionFlags (fun fp => ownedBy A fp uid) ps);
  as_state : exists A' nl' k', Inv digest A' (core h') nl' k' (b + budget ps) /\
    forall u fp, refsOf u (refs A' fp)
      = refsOf u (refs A fp) + (if decide (u = uid) then occurrences fp (mdsOf (mjoin ps)) else 0);
}.

Lemma dataLoop_session {ret} crypto {HOK : HashOk crypto FP_SIZE digest} fuel uid f ps :
  (1 <= fuel)%nat -> int32 uid -> wfClient f -> is_Some (formatFullFileName_ (cf_name f)) ->
  Forall (Forall goodItem) ps -> Forall (fun p => UploaderProof.metaSize f p <= META_LEN)%nat ps ->
  Forall (fun p => length (contents_ p) <= BUFFER_LEN)%nat ps ->
  forall rounds past sizePast A nl k b l h (Q : ret -> Handler (minDedupCore W) -> Prop),
  okLocals l -> unlocked (core h) -> Inv digest A (core h) nl k b -> b + budget ps <= 2 ^ 27 ->
  (2 * length ps + 1 <= rounds)%nat ->
  inbox (conn h) = exchanges f past sizePast ps (sessionFlags (fun fp => ownedBy A fp uid) ps) ->
  wps (dataLoop rounds fuel uid crypto l) (fun _ h' => afterSession uid A ps b h h') Q h.
Proof.
  intros Hfuel Hu Hf Hname Hgood Hmeta Hsize. pose proof so_int as Hint. pose proof so_buffer as Hmax.
  induction ps as [|p ps IH]; intros rounds past sizePast A nl k b l h Q Hl U HI HB Hr Hi.
  { destruct rounds as [|rounds]; [cbn in Hr; lia|]. cbn [dataLoop]. wstep.
    apply recvInt_closed; [done|rewrite ol_buffer by done; lia|]. intros c x b' Hc Ho. cbn [Z.eqb]. wstep.
    split; cbn; try done; [by rewrite app_nil_r|]. exists A, nl, k. split; [by rewrite Z.add_0_r|].
    intros u fp. unfold occurrences. cbn. case_decide; lia. }
  inversion Hgood as [|? ? Hp Hps]; subst. inversion Hmeta as [|? ? Hm Hms]; subst. inversion Hsize as [|? ? Hs Hss]; subst.
  specialize (IH Hps Hms Hss). pose proof (budget_nonneg ps) as Hbn.
  assert (budget (p :: ps) = 1 + 2 * Z.of_nat (length p) + budget ps) as EB by done. rewrite EB in HB.
  destruct rounds as [|[|rounds]]; [cbn in Hr; lia..|]. cbn [exchanges sessionFlags] in Hi.
  set (flags := dupFlags uid A (mdsOf p)).
  assert (((fun x => ownedBy A (sm_fp (cs_md x)) uid) <$> p) = flags) as Ef
    by (unfold flags, dupFlags, mdsOf; by rewrite <- list_fmap_compose).
  rewrite Ef in Hi. unfold exchange, package in Hi. rewrite <- !app_assoc in Hi.
  change SEND_META with META in Hi. change SEND_DATA with DATA in Hi.
  pose proof (goodItem_wf p Hp) as Hw. pose proof (unmarked_contents flags p) as Huc.
  cbn [dataLoop]. wstep.
  eapply recvInt_spec; [exact Hi|rewrite ol_buffer by done; lia|unfold int32, META; lia|].
  intros c1 HR1. change (4 =? 0) with false. change (META =? META) with true. cbv iota. wstep.
  set (l1 := set_buffer l _). assert (okLocals l1) as Hl1.
  { destruct Hl. split; cbn; try done. rewrite length_app, length_le32, length_drop. lia. }
  eapply (handleMeta_spec fuel uid l1 _ f past sizePast p); try done; [lia| |by destruct HR1|].
  { rewrite <- unmarked_toSend, totalSize_contents by (by apply Forall_unmarked). fold flags. lia. }
  intros l2 s2 c2 HRM U2 HI2 Ed2 Es2 HR2. wstep.
  pose proof (rm_locals _ _ _ _ _ _ _ HRM) as Hl2.
  eapply recvInt_spec; [by destruct HR2|rewrite ol_buffer by done; lia|unfold int32, DATA; lia|].
  intros c3 HR3. change (4 =? 0) with false. change (DATA =? META) with false. change (DATA =? DATA) with true. cbv iota. wstep.
  set (l3 := set_buffer l2 _). assert (readMeta f past sizePast uid A p l3) as Hl3.
  { destruct HRM as [[] ? ? ?]. split; try done. split; cbn; try done. rewrite length_app, length_le32, length_drop. lia. }
  eapply (handleData_spec crypto fuel uid l3 _ f past sizePast p _ A); try done; [fold flags; lia|lia|by destruct HR3|].
  intros l4 s4 c4 A4 nl4 k4 Hl4 U4 HI4 HC4 Ed4 Es4 HR4.
  assert (forall u fp, refsOf u (refs A4 fp)
    = refsOf u (refs A fp) + (if decide (u = uid) then occurrences fp (mdsOf p) else 0)) as HC.
  { intros u fp. by apply (upload_counts uid A A4 (mdsOf p) u fp). }
  eapply wps_post.
  - refine (IH rounds (past + Z.of_nat (length p)) (sizePast + secretSizes p) A4 nl4 k4
      (b + Z.of_nat (length p) + 1 + Z.of_nat (length p)) l4 _ Q Hl4 _ _ _ _ _); [done|done|lia|cbn in Hr; lia|].
    cbn [conn]. destruct HR4 as [-> _]. f_equal. apply sessionFlags_ext. intros fp. symmetry. by eapply ownedBy_next.
  - intros _ h' [U' Ed' Ei' Eo' Em' Es' (A' & nl' & k' & HI' & HC')]. cbn in Ed2, Es2, Ed4, Es4, Ed', Es', Eo', Em'.
    split; try done.
    + congruence.
    + destruct HR1 as [_ O1], HR2 as [_ O2], HR3 as [_ O3], HR4 as [_ O4]. cbn in *. congruence.
    + rewrite Es', Es4, Es2. cbn [sessionFlags fmap list_fmap mjoin list_join]. rewrite Ef, <- app_assoc. do 4 f_equal.
      apply sessionFlags_ext. intros fp. by eapply ownedBy_next.
    + exists A', nl', k'. split; [eapply Inv_budget; [exact HI'|lia]|]. intros u fp. rewrite HC', HC.
      change (mjoin (p :: ps)) with (p ++ mjoin ps). unfold mdsOf. rewrite fmap_app, occurrences_app. case_decide; lia.
Qed.
End Session.

(** ** The thread of a connection *)

Section Thread.
Context {W : Type} {WW : World W} {WL : WorldLaws W} {REL : ReliableWorld W} {LM : Limits} {LOK : LimitsOk}.
Context {SSL : OpenSSL} {SSLOK : OpenSSLLaws SSL}.
Context {N : Network} {NL : NetworkLaws} {UL : UploadLimits} {SL : ServerLimits} {SOK : ServerOk}.
Implicit Types h : Handler (minDedupCore W).

(** The function the server checks fingerprints with *)
Abbreviation sha256 := (EVP_Digest EVP_sha256).

(** What the messages of a session must be for the server to take them. *)
Record goodSession (uid : Z) (f : ClientFile) (ps : list (list ClientShare)) (b : Z) : Prop := {
  gs_user : int32 uid;
  gs_file : wfClient f;
  gs_name : is_Some (formatFullFileName_ (cf_name f));
  gs_items : Forall (Forall (goodItem sha256)) ps;
  gs_meta : Forall (fun p => UploaderProof.metaSize f p <= META_LEN)%nat ps;
  gs_size : Forall (fun p => length (contents_ p) <= BUFFER_LEN)%nat ps;
  gs_budget : b + budget ps <= 2 ^ 27;
}.

Lemma socketData_session uid f ps A nl k b h rounds fuel :
  unlocked (core h) -> Inv sha256 A (core h) nl k b -> goodSession uid f ps b ->
  (1 <= fuel)%nat -> (2 * length ps + 1 <= rounds)%nat ->
  inbox (conn h) = htonl uid ++ exchanges f 0 0 ps (sessionFlags (fun fp => ownedBy A fp uid) ps) ->
  exists h', SocketHandlerData (ret := False) rounds fuel true h = Ok (tt, h') /\ afterSession sha256 uid A ps b h h'.
Proof.
  intros U HI [H1 H2 H3 H4 H5 H6 H7] Hf Hr Hi. pose proof so_int.
  destruct (wps_result (ret := False) (SocketHandlerData rounds fuel true) (fun _ h' => afterSession sha256 uid A ps b h h') h)
    as ([] & h' & E & HA); [|by exists h'].
  unfold SocketHandlerData, newMemory. wstep. wstep. wstep. wstep. wstep.
  eapply recvUser_spec; [done|exact Hi|rewrite uninit_length; lia|]. intros c b' [Ei Eo] Hl. rewrite uninit_length in Hl. wstep.
  destruct new_SHA256_ok as (crypto & Ec & Hok). eapply wps_lift; [apply Ec|].
  eapply wps_post.
  - eapply (dataLoop_session sha256 crypto fuel uid f ps Hf H1 H2 H3 H4 H5 H6 rounds 0 0 A nl k b); try done.
    split; cbn; [by rewrite length_replicate|by rewrite uninit_length|by rewrite length_replicate].
  - intros _ h' [G1 G2 G3 G4 G5 G6 G7]. split; try done. by rewrite G4.
Qed.
End Thread.
