(* ===== verification/Protocol.v ===== *)
(** * The upload protocol

    An upload thread of the client and a connection thread of the data server, each
    of which receives what the other sends. *)

From stdpp Require Import base list numbers gmap.
From coqutil Require Import Byte.
From Stdlib Require Import Lia.
From S2P Require Import Prelude Structs FileNames World CryptoPrimitive MinDedupCore MinStages MinRestore ShareIndex MinInvariant MinNodes MinIndex MinPackage MinUpload MinTheorems Socket Uploader UploaderProof Uploads Server ServerProof DataSession.

Local Open Scope Z_scope.

Section Protocol.
Context {W : Type} {WW : World W} {WL : WorldLaws W} {REL : ReliableWorld W} {LM : Limits} {LOK : LimitsOk}.
Context {SSL : OpenSSL} {SSLOK : OpenSSLLaws SSL}.
Context {N : Network} {NL : NetworkLaws} {UL : UploadLimits} {SL : ServerLimits} {SOK : ServerOk} {MM : Memory} {ML : MemoryLaws}.
Implicit Types h : Handler (minDedupCore W).

Lemma answers_replies flagss : mjoin (mjoin (answer <$> flagss)) = replies flagss.
Proof.
  unfold replies. induction flagss as [|flags flagss IH]; [done|]. rewrite !fmap_cons.
  change (mjoin (answer flags :: (answer <$> flagss))) with (answer flags ++ mjoin (answer <$> flagss)).
  rewrite join_app, IH, answer_reply. done.
Qed.

(** What the answers of the data server [s] with the index [A] mark. *)
Definition marks (A : Index) (uid : Z) (ps : list (list ClientShare)) : list (list bool) :=
  sessionFlags (fun fp => ownedBy A fp uid) ps.


End Protocol.
