(* ===== verification/UploadExamples.v ===== *)
(** * An upload on a concrete input

    The theorems on uploads for a file of three shares, the last of which repeats the
    first, with small buffers and a network that splits messages. *)

From stdpp Require Import base list numbers gmap.
From coqutil Require Import Byte.
From Stdlib Require Import Lia Strings.String.
From S2P Require Import Prelude Structs FileNames World CryptoPrimitive MinDedupCore MinStages MinRestore ShareIndex MinInvariant MinNodes MinIndex MinPackage MinUpload MinTheorems Socket Uploader UploaderProof Uploads Server ServerProof DataSession Protocol.

Local Open Scope Z_scope.

(** A network that transfers between four and six bytes at a time. *)
Module SampleNet.
Definition part (t n : nat) : option nat := Some (Nat.min n (4 + t mod 3)).
#[export] Instance net : Network := {| recvLen := part; sendLen := part |}.
Lemma part_delivers : delivers part.
Proof. intros t n Hn. exists (Nat.min n (4 + t mod 3)). split; [done|]. split; lia. Qed.
#[export] Instance net_laws : NetworkLaws.
Proof. split; apply part_delivers. Qed.
#[export] Instance memory : Memory := {| fresh n := replicate n Byte.xee |}.
#[export] Instance memory_laws : MemoryLaws.
Proof. split. intros n. apply length_replicate. Qed.
End SampleNet.

Module UploadWitness.
Import SampleSSL SampleNet.

#[local] Instance small : Limits := {|
  RECIPE_BUFFER_SIZE := 64; CONTAINER_BUFFER_SIZE := 128; SHARE_FILE_BUFFER_SIZE := 160;
  NUM_OF_CACHED_CONTAINERS := 2; MAX_BUFFER_WAIT := 1000 |}.
Lemma limits_ok : LimitsOk.
Proof. split; vm_compute; repeat split; try discriminate; lia. Qed.
#[local] Existing Instance limits_ok.

#[local] Instance upload : UploadLimits := {| UPLOAD_BUFFER_SIZE := 150; RING_BUFFER_SIZE := 100 |}.
Lemma upload_ok : UploadOk.
Proof. split; vm_compute; [done|lia]. Qed.

#[local] Instance server : ServerLimits := {| BUFFER_LEN := 200; META_LEN := 150 |}.
#[local] Instance server_ok : ServerOk.
Proof. split; vm_compute; [lia|lia|done]. Qed.

Abbreviation sha := (EVP_Digest EVP_sha256).
Abbreviation Mem := (MemWorld false false).

Definition shareOf (n : nat) (c : Init.Byte.byte) : ClientShare :=
  {| cs_md := {| sm_fp := sha (replicate n c); sm_secretID := 7; sm_secretSize := 9; sm_size := n |};
     cs_data := replicate 100 c |}.
Definition xs : list ClientShare := [shareOf 80 Byte.x01; shareOf 60 Byte.x02; shareOf 80 Byte.x01].
Definition file : ClientFile :=
  {| cf_pad1 := replicate 4 Byte.xaa; cf_pad2 := replicate 4 Byte.xbb; cf_pad3 := replicate 4 Byte.xcc;
     cf_size := 27; cf_name := list_byte_of_string "f"%string |}.
Definition s0 : minDedupCore Mem := started (freshMem 1) (list_byte_of_string "sc/"%string).
Definition flagss : list (list bool) := [[false; false]; [true]].

Lemma file_wf : wfClient file.
Proof. split; [reflexivity|reflexivity|reflexivity|unfold int32; cbn; lia]. Qed.

Lemma shareOf_good n c : (0 < n <= 100)%nat -> goodItem sha (shareOf n c).
Proof.
  intros Hn. split_and!.
  - split; cbn [cs_md shareOf sm_size sm_secretSize cs_data]; [|lia|unfold RING_BUFFER_SIZE; cbn; lia|rewrite length_replicate; lia].
    split; [cbn [sm_fp]; apply (EVP_Digest_length EVP_sha256)|unfold int32; cbn [sm_size]; lia].
  - unfold goodSize. cbn [cs_md shareOf sm_size]. unfold CONTAINER_BUFFER_SIZE, SHARE_FILE_BUFFER_SIZE, shareEntrySize_. cbn. lia.
  - unfold content. cbn [cs_md shareOf sm_size cs_data sm_fp]. by rewrite take_replicate, Nat.min_l by lia.
Qed.

Lemma xs_good : Forall (goodItem sha) xs.
Proof. repeat constructor; apply shareOf_good; lia. Qed.

(** Two packages: the third share does not fit into the first. *)
Lemma xs_packs : packs [] xs = [[shareOf 80 Byte.x01; shareOf 60 Byte.x02]; [shareOf 80 Byte.x01]].
Proof. vm_compute. reflexivity. Qed.

Lemma xs_fits : metaFits file (packs [] xs).
Proof. rewrite xs_packs. repeat constructor; vm_compute; lia. Qed.

Lemma session_good : goodSession 1 file (packs [] xs) 0.
Proof.
  rewrite xs_packs. pose proof xs_good as HF. unfold xs in HF. rewrite !list.Forall_cons in HF. destruct HF as (H1 & H2 & H3 & _).
  split; [unfold int32; lia|apply file_wf|by eexists| | | |vm_compute; done].
  - by repeat constructor.
  - repeat constructor; vm_compute; lia.
  - repeat constructor; vm_compute; lia.
Qed.

Lemma server_Inv : Inv sha noShares s0 [] 0 0.
Proof. apply Inv_started. intros fp. apply lookup_empty. Qed.

Lemma marks_flagss : marks noShares 1 (packs [] xs) = flagss.
Proof. vm_compute. reflexivity. Qed.



End UploadWitness.
