(* ===== verification/Downloader.v ===== *)
(** * Downloader: the threads

    client/comm/downloader.cc: for every cloud a thread asks the server for a file,
    receives it message by message and puts its head and its shares into a ring
    buffer.  The threads of the data and of the metadata servers run the same code on
    items of different sizes (thread_handler, thread_handler_meta); the record holds
    the members with the index of one cloud. *)

From stdpp Require Import base list numbers.
From coqutil Require Import Byte.
From Stdlib Require Import Lia.
From S2P Require Import Prelude Structs Socket.

Local Open Scope Z_scope.

(** DOWNLOAD_BUFFER_SIZE, and the size of the data of an item: RING_BUFFER_DATA_SIZE or
    RING_BUFFER_META_SIZE. *)
Class DownloadLimits := {
  DOWNLOAD_BUFFER_SIZE : nat;
  ITEM_DATA_SIZE : nat;
}.
Definition downloadData : DownloadLimits :=
  {| DOWNLOAD_BUFFER_SIZE := Z.to_nat (4 * 1024 * 1024); ITEM_DATA_SIZE := Z.to_nat (16 * 1024) |}.
Definition downloadMeta : DownloadLimits :=
  {| DOWNLOAD_BUFFER_SIZE := Z.to_nat (4 * 1024 * 1024); ITEM_DATA_SIZE := Z.to_nat (32 * 1024) |}.

(** Item_t and ItemMeta_t: the head of a file, or a share with its shareEntry_t. *)
Inductive DItem :=
| HeaderObj (file_header : bytes)
| ShareItem (share_header data : bytes).

Record Downloader := {
  dsock : Conn;
  downloadContainer_ : bytes;
}.

Section Downloader.
Context {N : Network} {MM : Memory} {DL : DownloadLimits}.

Abbreviation M ret A := (SM Downloader ret A).

(** The part of the constructor for one cloud. *)
Definition new_Downloader {R} (c : Conn) (userID : Z) : res R Downloader :=
  match new_Socket (ret := False) userID c with
  | Ok (_, c) => Ok {| dsock := c; downloadContainer_ := fresh DOWNLOAD_BUFFER_SIZE |}
  | Return r => match r.1 with end
  | Exit c => Exit c
  | UB => UB
  | Hang => Hang
  end.

(** A call of a method of socketArray_[cloudIndex]. *)
Definition onDSock {ret A} (m : SM Conn A A) : M ret A := fun d =>
  match fn (R := False) (m (dsock d)) with
  | Ok (a, c) => Ok (a, {| dsock := c; downloadContainer_ := downloadContainer_ d |})
  | Return r => match r with end
  | Exit c => Exit c
  | UB => UB
  | Hang => Hang
  end.

(** [downloadChunk(downloadContainer_[cloudIndex], &retSize)] *)
Definition nextChunk {ret} (retSize : Z) : M ret Z :=
  raw ← gets downloadContainer_;
  '(_, raw, retSize) ← onDSock (downloadChunk raw retSize (fresh 4));
  _ ← modify (fun d => {| dsock := dsock d; downloadContainer_ := raw |});
  mret retSize.

(** The main loop: the items it inserts; [rounds] bounds its rounds. *)
Fixpoint getShares {ret} (rounds : nat) (index retSize count numOfChunk : Z) : M ret (list DItem) :=
  match rounds with
  | O => fun _ => Hang
  | S rounds' =>
      '(index, retSize) ← (if index =? retSize then n ← nextChunk retSize; mret (0, n) else mret (index, retSize));
      container ← gets downloadContainer_;
      '(entry, data, index) ← lift (
        o ← sz index;
        shareSize ← getI32 container (o + 8);
        entry ← rd container o shareEntrySize_;
        index ← sint (index + Z.of_nat shareEntrySize_);
        o ← sz index;
        len ← sz shareSize;
        data ← memcpy (fresh ITEM_DATA_SIZE) 0 container o len;
        index ← sint (index + shareSize);
        Ok (entry, data, index));
      count ← lift (sint (count + 1));
      if count =? numOfChunk then mret [ShareItem entry data] else
      items ← getShares rounds' index retSize count numOfChunk;
      mret (ShareItem entry data :: items)
  end.

(** [junk] is the value of retSize before downloadChunk sets it. *)
Definition thread_handler {ret} (rounds : nat) (junk : Z) (filename : bytes) (namesize : Z) : M ret (list DItem) :=
  _ ← onDSock (initDownload filename namesize);
  retSize ← nextChunk junk;
  container ← gets downloadContainer_;
  header ← lift (rd container 0 shareFileHeadSize_);
  numOfChunk ← lift (getI32 container 8);
  items ← getShares rounds (Z.of_nat shareFileHeadSize_) retSize 0 numOfChunk;
  mret (HeaderObj header :: items).
End Downloader.
