(* ===== verification/DownloaderProof.v ===== *)
(** * What a download thread gets

    The messages of restoreShareFile hold whole entries; the thread takes them apart
    again: it delivers the head of the share file and, for each entry, the secret's id
    and size and the share. *)

From stdpp Require Import base list numbers gmap.
From coqutil Require Import Byte.
From Stdlib Require Import Lia.
From S2P Require Import Prelude Structs FileNames World MinDedupCore MinRestore ShareIndex MinInvariant MinRestoreProof Socket Downloader.

Local Open Scope Z_scope.

Section Proof.
Context {N : Network} {NL : NetworkLaws} {MM : Memory} {ML : MemoryLaws} {DL : DownloadLimits}.

(** The item of an entry. *)
Definition entryBytes (e : RecipeEntry) (share : bytes) : bytes :=
  le32 (re_secretID e) ++ le32 (re_secretSize e) ++ le32 (Z.of_nat (length share)).
Definition itemOf (e : RecipeEntry) (share : bytes) : DItem :=
  ShareItem (entryBytes e share) (share ++ drop (length share) (fresh ITEM_DATA_SIZE)).

Definition fits (share : bytes) : Prop := (length share <= ITEM_DATA_SIZE)%nat.

Record DownloadOk : Prop := {
  do_max : Z.of_nat DOWNLOAD_BUFFER_SIZE < 2 ^ 30;
  do_item : Z.of_nat ITEM_DATA_SIZE < 2 ^ 30;
}.

Lemma wps_onDSock {ret A} (m : forall R, SM Conn R A) (P : A -> Downloader -> Prop) (Q : ret -> Downloader -> Prop) d :
  wps (m A) (fun a c => P a {| dsock := c; downloadContainer_ := downloadContainer_ d |}) (fun _ _ => False) (dsock d) ->
  wps (onDSock (m A)) P Q d.
Proof. unfold wps, onDSock. by destruct (m A (dsock d)) as [[]|[]| | |]. Qed.

Lemma downloadChunk_spec {ret} raw junk old payload rest c (Q : ret -> Conn -> Prop) :
  inbox c = message payload ++ rest -> (length payload <= length raw)%nat -> length old = 4%nat ->
  Z.of_nat (length payload) < 2 ^ 31 ->
  wps (downloadChunk raw junk old) (fun r c' =>
    r = (0, payload ++ drop (length payload) raw, Z.of_nat (length payload)) /\
    inbox c' = rest /\ outbox c' = outbox c) Q c.
Proof.
  intros Hi Hl Ho Hn. unfold message in Hi. rewrite <- !app_assoc in Hi. unfold downloadChunk. wstep. wstep.
  apply recv_some; [lia|rewrite Hi, !length_app, !length_htonl; lia|lia|]. intros k c1 Hk H4 HM1.
  rewrite (H4 ltac:(lia)) in *. clear H4 Hk. change (Z.of_nat 4 =? -1) with false. cbv iota.
  assert (inbox c1 = htonl (Z.of_nat (length payload)) ++ payload ++ rest) as Hi1.
  { destruct HM1 as [E _]. rewrite Hi, take_app_le, take_ge in E by (rewrite length_htonl; lia). by apply app_inv_head in E. }
  wstep. apply recv_some; [lia|rewrite Hi1, !length_app, !length_htonl; lia|lia|]. intros k2 c2 Hk H4 HM2.
  rewrite (H4 ltac:(lia)) in *. clear H4 Hk. change (Z.of_nat 4 =? -1) with false. cbv iota.
  rewrite Hi1 in *. rewrite take_app_le, take_ge in * by (rewrite length_htonl; lia).
  rewrite take_0, drop_ge, app_nil_r by lia. cbn [app].
  wstep. eapply wps_lift.
  { rewrite take_ge by (rewrite length_htonl; lia). unfold htonl. rewrite rev_involutive. apply (getI32_at [] (Z.of_nat (length payload)) []); [by rewrite app_nil_r|done|unfold int32; lia]. }
  wstep. assert (inbox c2 = payload ++ rest) as Hi2.
  { destruct HM2 as [E _]. rewrite Hi1 in E. by apply app_inv_head in E. }
  eapply wps_post; [by eapply genericDownload_spec|]. intros ? c3 (-> & HM3 & Hr). wstep. split; [done|]. split; [done|].
  destruct HM1 as [_ O1], HM2 as [_ O2], HM3 as [_ O3]. by rewrite O3, O2, O1, !app_nil_r.
Qed.

(** The thread holds [b] in its container. *)
Definition holds (d : Downloader) (b rest : bytes) : Prop :=
  (exists slack, downloadContainer_ d = b ++ slack) /\ length (downloadContainer_ d) = DOWNLOAD_BUFFER_SIZE /\
  inbox (dsock d) = rest.

Lemma nextChunk_spec {ret} (OK : DownloadOk) junk payload rest d (Q : ret -> Downloader -> Prop) :
  length (downloadContainer_ d) = DOWNLOAD_BUFFER_SIZE -> inbox (dsock d) = message payload ++ rest ->
  (length payload <= DOWNLOAD_BUFFER_SIZE)%nat ->
  wps (nextChunk junk) (fun n d' => n = Z.of_nat (length payload) /\ holds d' payload rest /\
    outbox (dsock d') = outbox (dsock d)) Q d.
Proof.
  intros Hl Hi Hp. pose proof (do_max OK). unfold nextChunk. wstep. wstep. wstep.
  apply (wps_onDSock (fun R => downloadChunk (downloadContainer_ d) junk (fresh 4))).
  eapply wps_post; [eapply downloadChunk_spec; [exact Hi|lia|apply fresh_length|lia]|].
  intros ? c (-> & Hr & Ho). wstep. wstep. wstep. split; [done|]. split; [|done]. split_and!; cbn.
  - by eexists.
  - rewrite length_app, length_drop. lia.
  - done.
Qed.

(** ** The loop *)

Lemma encodeRestored_entry e share :
  encodeRestored (re_secretID e) (re_secretSize e) share = entryBytes e share ++ share.
Proof. unfold encodeRestored, entryBytes. by rewrite <- !app_assoc. Qed.

(** The messages of the groups that were not received yet. *)
Definition messages (gs : list (list bytes)) : bytes := mjoin ((fun g => message (mjoin g)) <$> gs).

(** Taking one piece out of the container. *)
Lemma takeShare {R} (OK : DownloadOk) container pre e share post :
  container = pre ++ (entryBytes e share ++ share) ++ post -> length container = DOWNLOAD_BUFFER_SIZE -> fits share ->
  (o ← sz (Z.of_nat (length pre));
   shareSize ← getI32 (R := R) container (o + 8);
   entry ← rd container o shareEntrySize_;
   index ← sint (Z.of_nat (length pre) + Z.of_nat shareEntrySize_);
   o ← sz index;
   len ← sz shareSize;
   data ← memcpy (fresh ITEM_DATA_SIZE) 0 container o len;
   index ← sint (index + shareSize);
   Ok (entry, data, index))
  = Ok (entryBytes e share, share ++ drop (length share) (fresh ITEM_DATA_SIZE),
        Z.of_nat (length (pre ++ entryBytes e share ++ share))).
Proof.
  intros -> Hl Hf. destruct OK as [H1 H2]. unfold fits in Hf.
  assert (length (entryBytes e share) = 12%nat) as He by (unfold entryBytes; by rewrite !length_app, !length_le32).
  rewrite !length_app, He in Hl.
  rewrite sz_ok by lia. cbn [mbind res_bind]. rewrite Nat2Z.id.
  rewrite (getI32_at (pre ++ le32 (re_secretID e) ++ le32 (re_secretSize e)) (Z.of_nat (length share)) (share ++ post)).
  2: { unfold entryBytes. by rewrite <- !app_assoc. }
  2: { rewrite !length_app, !length_le32. lia. }
  2: { unfold int32. lia. }
  cbn [mbind res_bind]. rewrite <- (app_assoc (entryBytes e share)), rd_mid by (rewrite ?He; done). cbn [mbind res_bind].
  unfold shareEntrySize_. rewrite sint_ok by lia. cbn [mbind res_bind]. rewrite !sz_ok by lia. cbn [mbind res_bind].
  rewrite Nat2Z.id. unfold memcpy. rewrite app_assoc, rd_mid by (rewrite ?length_app, ?He; lia). cbn [mbind res_bind].
  rewrite wr_ok by (rewrite fresh_length; lia). cbn [mbind res_bind]. rewrite sint_ok by lia. cbn [mbind res_bind].
  rewrite take_0. cbn [app Nat.add]. do 3 f_equal. rewrite !length_app, He. lia.
Qed.

Lemma message_nonempty e share : encodeRestored (re_secretID e) (re_secretSize e) share <> [].
Proof. intros E. apply (f_equal length) in E. unfold encodeRestored in E. by rewrite length_app, length_le32 in E. Qed.

(** The groups of a list without elements. *)
Lemma groups_nil {A} (gs : list (list A)) : Forall (fun g => g <> []) gs -> mjoin gs = [] -> gs = [].
Proof. intros [|g gs' Hg _]; [done|]. intros E. change (mjoin (g :: gs')) with (g ++ mjoin gs') in E. by apply app_nil in E as [? _]. Qed.

(** One round: the next piece is in the container, perhaps after another message. *)
Lemma nextPiece {ret} (OK : DownloadOk) e es share shs g1 g2 gs rest d (P : Z * Z -> Downloader -> Prop) (Q : ret -> Downloader -> Prop) :
  let p := encodeRestored (re_secretID e) (re_secretSize e) share in
  p :: restoredPieces es shs = g2 ++ mjoin gs -> Forall (fun g => g <> []) gs ->
  Forall (fun g : list bytes => length (mjoin g) <= DOWNLOAD_BUFFER_SIZE)%nat gs ->
  holds d (mjoin (g1 ++ g2)) (messages gs ++ rest) ->
  (forall g1' g2' gs' d', restoredPieces es shs = g2' ++ mjoin gs' -> Forall (fun g => g <> []) gs' ->
     Forall (fun g : list bytes => length (mjoin g) <= DOWNLOAD_BUFFER_SIZE)%nat gs' ->
     holds d' (mjoin (g1' ++ p :: g2')) (messages gs' ++ rest) -> outbox (dsock d') = outbox (dsock d) ->
     P (Z.of_nat (length (mjoin g1')), Z.of_nat (length (mjoin (g1' ++ p :: g2')))) d') ->
  wps (if Z.of_nat (length (mjoin g1)) =? Z.of_nat (length (mjoin (g1 ++ g2)))
       then n ← nextChunk (Z.of_nat (length (mjoin (g1 ++ g2)))); mret (0, n)
       else mret (Z.of_nat (length (mjoin g1)), Z.of_nat (length (mjoin (g1 ++ g2))))) P Q d.
Proof.
  intros p E Hgs Hsz Hh HP. destruct g2 as [|p' g2].
  - rewrite app_nil_r in Hh |- *. rewrite Z.eqb_refl. destruct gs as [|g gs]; [done|].
    inversion Hgs as [|? ? Hg Hgs']; subst. inversion Hsz as [|? ? Hg2 Hsz']; subst. destruct g as [|p' g]; [done|].
    change (mjoin ((p' :: g) :: gs)) with ((p' :: g) ++ mjoin gs) in E. cbn [app] in E. injection E as <- E.
    destruct Hh as (_ & Hl & Hi).
    change (messages ((p :: g) :: gs)) with (message (mjoin (p :: g)) ++ messages gs) in Hi. rewrite <- app_assoc in Hi.
    wstep. eapply wps_post; [by eapply nextChunk_spec|]. intros n d' (-> & Hh' & Ho). wstep.
    by apply (HP [] g gs d').
  - cbn [app] in E. injection E as <- E.
    assert ((Z.of_nat (length (mjoin g1)) =? Z.of_nat (length (mjoin (g1 ++ p :: g2)))) = false) as ->.
    { apply Z.eqb_neq. rewrite join_app, length_app. change (mjoin (p :: g2)) with (p ++ mjoin g2). rewrite length_app.
      pose proof (message_nonempty e share) as Hp. fold p in Hp. destruct p; [done|]. cbn [length]. lia. }
    wstep. by apply (HP g1 g2 gs d).
Qed.

Lemma getShares_spec {ret} (OK : DownloadOk) rounds : forall es shs g1 g2 gs rest count d (Q : ret -> Downloader -> Prop),
  length es = length shs -> es <> [] -> Forall fits shs -> (length es <= rounds)%nat ->
  restoredPieces es shs = g2 ++ mjoin gs -> Forall (fun g => g <> []) gs ->
  Forall (fun g : list bytes => length (mjoin g) <= DOWNLOAD_BUFFER_SIZE)%nat gs ->
  holds d (mjoin (g1 ++ g2)) (messages gs ++ rest) ->
  0 <= count -> count + Z.of_nat (length es) < 2 ^ 31 ->
  wps (getShares rounds (Z.of_nat (length (mjoin g1))) (Z.of_nat (length (mjoin (g1 ++ g2)))) count (count + Z.of_nat (length es)))
    (fun items d' => items = zip_with itemOf es shs /\ inbox (dsock d') = rest /\ outbox (dsock d') = outbox (dsock d)) Q d.
Proof.
  induction rounds as [|rounds IH]; intros es shs g1 g2 gs rest count d Q Hlen Hne Hfit Hr E Hgs Hsz Hh Hc Hcm;
    destruct es as [|e es]; try done; [cbn in Hr; lia|].
  destruct shs as [|share shs]; [done|]. inversion Hfit as [|? ? Hf1 Hfit']; subst. cbn [length] in Hr, Hcm, Hlen.
  cbn [getShares]. wstep. eapply (nextPiece OK e es share shs g1 g2 gs rest); [exact E|done|done|done|].
  intros g1' g2' gs' d' E' Hgs' Hsz' Hh' Ho. set (p := encodeRestored _ _ _) in *.
  wstep. wstep. wstep. pose proof Hh' as ((slack & Ec) & Hl & Hi).
  assert (mjoin (g1' ++ p :: g2') = mjoin g1' ++ p ++ mjoin g2') as Ej by (by rewrite join_app).
  eapply wps_lift.
  { apply (takeShare OK _ (mjoin g1') e share (mjoin g2' ++ slack)); [|done|done].
    rewrite Ec, Ej. unfold p. rewrite encodeRestored_entry. by rewrite <- !app_assoc. }
  wstep. eapply wps_lift; [rewrite sint_ok by lia; reflexivity|].
  destruct es as [|e' es].
  - replace (count + 1 =? count + Z.of_nat (length [e])) with true by (symmetry; apply Z.eqb_eq; cbn; lia).
    wstep. destruct shs; [|done]. split; [done|]. split; [|done].
    cbn in E'. symmetry in E'. apply app_nil in E' as [_ E']. apply groups_nil in E' as ->; done.
  - replace (count + 1 =? count + Z.of_nat (length (e :: e' :: es))) with false by (symmetry; apply Z.eqb_neq; cbn [length]; lia).
    wstep. rewrite <- encodeRestored_entry. fold p.
    replace (mjoin g1' ++ p) with (mjoin (g1' ++ [p])) by (rewrite join_app; cbn; by rewrite app_nil_r).
    replace (g1' ++ p :: g2') with ((g1' ++ [p]) ++ g2') in * by (by rewrite <- app_assoc).
    replace (count + Z.of_nat (length (e :: e' :: es))) with (count + 1 + Z.of_nat (length (e' :: es))) by (cbn [length]; lia).
    eapply wps_post; [eapply (IH (e' :: es) shs (g1' ++ [p]) g2' gs' rest (count + 1)); try done; cbn [length] in *; lia|].
    intros items d'' (-> & Hi' & Ho'). wstep. split; [done|]. split; [done|congruence].
Qed.

(** ** The thread *)

Lemma initDownload_spec {SW : SmallWhole} {ret} name slack c (Q : ret -> Conn -> Prop) :
  (0 < length name <= 256)%nat ->
  wps (initDownload (name ++ slack) (Z.of_nat (length name)))
    (fun n c' => n = 0 /\ moved c c' [] (package INIT_DOWNLOAD name)) Q c.
Proof.
  intros Hname. unfold initDownload. wstep.
  wstep. eapply wps_post; [apply send_short; rewrite length_le32; lia|]. intros n1 c1 [-> H1]. rewrite length_le32.
  change (Z.of_nat 4 =? -1) with false. cbv iota.
  wstep. eapply wps_post; [apply send_short; rewrite length_le32; lia|]. intros n2 c2 [-> H2]. rewrite length_le32.
  change (Z.of_nat 4 =? -1) with false. cbv iota.
  wstep. eapply wps_lift; [rewrite sz_ok by lia; cbn [mbind res_bind]; rewrite Nat2Z.id; by apply rd_front|].
  wstep. unfold wps at 1, send_. rewrite small_send, Nat.min_id by done.
  rewrite (proj2 (Z.eqb_neq _ _)) by lia. wstep. split; [done|].
  assert (moved c2 {| inbox := inbox c2; outbox := outbox c2 ++ take (length name) name; calls := S (calls c2) |} [] name) as H3.
  { split; [done|]. cbn. by rewrite take_ge. }
  exact (moved_trans _ _ _ _ _ _ _ H1 (moved_trans _ _ _ _ _ _ _ H2 H3)).
Qed.

(** The head of a share file. *)
Definition fileHead (fileSize : Z) (n : nat) (pad : bytes) : bytes := le64 fileSize ++ le32 (Z.of_nat n) ++ pad.

Lemma messages_payloads gs : mjoin (message <$> ((fun g : list bytes => mjoin g) <$> gs)) = messages gs.
Proof. unfold messages. by rewrite <- list_fmap_compose. Qed.

Lemma thread_download {SW : SmallWhole} {ret} (OK : DownloadOk) rounds junk name slack fileSize pad es shs payloads rest d
    (Q : ret -> Downloader -> Prop) :
  (0 < length name <= 256)%nat -> length pad = 4%nat -> length es = length shs -> es <> [] -> Forall fits shs -> (length es <= rounds)%nat ->
  Z.of_nat (length es) < 2 ^ 31 ->
  grouped (fileHead fileSize (length es) pad :: restoredPieces es shs) payloads ->
  Forall (fun m => length m <= DOWNLOAD_BUFFER_SIZE)%nat payloads ->
  length (downloadContainer_ d) = DOWNLOAD_BUFFER_SIZE ->
  inbox (dsock d) = mjoin (message <$> payloads) ++ rest ->
  wps (thread_handler rounds junk (name ++ slack) (Z.of_nat (length name))) (fun items d' =>
    items = HeaderObj (fileHead fileSize (length es) pad) :: zip_with itemOf es shs /\
    inbox (dsock d') = rest /\ outbox (dsock d') = outbox (dsock d) ++ package INIT_DOWNLOAD name) Q d.
Proof.
  intros Hname Hpad Hlen Hne Hfit Hr Hmax (gs & Hgs & Ej & ->) Hsz Hl Hi. rewrite messages_payloads in Hi.
  apply Forall_fmap in Hsz. set (head := fileHead fileSize (length es) pad) in *.
  assert (length head = 16%nat) as Hhl by (unfold head, fileHead; by rewrite !length_app, length_le64, length_le32, Hpad).
  destruct gs as [|g gs]; [done|]. inversion Hgs as [|? ? Hg Hgs']; subst. inversion Hsz as [|? ? Hg2 Hsz']; subst.
  destruct g as [|h g]; [done|]. change (mjoin ((h :: g) :: gs)) with (h :: g ++ mjoin gs) in Ej. injection Ej as -> Ej.
  change (messages ((head :: g) :: gs)) with (message (mjoin (head :: g)) ++ messages gs) in Hi. rewrite <- app_assoc in Hi.
  unfold thread_handler. wstep.
  apply (wps_onDSock (fun R => initDownload (name ++ slack) (Z.of_nat (length name)))).
  eapply wps_post; [by apply initDownload_spec|]. intros n c [-> [Mi Mo]]. cbn [app] in Mi.
  wstep. eapply wps_post; [eapply (nextChunk_spec OK _ (mjoin (head :: g)) (messages gs ++ rest)); [done|cbn; by rewrite <- Mi, Hi|done]|].
  intros n d' (-> & Hh & Ho). wstep. wstep. pose proof Hh as ((slk & Ec) & Hl' & Hi').
  change (mjoin (head :: g)) with (head ++ mjoin g) in Ec.
  wstep. eapply wps_lift; [rewrite Ec, <- app_assoc; by apply rd_front|].
  wstep. eapply wps_lift.
  { rewrite Ec. apply (getI32_at (le64 fileSize) (Z.of_nat (length es)) (pad ++ mjoin g ++ slk)); [|by rewrite length_le64|unfold int32; lia].
    unfold head, fileHead. by rewrite <- !app_assoc. }
  wstep. replace (Z.of_nat shareFileHeadSize_) with (Z.of_nat (length (mjoin [head]))) by (cbn; rewrite app_nil_r, Hhl; done).
  change (mjoin (head :: g)) with (mjoin ([head] ++ g)).
  eapply wps_post; [eapply (getShares_spec OK rounds es shs [head] g gs rest 0); try done; lia|].
  intros items d'' (-> & Hi'' & Ho''). wstep. split; [done|]. split; [done|]. rewrite Ho'', Ho. done.
Qed.
End Proof.
