(* ===== verification/ServerFiles.v ===== *)
(** * The files of keys and recipes on the metadata server

    The messages KEY_RECIPE, GET_KEY_RECIPE and FILE_RECIPE: what is stored, under
    which name, and what is sent back. *)

From stdpp Require Import base list numbers gmap.
From coqutil Require Import Byte.
From Stdlib Require Import Lia.
From S2P Require Import Prelude Structs FileNames World CryptoPrimitive MinDedupCore MinStages MinRestore DedupCore DedupStages Socket Server ServerProof.

Local Open Scope Z_scope.

(** ** Names *)

(** A name with the slashes behind its first character replaced. *)
Definition unslash (c : byte) : byte := if decide (c = slash) then Byte.x5f else c.
Definition flatName (name : bytes) : bytes :=
  match name with
  | [] => []
  | c :: l => c :: (unslash <$> l)
  end.

Lemma unslash_nonzero c : c <> Byte.x00 -> unslash c <> Byte.x00.
Proof. unfold unslash. by case_decide. Qed.

Lemma flatName_nonzero name : Byte.x00 ∉ name -> Byte.x00 ∉ flatName name.
Proof.
  destruct name as [|c l]; [done|]. cbn. rewrite !not_elem_of_cons. intros [Hc Hl]. split; [done|].
  rewrite list_elem_of_fmap. intros (x & E & Hx). by apply (unslash_nonzero x); [intros ->|].
Qed.

Lemma length_flatName name : length (flatName name) = length name.
Proof. destruct name as [|c l]; [done|]. cbn. by rewrite length_fmap. Qed.

Lemma slashes_from {R} l : forall fuel pre c post,
  (length l < fuel)%nat -> c <> Byte.x00 -> Byte.x00 ∉ l ->
  slashes (R := R) (S fuel) (pre ++ c :: l ++ Byte.x00 :: post) (length pre)
  = Ok (pre ++ c :: (unslash <$> l) ++ Byte.x00 :: post).
Proof.
  induction l as [|d l IH]; intros fuel pre c post Hf Hc Hl.
  all: cbn [slashes]; rewrite (aget_ok _ (length pre) c) by (by apply list_lookup_middle); cbn [mbind res_bind].
  all: rewrite decide_False by done.
  all: destruct fuel as [|fuel]; [cbn in Hf; lia|].
  - cbn [app fmap list_fmap]. rewrite (aget_ok _ (S (length pre)) Byte.x00).
    2: { rewrite lookup_app_r by lia. by replace (S (length pre) - length pre)%nat with 1%nat by lia. }
    cbn [mbind res_bind]. rewrite decide_False by done. cbn [mbind res_bind slashes].
    rewrite (aget_ok _ (S (length pre)) Byte.x00).
    2: { rewrite lookup_app_r by lia. by replace (S (length pre) - length pre)%nat with 1%nat by lia. }
    cbn [mbind res_bind]. by rewrite decide_True.
  - rewrite not_elem_of_cons in Hl. destruct Hl as [Hd Hl]. cbn [app fmap list_fmap].
    rewrite (aget_ok _ (S (length pre)) d).
    2: { rewrite lookup_app_r by lia. by replace (S (length pre) - length pre)%nat with 1%nat by lia. }
    cbn [mbind res_bind].
    assert ((if decide (d = slash) then aset (R := R) (pre ++ c :: d :: l ++ Byte.x00 :: post) (S (length pre)) Byte.x5f
             else Ok (pre ++ c :: d :: l ++ Byte.x00 :: post))
            = Ok ((pre ++ [c]) ++ unslash d :: l ++ Byte.x00 :: post)) as ->.
    { unfold unslash. case_decide; [|by rewrite <- app_assoc].
      rewrite aset_ok by (rewrite length_app; cbn; lia). f_equal. rewrite insert_app_r_alt by lia.
      replace (S (length pre) - length pre)%nat with 1%nat by lia. by rewrite <- app_assoc. }
    cbn [mbind res_bind]. replace (S (length pre)) with (length (pre ++ [c])) by (rewrite length_app; cbn; lia).
    rewrite IH; [by rewrite <- app_assoc|cbn in Hf; lia|by apply unslash_nonzero, not_eq_sym|done].
Qed.

Lemma slashes_spec {R} name post fuel :
  Byte.x00 ∉ name -> (length name < fuel)%nat ->
  slashes (R := R) fuel (name ++ Byte.x00 :: post) 0 = Ok (flatName name ++ Byte.x00 :: post).
Proof.
  intros Hn Hf. destruct fuel as [|fuel]; [lia|]. destruct name as [|c l]; [done|].
  rewrite not_elem_of_cons in Hn. destruct Hn as [Hc Hl]. cbn [length] in Hf.
  apply (slashes_from l fuel [] c post); [lia|by apply not_eq_sym|done].
Qed.

Lemma sprintf_spec {R} prefix name post :
  Byte.x00 ∉ name -> (length prefix + length name < 256)%nat ->
  sprintf (R := R) prefix (flatName name ++ Byte.x00 :: post) = Ok (prefix ++ flatName name).
Proof.
  intros Hn Hl. unfold sprintf. rewrite cstr_app by (by apply flatName_nonzero). cbn [mbind res_bind].
  by rewrite decide_True by (rewrite length_app, length_flatName; lia).
Qed.

(** ** The environment of a core *)

Class CoreLaws (W C : Type) `{CC : Core W C} : Prop := {
  cl_world c w : core_world (core_setWorld c w) = w;
  cl_twice c w w' : core_setWorld (core_setWorld c w) w' = core_setWorld c w';
  cl_same c : core_setWorld c (core_world c) = c;
}.

#[export] Instance dataCore_laws {W} `{World W} `{Limits} {SSL : OpenSSL} : CoreLaws W (minDedupCore W).
Proof. split; [done|done|]. by intros []. Qed.
#[export] Instance metaCore_laws {W} `{World W} `{Limits} {SSL : OpenSSL} : CoreLaws W (DedupCore W).
Proof. split; [done|done|]. by intros [[]]. Qed.

Section Files.
Context {W C : Type} {WW : World W} {WL : WorldLaws W} {REL : ReliableWorld W} {SSL : OpenSSL} {CC : Core W C} {CL : CoreLaws W C}.
Context {N : Network} {NL : NetworkLaws} {SW : SmallWhole} {SL : ServerLimits}.
Implicit Types h : Handler C.

(** The environment of the handler, and the handler with another one. *)
Definition worldOf h : W := core_world (core h).
Definition inWorld h (w : W) (c : Conn) : Handler C := {| core := core_setWorld (core h) w; conn := c; mutex := mutex h |}.

Lemma inWorld_conn h c : withConn h c = inWorld h (worldOf h) c.
Proof. unfold inWorld, worldOf. by rewrite cl_same. Qed.

Lemma worldOf_inWorld h w c : worldOf (inWorld h w c) = w.
Proof. apply cl_world. Qed.

Lemma inWorld_twice h w c w' c' : inWorld (inWorld h w c) w' c' = inWorld h w' c'.
Proof. unfold inWorld. cbn. by rewrite cl_twice. Qed.

Lemma wps_files {ret A} (f : W -> A * W) a w' (P : A -> Handler C -> Prop) (Q : ret -> Handler C -> Prop) h :
  f (worldOf h) = (a, w') -> P a (inWorld h w' (conn h)) -> wps (onFiles f) P Q h.
Proof. intros E HP. apply wps_onFiles. unfold worldOf in E. rewrite E. exact HP. Qed.

Lemma recv_small {ret} (x : bytes) rest (b : bytes) c (Q : ret -> Conn -> Prop) :
  (0 < length x <= 256)%nat -> inbox c = x ++ rest -> (length x <= length b)%nat ->
  wps (recv_ b 0 (length x)) (fun r c' => r = (Z.of_nat (length x), x ++ drop (length x) b) /\ received c c' rest) Q c.
Proof.
  intros Hx Hi Hb. unfold wps, recv_. rewrite small_recv by lia. rewrite Nat.min_id, Hi, take_app_length, drop_app_length.
  rewrite wr_ok by lia. rewrite take_0. cbn [app Nat.add]. split; [done|]. by split.
Qed.

(** ** Names and lengths *)

Lemma recvLength_spec {ret} x rest l h (P : Z * Locals -> Handler C -> Prop) (Q : ret -> Handler C -> Prop) :
  inbox (conn h) = le32 x ++ rest -> (4 <= length (buffer l))%nat -> int32 x ->
  (forall c l', received (conn h) c rest -> length (buffer l') = length (buffer l) -> P (x, l') (withConn h c)) ->
  wps (recvLength l) P Q h.
Proof.
  intros Hi Hb Hx HP. unfold recvLength. wstep. eapply recvInt_spec; [done|done|done|]. intros c HR. wstep.
  apply HP; [done|]. cbn. rewrite length_app, length_le32, length_drop. lia.
Qed.

Lemma recvName_spec {ret} dir name rest l h (P : bytes * Locals -> Handler C -> Prop) (Q : ret -> Handler C -> Prop) :
  inbox (conn h) = le32 (Z.of_nat (length name)) ++ name ++ rest -> (4 <= length (buffer l))%nat ->
  name <> [] -> Byte.x00 ∉ name -> (length dir + length name < 256)%nat ->
  (forall c l', received (conn h) c rest -> length (buffer l') = length (buffer l) -> P (dir ++ flatName name, l') (withConn h c)) ->
  wps (recvName dir l) P Q h.
Proof.
  intros Hi Hb Hne Hz Hl HP. unfold recvName. wstep. eapply recvLength_spec; [done|done|unfold int32; lia|].
  intros c l' HR Hbl. wstep. eapply wps_lift; [rewrite sz_ok by lia; rewrite Nat2Z.id; reflexivity|].
  unfold newMemory. wstep. wstep. cbn [core withConn]. set (u := uninit _ _).
  assert (length u = length name + 1)%nat as Hu by apply uninit_length.
  wstep. apply wps_onConn. eapply wps_post; [eapply (recv_small name rest u)|].
  - destruct name; [done|]. cbn [length] in *. lia.
  - by destruct HR.
  - lia.
  - intros ? c2 (-> & HR2). wstep.
    assert (exists z, drop (length name) u = [z]) as [z Ez].
    { assert (length (drop (length name) u) = 1)%nat as Hd by (rewrite length_drop; lia).
      destruct (drop (length name) u) as [|z [|]]; [done|by exists z|done]. }
    eapply wps_lift.
    { rewrite aset_ok by (rewrite length_app, Ez; cbn; lia). rewrite Ez, insert_app_r_alt by lia. rewrite Nat.sub_diag. reflexivity. }
    cbn [insert list_insert]. wstep. eapply wps_lift; [apply (slashes_spec name []); [done|rewrite length_app; cbn; lia]|].
    wstep. eapply wps_lift; [by apply sprintf_spec|]. wstep. apply HP; [by eapply received_trans|done].
Qed.

(** ** Writing files *)

Lemma opened_wb_spec {ret} path h (P : unit -> Handler C -> Prop) (Q : ret -> Handler C -> Prop) :
  (forall w, view w = set_files (view (worldOf h)) (<[path := []]> (files (view (worldOf h)))) -> P tt (inWorld h w (conn h))) ->
  wps (opened fopen_wb path) P Q h.
Proof.
  intros HP. unfold opened. wstep. destruct (fopen_wb (worldOf h) path) as [ok w] eqn:E.
  eapply wps_files; [exact E|]. pose proof (fopen_wb_reliable (worldOf h) path) as Hr. rewrite E in Hr. cbn in Hr. subst ok.
  wstep. apply HP. by apply (fopen_wb_law _ _ true).
Qed.

Lemma opened_ab_spec {ret} path h (P : unit -> Handler C -> Prop) (Q : ret -> Handler C -> Prop) :
  (forall w, view w = set_files (view (worldOf h)) (<[path := default [] (files (view (worldOf h)) !! path)]> (files (view (worldOf h)))) ->
     P tt (inWorld h w (conn h))) ->
  wps (opened fopen_ab path) P Q h.
Proof.
  intros HP. unfold opened. wstep. destruct (fopen_ab (worldOf h) path) as [ok w] eqn:E.
  eapply wps_files; [exact E|]. pose proof (fopen_ab_reliable (worldOf h) path) as Hr. rewrite E in Hr. cbn in Hr. subst ok.
  wstep. apply HP. by apply (fopen_ab_law _ _ true).
Qed.

Lemma append_spec {ret} path data old h (P : unit -> Handler C -> Prop) (Q : ret -> Handler C -> Prop) :
  files (view (worldOf h)) !! path = Some old ->
  (forall w, view w = set_files (view (worldOf h)) (<[path := old ++ data]> (files (view (worldOf h)))) ->
     P tt (inWorld h w (conn h))) ->
  wps (append path data) P Q h.
Proof.
  intros Ho HP. unfold append. destruct data as [|x data].
  - wstep. pose proof (HP (worldOf h)) as HP'. unfold inWorld, worldOf in HP'. rewrite cl_same in HP'.
    destruct h. apply HP'. rewrite app_nil_r. cbn in *. fold (@worldOf) in *. unfold worldOf in Ho. cbn in Ho.
    rewrite insert_id by done. by destruct (view _).
  - wstep. destruct (fwrite (worldOf h) path (x :: data)) as [ok w] eqn:E. eapply wps_files; [exact E|].
    pose proof (fwrite_reliable (worldOf h) path (x :: data) ltac:(done)) as Hr. rewrite E in Hr. cbn in Hr. subst ok.
    wstep. apply HP. destruct (fwrite_law _ _ _ _ _ E) as (c & -> & Hc). destruct (Hc eq_refl) as [_ ->]. by rewrite Ho.
Qed.

(** ** The messages *)

(** The path of a key file and of a recipe file. *)
Definition keyPath (name : bytes) : bytes := KEY_STORE ++ flatName name.
Definition recipePath (name : bytes) : bytes := RECIPE_FILES ++ flatName name.

Definition goodFileName (name : bytes) : Prop :=
  name <> [] /\ (Byte.x00 ∉ name) /\ (length RECIPE_FILES + length name < 256)%nat.

(** The environment with a file [path] of content [c]. *)
Definition withFile (w w' : W) (path c : bytes) : Prop := view w' = set_files (view w) (<[path := c]> (files (view w))).

Lemma withFile_twice w1 w2 w3 path c2 c3 : withFile w1 w2 path c2 -> withFile w2 w3 path c3 -> withFile w1 w3 path c3.
Proof. unfold withFile. intros E2 E3. rewrite E3, E2. unfold set_files. cbn. by rewrite insert_insert_eq. Qed.

Lemma withFile_lookup w w' path c : withFile w w' path c -> files (view w') !! path = Some c.
Proof. intros ->. cbn. apply lookup_insert_eq. Qed.

Lemma handleKey_spec {ret} name key rest l h (P : Locals -> Handler C -> Prop) (Q : ret -> Handler C -> Prop) :
  goodFileName name -> (4 <= length (buffer l))%nat -> Z.of_nat (length key) < 2 ^ 31 ->
  inbox (conn h) = le32 (Z.of_nat (length key)) ++ le32 (Z.of_nat (length name)) ++ name ++ key ++ rest ->
  (forall l' w c, length (buffer l') = length (buffer l) -> withFile (worldOf h) w (keyPath name) key -> received (conn h) c rest ->
     P l' (inWorld h w c)) ->
  wps (handleKey l) P Q h.
Proof.
  intros (Hne & Hz & Hl) Hb Hk Hi HP. unfold handleKey. wstep.
  eapply recvLength_spec; [exact Hi|done|unfold int32; lia|]. intros c1 l1 HR1 Hb1. wstep.
  eapply (recvName_spec KEY_STORE name (key ++ rest)); [by destruct HR1|lia|done|done|cbn in *; lia|].
  intros c2 l2 HR2 Hb2. rewrite !inWorld_conn, worldOf_inWorld, inWorld_twice.
  wstep. eapply wps_lift; [rewrite sz_ok by lia; rewrite Nat2Z.id; reflexivity|].
  unfold newMemory. wstep. wstep. set (kb := uninit _ _). assert (length kb = length key) as Hkl by apply uninit_length.
  wstep. apply opened_wb_spec. rewrite worldOf_inWorld. intros w1 E1. rewrite inWorld_twice. fold (withFile (worldOf h) w1 (keyPath name) []) in E1.
  wstep. eapply (recvAll_spec _ _ _ _ key rest); [lia|lia|lia|by destruct HR2|lia|].
  intros c3 HR3. change (Z.to_nat 0) with 0%nat. rewrite take_0, Nat2Z.id, <- Hkl, drop_ge, app_nil_r by lia. cbn [app].
  rewrite inWorld_conn, worldOf_inWorld, inWorld_twice.
  wstep. apply (append_spec (keyPath name) key []); rewrite worldOf_inWorld; [by apply withFile_lookup in E1|].
  cbn [app]. intros w2 E2. rewrite inWorld_twice. wstep.
  apply HP; [congruence| |cbn; eapply received_trans; [exact HR1|]; by eapply received_trans].
  by eapply withFile_twice.
Qed.

Lemma sendAll_spec {ret} data h (P : unit -> Handler C -> Prop) (Q : ret -> Handler C -> Prop) :
  (forall w msgs, view w = {| contents := contents (view (worldOf h)); files := files (view (worldOf h));
       sent := sent (view (worldOf h)) ++ msgs |} -> mjoin msgs = data -> P tt (inWorld h w (conn h))) ->
  wps (sendAll (length data) data (Z.of_nat (length data)) 0) P Q h.
Proof.
  intros HP. destruct (length data) as [|n] eqn:En.
  - cbn [sendAll]. change (0 <? Z.of_nat 0) with false. cbv iota. wstep. apply nil_length_inv in En as ->. pose proof (HP (worldOf h) []) as HP'. unfold inWorld, worldOf in HP'.
    rewrite cl_same in HP'. destruct h. apply HP'; [|done]. rewrite app_nil_r. by destruct (view _).
  - cbn [sendAll]. rewrite (proj2 (Z.ltb_lt _ _)) by lia. wstep. eapply wps_lift.
    { rewrite !sz_ok by lia. cbn [mbind res_bind]. rewrite rd_ok by lia. reflexivity. }
    change (Z.to_nat 0) with 0%nat. rewrite drop_0, take_ge by lia. wstep.
    destruct (send (worldOf h) data) as [k w] eqn:E. eapply wps_files; [exact E|].
    pose proof (send_reliable (worldOf h) data) as Hr. rewrite E in Hr. cbn in Hr.
    assert (forall f d, sendAll (ret := ret) (C := C) f d (Z.of_nat (S n)) (0 + k) = mret tt) as Estop.
    { intros f d. destruct f; cbn [sendAll]; rewrite (proj2 (Z.ltb_ge _ _)) by lia; done. }
    rewrite Estop. wstep. apply (HP w [data]); [|cbn; by rewrite app_nil_r].
    by rewrite (send_law _ _ _ _ E Hr).
Qed.

Lemma handleGetKey_spec {ret} name key rest l h (P : option Locals -> Handler C -> Prop) (Q : ret -> Handler C -> Prop) :
  goodFileName name -> (4 <= length (buffer l))%nat -> Z.of_nat (length key) < 2 ^ 31 ->
  inbox (conn h) = le32 (Z.of_nat (length name)) ++ name ++ rest ->
  files (view (worldOf h)) !! keyPath name = Some key ->
  (forall l' w c msgs, length (buffer l') = length (buffer l) ->
     view w = {| contents := contents (view (worldOf h)); files := files (view (worldOf h)); sent := sent (view (worldOf h)) ++ msgs |} ->
     mjoin msgs = le32 (Z.of_nat (length key)) ++ key -> received (conn h) c rest -> P (Some l') (inWorld h w c)) ->
  wps (handleGetKey l) P Q h.
Proof.
  intros (Hne & Hz & Hl) Hb Hk Hi Hf HP. unfold handleGetKey. wstep.
  eapply (recvName_spec KEY_STORE name rest); [exact Hi|done|done|done|cbn in *; lia|].
  intros c1 l1 HR1 Hb1. rewrite inWorld_conn. wstep. unfold theFiles. wstep.
  change (core_world (core (inWorld h (worldOf h) c1))) with (worldOf (inWorld h (worldOf h) c1)). rewrite worldOf_inWorld.
  fold (keyPath name). rewrite fopen_rb_reliable by (by rewrite Hf). cbn [negb].
  wstep. eapply wps_lift; [rewrite (fsize_law _ _ _ Hf), sint_ok by lia; reflexivity|].
  wstep. eapply wps_lift; [rewrite sz_ok by lia; rewrite Nat2Z.id; reflexivity|].
  unfold newMemory. wstep. wstep. set (u := uninit _ _). assert (length u = length key) as Hu by apply uninit_length.
  wstep. eapply wps_lift.
  { rewrite fread_reliable, Hf. change (default [] (Some key)) with key. rewrite drop_0, take_ge by lia. rewrite wr_ok by lia. reflexivity. }
  rewrite take_0, drop_ge, app_nil_r by lia. cbn [app]. wstep.
  destruct (send (worldOf h) (le32 (Z.of_nat (length key)))) as [k w] eqn:E.
  eapply wps_files; [rewrite worldOf_inWorld; exact E|].
  pose proof (send_reliable (worldOf h) (le32 (Z.of_nat (length key)))) as Hr. rewrite E in Hr. cbn [fst] in Hr.
  pose proof (send_law _ _ _ _ E Hr) as Hv.
  wstep. apply sendAll_spec. rewrite !inWorld_twice, !worldOf_inWorld. intros w2 msgs Hv2 Hm. rewrite inWorld_twice. wstep.
  apply (HP l1 w2 c1 (le32 (Z.of_nat (length key)) :: msgs)); [done| | |done].
  - rewrite Hv2, Hv. cbn. by rewrite <- app_assoc.
  - change (mjoin (le32 (Z.of_nat (length key)) :: msgs)) with (le32 (Z.of_nat (length key)) ++ mjoin msgs). by rewrite Hm.
Qed.

Lemma recvRecipe_spec {ret} fuel : forall path keybuffer size total data rest old h (P : unit -> Handler C -> Prop) (Q : ret -> Handler C -> Prop),
  length keybuffer = (fileRecipeEntrySize_ * 1000)%nat -> 0 <= total -> Z.of_nat (length data) = size - total ->
  (length data <= fuel)%nat -> inbox (conn h) = data ++ rest -> files (view (worldOf h)) !! path = Some old ->
  (forall w c, withFile (worldOf h) w path (old ++ data) -> received (conn h) c rest -> P tt (inWorld h w c)) ->
  wps (recvRecipe fuel path keybuffer size total) P Q h.
Proof.
  induction fuel as [|fuel IH]; intros path kb size total data rest old h P Q Hkb Ht Hd Hf Hi Ho HP.
  all: cbn [recvRecipe]; destruct (Z.ltb_spec total size) as [Hlt|Hge]; [try lia|].
  1, 3: wstep; assert (data = []) as -> by (apply nil_length_inv; lia); pose proof (HP (worldOf h) (conn h)) as HP';
    rewrite <- inWorld_conn in HP'; destruct h; apply HP'; [|done];
    unfold withFile; rewrite app_nil_r, insert_id by done; by destruct (view _).
  set (n := Z.to_nat (Z.min (size - total) (Z.of_nat fileRecipeEntrySize_ * 1000))).
  assert (0 < n <= length data)%nat as Hn by (unfold n, fileRecipeEntrySize_; lia).
  assert (n <= length kb)%nat as Hnk by (rewrite Hkb; unfold n, fileRecipeEntrySize_; lia).
  wstep. eapply wps_lift; [rewrite sz_ok by (unfold fileRecipeEntrySize_; lia); reflexivity|]. fold n.
  wstep. apply wps_onConn. apply recv_some; [lia|rewrite Hi; lens|lia|].
  intros k c1 Hk _ HM. rewrite Hi, take_app_le in * by lia. cbv beta match. rewrite take_0. cbn [app Nat.add].
  assert (received (conn h) c1 (drop k data ++ rest)) as HR1.
  { eapply moved_received; [exact HM|]. by rewrite app_assoc, take_drop. }
  assert (length (take k data) = k) as Hlk by (rewrite length_take; lia).
  wstep. eapply wps_lift; [rewrite sz_ok by lia; cbn [mbind res_bind]; rewrite Nat2Z.id; by apply rd_front|].
  rewrite inWorld_conn. wstep. apply (append_spec path (take k data) old); [by rewrite worldOf_inWorld|].
  rewrite worldOf_inWorld. intros w1 E1. rewrite inWorld_twice. fold (withFile (worldOf h) w1 path (old ++ take k data)) in E1.
  cbn [conn inWorld].
  eapply (IH path _ size (total + Z.of_nat k) (drop k data) rest (old ++ take k data)).
  - rewrite length_app, length_drop. lia.
  - lia.
  - rewrite length_drop. lia.
  - rewrite length_drop. lia.
  - by destruct HR1.
  - rewrite worldOf_inWorld. by eapply withFile_lookup.
  - rewrite worldOf_inWorld. intros w2 c2 E2 HR2. rewrite inWorld_twice. cbn [conn inWorld] in HR2.
    apply HP; [|by eapply received_trans]. rewrite <- app_assoc, take_drop in E2. by eapply withFile_twice.
Qed.

Lemma handleRecipe_spec {ret} name head body rest l h (P : unit -> Handler C -> Prop) (Q : ret -> Handler C -> Prop) :
  goodFileName name -> (4 <= length (buffer l))%nat -> mutex h = false ->
  length head = fileRecipeHeadSize_ -> Z.of_nat (length (head ++ body)) < 2 ^ 31 ->
  inbox (conn h) = le32 (Z.of_nat (length (head ++ body))) ++ le32 (Z.of_nat (length name)) ++ name ++ (head ++ body) ++ rest ->
  (forall w c, withFile (worldOf h) w (recipePath name) (default [] (files (view (worldOf h)) !! recipePath name) ++ head ++ body) ->
     received (conn h) c rest -> P tt (inWorld h w c)) ->
  wps (handleRecipe l) P Q h.
Proof.
  intros (Hne & Hz & Hl) Hb Hmu Hh Hk Hi HP. unfold fileRecipeHeadSize_ in *. rewrite length_app in Hk, Hi. rewrite <- app_assoc in Hi.
  unfold handleRecipe. wstep. unfold wps at 1, lock. rewrite Hmu.
  set (h1 := {| core := core h; conn := conn h; mutex := true |}).
  wstep. eapply recvLength_spec; [exact Hi|done|unfold int32; lia|]. intros c1 l1 HR1 Hb1. wstep.
  unfold newMemory. wstep. set (kb := uninit _ _). assert (length kb = (fileRecipeEntrySize_ * 1000)%nat) as Hkl by apply uninit_length.
  wstep. eapply (recvName_spec RECIPE_FILES name (head ++ body ++ rest)); [by destruct HR1|lia|done|done|done|].
  intros c2 l2 HR2 Hb2. rewrite !inWorld_conn, worldOf_inWorld, inWorld_twice. fold (recipePath name).
  wstep. apply opened_ab_spec. rewrite worldOf_inWorld. intros w1 E1. rewrite inWorld_twice.
  set (old := default [] (files (view (worldOf h1)) !! recipePath name)) in *. fold (withFile (worldOf h1) w1 (recipePath name) old) in E1.
  wstep. wstep. set (hb := uninit _ _). assert (length hb = 24%nat) as Hhb by apply uninit_length.
  wstep. apply wps_onConn. cbn [conn inWorld].
  pose proof (recv_small (ret := False) head (body ++ rest) hb c2 (fun _ _ => False)) as HS. rewrite Hh in HS.
  eapply wps_post; [apply HS; [lia|by destruct HR2|lia]|]. clear HS. intros ? c3 (-> & HR3).
  rewrite drop_ge, app_nil_r by lia. rewrite inWorld_conn, worldOf_inWorld, inWorld_twice.
  wstep. apply (append_spec (recipePath name) head old); rewrite worldOf_inWorld; [by apply withFile_lookup in E1|].
  intros w2 E2. rewrite inWorld_twice. fold (withFile w1 w2 (recipePath name) (old ++ head)) in E2.
  wstep. eapply wps_lift; [rewrite sint_ok by (unfold fileRecipeHeadSize_; lia); reflexivity|]. unfold fileRecipeHeadSize_.
  wstep. eapply (recvRecipe_spec _ (recipePath name) kb _ 0 body rest (old ++ head)).
  - done.
  - lia.
  - lia.
  - lia.
  - cbn. by destruct HR3.
  - rewrite worldOf_inWorld. by eapply withFile_lookup.
  - rewrite worldOf_inWorld. intros w3 c4 E3 HR4. rewrite inWorld_twice. unfold wps, unlock. cbn [mutex inWorld h1].
    cbn [core inWorld h1 conn]. rewrite <- app_assoc in E3.
    assert ({| core := core_setWorld (core h) w3; conn := c4; mutex := false |} = inWorld h w3 c4) as -> by (unfold inWorld; by rewrite Hmu).
    apply HP.
    + change (worldOf h) with (worldOf h1). fold old. do 2 (eapply withFile_twice; [eassumption|]). done.
    + eapply received_trans; [exact HR1|]. eapply received_trans; [exact HR2|]. by eapply received_trans.
Qed.
End Files.
