(* ===== verification/KeyFiles.v ===== *)
(** * Key files

    Uploader::uploadKeyFile sends the encrypted key file of a cloud to its metadata
    server, Downloader::downloadKeyFile gets it back.  The files are encrypted and
    decrypted by the program openssl, run with [system]; the content of the encrypted
    file is a parameter. *)

From Stdlib Require Import Strings.String DecimalString Lia.
From stdpp Require Import base list numbers gmap.
From coqutil Require Import Byte.
From S2P Require Import Prelude Structs FileNames World CryptoPrimitive Socket Server ServerProof ServerFiles.

Local Open Scope Z_scope.

(** [%d] of a number that is not negative *)
Definition decimal (n : nat) : bytes := list_byte_of_string (NilZero.string_of_uint (Nat.to_uint n)).

(** [sprintf(buffer, ...)] with a result of 255 characters at most *)
Definition sprintf256 {R} (s : bytes) : res R bytes := if decide (length s < 256)%nat then Ok s else UB.

Definition encFileName (name : bytes) (index : nat) : bytes :=
  name ++ list_byte_of_string "-share-"%string ++ decimal index ++ list_byte_of_string "-enc.key"%string.

Section Client.
Context {N : Network} {MM : Memory}.

(** [sys] tells whether the three calls of [system] return, [enc] is the content of the
    encrypted file if it can be opened. *)
Definition uploadKeyFile {ret} (name : bytes) (index : nat) (sys : bool * bool * bool) (enc : option bytes) : SM Conn ret Z :=
  call (
    file ← lift (sprintf256 (encFileName name index));
    if negb sys.1.1 then ret_ 0 else
    if negb sys.1.2 then ret_ 0 else
    match enc with
    | None => undefined
    | Some content =>
        size ← lift (sint (Z.of_nat (length content)));
        _ ← genericSend (le32 KEY_RECIPE) 4;
        _ ← genericSend (le32 size) 4;
        _ ← genericSend (le32 (Z.of_nat (length file))) 4;
        _ ← genericSend file (Z.of_nat (length file));
        _ ← genericSend content size;
        if negb sys.2 then ret_ 0 else ret_ 1
    end).

(** The messages of downloadKeyFile for one cloud: what is written to the local file. *)
Definition fetchKeyFile {ret} (name : bytes) (i : nat) : SM Conn ret bytes :=
  file ← lift (sprintf256 (encFileName name i));
  _ ← genericSend (le32 GET_KEY_RECIPE) 4;
  _ ← genericSend (le32 (Z.of_nat (length file))) 4;
  _ ← genericSend file (Z.of_nat (length file));
  '(_, n) ← genericDownload (fresh 4) 4;
  len ← lift (getI32 n 0);
  size ← lift (sz len);
  '(_, keybuffer) ← genericDownload (fresh size) len;
  mret keybuffer.
End Client.

Section ClientLaws.
Context {N : Network} {NL : NetworkLaws} {MM : Memory} {ML : MemoryLaws}.

Lemma genericSend_spec {ret} raw c (Q : ret -> Conn -> Prop) :
  wps (genericSend raw (Z.of_nat (length raw))) (fun _ c' => moved c c' [] raw) Q c.
Proof.
  unfold genericSend. wstep. eapply wps_post; [apply (sendLoop_spec _ raw (Z.of_nat (length raw)) 0); lia|].
  intros n c' [_ HM]. rewrite Z.sub_0_r, Nat2Z.id in HM. change (Z.to_nat 0) with 0%nat in HM. by rewrite drop_0, take_ge in HM by lia.
Qed.

Lemma genericSend_int {ret} x c (Q : ret -> Conn -> Prop) :
  wps (genericSend (le32 x) 4) (fun _ c' => moved c c' [] (le32 x)) Q c.
Proof. pose proof (genericSend_spec (ret := ret) (le32 x) c Q) as H. by rewrite length_le32 in H. Qed.

(** The messages about a key file. *)
Definition keyMessage (name key : bytes) : bytes :=
  le32 KEY_RECIPE ++ le32 (Z.of_nat (length key)) ++ le32 (Z.of_nat (length name)) ++ name ++ key.
Definition getKeyMessage (name : bytes) : bytes := le32 GET_KEY_RECIPE ++ le32 (Z.of_nat (length name)) ++ name.

Lemma uploadKeyFile_spec {ret} name index key c (Q : ret -> Conn -> Prop) :
  (length (encFileName name index) < 256)%nat -> Z.of_nat (length key) < 2 ^ 31 ->
  wps (uploadKeyFile name index (true, true, true) (Some key)) (fun r c' => r = 1 /\
    moved c c' [] (keyMessage (encFileName name index) key)) Q c.
Proof.
  intros Hn Hk. unfold uploadKeyFile. wstep. wstep. eapply wps_lift; [unfold sprintf256; by rewrite decide_True|].
  set (file := encFileName name index) in *. cbn [fst snd negb]. wstep.
  eapply wps_lift; [rewrite sint_ok by lia; reflexivity|].
  wstep. eapply wps_post; [apply genericSend_int|]. intros ? c1 M1.
  wstep. eapply wps_post; [apply genericSend_int|]. intros ? c2 M2.
  wstep. eapply wps_post; [apply genericSend_int|]. intros ? c3 M3.
  wstep. eapply wps_post; [apply genericSend_spec|]. intros ? c4 M4.
  wstep. eapply wps_post; [apply genericSend_spec|]. intros ? c5 M5. wstep. split; [done|].
  exact (moved_trans _ _ _ _ _ _ _ M1 (moved_trans _ _ _ _ _ _ _ M2 (moved_trans _ _ _ _ _ _ _ M3 (moved_trans _ _ _ _ _ _ _ M4 M5)))).
Qed.

Lemma fetchKeyFile_spec {ret} name index key rest c (Q : ret -> Conn -> Prop) :
  (length (encFileName name index) < 256)%nat -> Z.of_nat (length key) < 2 ^ 31 ->
  inbox c = le32 (Z.of_nat (length key)) ++ key ++ rest ->
  wps (fetchKeyFile name index) (fun r c' => r = key /\ inbox c' = rest /\
    outbox c' = outbox c ++ getKeyMessage (encFileName name index)) Q c.
Proof.
  intros Hn Hk Hi. unfold fetchKeyFile. wstep. eapply wps_lift; [unfold sprintf256; by rewrite decide_True|].
  set (file := encFileName name index) in *.
  wstep. eapply wps_post; [apply genericSend_int|]. intros ? c1 M1.
  wstep. eapply wps_post; [apply genericSend_int|]. intros ? c2 M2.
  wstep. eapply wps_post; [apply genericSend_spec|]. intros ? c3 M3.
  pose proof (moved_trans _ _ _ _ _ _ _ M1 (moved_trans _ _ _ _ _ _ _ M2 M3)) as [Mi Mo]. cbn [app] in Mi, Mo. rewrite Mi in Hi.
  wstep. eapply wps_post.
  { pose proof (genericDownload_spec (ret := ret) (fresh 4) c3 (le32 (Z.of_nat (length key))) (key ++ rest) Q) as H.
    rewrite length_le32 in H. apply H; [rewrite fresh_length; lia|exact Hi]. }
  intros ? c4 (-> & [_ O4] & Hi4). rewrite drop_ge, app_nil_r by (rewrite fresh_length; lia).
  wstep. eapply wps_lift; [apply (getI32_at [] _ []); [by rewrite app_nil_r|done|unfold int32; lia]|].
  wstep. eapply wps_lift; [rewrite sz_ok by lia; rewrite Nat2Z.id; reflexivity|].
  wstep. eapply wps_post; [eapply genericDownload_spec; [by rewrite fresh_length|exact Hi4]|].
  intros ? c5 (-> & [_ O5] & Hi5). wstep. rewrite drop_ge, app_nil_r by (rewrite fresh_length; lia).
  split; [done|]. split; [done|]. by rewrite O5, O4, Mo, !app_nil_r.
Qed.
End ClientLaws.

(** ** The metadata server *)

Section Roundtrip.
Context {W C : Type} {WW : World W} {WL : WorldLaws W} {REL : ReliableWorld W} {SSL : OpenSSL} {CC : Core W C} {CL : CoreLaws W C}.
Context {N : Network} {NL : NetworkLaws} {SW : SmallWhole} {SL : ServerLimits} {MM : Memory} {ML : MemoryLaws}.
Implicit Types h : Handler C.

(** The thread up to the loop. *)
Lemma socketMeta_start {ret} uid rest rounds fuel h (P : unit -> Handler C -> Prop) (Q : ret -> Handler C -> Prop) :
  int32 uid -> (4 <= BUFFER_LEN)%nat -> inbox (conn h) = htonl uid ++ rest ->
  (forall hashObj l c, length (buffer l) = BUFFER_LEN -> received (conn h) c rest ->
     wps (metaLoop rounds fuel uid hashObj l) P Q (withConn h c)) ->
  wps (SocketHandlerMeta rounds fuel true) P Q h.
Proof.
  intros Hu Hb Hi HP. unfold SocketHandlerMeta, newMemory. wstep. wstep. wstep. wstep. wstep.
  eapply recvUser_spec; [done|exact Hi|rewrite uninit_length; lia|]. intros c b HR Hl. rewrite uninit_length in Hl. wstep.
  assert (exists crypto, forall R, new_CryptoPrimitive (R := R) true SHA256_TYPE = Ok crypto) as [crypto Ec] by (by eexists).
  eapply wps_lift; [apply Ec|]. apply HP; [|done]. cbn. by rewrite length_replicate.
Qed.

Lemma storeKey_session uid name key rounds fuel h :
  int32 uid -> (4 <= BUFFER_LEN)%nat -> goodFileName name -> Z.of_nat (length key) < 2 ^ 31 -> (2 <= rounds)%nat ->
  inbox (conn h) = htonl uid ++ keyMessage name key ->
  exists h', SocketHandlerMeta (ret := False) rounds fuel true h = Ok (tt, h') /\ mutex h' = mutex h /\
    withFile (worldOf h) (worldOf h') (keyPath name) key.
Proof.
  intros Hu Hb Hn Hk Hr Hi.
  destruct (wps_result (ret := False) (SocketHandlerMeta rounds fuel true)
    (fun _ h' => mutex h' = mutex h /\ withFile (worldOf h) (worldOf h') (keyPath name) key) h) as ([] & h' & E & HA); [|by exists h'].
  eapply socketMeta_start; [done|done|exact Hi|]. intros crypto l c Hl [Ei _].
  destruct rounds as [|[|rounds]]; [lia..|]. cbn [metaLoop]. wstep. unfold keyMessage in Ei.
  eapply recvInt_spec; [exact Ei|lia|unfold int32, KEY_RECIPE; lia|]. intros c1 [Ei1 _].
  change (4 =? 0) with false. change (KEY_RECIPE =? KEY_RECIPE) with true. cbv iota. wstep.
  eapply (handleKey_spec name key []); [done| |done|cbn; by rewrite app_nil_r|].
  { cbn. rewrite length_app, length_le32. lia. }
  intros l' w c2 Hl' HF [Ei2 _]. apply metaLoop_closed; [done| |].
  { rewrite Hl'. cbn. rewrite length_app, length_le32. lia. }
  intros c3 _ _. split; [done|]. cbn. unfold worldOf at 2. cbn. rewrite cl_world. done.
Qed.

Lemma fetchKey_session uid name key rounds fuel h :
  int32 uid -> (4 <= BUFFER_LEN)%nat -> goodFileName name -> Z.of_nat (length key) < 2 ^ 31 -> (2 <= rounds)%nat ->
  files (view (worldOf h)) !! keyPath name = Some key ->
  inbox (conn h) = htonl uid ++ getKeyMessage name ->
  exists h' msgs, SocketHandlerMeta (ret := False) rounds fuel true h = Ok (tt, h') /\
    sent (view (worldOf h')) = sent (view (worldOf h)) ++ msgs /\ mjoin msgs = le32 (Z.of_nat (length key)) ++ key.
Proof.
  intros Hu Hb Hn Hk Hr Hf Hi.
  destruct (wps_result (ret := False) (SocketHandlerMeta rounds fuel true)
    (fun _ h' => exists msgs, sent (view (worldOf h')) = sent (view (worldOf h)) ++ msgs /\
       mjoin msgs = le32 (Z.of_nat (length key)) ++ key) h) as ([] & h' & E & msgs & HA); [|by exists h', msgs].
  eapply socketMeta_start; [done|done|exact Hi|]. intros crypto l c Hl [Ei _].
  destruct rounds as [|[|rounds]]; [lia..|]. cbn [metaLoop]. wstep. unfold getKeyMessage in Ei.
  eapply recvInt_spec; [exact Ei|lia|unfold int32, GET_KEY_RECIPE; lia|]. intros c1 [Ei1 _].
  change (4 =? 0) with false. change (GET_KEY_RECIPE =? KEY_RECIPE) with false.
  change (GET_KEY_RECIPE =? GET_KEY_RECIPE) with true. cbv iota. wstep.
  eapply (handleGetKey_spec name key []); [done| |done|cbn; by rewrite app_nil_r|done|].
  { cbn. rewrite length_app, length_le32. lia. }
  intros l' w c2 msgs Hl' HV Hm [Ei2 _]. apply metaLoop_closed; [done| |].
  { rewrite Hl'. cbn. rewrite length_app, length_le32. lia. }
  intros c3 _ _. exists msgs. split; [|done]. unfold worldOf at 1. cbn. by rewrite cl_world, HV.
Qed.

(** The client's end of a connection behind the constructor of Socket, and a server's
    new connection with [received] coming in. *)
Definition greeted (uid : Z) (answers : bytes) : Conn := {| inbox := answers; outbox := htonl uid; calls := 1 |}.
Definition connected h (sentBytes : bytes) : Handler C :=
  {| core := core h; conn := {| inbox := sentBytes; outbox := []; calls := 0 |}; mutex := mutex h |}.

End Roundtrip.
