(* ===== verification/RecipeFiles.v ===== *)
(** * Recipe files

    Downloader::uploadRetrivedRecipeFile sends the recipe file the client has rebuilt
    to a metadata server, which appends it to a file that the data server reads when
    the download starts. *)

From Stdlib Require Import Strings.String Lia.
From stdpp Require Import base list numbers gmap.
From coqutil Require Import Byte.
From S2P Require Import Prelude Structs FileNames World CryptoPrimitive MinRestoreProof Socket Server ServerProof ServerFiles KeyFiles.

Local Open Scope Z_scope.

(** The name of the recipe file on the servers. *)
Definition recipeFileName (name : bytes) (index : nat) : bytes :=
  name ++ list_byte_of_string "-"%string ++ decimal index ++ list_byte_of_string ".recipe"%string.

Section Client.
Context {N : Network} {MM : Memory}.

(** The loop that reads the file and sends it, 1000 entries at a time. *)
Fixpoint sendRecipe {ret} (fuel : nat) (content : bytes) (size totalRead : Z) : SM Conn ret unit :=
  if totalRead <? size then
    match fuel with
    | O => fun _ => Hang
    | S fuel' =>
        o ← lift (sz totalRead);
        let part := take (fileRecipeEntrySize_ * 1000) (drop o content) in
        _ ← genericSend part (Z.of_nat (length part));
        sendRecipe fuel' content size (totalRead + Z.of_nat (length part))
    end
  else mret tt.

(** [file] is the content of the local recipe file if it can be opened; userID_ and
    fileSizeCounter[index] are members. *)
Definition uploadRetrivedRecipeFile {ret} (name : bytes) (index : nat) (userID_ fileSizeCounter : Z) (file : option bytes)
  : SM Conn ret Z :=
  target ← lift (sprintf256 (recipeFileName name index));
  match file with
  | None => mret (-2)
  | Some content =>
      size ← lift (sint (Z.of_nat (length content)));
      let shareChunkNumber := size / Z.of_nat fileRecipeEntrySize_ in
      head ← lift (head ← setI32 (fresh fileRecipeHeadSize_) 0 userID_;
                   head ← setI64 head 8 fileSizeCounter;
                   setI32 head 16 shareChunkNumber);
      uploadSize ← lift (sint (size + Z.of_nat fileRecipeHeadSize_));
      _ ← genericSend (le32 FILE_RECIPE) 4;
      _ ← genericSend (le32 uploadSize) 4;
      _ ← genericSend (le32 (Z.of_nat (length target))) 4;
      _ ← genericSend target (Z.of_nat (length target));
      _ ← genericSend head (Z.of_nat fileRecipeHeadSize_);
      _ ← sendRecipe (length content) content size 0;
      mret (-2)
  end.
End Client.

Definition recipeMessage (name recipe : bytes) : bytes :=
  le32 FILE_RECIPE ++ le32 (Z.of_nat (length recipe)) ++ le32 (Z.of_nat (length name)) ++ name ++ recipe.

(** The recipe of entries, with the padding of new memory. *)
Definition recipeOfEntries {MM : Memory} (userID fileSize : Z) (es : list RecipeEntry) : Recipe :=
  {| rc_user := userID; rc_pad1 := take 4 (drop 4 (fresh 24)); rc_fileSize := fileSize;
     rc_pad2 := drop 20 (fresh 24); rc_entries := es |}.

Section ClientLaws.
Context {N : Network} {NL : NetworkLaws} {MM : Memory} {ML : MemoryLaws}.

Lemma sendRecipe_spec {ret} fuel : forall content total c (Q : ret -> Conn -> Prop),
  (total <= length content)%nat -> (length content - total <= fuel)%nat ->
  wps (sendRecipe fuel content (Z.of_nat (length content)) (Z.of_nat total)) (fun _ c' => moved c c' [] (drop total content)) Q c.
Proof.
  induction fuel as [|fuel IH]; intros content total c Q Ht Hf; cbn [sendRecipe].
  all: destruct (Z.ltb_spec (Z.of_nat total) (Z.of_nat (length content))) as [Hlt|Hge]; [try lia|].
  1, 3: wstep; rewrite drop_ge by lia; apply moved_refl.
  wstep. eapply wps_lift; [rewrite sz_ok by lia; rewrite Nat2Z.id; reflexivity|].
  set (part := take (fileRecipeEntrySize_ * 1000) (drop total content)).
  assert (0 < length part <= length content - total)%nat as Hp by (unfold part, fileRecipeEntrySize_; rewrite length_take, length_drop; lia).
  wstep. eapply wps_post; [apply genericSend_spec|]. intros ? c1 M1. rewrite <- Nat2Z.inj_add.
  eapply wps_post; [apply IH; lia|]. intros ? c2 M2. pose proof (moved_trans _ _ _ _ _ _ _ M1 M2) as HM.
  assert (part ++ drop (total + length part) content = drop total content) as E; [|by rewrite E in HM].
  rewrite <- drop_drop. unfold part. rewrite length_take, length_drop. rewrite <- (take_drop (fileRecipeEntrySize_ * 1000) (drop total content)) at 3.
  f_equal. destruct (decide (fileRecipeEntrySize_ * 1000 <= length content - total)%nat).
  - by rewrite Nat.min_l by lia.
  - rewrite Nat.min_r by lia. rewrite !drop_ge; [done|rewrite length_drop; lia|rewrite length_drop; lia].
Qed.

Lemma length_encodeEntries es : Forall wfEntry es -> length (encodeEntries es) = (fileRecipeEntrySize_ * length es)%nat.
Proof.
  intros HF. unfold encodeEntries. induction HF as [|e es He _ IH]; [done|]. rewrite fmap_cons.
  change (mjoin (encodeEntry e :: (encodeEntry <$> es))) with (encodeEntry e ++ mjoin (encodeEntry <$> es)).
  rewrite length_app, length_encodeEntry by done. cbn [length]. lia.
Qed.

Lemma recipeOfEntries_wf userID fileSize es :
  int64 fileSize -> Forall wfEntry es -> int32 (Z.of_nat (length es)) -> wfRecipe (recipeOfEntries userID fileSize es).
Proof.
  intros. split; cbn [rc_pad1 rc_pad2 rc_fileSize rc_entries recipeOfEntries]; try done.
  - rewrite length_take, length_drop, fresh_length. lia.
  - rewrite length_drop, fresh_length. lia.
Qed.

(** The header in memory that was not initialised. *)
Lemma recipeHead_bytes {R} userID fileSize n :
  (head ← setI32 (R := R) (fresh fileRecipeHeadSize_) 0 userID; head ← setI64 head 8 fileSize; setI32 head 16 n)
  = Ok (le32 userID ++ take 4 (drop 4 (fresh 24)) ++ le64 fileSize ++ le32 n ++ drop 20 (fresh 24)).
Proof.
  unfold fileRecipeHeadSize_. set (b := fresh 24). assert (length b = 24)%nat as Hb by apply fresh_length.
  assert (b = take 4 b ++ take 4 (drop 4 b) ++ take 8 (drop 8 b) ++ take 4 (drop 16 b) ++ drop 20 b) as Eb.
  { rewrite <- (take_drop 4 b) at 1. f_equal. rewrite <- (take_drop 4 (drop 4 b)) at 1. f_equal. rewrite drop_drop.
    rewrite <- (take_drop 8 (drop (4 + 4) b)) at 1. f_equal. rewrite drop_drop.
    rewrite <- (take_drop 4 (drop (4 + 4 + 8) b)) at 1. f_equal. by rewrite drop_drop. }
  rewrite Eb at 1.
  rewrite (setI32_at [] (take 4 b) (take 4 (drop 4 b) ++ take 8 (drop 8 b) ++ take 4 (drop 16 b) ++ drop 20 b)); [|done|done|rewrite length_take; lia].
  cbn [mbind res_bind app].
  rewrite (setI64_at (le32 userID ++ take 4 (drop 4 b)) (take 8 (drop 8 b)) (take 4 (drop 16 b) ++ drop 20 b));
    [|by rewrite <- !app_assoc|rewrite length_app, length_le32, length_take, length_drop; lia|rewrite length_take, length_drop; lia].
  cbn [mbind res_bind].
  rewrite (setI32_at (le32 userID ++ take 4 (drop 4 b) ++ le64 fileSize) (take 4 (drop 16 b)) (drop 20 b)); [by rewrite <- !app_assoc|by rewrite <- !app_assoc|..].
  - rewrite !length_app, length_le32, length_le64, length_take, length_drop. lia.
  - rewrite length_take, length_drop. lia.
Qed.

Lemma uploadRecipe_spec {ret} name index userID fileSize es c (Q : ret -> Conn -> Prop) :
  (length (recipeFileName name index) < 256)%nat -> Forall wfEntry es ->
  Z.of_nat (length (encodeEntries es)) + 24 < 2 ^ 31 ->
  wps (uploadRetrivedRecipeFile name index userID fileSize (Some (encodeEntries es))) (fun r c' => r = -2 /\
    moved c c' [] (recipeMessage (recipeFileName name index) (encodeRecipe (recipeOfEntries userID fileSize es)))) Q c.
Proof.
  intros Hn Hes Hl. unfold uploadRetrivedRecipeFile. wstep. eapply wps_lift; [unfold sprintf256; by rewrite decide_True|].
  set (target := recipeFileName name index) in *. pose proof (length_encodeEntries es Hes) as Hel.
  assert (Z.of_nat (length (encodeEntries es)) / Z.of_nat fileRecipeEntrySize_ = Z.of_nat (length es)) as Ediv.
  { rewrite Hel. unfold fileRecipeEntrySize_. rewrite Nat2Z.inj_mul, Z.mul_comm, Z.div_mul; lia. }
  wstep. eapply wps_lift; [rewrite sint_ok by lia; reflexivity|]. rewrite Ediv.
  wstep. eapply wps_lift; [apply recipeHead_bytes|]. set (head := le32 userID ++ _).
  assert (length head = 24%nat) as Hhl.
  { unfold head. rewrite !length_app, !length_le32, length_le64, length_take, !length_drop, fresh_length. lia. }
  wstep. eapply wps_lift; [unfold fileRecipeHeadSize_; rewrite sint_ok by lia; reflexivity|].
  wstep. eapply wps_post; [apply genericSend_int|]. intros ? c1 M1.
  wstep. eapply wps_post; [apply genericSend_int|]. intros ? c2 M2.
  wstep. eapply wps_post; [apply genericSend_int|]. intros ? c3 M3.
  wstep. eapply wps_post; [apply genericSend_spec|]. intros ? c4 M4.
  wstep. unfold fileRecipeHeadSize_. rewrite <- Hhl. eapply wps_post; [apply genericSend_spec|]. intros ? c5 M5.
  wstep. eapply wps_post; [apply (sendRecipe_spec _ (encodeEntries es) 0); lia|]. intros ? c6 M6. wstep. split; [done|].
  pose proof (moved_trans _ _ _ _ _ _ _ M1 (moved_trans _ _ _ _ _ _ _ M2 (moved_trans _ _ _ _ _ _ _ M3
    (moved_trans _ _ _ _ _ _ _ M4 (moved_trans _ _ _ _ _ _ _ M5 M6))))) as HM. cbn [app] in HM. rewrite drop_0 in HM.
  assert (encodeRecipe (recipeOfEntries userID fileSize es) = head ++ encodeEntries es) as Er.
  { unfold encodeRecipe, encodeHead, head. cbn [rc_user rc_pad1 rc_fileSize rc_pad2 rc_entries recipeOfEntries]. by rewrite <- !app_assoc. }
  unfold recipeMessage. rewrite Er, length_app, Hhl. rewrite Nat2Z.inj_add, Z.add_comm. exact HM.
Qed.
End ClientLaws.

(** ** The metadata server *)

Section Store.
Context {W C : Type} {WW : World W} {WL : WorldLaws W} {REL : ReliableWorld W} {SSL : OpenSSL} {CC : Core W C} {CL : CoreLaws W C}.
Context {N : Network} {NL : NetworkLaws} {SW : SmallWhole} {SL : ServerLimits}.
Implicit Types h : Handler C.

(** A recipe is appended to what the file held; the thread ends. *)
Lemma storeRecipe_session uid name r rest rounds fuel h :
  int32 uid -> (4 <= BUFFER_LEN)%nat -> goodFileName name -> wfRecipe r -> Z.of_nat (length (encodeRecipe r)) < 2 ^ 31 ->
  (1 <= rounds)%nat -> mutex h = false ->
  inbox (conn h) = htonl uid ++ recipeMessage name (encodeRecipe r) ++ rest ->
  exists h', SocketHandlerMeta (ret := False) rounds fuel true h = Ok (tt, h') /\ mutex h' = false /\
    withFile (worldOf h) (worldOf h') (recipePath name)
      (default [] (files (view (worldOf h)) !! recipePath name) ++ encodeRecipe r).
Proof.
  intros Hu Hb Hn Hr Hk Hro Hmu Hi.
  destruct (wps_result (ret := False) (SocketHandlerMeta rounds fuel true)
    (fun _ h' => mutex h' = false /\ withFile (worldOf h) (worldOf h') (recipePath name)
      (default [] (files (view (worldOf h)) !! recipePath name) ++ encodeRecipe r)) h) as ([] & h' & E & HA); [|by exists h'].
  eapply socketMeta_start; [done|done|exact Hi|]. intros crypto l c Hl [Ei _].
  destruct rounds as [|rounds]; [lia|]. cbn [metaLoop]. wstep. unfold recipeMessage in Ei. rewrite <- app_assoc in Ei.
  eapply recvInt_spec; [exact Ei|lia|unfold int32, FILE_RECIPE; lia|]. intros c1 [Ei1 _].
  change (4 =? 0) with false. change (FILE_RECIPE =? KEY_RECIPE) with false. change (FILE_RECIPE =? GET_KEY_RECIPE) with false.
  change (FILE_RECIPE =? FILE_RECIPE) with true. cbv iota.
  eapply (handleRecipe_spec name (encodeHead r) (encodeEntries (rc_entries r)) rest); [done| |done| | | |].
  - cbn. rewrite length_app, length_le32. lia.
  - by apply length_encodeHead.
  - done.
  - cbn [conn withConn]. rewrite Ei1. unfold encodeRecipe. by rewrite <- !app_assoc.
  - intros w c2 HF _. split; [done|]. rewrite worldOf_inWorld. exact HF.
Qed.
End Store.
