(* ===== verification/DownloadProtocol.v ===== *)
(** * The download protocol

    The client stores the recipe of its file with the metadata server, and its
    download thread asks the data server for the file. *)

From stdpp Require Import base list numbers gmap.
From coqutil Require Import Byte.
From Stdlib Require Import Lia.
From S2P Require Import Prelude Structs FileNames World CryptoPrimitive MinDedupCore MinStages MinRestore ShareIndex MinInvariant MinRestoreProof MinTheorems Socket Server ServerProof DataSession ServerFiles KeyFiles RecipeFiles Downloader DownloaderProof.

Local Open Scope Z_scope.

Section DataServer.
Context {W : Type} {WW : World W} {WL : WorldLaws W} {REL : ReliableWorld W} {LM : Limits} {LOK : LimitsOk} {SSL : OpenSSL}.
Context {N : Network} {NL : NetworkLaws} {SL : ServerLimits} {SOK : ServerOk}.
Context (digest : bytes -> bytes).
Implicit Types h : Handler (minDedupCore W).

(** What a restore of the recipe [r] leaves behind and sends. *)
Definition restoredFrom (A : Index) (r : Recipe) (s s' : minDedupCore W) (shares payloads : list bytes) (pad : bytes) : Prop :=
  unlocked s' /\ contents (view (world s')) = contents (view (world s)) /\
  Forall2 (restoredShare digest A) (rc_entries r) shares /\ length pad = 4%nat /\
  grouped (fileHead (rc_fileSize r) (length (rc_entries r)) pad :: restoredPieces (rc_entries r) shares) payloads /\
  Forall (fun m => length m <= SHARE_FILE_BUFFER_SIZE)%nat payloads /\
  sent (view (world s')) = sent (view (world s)) ++ (message <$> payloads).

Lemma handleDownload_spec {ret} user crypto name r rest l h A nl k b
    (P : Locals -> Handler (minDedupCore W) -> Prop) (Q : ret -> Handler (minDedupCore W) -> Prop) :
  goodFileName name -> okLocals l -> (length name < BUFFER_LEN)%nat -> mutex h = false ->
  unlocked (core h) -> Inv digest A (core h) nl k b -> wfRecipe r ->
  files (view (world (core h))) !! recipePath name = Some (encodeRecipe r) ->
  Forall (fun e => is_Some (A (re_fp e))) (rc_entries r) ->
  inbox (conn h) = le32 (Z.of_nat (length name)) ++ name ++ rest ->
  (forall l' s' c shares payloads pad, okLocals l' -> restoredFrom A r (core h) s' shares payloads pad ->
     received (conn h) c rest -> P l' {| core := s'; conn := c; mutex := false |}) ->
  wps (handleDownload user crypto l) P Q h.
Proof.
  intros (Hne & Hz & Hl) [Hb Hm Hs] Hnl Hmu U HI Wr Hf HA Hi HP. pose proof so_int. pose proof so_buffer.
  unfold handleDownload. wstep. eapply (recvPackage_spec name rest); [exact Hi|lia|lia|lia|].
  intros c slack HR Hlen. destruct slack as [|z slack]; [rewrite app_nil_r in Hlen; lia|].
  wstep. eapply wps_lift.
  { rewrite sz_ok by lia. cbn [mbind res_bind]. rewrite Nat2Z.id. rewrite aset_ok by (rewrite length_app; cbn; lia).
    rewrite insert_app_r_alt by lia. rewrite Nat.sub_diag. reflexivity. }
  cbn [insert list_insert]. rewrite length_app in Hlen. cbn [length] in Hlen.
  wstep. eapply wps_lift; [apply slashes_spec; [done|rewrite length_app; cbn; lia]|].
  wstep. eapply wps_lift; [by apply sprintf_spec|]. fold (recipePath name).
  wstep. unfold wps at 1, lock. cbn [mutex withConn]. rewrite Hmu. wstep.
  destruct (wps_result (ret := False) (restoreShareFile (recipePath name) (Some crypto)) _ (core h)
    (restore_spec digest A (core h) nl k b (recipePath name) r crypto (fun _ _ => False) U HI Wr Hf HA))
    as (ok & s' & E & -> & U' & EC & shares & payloads & pad & H1 & H2 & H3 & H4 & H5).
  eapply wps_onCore; [exact E|]. wstep. unfold wps at 1, unlock. cbn [mutex withCore]. wstep.
  cbn [core conn withCore withConn]. apply (HP _ s' c shares payloads pad); [|done|done].
  split; cbn; [|done|done]. rewrite length_app, length_flatName. cbn. lia.
Qed.
End DataServer.

Section Protocol.
Context {W C : Type} {WW : World W} {WL : WorldLaws W} {REL : ReliableWorld W} {LM : Limits} {LOK : LimitsOk}.
Context {SSL : OpenSSL} {SSLOK : OpenSSLLaws SSL} {CC : Core W C} {CL : CoreLaws W C}.
Context {N : Network} {NL : NetworkLaws} {SW : SmallWhole} {SL : ServerLimits} {SOK : ServerOk} {MM : Memory} {ML : MemoryLaws}.
Context {DL : DownloadLimits}.

(** The function the servers check fingerprints with *)
Abbreviation sha256 := (EVP_Digest EVP_sha256).

Lemma socketData_download uid name r A nl k b (h : Handler (minDedupCore W)) rounds fuel :
  int32 uid -> goodFileName name -> (length name < BUFFER_LEN)%nat -> mutex h = false ->
  unlocked (core h) -> Inv sha256 A (core h) nl k b -> wfRecipe r ->
  files (view (world (core h))) !! recipePath name = Some (encodeRecipe r) ->
  Forall (fun e => is_Some (A (re_fp e))) (rc_entries r) -> (2 <= rounds)%nat ->
  inbox (conn h) = htonl uid ++ package DOWNLOAD name ->
  exists h' shares payloads pad, SocketHandlerData (ret := False) rounds fuel true h = Ok (tt, h') /\ mutex h' = false /\
    restoredFrom sha256 A r (core h) (core h') shares payloads pad.
Proof.
  intros Hu Hn Hnl Hmu U HI Wr Hf HA Hr Hi. pose proof so_int.
  destruct (wps_result (ret := False) (SocketHandlerData rounds fuel true) (fun _ h' => mutex h' = false /\ exists shares payloads pad,
      restoredFrom sha256 A r (core h) (core h') shares payloads pad) h)
    as ([] & h' & E & Hm' & shares & payloads & pad & HR); [|by exists h', shares, payloads, pad].
  unfold SocketHandlerData, newMemory. wstep. wstep. wstep. wstep. wstep.
  eapply recvUser_spec; [done|exact Hi|rewrite uninit_length; lia|]. intros c b' [Ei _] Hl. rewrite uninit_length in Hl. wstep.
  destruct new_SHA256_ok as (crypto & Ec & _). eapply wps_lift; [apply Ec|].
  destruct rounds as [|[|rounds]]; [lia..|]. cbn [dataLoop]. wstep. unfold package in Ei.
  eapply recvInt_spec; [exact Ei|cbn; rewrite length_replicate; lia|unfold int32, DOWNLOAD; lia|]. intros c1 [Ei1 _].
  change (4 =? 0) with false. change (DOWNLOAD =? META) with false. change (DOWNLOAD =? DATA) with false.
  change (DOWNLOAD =? DOWNLOAD) with true. cbv iota. wstep.
  eapply (handleDownload_spec sha256 uid crypto name r []); try done.
  - split; cbn; [|by rewrite uninit_length|by rewrite length_replicate].
    rewrite length_app, length_le32, length_drop, length_replicate. lia.
  - cbn. by rewrite app_nil_r.
  - intros l' s' c2 shares payloads pad Hl' HR [Ei2 _]. wstep.
    apply recvInt_closed; [done|rewrite ol_buffer by done; lia|]. intros c3 x b3 _ _.
    change (0 =? 0) with true. cbv iota. wstep. split; [done|]. by exists shares, payloads, pad.
Qed.

(** The shares of [A] that the entries name fit the client's items. *)
Definition itemsFit (A : Index) (es : list RecipeEntry) : Prop :=
  Forall (fun e => exists i, A (re_fp e) = Some i /\ (si_size i <= ITEM_DATA_SIZE)%nat) es.

Lemma itemsFit_shares A es shares :
  itemsFit A es -> Forall2 (restoredShare sha256 A) es shares -> Forall fits shares.
Proof.
  intros HF H2. induction H2 as [|e share es shares [_ Hs] _ IH]; [constructor|].
  apply list.Forall_cons in HF as [(i & Ei & Hi) HF]. constructor; [|by apply IH]. unfold fits. by rewrite (Hs i Ei).
Qed.

End Protocol.
