(* ===== verification/TransferExamples.v ===== *)
(** * Keys, recipes and a download on concrete inputs

    The theorems on the metadata server's files and on downloads, with small buffers
    and a network that splits long messages. *)

From Stdlib Require Import Strings.String Lia.
From stdpp Require Import base list numbers gmap.
From coqutil Require Import Byte.
From S2P Require Import Prelude Structs FileNames World CryptoPrimitive MinDedupCore MinStages MinRestore ShareIndex MinInvariant MinRestoreProof MinTheorems MinExamples DedupCore DedupTheorems Socket Server ServerProof DataSession UploadExamples ServerFiles KeyFiles RecipeFiles Downloader DownloaderProof DownloadProtocol.

Local Open Scope Z_scope.

Module TransferWitness.
Import SampleSSL MinWitness.
#[local] Existing Instance small.
#[local] Existing Instance small_ok.
#[local] Existing Instance SampleNet.memory.
#[local] Existing Instance SampleNet.memory_laws.

(** At most 256 bytes and a few more at a time. *)
Definition part (t n : nat) : option nat := Some (Nat.min n (256 + t mod 3)).
#[local] Instance net : Network := {| recvLen := part; sendLen := part |}.
Lemma split_delivers : delivers part.
Proof. intros t n Hn. exists (Nat.min n (256 + t mod 3)). split; [done|]. split; lia. Qed.
#[local] Instance net_laws : NetworkLaws.
Proof. split; apply split_delivers. Qed.
#[local] Instance net_small : SmallWhole.
Proof. split; intros t n Hn; cbn; unfold part; f_equal; lia. Qed.

#[local] Instance server : ServerLimits := {| BUFFER_LEN := 200; META_LEN := 150 |}.
#[local] Instance server_ok : ServerOk.
Proof. split; vm_compute; [lia|lia|done]. Qed.
#[local] Instance download : DownloadLimits := {| DOWNLOAD_BUFFER_SIZE := 64; ITEM_DATA_SIZE := 16 |}.
Lemma download_ok : DownloadOk.
Proof. split; vm_compute; done. Qed.

(** The metadata server, in the environment of the data server [s1]. *)
Definition hm : Handler (DedupCore Mem) :=
  {| core := newServer (world s1) (str "rf/"%string) (str "sc/"%string);
     conn := {| inbox := []; outbox := []; calls := 0 |}; mutex := false |}.

Definition key : bytes := str "the encrypted keys of the metadata chunks"%string.


Definition entries : list RecipeEntry := rc_entries recipe2.

End TransferWitness.
