(* ===== verification/MetaUpload.v ===== *)
(** * The metadata upload thread

    Uploader::thread_handler_meta: the loop of the other upload threads on the items of
    the metadata buffers, then the key file of the cloud over the same connection. *)

From stdpp Require Import base list numbers.
From coqutil Require Import Byte.
From Stdlib Require Import Lia.
From S2P Require Import Prelude Structs Socket Uploader UploaderProof Uploads UploadExamples KeyFiles CryptoPrimitive DataSession MinInvariant Protocol.

Local Open Scope Z_scope.

Section Meta.
Context {N : Network} {MM : Memory} {UL : UploadLimits}.

(** Only what is printed depends on the result of uploadKeyFile. *)
Definition thread_handler_meta {ret} (junk : Z) (name : bytes) (cloudIndex : nat) (sys : bool * bool * bool) (enc : option bytes)
    (items : list Item) : SM Uploader ret unit :=
  _ ← thread_handler junk items;
  _ ← onSock (uploadKeyFile name cloudIndex sys enc);
  mret tt.

Context {NL : NetworkLaws} {ML : MemoryLaws}.

(** The whole run. *)
Lemma metaThread_session (OK : UploadOk) (userID junk : Z) (f : ClientFile) (slack : bytes) (xs : list ClientShare)
    (flagss : list (list bool)) (c : Conn) (rest name key : bytes) (cloudIndex : nat) :
  xs <> [] -> wfClient f -> Forall wfItem xs -> metaFits f (packs [] xs) -> Z.of_nat (length xs) < 2 ^ 31 ->
  Forall2 (fun p flags => length flags = length p) (packs [] xs) flagss ->
  inbox c = replies flagss ++ rest ->
  (length (encFileName name cloudIndex) < 256)%nat -> Z.of_nat (length key) < 2 ^ 31 ->
  exists u u', new_Uploader (R := False) c userID = Ok u /\
    thread_handler_meta (ret := False) junk name cloudIndex (true, true, true) (Some key)
      (FileObj (headBytes f 0 0 0 0) (cf_name f ++ slack) :: shareItems xs) u = Ok (tt, u') /\
    outbox (sock u') = outbox c ++ htonl userID ++ exchanges f 0 0 (packs [] xs) flagss ++ keyMessage (encFileName name cloudIndex) key /\
    inbox (sock u') = rest /\
    accuData_ u' = Z.of_nat (length (contents_ xs)) /\ accuUnique_ u' = uniqueSize (packs [] xs) flagss.
Proof.
  intros Hne Hf Hwf HM Hlen HF Hi Hn Hk.
  destruct (thread_session OK userID junk f slack xs flagss c rest) as (_ & _ & u & u1 & E & E1 & Eo & Ei & Ed & Eu); try done.
  destruct (wps_result (ret := False) (onSock (uploadKeyFile name cloudIndex (true, true, true) (Some key)))
    (fun _ u' => moved (sock u1) (sock u') [] (keyMessage (encFileName name cloudIndex) key) /\ accuData_ u' = accuData_ u1 /\ accuUnique_ u' = accuUnique_ u1) u1)
    as (r & u' & E2 & [Mi Mo] & Ed2 & Eu2).
  { apply wps_onSock. eapply wps_post; [by apply uploadKeyFile_spec|]. by intros ? c' [_ HMv]. }
  exists u, u'. split; [exact E|]. split; [unfold thread_handler_meta, mbind, SM_bind; by rewrite E1, E2|].
  cbn [app] in Mi. rewrite Mo, Eo, <- Mi, Ed2, Eu2, <- !app_assoc. done.
Qed.

End Meta.

Module MetaUploadWitness.
Import SampleNet UploadWitness CryptoPrimitive.SampleSSL.
#[local] Existing Instance UploadWitness.upload.
#[local] Existing Instance UploadWitness.small.
Definition key : bytes := [Byte.x4b; Byte.x45; Byte.x59].

End MetaUploadWitness.
