(* ===== verification/MetaSession.v ===== *)
(** * The metadata server and its clients

    SocketHandlerMeta on the messages of a metadata upload thread and of a download
    thread: the package of metadata chunks goes through the two stages of DedupCore,
    the key file is stored, and a later connection gets the chunks back. *)

From stdpp Require Import base list numbers gmap functions.
From coqutil Require Import Byte.
From Stdlib Require Import Lia.
From S2P Require Import Prelude Structs FileNames World CryptoPrimitive MinDedupCore MinStages MinRestore ShareIndex MinInvariant MinNodes MinIndex MinPackage MinUpload MinRestoreProof MinTheorems DedupCore DedupStages Inodes InodeIndex Recipes DedupNodes DedupUpload DedupRestore DedupTheorems Socket Uploader UploaderProof Uploads Server ServerProof DataSession Protocol ServerFiles KeyFiles Downloader DownloaderProof MetaUpload.

Local Open Scope Z_scope.

(** The file of a single package, as the metadata server sees it. *)
Definition uploadOf (f : ClientFile) (p : list ClientShare) : Upload :=
  {| up_pad1 := cf_pad1 f; up_pad2 := cf_pad2 f; up_pad3 := cf_pad3 f; up_size := cf_size f; up_coming := secretSizes p;
     up_name := cf_name f; up_shares := mdsOf p |}.

Lemma mdOf_uploadOf f p : mdOf (uploadOf f p) = packMD f 0 0 p.
Proof. done. Qed.

Section Session.
Context {W : Type} {WW : World W} {WL : WorldLaws W} {REL : ReliableWorld W} {LM : Limits} {LOK : LimitsOk} {SSL : OpenSSL}.
Context {N : Network} {NL : NetworkLaws} {SW : SmallWhole} {UL : UploadLimits} {SL : ServerLimits} {SOK : ServerOk}.
Context (digest : bytes -> bytes).
Implicit Types (s : DedupCore W) (h : Handler (DedupCore W)) (p : list ClientShare) (I : InodeMap) (F : Files).

(** ** The environment *)

Lemma DInv_sent A I F s s' l k b kr bi msgs :
  sendsToD s s' msgs -> unlockedD s -> DInv digest A I F s l k b kr bi ->
  DInv digest A I F s' l k b kr bi /\ unlockedD s' /\ sent (view (theWorld s')) = sent (view (theWorld s)) ++ msgs /\
  recipeFileDirName_ s' = recipeFileDirName_ s /\ shareContainerDirName_ (shares s') = shareContainerDirName_ (shares s).
Proof.
  intros (x & -> & HS) [U U4] [HIs HR HN Hbi].
  destruct (sendsTo_Inv digest A (shares s) x msgs l k b HS HIs U) as (HI' & U' & _).
  destruct HS as (w & -> & Ec & Ef & Es). split; [|done]. split; [done| | |done].
  - apply (RInv_same I F s); [by eapply inodes_names| |done]. split; try done.
    intros i nm Hi. unfold disk, recipePath, theWorld. cbn. by rewrite Ef.
  - unfold theWorld. cbn. by rewrite Ec.
Qed.

(** A path that is not that of a recipe file or a container. *)
Definition foreignPath s (path : bytes) : Prop :=
  (forall i nm, isRecipeName i nm -> recipeFileDirName_ s ++ nm <> path) /\
  (forall i nm, isContainerName i nm -> shareContainerDirName_ (shares s) ++ nm <> path).

Lemma Serving_file A I F s l k b kr bi w path c :
  foreignPath s path -> withFile (theWorld s) w path c -> Serving digest A I F s l k b kr bi ->
  Serving digest A I F (set_shares s (set_world (shares s) w)) l k b kr bi.
Proof.
  intros [H1 H2] HF [U [HIs HR HN Hbi] HA]. split; [done| |done]. unfold withFile in HF. split; [| | |done].
  - apply Inv_otherFiles; [by rewrite HF| |done]. intros i nm Hi. rewrite HF. cbn. rewrite lookup_insert_ne; [done|].
    by apply not_eq_sym, (H2 i).
  - apply (RInv_same I F s); [by eapply inodes_names| |done]. split; try done.
    intros i nm Hi. unfold disk, Recipes.recipePath, theWorld. cbn. rewrite HF. cbn. rewrite lookup_insert_ne; [done|].
    by apply not_eq_sym, (H1 i).
  - unfold theWorld. cbn. rewrite HF. done.
Qed.

Lemma wps_sendD {ret} data h (P : Z -> Handler (DedupCore W) -> Prop) (Q : ret -> Handler (DedupCore W) -> Prop) :
  (forall n s', sendsToD (core h) s' [data] -> P n (withCore h s')) ->
  wps (onFiles (fun w => send w data)) P Q h.
Proof.
  intros HP. apply wps_onFiles. apply HP. cbn.
  destruct (send (theWorld (core h)) data) as [n w'] eqn:E. pose proof (send_reliable (theWorld (core h)) data) as Hr.
  rewrite E in Hr. cbn in Hr. pose proof (send_law _ _ _ _ E Hr) as Hv.
  exists (set_world (shares (core h)) w'). split; [done|]. exists w'. split; [done|]. cbn [snd]. rewrite Hv. done.
Qed.

Lemma sendsToD_trans s1 s2 s3 m1 m2 : sendsToD s1 s2 m1 -> sendsToD s2 s3 m2 -> sendsToD s1 s3 (m1 ++ m2).
Proof.
  intros (x1 & -> & H1) (x2 & -> & H2). exists x2. split; [by destruct s1|]. eapply sendsTo_trans; [exact H1|exact H2].
Qed.

(** ** The messages of a package *)

(** A package the server can take: shares with their fingerprints, one file of a good
    name, within the limits. *)
Record goodPackage uid I (kr bi b : Z) (f : ClientFile) p : Prop := {
  gp_user : int32 uid;
  gp_file : wfClient f;
  gp_items : Forall (goodItem digest) p;
  gp_meta : (UploaderProof.metaSize f p <= META_LEN)%nat;
  gp_size : (length (contents_ p) <= BUFFER_LEN)%nat;
  gp_budget : b + 1 + 2 * Z.of_nat (length p) <= 2 ^ 27;
  gp_upload : goodFiles digest uid I kr bi [uploadOf f p];
}.

Lemma handleMetaD_spec {ret} fuel uid l h f p rest A I F nl k b kr bi
    (P : Locals -> Handler (DedupCore W) -> Prop) (Q : ret -> Handler (DedupCore W) -> Prop) :
  let md := encodeFile (packMD f 0 0 p) in
  (1 <= fuel)%nat -> okLocals l -> unlockedD (core h) -> DInv digest A I F (core h) nl k b kr bi ->
  goodPackage uid I kr bi b f p ->
  inbox (conn h) = le32 (Z.of_nat (length md)) ++ md ++ rest ->
  (forall l' s' c, readMeta f 0 0 uid A p l' -> unlockedD s' ->
     DInv digest (firstSpec uid A (mdsOf p)) I F s' nl k (b + Z.of_nat (length p)) kr bi ->
     recipeFileDirName_ s' = recipeFileDirName_ (core h) ->
     shareContainerDirName_ (shares s') = shareContainerDirName_ (shares (core h)) ->
     sent (view (theWorld s')) = sent (view (theWorld (core h))) ++ answer (dupFlags uid A (mdsOf p)) ->
     received (conn h) c rest -> P l' {| core := s'; conn := c; mutex := mutex h |}) ->
  wps (handleMeta fuel uid l) P Q h.
Proof.
  intros md Hfuel [Hb Hm Hs] U HI [Hu Hf Hp Hsz Hcs HB [Gw _ _ _]] Hi HP. pose proof so_meta. pose proof so_int. pose proof so_buffer.
  pose proof (goodItem_wf digest p Hp) as Hw.
  assert (length md = UploaderProof.metaSize f p) as Hml by (by apply length_pack).
  assert (length p <= UploaderProof.metaSize f p)%nat as Hlp by (unfold UploaderProof.metaSize, shareMDEntrySize_; lia).
  unfold handleMeta. wstep. eapply recvPackage_spec; [exact Hi|lia|lia|lia|].
  intros c slack HR Hlen. wstep. set (mb := md ++ drop (length md) (metaBuffer l)).
  eapply wps_lift.
  { rewrite sz_ok by lia. cbn [mbind res_bind]. rewrite Nat2Z.id. rewrite memcpy_ok by lens.
    rewrite drop_0, take_app_length, take_0. reflexivity. }
  fold mb. cbn [app]. wstep. fold mb.
  pose proof (firstStageD_spec (ret := False) digest uid A I F (core h) nl k b kr bi [uploadOf f p] (drop (length md) (metaBuffer l)) (statusList l) fuel (fun _ _ => False)) as HF.
  cbv zeta in HF. rewrite fmap_cons, fmap_nil, mdOf_uploadOf, encodePackage_one, sharesOf_one in HF. cbn [fm_shares packMD] in HF. rewrite length_mdsOf in HF.
  fold md mb in HF.
  destruct (wps_result (ret := False) _ _ (core h) (HF Hu ltac:(unfold mb; lens) U HI Gw ltac:(cbn; lia) ltac:(lia) ltac:(lia)
    ltac:(rewrite <- unmarked_toSend, totalSize_contents by (by apply Forall_unmarked); pose proof (unmarked_contents (dupFlags uid A (mdsOf p)) p); lia)))
    as (r & s1 & E1 & U1 & SD & HI1 & ->).
  eapply wps_onCore; [exact E1|].
  assert (length (dupFlags uid A (mdsOf p)) = length p) as Hdf by (by rewrite length_dupFlags, length_mdsOf).
  wstep. eapply wps_lift; [rewrite wr_ok by (rewrite length_le32; lia); reflexivity|].
  wstep. apply wps_sendD. intros n1 s2 S1. wstep.
  set (b1 := take 0 (md ++ slack) ++ le32 STAT ++ drop (0 + length (le32 STAT)) (md ++ slack)).
  assert (length b1 = length (md ++ slack)) as Hb1 by (unfold b1; lens).
  eapply wps_lift; [rewrite wr_ok by (rewrite length_le32; lia); reflexivity|].
  wstep. apply wps_sendD. intros n2 s3 S2. wstep.
  eapply wps_lift; [by apply rd_front|]. wstep. apply wps_sendD. intros n3 s4 S3. wstep.
  pose proof (sendsToD_trans _ _ _ _ _ S1 (sendsToD_trans _ _ _ _ _ S2 S3)) as ST. cbn [app core withCore] in ST.
  destruct (DInv_sent _ _ _ _ _ _ _ _ _ _ _ ST U1 HI1) as (HI4 & U4 & Es4 & Er4 & Ed4).
  destruct SD as (Er & Ed & Es).
  apply (HP _ s4 c); try done; try congruence.
  - split; cbn.
    + split; [|unfold mb; cbn; lens|].
      { cbn [buffer]. rewrite !length_app, length_take, length_drop, !length_le32. lia. }
      cbn [statusList].
      rewrite length_app, Hdf, length_drop. lia.
    + by eexists.
    + done.
    + by eexists.
  - rewrite Es4, Es. unfold answer. by rewrite Hdf.
Qed.

Lemma handleDataD_spec {ret} crypto {HOK : HashOk crypto FP_SIZE digest} fuel uid l h f p rest A A0 I F (x0 : minDedupCore W) nl0 k0 nl k b kr bi
    (P : Locals -> Handler (DedupCore W) -> Prop) (Q : ret -> Handler (DedupCore W) -> Prop) :
  let data := contents_ (unmarked (dupFlags uid A (mdsOf p)) p) in
  (1 <= fuel)%nat -> readMeta f 0 0 uid A p l -> A0 = firstSpec uid A (mdsOf p) ->
  unlockedD (core h) -> DInv digest A0 I F (core h) nl k (b + Z.of_nat (length p)) kr bi ->
  Inv digest A x0 nl0 k0 b -> available A F ->
  goodPackage uid I kr bi b f p ->
  inbox (conn h) = le32 (Z.of_nat (length data)) ++ data ++ rest ->
  (forall l' s' c A2 I2 nl2 k2 kr2, okLocals l' -> 
     Serving digest A2 I2 (uploaded digest uid F [uploadOf f p]) s' nl2 k2 (b + 1 + 2 * Z.of_nat (length p)) kr2 (bi + inodeCost [uploadOf f p]) ->
     usersKept uid I I2 ->
     (forall u fp, refsOf u (refs A2 fp) = refsOf u (refs A fp) + (if decide (u = uid) then occurrences fp (mdsOf p) else 0)) ->
     recipeFileDirName_ s' = recipeFileDirName_ (core h) ->
     shareContainerDirName_ (shares s') = shareContainerDirName_ (shares (core h)) ->
     sent (view (theWorld s')) = sent (view (theWorld (core h))) ->
     received (conn h) c rest -> P l' {| core := s'; conn := c; mutex := mutex h |}) ->
  wps (handleData fuel uid crypto l) P Q h.
Proof.
  intros data Hfuel [[Hb Hm Hs] (slack & Emb) Ems (stat & Est)] EA U HI HI0 HA [Hu Hf Hp Hsz Hcs HB [Gw Gn Gi Gr]] Hi HP.
  pose proof so_meta. pose proof so_int. pose proof so_buffer. set (flags := dupFlags uid A (mdsOf p)) in *.
  pose proof (goodItem_wf digest p Hp) as Hw. pose proof (Forall_unmarked _ flags p Hp) as Hup. pose proof (goodItem_wf digest _ Hup) as Huw.
  pose proof (unmarked_contents flags p) as Huc. fold data in Huc.
  unfold handleData. wstep. eapply recvPackage_spec; [exact Hi|lia|lia|lia|].
  intros c more HR Hlen. wstep. rewrite Ems. wstep. wstep. rewrite Emb, Est.
  pose proof (secondStageD_spec (ret := False) digest crypto uid A0 I F (core h) nl k (b + Z.of_nat (length p)) kr bi [uploadOf f p] slack
    (flags ++ stat) (data ++ more) fuel (fun _ _ => False)) as HF. cbv zeta in HF.
  rewrite fmap_cons, fmap_nil, mdOf_uploadOf, encodePackage_one, sharesOf_one in HF. cbn [fm_shares packMD] in HF.
  unfold flags in HF at 2 3 4 5 6. rewrite length_mdsOf, selected_toSend, <- unmarked_toSend in HF. fold flags in HF.
  assert (Forall (fun e => goodSize (Z.of_nat (sm_size e))) (mdsOf (unmarked flags p))) as Hgs.
  { unfold mdsOf. apply Forall_fmap. eapply list.Forall_impl; [exact Hup|]. by intros x (_ & ? & _). }
  destruct (wps_result (ret := False) _ _ (core h) (HF Hu ltac:(rewrite <- Emb; lia) ltac:(rewrite Hlen; lia) U HI Gw ltac:(cbn; lia)
    ltac:(unfold flags; rewrite length_app, length_dupFlags, length_mdsOf; lia) ltac:(lia)
    ltac:(rewrite totalSize_contents by done; fold data; rewrite length_app; lia) Hgs ltac:(by apply authentic_contents) Gn Gi Gr))
    as (ok & s2 & E2 & -> & U2 & (Er & Ed & Es) & A2 & I2 & nl2 & k2 & kr2 & HI2 & _ & HK & HC).
  eapply wps_onCore; [exact E2|]. wstep.
  assert (forall u fp, refsOf u (refs A2 fp) = refsOf u (refs A fp) + (if decide (u = uid) then occurrences fp (mdsOf p) else 0)) as HC2.
  { subst A0. intros u fp. unfold flags in HC. rewrite unmarked_toSend in HC. by apply (upload_counts uid A A2 (mdsOf p) u fp). }
  apply (HP _ s2 c A2 I2 nl2 k2 kr2); try done; [split; cbn; [by rewrite Hlen|done|done]|].
  split; [done|eapply DInv_budget; [exact HI2|lia|destruct HI2; lia]|].
  eapply (available_uploaded digest A A2 F x0); [exact HI0|done|]. rewrite fmap_cons, fmap_nil, sharesOf_one. exact HC2.
Qed.

(** What the session of an upload leaves behind. *)
Record afterUpload uid A I F (f : ClientFile) p (path key : bytes) (b bi : Z) h h' : Prop := {
  au_inbox : inbox (conn h') = [];
  au_mutex : mutex h' = mutex h;
  au_sent : sent (view (theWorld (core h'))) = sent (view (theWorld (core h))) ++ answer (dupFlags uid A (mdsOf p));
  au_key : disk (core h') !! path = Some key;
  au_state : exists A' I' nl' k' kr',
    Serving digest A' I' (uploaded digest uid F [uploadOf f p]) (core h') nl' k' (b + 1 + 2 * Z.of_nat (length p)) kr' (bi + inodeCost [uploadOf f p]) /\
    usersKept uid I I' /\
    forall u fp, refsOf u (refs A' fp) = refsOf u (refs A fp) + (if decide (u = uid) then occurrences fp (mdsOf p) else 0);
}.

Lemma okLocals_buffer l x : okLocals l -> okLocals (set_buffer l (le32 x ++ drop 4 (buffer l))).
Proof. intros []. pose proof so_int. split; cbn; try done. rewrite length_app, length_le32, length_drop. lia. Qed.

Lemma metaLoop_upload {ret} crypto {HOK : HashOk crypto FP_SIZE digest} rounds fuel uid f p name key A I F nl k b kr bi l h
    (Q : ret -> Handler (DedupCore W) -> Prop) :
  (1 <= fuel)%nat -> (4 <= rounds)%nat -> okLocals l -> Serving digest A I F (core h) nl k b kr bi -> goodPackage uid I kr bi b f p ->
  goodFileName name -> Z.of_nat (length key) < 2 ^ 31 -> foreignPath (core h) (keyPath name) ->
  inbox (conn h) = exchange f 0 0 p (dupFlags uid A (mdsOf p)) ++ keyMessage name key ->
  wps (metaLoop rounds fuel uid crypto l) (fun _ h' => afterUpload uid A I F f p (keyPath name) key b bi h h') Q h.
Proof.
  intros Hf Hr Hl [U HI HA] HG Hn Hk Hpath Hi. pose proof so_int as Hint. pose proof so_buffer as Hmax.
  unfold exchange, package in Hi. rewrite <- !app_assoc in Hi. change SEND_META with META in Hi. change SEND_DATA with DATA in Hi.
  destruct rounds as [|[|[|[|rounds]]]]; [lia..|]. cbn [metaLoop]. wstep.
  eapply recvInt_spec; [exact Hi|rewrite ol_buffer by done; lia|unfold int32, META; lia|]. intros c1 HR1.
  change (4 =? 0) with false. change (META =? KEY_RECIPE) with false. change (META =? GET_KEY_RECIPE) with false.
  change (META =? FILE_RECIPE) with false. change (META =? META) with true. cbv iota. wstep.
  eapply (handleMetaD_spec fuel uid _ _ f p); [done|by apply okLocals_buffer|exact U|exact HI|done|by destruct HR1|].
  intros l2 s2 c2 HRM U2 HI2 Er2 Ed2 Es2 HR2. pose proof (rm_locals _ _ _ _ _ _ _ HRM) as Hl2. wstep.
  eapply recvInt_spec; [by destruct HR2|rewrite ol_buffer by done; lia|unfold int32, DATA; lia|]. intros c3 HR3.
  change (4 =? 0) with false. change (DATA =? KEY_RECIPE) with false. change (DATA =? GET_KEY_RECIPE) with false.
  change (DATA =? FILE_RECIPE) with false. change (DATA =? META) with false. change (DATA =? DATA) with true. cbv iota. wstep.
  eapply (handleDataD_spec crypto fuel uid _ _ f p _ A _ I F (shares (core h)) nl k nl k b kr bi);
    [done|destruct HRM; split; try done; by apply okLocals_buffer|reflexivity|exact U2|exact HI2|by destruct HI|done|done|by destruct HR3|].
  intros l4 s4 c4 A4 I4 nl4 k4 kr4 Hl4 HS4 HK4 HC4 Er4 Ed4 Es4 HR4. wstep. unfold keyMessage in HR4.
  eapply recvInt_spec; [by destruct HR4|rewrite ol_buffer by done; lia|unfold int32, KEY_RECIPE; lia|]. intros c5 HR5.
  change (4 =? 0) with false. change (KEY_RECIPE =? KEY_RECIPE) with true. cbv iota. wstep.
  pose proof (okLocals_buffer l4 KEY_RECIPE Hl4) as Hl5.
  eapply (handleKey_spec name key []); [done|rewrite ol_buffer by done; lia|done|destruct HR5 as [E5 _]; rewrite app_nil_r; exact E5|].
  intros l6 w c6 Hl6 HF HR6. apply metaLoop_closed; [by destruct HR6|rewrite Hl6, ol_buffer by done; lia|].
  intros c7 Hc7 _. cbn [core conn withConn withCore mutex] in *.
  assert (theWorld (set_shares s4 (set_world (shares s4) w)) = w) as Ew by done.
  split; cbn [inWorld core conn withConn mutex]; try done.
  - cbn [core_setWorld metaCore]. rewrite Ew, HF. cbn. rewrite Es4, Es2. done.
  - unfold disk. cbn [core_setWorld metaCore]. rewrite Ew. exact (withFile_lookup _ _ _ _ HF).
  - exists A4, I4, nl4, k4, kr4. split; [|done]. apply (Serving_file _ _ _ _ _ _ _ _ _ w (keyPath name) key); [|exact HF|exact HS4].
    destruct Hpath as [P1 P2]. unfold foreignPath. by rewrite Er4, Er2, Ed4, Ed2.
Qed.

(** ** A download *)

Lemma metaLoop_download {ret} crypto {HOK : HashOk crypto FP_SIZE digest} rounds fuel uid full name y A I F nl k b kr bi l h
    (Q : ret -> Handler (DedupCore W) -> Prop) :
  (2 <= rounds)%nat -> okLocals l -> Serving digest A I F (core h) nl k b kr bi ->
  formatFullFileName_ full = Some name -> ownFile digest uid I name -> F (inodeFP digest uid name) !! 0%nat = Some y ->
  (length full <= BUFFER_LEN)%nat -> inbox (conn h) = package DOWNLOAD full ->
  wps (metaLoop rounds fuel uid crypto l) (fun _ h' => Serving digest A I F (core h') nl k b kr bi /\
    exists payloads, restoredFile digest y.1 y.2 payloads /\
      sent (view (theWorld (core h'))) = sent (view (theWorld (core h))) ++ (message <$> payloads)) Q h.
Proof.
  intros Hr Hl HS En HO Hy Hfull Hi. pose proof so_int. pose proof so_buffer. unfold package in Hi.
  destruct rounds as [|[|rounds]]; [lia..|]. cbn [metaLoop]. wstep.
  eapply recvInt_spec; [exact Hi|rewrite ol_buffer by done; lia|unfold int32, DOWNLOAD; lia|]. intros c1 [Ei1 _].
  change (4 =? 0) with false. change (DOWNLOAD =? KEY_RECIPE) with false. change (DOWNLOAD =? GET_KEY_RECIPE) with false.
  change (DOWNLOAD =? FILE_RECIPE) with false. change (DOWNLOAD =? META) with false. change (DOWNLOAD =? DATA) with false.
  change (DOWNLOAD =? DOWNLOAD) with true. cbv iota. wstep. pose proof (okLocals_buffer l DOWNLOAD Hl) as Hl1.
  unfold handleDownloadMeta. wstep.
  eapply (recvPackage_spec full []); [rewrite app_nil_r; exact Ei1|rewrite ol_buffer by done; lia|rewrite ol_buffer by done; lia|lia|].
  intros c slack [Ei _] Hlen. wstep. eapply wps_lift.
  { rewrite sz_ok by lia. cbn [mbind res_bind]. rewrite Nat2Z.id. by apply rd_front. }
  wstep. destruct (restore_file digest crypto uid A I F (core h) nl k b kr bi full name 0 y HS En HO Hy) as (s' & payloads & E & HP & HS' & Es).
  eapply wps_onCore; [exact E|]. wstep. wstep. apply recvInt_closed; [done| |].
  { cbn [set_buffer buffer]. rewrite Hlen, ol_buffer by done. lia. }
  intros c2 x b2 _ _. change (0 =? 0) with true. cbv iota. wstep. split; [done|]. by exists payloads.
Qed.
End Session.

(** ** The protocol *)

Section Thread.
Context {W : Type} {WW : World W} {WL : WorldLaws W} {REL : ReliableWorld W} {LM : Limits} {LOK : LimitsOk}.
Context {SSL : OpenSSL} {SSLOK : OpenSSLLaws SSL}.
Context {N : Network} {NL : NetworkLaws} {SW : SmallWhole} {UL : UploadLimits} {SL : ServerLimits} {SOK : ServerOk} {MM : Memory} {ML : MemoryLaws}.
Context {DL : DownloadLimits}.
Implicit Types (h : Handler (DedupCore W)) (I : InodeMap) (F : Files).

(** The function the server checks fingerprints with *)
Abbreviation sha256 := (EVP_Digest EVP_sha256).

(** The thread up to the loop. *)
Lemma socketMeta_begin uid rest rounds fuel h (P : unit -> Handler (DedupCore W) -> Prop) :
  int32 uid -> inbox (conn h) = htonl uid ++ rest ->
  (forall crypto l c, HashOk crypto FP_SIZE sha256 -> okLocals l -> received (conn h) c rest ->
     wps (metaLoop (ret := False) rounds fuel uid crypto l) P (fun _ _ => False) (withConn h c)) ->
  exists h', SocketHandlerMeta (ret := False) rounds fuel true h = Ok (tt, h') /\ P tt h'.
Proof.
  intros Hu Hi HP. pose proof so_int. destruct (wps_result (ret := False) (SocketHandlerMeta rounds fuel true) P h) as ([] & h' & E & H'); [|by exists h'].
  unfold SocketHandlerMeta, newMemory. wstep. wstep. wstep. wstep. wstep.
  eapply recvUser_spec; [done|exact Hi|rewrite uninit_length; lia|]. intros c b HR Hl. rewrite uninit_length in Hl. wstep.
  destruct new_SHA256_ok as (crypto & Ec & Hok). eapply wps_lift; [apply Ec|]. apply HP; [done| |done].
  split; cbn; [by rewrite length_replicate|by rewrite uninit_length|by rewrite length_replicate].
Qed.

(** The upload and the download of a file of one package. *)
Lemma socketMeta_upload uid f p name key A I F nl k b kr bi h rounds fuel :
  (1 <= fuel)%nat -> (4 <= rounds)%nat -> Serving sha256 A I F (core h) nl k b kr bi -> goodPackage sha256 uid I kr bi b f p ->
  goodFileName name -> Z.of_nat (length key) < 2 ^ 31 -> foreignPath (core h) (keyPath name) ->
  inbox (conn h) = htonl uid ++ exchange f 0 0 p (dupFlags uid A (mdsOf p)) ++ keyMessage name key ->
  exists h', SocketHandlerMeta (ret := False) rounds fuel true h = Ok (tt, h') /\
    afterUpload sha256 uid A I F f p (keyPath name) key b bi h h'.
Proof.
  intros Hf Hr HS HG Hn Hk Hp Hi.
  apply (socketMeta_begin uid (exchange f 0 0 p (dupFlags uid A (mdsOf p)) ++ keyMessage name key) rounds fuel h (fun _ h' => afterUpload sha256 uid A I F f p (keyPath name) key b bi h h'));
    [apply HG|exact Hi|]. intros crypto l c HOK Hl [Ei _].
  eapply wps_post; [eapply (metaLoop_upload sha256 crypto rounds fuel uid f p name key A I F nl k b kr bi l (withConn h c)); done|].
  intros _ h' [H1 H2 H3 H4 H5]. by split.
Qed.

Lemma socketMeta_download uid full name y A I F nl k b kr bi h rounds fuel :
  int32 uid -> (2 <= rounds)%nat -> Serving sha256 A I F (core h) nl k b kr bi ->
  formatFullFileName_ full = Some name -> ownFile sha256 uid I name -> F (inodeFP sha256 uid name) !! 0%nat = Some y ->
  (length full <= BUFFER_LEN)%nat -> inbox (conn h) = htonl uid ++ package DOWNLOAD full ->
  exists h' payloads, SocketHandlerMeta (ret := False) rounds fuel true h = Ok (tt, h') /\
    Serving sha256 A I F (core h') nl k b kr bi /\ restoredFile sha256 y.1 y.2 payloads /\
    sent (view (theWorld (core h'))) = sent (view (theWorld (core h))) ++ (message <$> payloads).
Proof.
  intros Hu Hr HS En HO Hy Hl Hi.
  destruct (socketMeta_begin uid (package DOWNLOAD full) rounds fuel h (fun _ h' => Serving sha256 A I F (core h') nl k b kr bi /\
    exists payloads, restoredFile sha256 y.1 y.2 payloads /\
      sent (view (theWorld (core h'))) = sent (view (theWorld (core h))) ++ (message <$> payloads))) as (h' & E & HS' & payloads & HP & Es); try done.
  - intros crypto l c HOK Hlo [Ei _]. by eapply (metaLoop_download sha256 crypto rounds fuel uid full name y A I F nl k b kr bi l (withConn h c)).
  - by exists h', payloads.
Qed.

End Thread.
