(* ===== verification/MetaExamples.v ===== *)
(** * Metadata on a concrete input

    The theorem on the metadata server and its clients for a file with two metadata
    chunks, small buffers and a network that splits long messages. *)

From stdpp Require Import base list numbers gmap functions.
From coqutil Require Import Byte.
From Stdlib Require Import Lia.
From S2P Require Import Prelude Structs FileNames World CryptoPrimitive MinDedupCore MinStages MinRestore ShareIndex MinInvariant MinNodes MinIndex MinPackage MinUpload MinRestoreProof MinTheorems DedupCore DedupStages Inodes InodeIndex Recipes DedupNodes DedupUpload DedupRestore DedupTheorems Socket Uploader UploaderProof Uploads UploadExamples Server ServerProof DataSession Protocol ServerFiles KeyFiles Downloader DownloaderProof TransferExamples MetaUpload MetaSession.

Local Open Scope Z_scope.

Module MetaWitness.
Import SampleSSL.
#[local] Existing Instance SampleNet.memory.
#[local] Existing Instance SampleNet.memory_laws.
#[local] Existing Instance TransferWitness.net.
#[local] Existing Instance TransferWitness.net_laws.
#[local] Existing Instance TransferWitness.net_small.

#[local] Instance limits : Limits := {|
  RECIPE_BUFFER_SIZE := 160; CONTAINER_BUFFER_SIZE := 128; SHARE_FILE_BUFFER_SIZE := 160;
  NUM_OF_CACHED_CONTAINERS := 2; MAX_BUFFER_WAIT := 1000 |}.
#[local] Instance limitsM_ok : LimitsOk.
Proof. split; vm_compute; repeat split; try discriminate; lia. Qed.
#[local] Instance uploading : UploadLimits := {| UPLOAD_BUFFER_SIZE := 150; RING_BUFFER_SIZE := 100 |}.
Lemma uploading_ok : UploadOk.
Proof. split; vm_compute; [done|lia]. Qed.
#[local] Instance serving : ServerLimits := {| BUFFER_LEN := 200; META_LEN := 150 |}.
#[local] Instance serving_ok : ServerOk.
Proof. split; vm_compute; [lia|lia|done]. Qed.
#[local] Instance downloading : DownloadLimits := {| DOWNLOAD_BUFFER_SIZE := 160; ITEM_DATA_SIZE := 100 |}.
Lemma downloading_ok : DownloadOk.
Proof. split; vm_compute; done. Qed.

Abbreviation sha := (EVP_Digest EVP_sha256).
Abbreviation Mem := (MemWorld false false).

Definition chunks : list ClientShare := [UploadWitness.shareOf 80 Byte.x01; UploadWitness.shareOf 60 Byte.x02].
Definition file : ClientFile :=
  {| cf_pad1 := replicate 4 Byte.xaa; cf_pad2 := replicate 4 Byte.xbb; cf_pad3 := replicate 4 Byte.xcc;
     cf_size := 27; cf_name := [Byte.x66] |}.
Definition keys : bytes := [Byte.x4b; Byte.x45; Byte.x59].
Definition server : DedupCore Mem := newServer (freshMem 1) [Byte.x72; Byte.x2f] [Byte.x63; Byte.x2f].

Lemma server_Serving : Serving sha noShares noInodes noFiles server [] 0 0 0 0.
Proof. apply Serving_new; intros; apply lookup_empty. Qed.

Lemma chunk_good n c : (0 < n <= 100)%nat -> goodItem sha (UploadWitness.shareOf n c).
Proof.
  intros Hn. split_and!.
  - split; cbn [cs_md UploadWitness.shareOf sm_size sm_secretSize cs_data]; [|lia|unfold RING_BUFFER_SIZE; cbn; lia|rewrite length_replicate; lia].
    split; [cbn [sm_fp]; apply (EVP_Digest_length EVP_sha256)|unfold int32; cbn [sm_size]; lia].
  - unfold goodSize. cbn [cs_md UploadWitness.shareOf sm_size]. unfold CONTAINER_BUFFER_SIZE, SHARE_FILE_BUFFER_SIZE, shareEntrySize_. cbn. lia.
  - unfold content. cbn [cs_md UploadWitness.shareOf sm_size cs_data sm_fp]. by rewrite take_replicate, Nat.min_l by lia.
Qed.

Lemma chunks_good : goodPackage sha 1 noInodes 0 0 0 file chunks.
Proof.
  split; [unfold int32; lia|split; [reflexivity|reflexivity|reflexivity|unfold int32; cbn; lia]| |vm_compute; lia|vm_compute; lia|vm_compute; discriminate|].
  - repeat constructor; apply chunk_good; lia.
  - split; [|split|vm_compute; reflexivity|vm_compute; discriminate].
    + constructor; [|constructor]. split; try (cbn; unfold int64; lia); [|by eexists|vm_compute; reflexivity].
      repeat constructor; cbn; unfold int32; lia.
    + intros nm _ [].
    + intros nm _ e E. discriminate E.
    + intros nm d _ _ [].
    + intros nm nm' d Hn Hn' Hd. apply list_elem_of_singleton in Hn as ->. apply list_elem_of_singleton in Hn' as ->.
      change (d ∈ [[Byte.x2f]]) in Hd. apply list_elem_of_singleton in Hd as ->. vm_compute. discriminate.
Qed.

End MetaWitness.
