(* ===== verification/Encoder.v ===== *)
(** * Encoder: the collect thread

    client/coding/encoder.cc: the collect thread takes the encoded secrets in order,
    gives the share of each cloud with its fingerprint to the uploader, and collects
    the metadata of the shares of a cloud in a buffer.  At a share whose fingerprint
    has a pattern, when a segment is too large, or at the end of the file, the buffer
    is encrypted under its own hash and uploaded as a metadata chunk, and the key is
    appended to the key file of the cloud. *)

From stdpp Require Import base list numbers.
From coqutil Require Import Byte.
From Stdlib Require Import Lia.
From S2P Require Import Prelude Structs GaloisField CryptoPrimitive CDCodec Socket Uploader.

Local Open Scope Z_scope.

(** The macros; the sizes of the data of the uploader's items among them. *)
Class EncodeLimits := {
  SECRET_SIZE : nat;
  SECRET_SIZE_META : nat;
  SHARE_BUFFER_SIZE : nat;
  RING_BUFFER_DATA_SIZE : nat;
  RING_BUFFER_META_SIZE : nat;
  DIVISOR : Z;
  PATTERN : Z;
  MAX_SEGMENT_SIZE : Z;
}.
Definition AVG_SEGMENT_SIZE : Z := Z.shiftl 2 19.
Definition MIN_SEGMENT_SIZE : Z := Z.shiftl 2 18.
Definition encodeLimits : EncodeLimits := {|
  SECRET_SIZE := Z.to_nat (16 * 1024); SECRET_SIZE_META := Z.to_nat (32 * 1024);
  SHARE_BUFFER_SIZE := Z.to_nat (4 * 16 * 1024);
  RING_BUFFER_DATA_SIZE := Z.to_nat (16 * 1024); RING_BUFFER_META_SIZE := Z.to_nat (32 * 1024);
  DIVISOR := (AVG_SEGMENT_SIZE - MIN_SEGMENT_SIZE) / (8 * Z.shiftl 2 10);
  PATTERN := (AVG_SEGMENT_SIZE - MIN_SEGMENT_SIZE) / (8 * Z.shiftl 2 10) - 1;
  MAX_SEGMENT_SIZE := Z.shiftl 2 20 |}.

Definition HASH_SIZE : nat := 32.
Definition ENC_KEY_SIZE : nat := 32.
(** [metaNode]: shareFP @0, other @32, secretID @52, secretSize @56, shareSize @60. *)
Definition metaNodeSize : nat := 64.

(** ShareChunk_t: the shares of a secret, one behind the other. *)
Record ShareChunk := {
  sc_data : bytes;
  sc_secretID : Z;
  sc_secretSize : Z;
  sc_shareSize : Z;
  sc_end : bool;
}.

(** fileHead_t *)
Record FileHead := {
  fh_data : bytes;
  fh_fullNameSize : Z;
  fh_fileSize : Z;
}.

(** The variables of the thread for one cloud, and what it hands on for it: the items
    for the two uploader threads and the key file. *)
Record Cloud := {
  segSizeTemp : Z;
  metaChunkCounter : Z;
  metaChunkID : Z;
  metaChunkBuffer_ : bytes;
  dataItems : list Item;
  metaItems : list Item;
  keyFile : bytes;
}.

Section Encoder.
Context {GF : GaloisField} {SSL : OpenSSL} {MM : Memory} {EL : EncodeLimits}.

Definition newCloud : Cloud :=
  {| segSizeTemp := 0; metaChunkCounter := 0; metaChunkID := -1; metaChunkBuffer_ := fresh SECRET_SIZE_META;
     dataItems := []; metaItems := []; keyFile := [] |}.

(** The share_header of a metadata chunk. *)
Definition chunkHeader {R} (id size : Z) (fp : bytes) : res R bytes :=
  header ← setI32 (fresh shareMDEntrySize_) 32 id;
  header ← setI32 header 36 size;
  header ← setI32 header 40 size;
  wr header 0 fp.

(** A metadata chunk is made of the buffer; [opens]: the key file can be opened. *)
Definition makeMetaChunk {R} (crypto : CryptoPrimitive) (opens : bool) (share_end : bool) (c : Cloud) : res R Cloud :=
  let id := metaChunkID c in
  nextID ← sint (id - 1);
  size ← sint (metaChunkCounter c * Z.of_nat metaNodeSize);
  n ← sz size;
  plain ← rd (metaChunkBuffer_ c) 0 n;
  '(_, hash) ← generateHash crypto plain;
  key ← wr (fresh ENC_KEY_SIZE) 0 hash;
  '(_, enc) ← encryptWithKey crypto plain key;
  encOutTemp ← wr (fresh n) 0 enc;
  data ← wr (fresh RING_BUFFER_META_SIZE) 0 encOutTemp;
  cipher ← rd data 0 n;
  '(_, fp) ← generateHash crypto cipher;
  header ← chunkHeader id size fp;
  buffer ← memset (metaChunkBuffer_ c) 0 Byte.x00 SECRET_SIZE;
  _ ← guard_mem opens;
  shareFP ← rd header 0 HASH_SIZE;
  key' ← rd key 0 HASH_SIZE;
  Ok {| segSizeTemp := 0; metaChunkCounter := 0; metaChunkID := nextID; metaChunkBuffer_ := buffer;
        dataItems := dataItems c; metaItems := metaItems c ++ [ShareObj share_end header data];
        keyFile := keyFile c ++ le32 id ++ shareFP ++ key' |}.

(** The fields of metaChunkTemp that are set before the fingerprint. *)
Definition setNode {R} (node : bytes) (temp : ShareChunk) : res R bytes :=
  node ← setI32 node 52 (sc_secretID temp);
  node ← setI32 node 60 (sc_shareSize temp);
  setI32 node 56 (sc_secretSize temp).

(** One round of the loop over the clouds for a share object: [node] is the content of
    the local metaNode, [data] that of input.shareObj.data, before they are set. *)
Definition collectShare {R} (crypto : CryptoPrimitive) (opens : bool) (node : bytes) (temp : ShareChunk) (i : nat)
    (data : bytes) (c : Cloud) : res R (bytes * Cloud) :=
  let shareSize := sc_shareSize temp in
  len ← sz shareSize;
  data ← memcpy data 0 (sc_data temp) (i * len) len;
  node ← setNode node temp;
  share ← rd data 0 len;
  '(_, hash) ← generateHash crypto share;
  node ← wr node 0 hash;
  shareFP ← rd node 0 HASH_SIZE;
  let header := shareFP ++ le32 (sc_secretID temp) ++ le32 (sc_secretSize temp) ++ le32 shareSize in
  let seg := (segSizeTemp c + shareSize) mod 2 ^ 64 in
  o ← sz (metaChunkCounter c * Z.of_nat metaNodeSize);
  buffer ← memcpy (metaChunkBuffer_ c) o node 0 metaNodeSize;
  counter ← sint (metaChunkCounter c + 1);
  let c := {| segSizeTemp := seg; metaChunkCounter := counter; metaChunkID := metaChunkID c; metaChunkBuffer_ := buffer;
              dataItems := dataItems c ++ [ShareObj (sc_end temp) header data]; metaItems := metaItems c; keyFile := keyFile c |} in
  metaFP ← getI32 shareFP 0;
  let rem := Z.land metaFP (DIVISOR - 1) in
  c ← (if (rem =? PATTERN) || (seg >? MAX_SEGMENT_SIZE) || sc_end temp
       then makeMetaChunk crypto opens (sc_end temp) c else Ok c);
  Ok (data, c).

(** The loop over the clouds; [node i] is the content of the local metaNode. *)
Definition collectShares {R} (crypto : CryptoPrimitive) (opens : bool) (node : nat -> bytes) (temp : ShareChunk)
    (clouds : list Cloud) : res R (list Cloud) :=
  '(_, clouds) ← forN (length clouds) 0 (fun i '(data, clouds) =>
    c ← aget clouds i;
    '(data, c) ← collectShare crypto opens (node i) temp i data c;
    clouds ← aset clouds i c;
    Ok (data, clouds)) (fresh RING_BUFFER_DATA_SIZE, clouds);
  Ok clouds.

(** The file header of an item, in memory with the content [header]; the name follows. *)
Definition fileHeader {R} (header : bytes) (temp : FileHead) : res R bytes :=
  header ← setI64 header 8 (fh_fileSize temp);
  header ← setI32 header 16 0;
  header ← setI64 header 24 0;
  header ← setI32 header 32 0;
  setI64 header 40 0.

(** One round of the loop over the clouds for a file object. *)
Definition collectName {R} (tmp : bytes) (tmp_s : nat) (headerD headerM : bytes) (i : nat) (st : bytes * bytes * list Cloud)
  : res R (bytes * bytes * list Cloud) :=
  let '(dataD, dataM, clouds) := st in
  dataD ← memcpy dataD 0 tmp (i * tmp_s) tmp_s;
  dataM ← memcpy dataM 0 tmp (i * tmp_s) tmp_s;
  c ← aget clouds i;
  clouds ← aset clouds i {| segSizeTemp := segSizeTemp c; metaChunkCounter := metaChunkCounter c; metaChunkID := metaChunkID c;
    metaChunkBuffer_ := metaChunkBuffer_ c; dataItems := dataItems c ++ [FileObj headerD dataD];
    metaItems := metaItems c ++ [FileObj headerM dataM]; keyFile := keyFile c |};
  Ok (dataD, dataM, clouds).

(** A file header object; [headerD] and [headerM] are the contents of the structs
    file_header of the two items before they are set, [codec] is encodeObj_[0]. *)
Definition collectFile {R} (codec : CDCodec) (randomKey : nat -> byte) (headerD headerM : bytes) (temp : FileHead)
    (clouds : list Cloud) : res R (CDCodec * list Cloud) :=
  headerD ← fileHeader headerD temp;
  headerM ← fileHeader headerM temp;
  len ← sz (fh_fullNameSize temp);
  '(_, codec, tmp, tmp_s) ← encoding codec randomKey (fh_data temp) len (fresh (len * 32)) 0;
  headerD ← setI32 headerD 0 (Z.of_nat tmp_s);
  headerM ← setI32 headerM 0 (Z.of_nat tmp_s);
  '(_, _, clouds) ← forN (length clouds) 0 (collectName tmp tmp_s headerD headerM)
    (fresh RING_BUFFER_DATA_SIZE, fresh RING_BUFFER_DATA_SIZE, clouds);
  Ok (codec, clouds).

(** ** The encoding threads *)

(** Secret_t and the items of the input buffers. *)
Record Secret := {
  se_data : bytes;
  se_secretID : Z;
  se_secretSize : Z;
  se_end : bool;
}.
Inductive SecretItem :=
| HeadItem (file_header : FileHead)
| SecretObj (secret : Secret).

(** ** The collect thread *)

(** ShareChunk_Item_t: what the thread extracts from the output buffers. *)
Inductive CollectItem :=
| FileItem (file_header : FileHead)
| ChunkItem (share_chunk : ShareChunk).

(** One round of thread_handler: [codec] is the object of the thread, [junk] the value of
    shareSize before it is set. *)
Definition encodeItem {R} (randomKey : nat -> byte) (junk : nat) (codec : CDCodec) (temp : SecretItem) : res R (CollectItem * CDCodec) :=
  match temp with
  | HeadItem file_header => Ok (FileItem file_header, codec)
  | SecretObj s =>
      len ← sz (se_secretSize s);
      '(_, codec, data, shareSize) ← encoding codec randomKey (se_data s) len (fresh SHARE_BUFFER_SIZE) junk;
      Ok (ChunkItem {| sc_data := data; sc_secretID := se_secretID s; sc_secretSize := se_secretSize s;
                       sc_shareSize := Z.of_nat shareSize; sc_end := se_end s |}, codec)
  end.

(** The contents of the local structs of a round before they are set. *)
Record RoundJunk := {
  lc_node : nat -> bytes;
  lc_headerD : bytes;
  lc_headerM : bytes;
}.

(** One round of the main loop. *)
Definition collectItem {R} (crypto : CryptoPrimitive) (opens : bool) (randomKey : nat -> byte) (junk : RoundJunk)
    (item : CollectItem) (st : CDCodec * list Cloud) : res R (CDCodec * list Cloud) :=
  let '(codec, clouds) := st in
  match item with
  | FileItem temp => collectFile codec randomKey (lc_headerD junk) (lc_headerM junk) temp clouds
  | ChunkItem temp =>
      clouds ← collectShares crypto opens (lc_node junk) temp clouds;
      Ok (codec, clouds)
  end.

(** The main loop over the items it gets; it ends only with the process. *)
Fixpoint collect {R} (crypto : CryptoPrimitive) (opens : bool) (randomKey : nat -> byte) (items : list (RoundJunk * CollectItem))
    (st : CDCodec * list Cloud) : res R (CDCodec * list Cloud) :=
  match items with
  | [] => Ok st
  | (junk, item) :: items' =>
      st ← collectItem crypto opens randomKey junk item st;
      collect crypto opens randomKey items' st
  end.
End Encoder.
