(* ===== verification/RecipeWriter.v ===== *)
(** * Downloader: rebuilding the recipe

    Downloader::writeRetrivedFileRecipe decrypts a downloaded metadata chunk with the
    key at its position in the key file and appends an entry for each of its nodes to
    the recipe file of the cloud. *)

From stdpp Require Import base list numbers.
From coqutil Require Import Byte.
From Stdlib Require Import Lia.
From S2P Require Import Prelude Structs CryptoPrimitive Socket Uploader Encoder Downloader.

Local Open Scope Z_scope.

(** The decrypted key file of a cloud if it can be opened, its recipe file so far, and
    fileSizeCounter[index]. *)
Record Rebuilt := {
  rb_keys : option bytes;
  rb_recipe : bytes;
  rb_fileSize : Z;
}.

(** FP_SIZE * 2 + sizeof(int) *)
Definition metaKeySize : nat := 68.

Section Writer.
Context {SSL : OpenSSL} {MM : Memory}.

(** The entries of the key file are read up to the wanted one. *)
Definition readKeys {R} (n : nat) (keys : bytes) : res R bytes :=
  '(keyBuffer, _) ← forN n 0 (fun _ '(b, pos) =>
    let part := take metaKeySize (drop pos keys) in
    b ← wr b 0 part;
    Ok (b, (pos + length part)%nat)) (fresh metaKeySize, 0%nat);
  Ok keyBuffer.

(** The chunk [data] after decryption; [None] when the function returns 0. *)
Definition decryptChunk {R} (crypto : CryptoPrimitive) (keys : bytes) (metaChunkID shareSize : Z) (data : bytes)
  : res R (option bytes) :=
  keyBuffer ← readKeys (Z.to_nat metaChunkID) keys;
  idTemp ← getI32 keyBuffer 0;
  idTemp ← sint (- idTemp);
  if negb (idTemp =? metaChunkID) then Ok None else
  key ← rd keyBuffer (4 + FP_SIZE) FP_SIZE;
  len ← sz shareSize;
  cipher ← rd data 0 len;
  '(decFlag, dec) ← decryptWithKey crypto cipher key;
  if negb (decFlag : bool) then Ok None else
  decData ← wr (fresh len) 0 dec;
  data ← wr data 0 decData;
  Ok (Some data).

(** The entry of the [i]-th node. *)
Definition writeNode {R} (data : bytes) (i : nat) (st : bytes * Z) : res R (bytes * Z) :=
  let '(recipe, fileSize) := st in
  newNode ← rd data (i * metaNodeSize) metaNodeSize;
  fp ← rd newNode 0 FP_SIZE;
  secretID ← getI32 newNode 52;
  secretSize ← getI32 newNode 56;
  fileSize ← sint (fileSize + secretSize);
  Ok (recipe ++ fp ++ le32 secretID ++ le32 secretSize, fileSize).

(** The result and the state; [opens]: the recipe file can be opened.  The chunk is an
    item of the ring buffer, with its shareEntry_t and data. *)
Definition writeRetrivedFileRecipe {R} (crypto : CryptoPrimitive) (opens : bool) (share_header data : bytes) (st : Rebuilt)
  : res R (Z * Rebuilt) :=
  secretID ← getI32 share_header 0;
  shareSize ← getI32 share_header 8;
  metaChunkID ← sint (- secretID);
  chunk ← (match rb_keys st with
           | None => Ok (Some data)
           | Some keys => decryptChunk crypto keys metaChunkID shareSize data
           end);
  match chunk with
  | None => Ok (0, st)
  | Some data =>
      if negb opens then Ok (0, st) else
      n ← sz shareSize;
      '(recipe, fileSize) ← forN (n / metaNodeSize) 0 (writeNode data) (rb_recipe st, rb_fileSize st);
      Ok (1, {| rb_keys := rb_keys st; rb_recipe := recipe; rb_fileSize := fileSize |})
  end.

(** The loop of preDownloadFile over the chunks of a cloud, for the items its thread
    has put into the ring buffer; without an item it waits. *)
Fixpoint writeChunks {R} (crypto : CryptoPrimitive) (opens : bool) (n : nat) (items : list DItem) (st : Rebuilt) : res R Rebuilt :=
  match n, items with
  | O, _ => Ok st
  | S n', ShareItem share_header data :: items' =>
      '(_, st) ← writeRetrivedFileRecipe crypto opens share_header data st;
      writeChunks crypto opens n' items' st
  | S _, HeaderObj _ :: _ => UB
  | S _, [] => Hang
  end.

(** The header of the cloud and its chunks *)
Definition rebuildRecipe {R} (crypto : CryptoPrimitive) (opens : bool) (items : list DItem) (st : Rebuilt) : res R Rebuilt :=
  match items with
  | HeaderObj header :: items' =>
      numOfShares ← getI32 header 8;
      writeChunks crypto opens (Z.to_nat numOfShares) items' st
  | ShareItem _ _ :: _ => UB
  | [] => Hang
  end.
End Writer.
