(* ===== verification/MetaChunks.v ===== *)
(** * Metadata chunks

    What the collect thread makes of the shares of a cloud: the shares with their
    fingerprints for the data server, and the metadata of the shares, cut into segments,
    each encrypted under its own hash, for the metadata server, with the keys in the key
    file. *)

From stdpp Require Import base list numbers.
From coqutil Require Import Byte Word.LittleEndianList.
From Stdlib Require Import Lia.
From S2P Require Import Prelude Structs GaloisField CryptoPrimitive CDCodec FileNames World MinDedupCore MinStages MinPackage MinRestoreProof Socket Uploader UploaderProof Uploads Encoder.

Local Open Scope Z_scope.

(** ** Segments *)

(** The metadata of a share: the recipe entry, the bytes the code leaves uninitialised
    and the size of the share. *)
Record Node := {
  nd_entry : RecipeEntry;
  nd_other : bytes;
  nd_size : nat;
}.
Definition nodeBytes (x : Node) : bytes :=
  re_fp (nd_entry x) ++ nd_other x ++ le32 (re_secretID (nd_entry x)) ++ le32 (re_secretSize (nd_entry x)) ++ le32 (Z.of_nat (nd_size x)).
Definition plainOf (l : list Node) : bytes := mjoin (nodeBytes <$> l).
Definition wfNode (x : Node) : Prop := wfEntry (nd_entry x) /\ length (nd_other x) = 20%nat.

Lemma length_nodeBytes x : wfNode x -> length (nodeBytes x) = metaNodeSize.
Proof. intros [[H _] Ho]. unfold nodeBytes. rewrite !length_app, !length_le32, H, Ho. done. Qed.

Lemma plainOf_snoc l x : plainOf (l ++ [x]) = plainOf l ++ nodeBytes x.
Proof. unfold plainOf. rewrite fmap_app, join_app. cbn. by rewrite app_nil_r. Qed.

Lemma length_plainOf l : Forall wfNode l -> length (plainOf l) = (metaNodeSize * length l)%nat.
Proof.
  induction 1 as [|x l Hx _ IH]; [done|]. change (plainOf (x :: l)) with (nodeBytes x ++ plainOf l).
  rewrite length_app, IH, (length_nodeBytes x Hx). cbn [length]. lia.
Qed.

(** The int in the first bytes of a fingerprint *)
Definition firstInt (fp : bytes) : Z := signedOf 32 (le_combine (take 4 fp)).

(** The segments closed so far, each with the flag of the end of the file; the nodes of
    the open one and the size of its shares. *)
Record Seg := {
  sg_chunks : list (bool * list Node);
  sg_cur : list Node;
  sg_size : Z;
}.
Definition noSeg : Seg := {| sg_chunks := []; sg_cur := []; sg_size := 0 |}.

Section Segments.
Context {EL : EncodeLimits}.

(** Whether a segment ends with the node: the pattern, the maximum or the end. *)
Definition closes (fp : bytes) (size : Z) (last : bool) : bool :=
  (Z.land (firstInt fp) (DIVISOR - 1) =? PATTERN) || (size >? MAX_SEGMENT_SIZE) || last.

Definition segStep (sg : Seg) (y : bool * Node) : Seg :=
  let '(last, x) := y in
  let size := (sg_size sg + Z.of_nat (nd_size x)) mod 2 ^ 64 in
  if closes (re_fp (nd_entry x)) size last
  then {| sg_chunks := sg_chunks sg ++ [(last, sg_cur sg ++ [x])]; sg_cur := []; sg_size := 0 |}
  else {| sg_chunks := sg_chunks sg; sg_cur := sg_cur sg ++ [x]; sg_size := size |}.

Definition segments : Seg -> list (bool * Node) -> Seg := foldl segStep.

Definition allNodes (sg : Seg) : list Node := mjoin (snd <$> sg_chunks sg) ++ sg_cur sg.

Lemma segStep_nodes sg y : allNodes (segStep sg y) = allNodes sg ++ [y.2].
Proof.
  destruct y as [last x]. unfold segStep, allNodes. destruct (closes _ _ _); cbn.
  - rewrite fmap_app, join_app. cbn. by rewrite !app_nil_r, app_assoc.
  - by rewrite app_assoc.
Qed.

Lemma segments_nodes sg l : allNodes (segments sg l) = allNodes sg ++ (snd <$> l).
Proof.
  revert sg. induction l as [|y l IH]; intros sg; cbn; [by rewrite app_nil_r|].
  rewrite IH, segStep_nodes, <- app_assoc. done.
Qed.

(** Every segment has a node, so there are not more segments than nodes. *)
Lemma segments_count sg l : (length (sg_chunks (segments sg l)) <= length (sg_chunks sg) + length l)%nat.
Proof.
  revert sg. induction l as [|[last x] l IH]; intros sg; cbn; [lia|]. etrans; [apply IH|]. unfold segStep.
  destruct (closes _ _ _); cbn; lens.
Qed.

(** The buffer has room for each node before it is stored. *)
Definition room (sg : Seg) : Prop := (metaNodeSize * (length (sg_cur sg) + 1) <= SECRET_SIZE_META)%nat.
Fixpoint roomy (sg : Seg) (l : list (bool * Node)) : Prop :=
  match l with
  | [] => True
  | y :: l' => room sg /\ roomy (segStep sg y) l'
  end.

(** The flags of a file: the last share and no other. *)
Fixpoint flagged {A} (l : list A) : list (bool * A) :=
  match l with
  | [] => []
  | [x] => [(true, x)]
  | x :: l' => (false, x) :: flagged l'
  end.

Lemma flagged_cons {A} (x y : A) l : flagged (x :: y :: l) = (false, x) :: flagged (y :: l).
Proof. done. Qed.
Lemma flagged_snd {A} (l : list A) : (flagged l).*2 = l.
Proof. induction l as [|x [|y l] IH]; [done..|]. rewrite flagged_cons. cbn [fmap list_fmap]. by rewrite IH. Qed.
Lemma flagged_last {A} (l : list A) x : flagged (l ++ [x]) = ((fun y => (false, y)) <$> l) ++ [(true, x)].
Proof. induction l as [|y [|z l] IH]; [done..|]. cbn [app fmap list_fmap] in *. rewrite flagged_cons, IH. done. Qed.

(** The segments of a whole file: nothing is left open and the last one is marked. *)
Lemma segments_unflagged sg (l : list Node) :
  Forall (fun c => c.1 = false) (sg_chunks sg) ->
  Forall (fun c => c.1 = false) (sg_chunks (segments sg ((fun x => (false, x)) <$> l))).
Proof.
  revert sg. induction l as [|x l IH]; intros sg Hs; [done|]. apply IH. unfold segStep.
  destruct (closes _ _ _); cbn; [|done]. apply Forall_app. by split; [|repeat constructor].
Qed.

Lemma segments_file (l : list Node) :
  l <> [] -> exists cs : list (list Node), segments noSeg (flagged l) = {| sg_chunks := flagged cs; sg_cur := []; sg_size := 0 |} /\ mjoin cs = l.
Proof.
  intros Hl. destruct (exists_last Hl) as (l' & x & ->). rewrite flagged_last. unfold segments. rewrite foldl_app. cbn [foldl].
  change (foldl segStep noSeg ((fun y => (false, y)) <$> l')) with (segments noSeg ((fun y => (false, y)) <$> l')).
  pose proof (segments_unflagged noSeg l' ltac:(constructor)) as Hf. pose proof (segments_nodes noSeg ((fun y => (false, y)) <$> l')) as Hn.
  set (sg := segments _ _) in *. cbn [snd] in Hn. rewrite <- list_fmap_compose in Hn. cbn in Hn. unfold compose in Hn. cbn in Hn.
  rewrite list_fmap_id in Hn. unfold segStep, closes. rewrite orb_true_r.
  exists ((sg_chunks sg).*2 ++ [sg_cur sg ++ [x]]). split.
  - f_equal. rewrite flagged_last. f_equal. rewrite <- list_fmap_compose. symmetry. etrans; [|apply list_fmap_id].
    apply list_fmap_ext. intros i [e c] Hc. cbn. f_equal. by eapply list.Forall_lookup_1 in Hf; [|exact Hc].
  - rewrite join_app. cbn. rewrite app_nil_r, app_assoc. f_equal. exact Hn.
Qed.
End Segments.

(** ** What the thread produces for a cloud *)

Section Collecting.
Context {SSL : OpenSSL} {MM : Memory} {ML : MemoryLaws} {EL : EncodeLimits}.
Context {crypto : CryptoPrimitive} {bs : nat} {digest : bytes -> bytes} {encipher decipher : bytes -> bytes -> bytes}.
Context {CK : CryptoOk crypto 32 bs digest encipher decipher}.

Record EncodeOk : Prop := {
  eo_meta : (SECRET_SIZE_META <= RING_BUFFER_META_SIZE)%nat;
  eo_clear : (SECRET_SIZE <= SECRET_SIZE_META)%nat;
  eo_max : Z.of_nat SECRET_SIZE_META < 2 ^ 30;
  eo_block : (metaNodeSize mod bs = 0)%nat;
}.

(** A metadata chunk: the encrypted nodes, the item with its metadata, and the entry
    of the key file. *)
Definition chunkCipher (l : list Node) : bytes := encipher (plainOf l) (digest (plainOf l)).
Definition chunkMD (j : nat) (l : list Node) : ShareMD :=
  {| sm_fp := digest (chunkCipher l); sm_secretID := -1 - Z.of_nat j; sm_secretSize := Z.of_nat (length (plainOf l)); sm_size := length (plainOf l) |}.
Definition chunkShare (j : nat) (l : list Node) : ClientShare :=
  {| cs_md := chunkMD j l; cs_data := chunkCipher l ++ drop (length (plainOf l)) (fresh RING_BUFFER_META_SIZE) |}.
Definition keyEntry (j : nat) (l : list Node) : bytes :=
  le32 (-1 - Z.of_nat j) ++ digest (chunkCipher l) ++ digest (plainOf l).

Definition chunkItem (j : nat) (y : bool * list Node) : Item := shareItem y.1 (chunkShare j y.2).
Definition keysOf (chunks : list (bool * list Node)) : bytes := mjoin (imap (fun j y => keyEntry j y.2) chunks).

(** The share of cloud [i], its metadata and its node. *)
Definition cloudShare (temp : ShareChunk) (i : nat) : bytes :=
  let len := Z.to_nat (sc_shareSize temp) in take len (drop (i * len) (sc_data temp)).
Definition dataShare (temp : ShareChunk) (i : nat) : ClientShare :=
  {| cs_md := {| sm_fp := digest (cloudShare temp i); sm_secretID := sc_secretID temp; sm_secretSize := sc_secretSize temp;
                 sm_size := Z.to_nat (sc_shareSize temp) |};
     cs_data := cloudShare temp i ++ drop (Z.to_nat (sc_shareSize temp)) (fresh RING_BUFFER_DATA_SIZE) |}.
Definition nodeOf (temp : ShareChunk) (i : nat) (junk : bytes) : Node :=
  {| nd_entry := {| re_fp := digest (cloudShare temp i); re_secretID := sc_secretID temp; re_secretSize := sc_secretSize temp |};
     nd_other := take 20 (drop 32 junk); nd_size := Z.to_nat (sc_shareSize temp) |}.

(** A cloud after the shares [xs], with the segments [sg], beyond the items [preD],
    [preM] it began with. *)
Record collected (preD preM : list Item) (xs : list (bool * ClientShare)) (sg : Seg) (c : Cloud) : Prop := {
  co_counter : metaChunkCounter c = Z.of_nat (length (sg_cur sg));
  co_size : segSizeTemp c = sg_size sg;
  co_id : metaChunkID c = -1 - Z.of_nat (length (sg_chunks sg));
  co_buffer : exists rest, metaChunkBuffer_ c = plainOf (sg_cur sg) ++ rest /\ length (metaChunkBuffer_ c) = SECRET_SIZE_META;
  co_nodes : Forall wfNode (sg_cur sg);
  co_data : dataItems c = preD ++ ((fun y => shareItem y.1 y.2) <$> xs);
  co_meta : metaItems c = preM ++ imap chunkItem (sg_chunks sg);
  co_keys : keyFile c = keysOf (sg_chunks sg);
}.

Lemma imap_snoc {A B} (f : nat -> A -> B) l x : imap f (l ++ [x]) = imap f l ++ [f (length l) x].
Proof. rewrite imap_app. cbn. by rewrite Nat.add_0_r. Qed.

Lemma keysOf_snoc chunks y : keysOf (chunks ++ [y]) = keysOf chunks ++ keyEntry (length chunks) y.2.
Proof. unfold keysOf. rewrite imap_snoc, join_app. cbn. by rewrite app_nil_r. Qed.

Lemma plain_blocks l : EncodeOk -> Forall wfNode l -> (length (plainOf l) mod bs = 0)%nat.
Proof.
  intros OK Hl. rewrite length_plainOf by done. pose proof (eo_block OK) as H.
  apply Nat.Div0.mod_divides in H as [q Hq]. rewrite Hq. apply Nat.Div0.mod_divides. exists (q * length l)%nat. lia.
Qed.

Lemma length_chunkCipher l : EncodeOk -> Forall wfNode l -> length (chunkCipher l) = length (plainOf l).
Proof. intros OK Hl. apply (ok_encipher_length (c := crypto)). by apply plain_blocks. Qed.

Lemma drop_take_drop (m : bytes) a n k : k = (a + n)%nat -> drop a m = take n (drop a m) ++ drop k m.
Proof. intros ->. rewrite <- (take_drop n (drop a m)) at 1. by rewrite drop_drop. Qed.

Lemma chunkHeader_ok {R} id size (fp : bytes) :
  length fp = 32%nat -> chunkHeader (R := R) id size fp = Ok (fp ++ le32 id ++ le32 size ++ le32 size).
Proof.
  intros Lfp. unfold chunkHeader. pose proof (fresh_length shareMDEntrySize_) as Lm.
  set (m := fresh shareMDEntrySize_) in *. change shareMDEntrySize_ with 44%nat in Lm.
  rewrite (setI32_at (take 32 m) (take 4 (drop 32 m)) (drop 36 m)); [|by rewrite <- (drop_take_drop m 32 4 36 eq_refl), take_drop|lens|lens].
  cbn [mbind res_bind].
  rewrite (setI32_at (take 32 m ++ le32 id) (take 4 (drop 36 m)) (drop 40 m)); [|by rewrite <- app_assoc, <- (drop_take_drop m 36 4 40 eq_refl)|lens|lens].
  cbn [mbind res_bind].
  rewrite (setI32_at ((take 32 m ++ le32 id) ++ le32 size) (drop 40 m) []); [|by rewrite app_nil_r, <- !app_assoc|lens|lens].
  cbn [mbind res_bind]. rewrite app_nil_r, <- !app_assoc. apply wr_front. lens.
Qed.

(** New memory that is overwritten *)
Lemma wr_fresh {R} n (b : bytes) : length b = n -> wr (R := R) (fresh n) 0 b = Ok b.
Proof. intros <-. rewrite wr_ok by (rewrite fresh_length; lia). by rewrite take_0, drop_ge, app_nil_r by (rewrite fresh_length; lia). Qed.

(** Closing the segment [sg_cur]. *)
Lemma makeMetaChunk_spec {R} (last : bool) preD preM xs sg c :
  EncodeOk -> collected preD preM xs sg c -> (metaNodeSize * length (sg_cur sg) <= SECRET_SIZE_META)%nat ->
  Z.of_nat (length (sg_chunks sg)) < 2 ^ 31 - 2 ->
  exists c', makeMetaChunk (R := R) crypto true last c = Ok c' /\
    collected preD preM xs {| sg_chunks := sg_chunks sg ++ [(last, sg_cur sg)]; sg_cur := []; sg_size := 0 |} c'.
Proof.
  intros OK [Hc Hs Hi (rest & Eb & Lb) Hn Hd Hm Hk] Hroom Hnum. pose proof (eo_max OK). pose proof (eo_meta OK).
  pose proof (length_plainOf _ Hn) as Lp. set (plain := plainOf (sg_cur sg)) in *.
  pose proof (plain_blocks _ OK Hn) as Hblk. fold plain in Hblk.
  pose proof (length_chunkCipher _ OK Hn) as Lc. fold plain in Lc. unfold chunkCipher in Lc. fold plain in Lc.
  set (cipher := encipher plain (digest plain)) in *.
  assert (forall d, length (digest d) = 32%nat) as Ld by (intros; apply (ok_digest_length (c := crypto))).
  unfold makeMetaChunk. rewrite Hi, Hc. step (@sint_ok R (-1 - Z.of_nat (length (sg_chunks sg)) - 1) ltac:(lia)).
  replace (Z.of_nat (length (sg_cur sg)) * Z.of_nat metaNodeSize) with (Z.of_nat (length plain)) by (rewrite Lp; unfold metaNodeSize; lia).
  step (@sint_ok R (Z.of_nat (length plain)) ltac:(lia)). step (@sz_ok R (Z.of_nat (length plain)) ltac:(lia)). rewrite Nat2Z.id.
  rewrite Eb. step (rd_front (R := R) plain rest (length plain) eq_refl).
  step (ok_generateHash (c := crypto) R plain).
  step (wr_fresh (R := R) ENC_KEY_SIZE (digest plain) (Ld _)). step (ok_encrypt (c := crypto) R plain (digest plain) (Ld _) Hblk). fold cipher.
  step (wr_fresh (R := R) (length plain) cipher Lc). assert (wr (R := R) (fresh RING_BUFFER_META_SIZE) 0 cipher = Ok (cipher ++ drop (length plain) (fresh RING_BUFFER_META_SIZE))) as E2.
  { rewrite wr_ok by (rewrite fresh_length; lia). rewrite take_0, Lc. done. }
  step E2. step (rd_front (R := R) cipher (drop (length plain) (fresh RING_BUFFER_META_SIZE)) (length plain) ltac:(lia)).
  step (ok_generateHash (c := crypto) R cipher).
  set (id := -1 - Z.of_nat (length (sg_chunks sg))). set (size := Z.of_nat (length plain)).
  rewrite chunkHeader_ok by apply Ld. cbn [mbind res_bind]. rewrite <- Eb.
  pose proof (eo_clear OK). unfold memset. rewrite wr_ok by (rewrite length_replicate; lia). cbn [mbind res_bind guard_mem].
  step (rd_front (R := R) (digest cipher) (le32 id ++ le32 size ++ le32 size) HASH_SIZE ltac:(by rewrite Ld)).
  rewrite (rd_ok (digest plain)) by (rewrite Ld; done). cbn [mbind res_bind]. rewrite drop_0, (take_ge (digest plain) HASH_SIZE) by (rewrite Ld; done).
  eexists. split; [done|]. split; cbn.
  - done.
  - done.
  - unfold id. rewrite length_app. cbn. lia.
  - eexists. split; [done|]. rewrite <- Lb. lens.
  - constructor.
  - done.
  - by rewrite Hm, imap_snoc, <- app_assoc.
  - etrans; [|symmetry; apply keysOf_snoc]. by rewrite Hk.
Qed.

(** The fields of a chunk of shares for [n] clouds. *)
Record goodChunk (n : nat) (temp : ShareChunk) : Prop := {
  gc_size : 0 <= sc_shareSize temp;
  gc_ring : (Z.to_nat (sc_shareSize temp) <= RING_BUFFER_DATA_SIZE)%nat;
  gc_data : (n * Z.to_nat (sc_shareSize temp) <= length (sc_data temp))%nat;
  gc_share : int32 (sc_shareSize temp);
  gc_id : int32 (sc_secretID temp);
  gc_secret : 0 <= sc_secretSize temp < 2 ^ 31;
}.

Lemma setNode_ok {R} (node : bytes) temp :
  length node = metaNodeSize ->
  setNode (R := R) node temp = Ok (take 52 node ++ le32 (sc_secretID temp) ++ le32 (sc_secretSize temp) ++ le32 (sc_shareSize temp)).
Proof.
  intros Ln. change metaNodeSize with 64%nat in Ln. unfold setNode.
  rewrite (setI32_at (take 52 node) (take 4 (drop 52 node)) (drop 56 node)); [|by rewrite <- (drop_take_drop node 52 4 56 eq_refl), take_drop|lens|lens].
  cbn [mbind res_bind].
  rewrite (setI32_at (take 52 node ++ le32 (sc_secretID temp) ++ take 4 (drop 56 node)) (drop 60 node) []);
    [|by rewrite app_nil_r, <- !app_assoc, <- (drop_take_drop node 56 4 60 eq_refl)|lens|lens].
  cbn [mbind res_bind].
  rewrite (setI32_at (take 52 node ++ le32 (sc_secretID temp)) (take 4 (drop 56 node)) (le32 (sc_shareSize temp)));
    [by rewrite <- !app_assoc|by rewrite app_nil_r, <- !app_assoc|lens|lens].
Qed.

Lemma node_filled {R} (node : bytes) temp i :
  length node = metaNodeSize ->
  wr (R := R) (take 52 node ++ le32 (sc_secretID temp) ++ le32 (sc_secretSize temp) ++ le32 (sc_shareSize temp)) 0 (digest (cloudShare temp i))
  = Ok (digest (cloudShare temp i) ++ take 20 (drop 32 node) ++ le32 (sc_secretID temp) ++ le32 (sc_secretSize temp) ++ le32 (sc_shareSize temp)).
Proof.
  intros Ln. change metaNodeSize with 64%nat in Ln.
  assert (take 52 node = take 32 node ++ take 20 (drop 32 node)) as -> by (symmetry; exact (take_take_drop node 32 20)).
  rewrite <- app_assoc. apply wr_front. rewrite (ok_digest_length (c := crypto)). lens.
Qed.

Lemma nodeOf_bytes temp i junk :
  0 <= sc_shareSize temp ->
  nodeBytes (nodeOf temp i junk)
  = digest (cloudShare temp i) ++ take 20 (drop 32 junk) ++ le32 (sc_secretID temp) ++ le32 (sc_secretSize temp) ++ le32 (sc_shareSize temp).
Proof. intros H. unfold nodeBytes, nodeOf. cbn. by rewrite Z2Nat.id by done. Qed.

Lemma nodeOf_wf n temp i junk : goodChunk n temp -> length junk = metaNodeSize -> wfNode (nodeOf temp i junk).
Proof.
  intros [_ _ _ _ ? ?] Lj. change metaNodeSize with 64%nat in Lj.
  split; [split_and!; cbn; [apply (ok_digest_length (c := crypto))|done|unfold int32; lia]|]. cbn. lens.
Qed.

(** The node goes behind those of the open segment. *)
Definition addNode (sg : Seg) (x : Node) (size : Z) : Seg :=
  {| sg_chunks := sg_chunks sg; sg_cur := sg_cur sg ++ [x]; sg_size := size |}.

Lemma store_node {R} sg x b rest :
  Forall wfNode (sg_cur sg) -> wfNode x -> b = plainOf (sg_cur sg) ++ rest -> length b = SECRET_SIZE_META -> room sg ->
  exists rest', memcpy (R := R) b (metaNodeSize * length (sg_cur sg)) (nodeBytes x) 0 metaNodeSize = Ok (plainOf (sg_cur sg ++ [x]) ++ rest') /\
    length (plainOf (sg_cur sg ++ [x]) ++ rest') = SECRET_SIZE_META.
Proof.
  intros Hc Hx -> Lb Hr. pose proof (length_nodeBytes x Hx) as Lx. pose proof (length_plainOf _ Hc) as Lp.
  unfold room in Hr. unfold memcpy. rewrite rd_ok by lia. cbn [mbind res_bind]. rewrite drop_0, take_ge by lia.
  rewrite length_app in Lb. rewrite wr_next by lia. exists (drop (length (nodeBytes x)) rest). rewrite plainOf_snoc. split; [done|]. lens.
Qed.

(** The items of the ring buffer keep the memory behind a share. *)
Lemma copy_share {R} n temp i (data : bytes) :
  goodChunk n temp -> (i < n)%nat -> length data = RING_BUFFER_DATA_SIZE ->
  let len := Z.to_nat (sc_shareSize temp) in
  length (cloudShare temp i) = len /\
  memcpy (R := R) data 0 (sc_data temp) (i * len) len = Ok (cloudShare temp i ++ drop len data).
Proof.
  intros [? ? Hd _ _ _] Hi Ld len. fold len in Hd. assert (i * len + len <= length (sc_data temp))%nat by nia.
  split; [unfold cloudShare; fold len; lens|]. rewrite memcpy_ok by (fold len in gc_ring0; lia). done.
Qed.

Lemma collectShare_spec {R} n node temp i data preD preM xs sg c :
  EncodeOk -> goodChunk n temp -> (i < n)%nat -> length node = metaNodeSize -> length data = RING_BUFFER_DATA_SIZE ->
  let len := Z.to_nat (sc_shareSize temp) in
  drop len data = drop len (fresh RING_BUFFER_DATA_SIZE) ->
  collected preD preM xs sg c -> room sg -> Z.of_nat (length (sg_chunks sg)) < 2 ^ 31 - 2 ->
  exists c', collectShare (R := R) crypto true node temp i data c = Ok (cs_data (dataShare temp i), c') /\
    collected preD preM (xs ++ [(sc_end temp, dataShare temp i)]) (segStep sg (sc_end temp, nodeOf temp i node)) c'.
Proof.
  intros OK G Hi Ln Ld len Hdrop HC Hr Hnum. pose proof HC as [Hc Hs Hid (rest & Eb & Lb) Hn Hd Hm Hk].
  pose proof (gc_size _ _ G) as Hsz. pose proof (nodeOf_wf n temp i node G Ln) as Wn. pose proof (eo_max OK).
  destruct (copy_share (R := R) n temp i data G Hi Ld) as [Lsh Ec]. fold len in Lsh, Ec.
  unfold collectShare. step (@sz_ok R (sc_shareSize temp) Hsz). fold len. step Ec. rewrite Hdrop.
  step (setNode_ok (R := R) node temp Ln).
  step (rd_front (R := R) (cloudShare temp i) (drop len (fresh RING_BUFFER_DATA_SIZE)) len ltac:(lia)).
  step (ok_generateHash (c := crypto) R (cloudShare temp i)). step (node_filled (R := R) node temp i Ln).
  step (rd_front (R := R) (digest (cloudShare temp i)) (take 20 (drop 32 node) ++ le32 (sc_secretID temp) ++ le32 (sc_secretSize temp) ++ le32 (sc_shareSize temp))
    HASH_SIZE ltac:(by rewrite (ok_digest_length (c := crypto)))).
  rewrite <- (nodeOf_bytes temp i node Hsz), Hc.
  step (@sz_ok R (Z.of_nat (length (sg_cur sg)) * Z.of_nat metaNodeSize) ltac:(lia)).
  replace (Z.to_nat (Z.of_nat (length (sg_cur sg)) * Z.of_nat metaNodeSize)) with (metaNodeSize * length (sg_cur sg))%nat by lia.
  destruct (store_node (R := R) sg (nodeOf temp i node) _ rest Hn Wn Eb Lb Hr) as (rest' & E1 & L1). step E1.
  unfold room in Hr. unfold metaNodeSize in Hr. step (@sint_ok R (Z.of_nat (length (sg_cur sg)) + 1) ltac:(lia)).
  set (size := (segSizeTemp c + sc_shareSize temp) mod 2 ^ 64).
  match goal with |- context [makeMetaChunk _ _ _ ?k] => set (c1 := k) end.
  assert (collected preD preM (xs ++ [(sc_end temp, dataShare temp i)]) (addNode sg (nodeOf temp i node) size) c1) as HC1.
  { split; cbn [c1 addNode sg_cur sg_size sg_chunks segSizeTemp metaChunkCounter metaChunkID metaChunkBuffer_ dataItems metaItems keyFile]; try done.
    - rewrite length_app. cbn. lia.
    - by exists rest'.
    - apply Forall_app. by split; [|constructor].
    - rewrite Hd, <- app_assoc, fmap_app. unfold dataShare, shareItem, encodeShare. cbn. by rewrite Z2Nat.id by done. }
  assert (getI32 (R := R) (digest (cloudShare temp i)) 0 = Ok (firstInt (digest (cloudShare temp i)))) as ->.
  { unfold getI32. by rewrite rd_ok by (rewrite (ok_digest_length (c := crypto)); lia). }
  cbn [mbind res_bind]. unfold segStep. cbn [nodeOf nd_entry re_fp nd_size]. fold len.
  replace ((sg_size sg + Z.of_nat len) mod 2 ^ 64) with size by (unfold size, len; by rewrite Hs, Z2Nat.id).
  unfold closes. destruct (_ || _ || _).
  - destruct (makeMetaChunk_spec (R := R) (sc_end temp) _ _ _ _ _ OK HC1) as (c' & -> & HC'); [|done|].
    { cbn. rewrite length_app. cbn. unfold metaNodeSize. lia. }
    cbn [mbind res_bind]. by exists c'.
  - cbn [mbind res_bind]. by exists c1.
Qed.

(** ** All clouds *)

(** A chunk with the uninitialised memory of its round. *)
Abbreviation Round := (RoundJunk * ShareChunk)%type.

Definition sharesFor (rounds : list Round) (i : nat) : list (bool * ClientShare) :=
  (fun r => (sc_end r.2, dataShare r.2 i)) <$> rounds.
Definition nodesFor (rounds : list Round) (i : nat) : list (bool * Node) :=
  (fun r => (sc_end r.2, nodeOf r.2 i (lc_node r.1 i))) <$> rounds.

Definition goodRound (n : nat) (r : Round) : Prop :=
  goodChunk n r.2 /\ forall i, (i < n)%nat -> length (lc_node r.1 i) = metaNodeSize.

(** Every cloud has collected the rounds. *)
Definition cloudsHave (n : nat) (preD preM : nat -> list Item) (rounds : list Round) (clouds : list Cloud) : Prop :=
  length clouds = n /\
  forall i, (i < n)%nat -> exists c, clouds !! i = Some c /\
    collected (preD i) (preM i) (sharesFor rounds i) (segments noSeg (nodesFor rounds i)) c.

Lemma sharesFor_snoc rounds r i : sharesFor (rounds ++ [r]) i = sharesFor rounds i ++ [(sc_end r.2, dataShare r.2 i)].
Proof. unfold sharesFor. by rewrite fmap_app. Qed.

Lemma nodesFor_snoc rounds r i :
  segments noSeg (nodesFor (rounds ++ [r]) i) = segStep (segments noSeg (nodesFor rounds i)) (sc_end r.2, nodeOf r.2 i (lc_node r.1 i)).
Proof. unfold nodesFor, segments. by rewrite fmap_app, foldl_app. Qed.

Lemma segments_few rounds i : (length (sg_chunks (segments noSeg (nodesFor rounds i))) <= length rounds)%nat.
Proof. etrans; [apply segments_count|]. unfold nodesFor. cbn. lens. Qed.

Lemma dataShare_rest n temp i :
  goodChunk n temp -> (i < n)%nat ->
  length (cs_data (dataShare temp i)) = RING_BUFFER_DATA_SIZE /\
  drop (Z.to_nat (sc_shareSize temp)) (cs_data (dataShare temp i)) = drop (Z.to_nat (sc_shareSize temp)) (fresh RING_BUFFER_DATA_SIZE).
Proof.
  intros G Hi. destruct (copy_share (R := False) n temp i (fresh RING_BUFFER_DATA_SIZE) G Hi (fresh_length _)) as [L _].
  pose proof (gc_ring _ _ G). cbn. split; [rewrite length_app, length_drop, fresh_length; lia|].
  rewrite drop_app_le, drop_ge by lia. done.
Qed.

Lemma collectShares_spec {R} n preD preM rounds (r : Round) clouds :
  EncodeOk -> goodRound n r -> cloudsHave n preD preM rounds clouds ->
  (forall i, (i < n)%nat -> room (segments noSeg (nodesFor rounds i))) -> Z.of_nat (length rounds) < 2 ^ 31 - 2 ->
  exists clouds', collectShares (R := R) crypto true (lc_node r.1) r.2 clouds = Ok clouds' /\
    cloudsHave n preD preM (rounds ++ [r]) clouds'.
Proof.
  intros OK [G Gn] [Lc Hcl] Hroom Hnum. unfold collectShares. rewrite Lc. set (len := Z.to_nat (sc_shareSize r.2)).
  match goal with |- context [forN n 0 ?body ?s] => destruct (forN_inv (fun k st =>
    length st.1 = RING_BUFFER_DATA_SIZE /\ drop len st.1 = drop len (fresh RING_BUFFER_DATA_SIZE) /\ length st.2 = n /\
    forall i, (i < n)%nat -> exists c, st.2 !! i = Some c /\
      let done := if decide (i < k)%nat then rounds ++ [r] else rounds in
      collected (preD i) (preM i) (sharesFor done i) (segments noSeg (nodesFor done i)) c) n 0 body s) as ([data cl] & -> & H) end.
  - split_and!; [apply fresh_length|done|done|]. intros i Hi. destruct (Hcl i Hi) as (c & ? & ?). exists c.
    split; [done|]. by rewrite decide_False by lia.
  - intros k [data cl] Hk (L & D & Lcl & HI). cbn [fst snd] in *. destruct (HI k ltac:(lia)) as (c & Ek & HC). rewrite decide_False in HC by lia.
    step (aget_ok (R := R) cl k c Ek).
    destruct (collectShare_spec (R := R) n (lc_node r.1 k) r.2 k data (preD k) (preM k) _ _ c OK G ltac:(lia) (Gn k ltac:(lia)) L D HC (Hroom k ltac:(lia)))
      as (c' & -> & HC'); [pose proof (segments_few rounds k); lia|].
    cbn [mbind res_bind]. rewrite aset_ok by (rewrite Lcl; lia). cbn [mbind res_bind]. eexists. split; [done|]. cbn [fst snd].
    destruct (dataShare_rest n r.2 k G ltac:(lia)) as [L' D']. split_and!; [done|done|by rewrite length_insert|].
    intros i Hi. destruct (decide (i = k)) as [->|Hne].
    + exists c'. split; [apply list_lookup_insert_eq; lia|]. rewrite decide_True by lia. cbn. by rewrite sharesFor_snoc, nodesFor_snoc.
    + destruct (HI i Hi) as (d & Ed & HD). exists d. rewrite list_lookup_insert_ne by done. split; [done|].
      destruct (decide (i < k)%nat), (decide (i < S k)%nat); try lia; done.
  - destruct H as (_ & _ & L & H). cbn [fst snd] in *. cbn [mbind res_bind]. exists cl. split; [done|]. split; [done|].
    intros i Hi. destruct (H i Hi) as (c & ? & HC). exists c. split; [done|]. by rewrite decide_True in HC by lia.
Qed.

Lemma roomy_prefix sg l y l' : roomy sg (l ++ y :: l') -> room (segments sg l).
Proof. revert sg. induction l as [|z l IH]; intros sg; cbn; intros [? ?]; [done|]. by apply IH. Qed.

Definition chunkRounds (rounds : list Round) : list (RoundJunk * CollectItem) := (fun r => (r.1, ChunkItem r.2)) <$> rounds.

(** The rounds [rest] after the rounds [past]. *)
Lemma collect_rounds {GF : GaloisField} {R} n preD preM randomKey codec past rest clouds :
  EncodeOk -> Forall (goodRound n) rest -> cloudsHave n preD preM past clouds ->
  (forall i, (i < n)%nat -> roomy noSeg (nodesFor (past ++ rest) i)) -> Z.of_nat (length (past ++ rest)) < 2 ^ 31 - 2 ->
  exists clouds', collect (R := R) crypto true randomKey (chunkRounds rest) (codec, clouds) = Ok (codec, clouds') /\
    cloudsHave n preD preM (past ++ rest) clouds'.
Proof.
  intros OK HG. revert past clouds. induction HG as [|r rest Hr _ IH]; intros past clouds HC Hroom Hnum.
  - exists clouds. by rewrite app_nil_r.
  - change (chunkRounds (r :: rest)) with ((r.1, ChunkItem r.2) :: chunkRounds rest). cbn [collect collectItem].
    destruct (collectShares_spec (R := R) n preD preM past r clouds OK Hr HC) as (cl & -> & HC').
    + intros i Hi. specialize (Hroom i Hi). unfold nodesFor in Hroom. rewrite fmap_app in Hroom. by eapply roomy_prefix.
    + rewrite length_app in Hnum. cbn in Hnum. lia.
    + cbn [mbind res_bind]. rewrite cons_middle, app_assoc in Hroom, Hnum |- *. by apply IH.
Qed.

Lemma newCloud_collected : collected [] [] [] noSeg newCloud.
Proof. split; cbn; try done. exists (fresh SECRET_SIZE_META). by rewrite fresh_length. Qed.

(** ** The file header *)

(** The header of the items, in memory with the content [junk]. *)
Definition clientFile (junk : bytes) (size : Z) (name : bytes) : ClientFile :=
  {| cf_pad1 := take 4 (drop 4 junk); cf_pad2 := take 4 (drop 20 junk); cf_pad3 := take 4 (drop 36 junk); cf_size := size; cf_name := name |}.

Lemma fileHeader_ok {R} (h : bytes) temp :
  length h = fileShareMDHeadSize_ ->
  fileHeader (R := R) h temp
  = Ok (take 8 h ++ le64 (fh_fileSize temp) ++ le32 0 ++ take 4 (drop 20 h) ++ le64 0 ++ le32 0 ++ take 4 (drop 36 h) ++ le64 0).
Proof.
  intros L. change fileShareMDHeadSize_ with 48%nat in L. unfold fileHeader. set (x := le64 (fh_fileSize temp)).
  assert (length x = 8%nat) by apply length_le64.
  rewrite (setI64_at (take 8 h) (take 8 (drop 8 h)) (drop 16 h)); [|by rewrite <- (drop_take_drop h 8 8 16 eq_refl), take_drop|lens|lens].
  cbn [mbind res_bind]. fold x.
  rewrite (setI32_at (take 8 h ++ x) (take 4 (drop 16 h)) (drop 20 h)); [|by rewrite <- app_assoc, <- (drop_take_drop h 16 4 20 eq_refl)|lens|lens].
  cbn [mbind res_bind].
  rewrite (setI64_at ((take 8 h ++ x) ++ le32 0 ++ take 4 (drop 20 h)) (take 8 (drop 24 h)) (drop 32 h));
    [|rewrite <- !app_assoc, <- (drop_take_drop h 24 8 32 eq_refl), <- (drop_take_drop h 20 4 24 eq_refl); done|lens|lens].
  cbn [mbind res_bind].
  rewrite (setI32_at (((take 8 h ++ x) ++ le32 0 ++ take 4 (drop 20 h)) ++ le64 0) (take 4 (drop 32 h)) (drop 36 h));
    [|by rewrite <- !app_assoc, <- (drop_take_drop h 32 4 36 eq_refl)|lens|lens].
  cbn [mbind res_bind].
  rewrite (setI64_at ((((take 8 h ++ x) ++ le32 0 ++ take 4 (drop 20 h)) ++ le64 0) ++ le32 0 ++ take 4 (drop 36 h)) (drop 40 h) []);
    [|rewrite app_nil_r, <- !app_assoc, <- (drop_take_drop h 36 4 40 eq_refl); done|lens|lens].
  by rewrite app_nil_r, <- !app_assoc.
Qed.

Lemma named_header {R} (h : bytes) temp (name : bytes) :
  length h = fileShareMDHeadSize_ ->
  setI32 (R := R) (take 8 h ++ le64 (fh_fileSize temp) ++ le32 0 ++ take 4 (drop 20 h) ++ le64 0 ++ le32 0 ++ take 4 (drop 36 h) ++ le64 0)
    0 (Z.of_nat (length name))
  = Ok (headBytes (clientFile h (fh_fileSize temp) name) 0 0 0 0).
Proof.
  intros L. change fileShareMDHeadSize_ with 48%nat in L.
  assert (take 8 h = take 4 h ++ take 4 (drop 4 h)) as -> by (symmetry; exact (take_take_drop h 4 4)).
  erewrite (setI32_at [] (take 4 h)); [|cbn [app]; rewrite <- app_assoc; reflexivity|done|lens]. done.
Qed.

(** The name of cloud [i]: its share of the encoded path. *)
Definition nameShare (tmp : bytes) (tmp_s i : nat) : bytes := take tmp_s (drop (i * tmp_s) tmp).
Definition headItem (junk : bytes) (size : Z) (name : bytes) : Item :=
  FileObj (headBytes (clientFile junk size name) 0 0 0 0) (name ++ drop (length name) (fresh RING_BUFFER_DATA_SIZE)).

Lemma copy_name {R} n tmp tmp_s i (data : bytes) :
  (n * tmp_s <= length tmp)%nat -> (tmp_s <= RING_BUFFER_DATA_SIZE)%nat -> (i < n)%nat -> length data = RING_BUFFER_DATA_SIZE ->
  drop tmp_s data = drop tmp_s (fresh RING_BUFFER_DATA_SIZE) ->
  length (nameShare tmp tmp_s i) = tmp_s /\
  memcpy (R := R) data 0 tmp (i * tmp_s) tmp_s = Ok (nameShare tmp tmp_s i ++ drop tmp_s (fresh RING_BUFFER_DATA_SIZE)).
Proof.
  intros Hn Hs Hi L D. assert (i * tmp_s + tmp_s <= length tmp)%nat by nia. split; [unfold nameShare; lens|].
  rewrite memcpy_ok by lia. cbn [Nat.add]. by rewrite D.
Qed.

Lemma collectNames_spec {R} n junkD junkM size tmp tmp_s clouds preD preM :
  (n * tmp_s <= length tmp)%nat -> (tmp_s <= RING_BUFFER_DATA_SIZE)%nat -> cloudsHave n preD preM [] clouds ->
  let head junk i := headBytes (clientFile junk size (nameShare tmp tmp_s i)) 0 0 0 0 in
  (forall junk i, (i < n)%nat -> head junk i = head junk 0%nat) ->
  exists r, forN (R := R) n 0 (collectName tmp tmp_s (head junkD 0%nat) (head junkM 0%nat)) (fresh RING_BUFFER_DATA_SIZE, fresh RING_BUFFER_DATA_SIZE, clouds)
    = Ok r /\ cloudsHave n (fun i => preD i ++ [headItem junkD size (nameShare tmp tmp_s i)])
                (fun i => preM i ++ [headItem junkM size (nameShare tmp tmp_s i)]) [] r.2.
Proof.
  intros Hn Hs [Lc Hcl] head Hhead. set (F := fresh RING_BUFFER_DATA_SIZE).
  assert (length F = RING_BUFFER_DATA_SIZE) as LF by apply fresh_length.
  destruct (forN_inv (R := R) (fun k (st : bytes * bytes * list Cloud) =>
    length st.1.1 = RING_BUFFER_DATA_SIZE /\ drop tmp_s st.1.1 = drop tmp_s F /\
    length st.1.2 = RING_BUFFER_DATA_SIZE /\ drop tmp_s st.1.2 = drop tmp_s F /\ length st.2 = n /\
    forall i, (i < n)%nat -> exists c, st.2 !! i = Some c /\
      collected (preD i ++ (if decide (i < k)%nat then [headItem junkD size (nameShare tmp tmp_s i)] else []))
        (preM i ++ (if decide (i < k)%nat then [headItem junkM size (nameShare tmp tmp_s i)] else [])) [] noSeg c)
    n 0 (collectName tmp tmp_s (head junkD 0%nat) (head junkM 0%nat)) (F, F, clouds)) as (r & -> & H).
  - split_and!; try done. intros i Hi. destruct (Hcl i Hi) as (c & ? & ?). exists c. split; [done|].
    by rewrite !decide_False, !app_nil_r by lia.
  - intros k [[dD dM] cl] Hk (L1 & D1 & L2 & D2 & Lcl & HI). cbn [fst snd] in *. destruct (HI k ltac:(lia)) as (c & Ek & HC).
    destruct HC as [Q1 Q2 Q3 Q4 Q5 Q6 Q7 Q8]. rewrite decide_False, app_nil_r in Q6, Q7 by lia.
    destruct (copy_name (R := R) n tmp tmp_s k dD Hn Hs ltac:(lia) L1 D1) as [Ls E1].
    destruct (copy_name (R := R) n tmp tmp_s k dM Hn Hs ltac:(lia) L2 D2) as [_ E2]. fold F in E1, E2.
    unfold collectName. step E1. step E2. step (aget_ok (R := R) cl k c Ek). rewrite aset_ok by (rewrite Lcl; lia).
    cbn [mbind res_bind]. eexists. split; [done|]. cbn [fst snd].
    split_and!; [lens|by rewrite drop_app_le, drop_ge by lia|lens|by rewrite drop_app_le, drop_ge by lia|lens|].
    intros i Hi. destruct (decide (i = k)) as [->|Hne].
    + eexists. split; [apply list_lookup_insert_eq; lia|]. rewrite !decide_True by lia. split; cbn; try done.
      * rewrite Q6, app_nil_r. unfold headItem. rewrite Ls. fold F (head junkD k). by rewrite (Hhead junkD k), app_nil_r by lia.
      * rewrite Q7, app_nil_r. unfold headItem. rewrite Ls. fold F (head junkM k). by rewrite (Hhead junkM k), app_nil_r by lia.
    + destruct (HI i Hi) as (d & Ed & HD). exists d. rewrite list_lookup_insert_ne by done. split; [done|].
      destruct (decide (i < k)%nat), (decide (i < S k)%nat); try lia; done.
  - exists r. split; [done|]. destruct H as (_ & _ & _ & _ & L & H). split; [done|]. intros i Hi.
    destruct (H i Hi) as (c & ? & HC). exists c. split; [done|]. by rewrite !decide_True in HC by lia.
Qed.

Lemma collectFile_spec {GF : GaloisField} {R} n codec randomKey junk temp clouds ok codec' tmp tmp_s preD preM :
  0 <= fh_fullNameSize temp -> length (lc_headerD junk) = fileShareMDHeadSize_ -> length (lc_headerM junk) = fileShareMDHeadSize_ ->
  encoding (R := R) codec randomKey (fh_data temp) (Z.to_nat (fh_fullNameSize temp)) (fresh (Z.to_nat (fh_fullNameSize temp) * 32)) 0 = Ok (ok, codec', tmp, tmp_s) ->
  (n * tmp_s <= length tmp)%nat -> (tmp_s <= RING_BUFFER_DATA_SIZE)%nat -> (0 < n)%nat -> cloudsHave n preD preM [] clouds ->
  exists clouds', collectFile (R := R) codec randomKey (lc_headerD junk) (lc_headerM junk) temp clouds = Ok (codec', clouds') /\
    cloudsHave n (fun i => preD i ++ [headItem (lc_headerD junk) (fh_fileSize temp) (nameShare tmp tmp_s i)])
      (fun i => preM i ++ [headItem (lc_headerM junk) (fh_fileSize temp) (nameShare tmp tmp_s i)]) [] clouds'.
Proof.
  intros Hf LD LM E Hn Hs Hpos HC. unfold collectFile. step (fileHeader_ok (R := R) _ temp LD). step (fileHeader_ok (R := R) _ temp LM).
  step (@sz_ok R (fh_fullNameSize temp) Hf). step E.
  assert (forall i, (i < n)%nat -> length (nameShare tmp tmp_s i) = tmp_s) as Ls.
  { intros i Hi. assert (i * tmp_s + tmp_s <= length tmp)%nat by nia. unfold nameShare. lens. }
  rewrite <- (Ls 0%nat Hpos). step (named_header (R := R) _ temp (nameShare tmp tmp_s 0) LD). step (named_header (R := R) _ temp (nameShare tmp tmp_s 0) LM).
  rewrite (Ls 0%nat Hpos). pose proof (proj1 HC) as ->.
  destruct (collectNames_spec (R := R) n (lc_headerD junk) (lc_headerM junk) (fh_fileSize temp) tmp tmp_s clouds preD preM Hn Hs HC) as ([[d1 d2] cl] & -> & HC').
  - intros j i Hi. unfold headBytes. cbn. by rewrite (Ls i Hi), (Ls 0%nat Hpos).
  - cbn [mbind res_bind]. by exists cl.
Qed.
End Collecting.
