(* ===== verification/RecipeRebuild.v ===== *)
(** * Rebuilding the recipe

    The metadata chunks of a cloud, downloaded in order with the key file of the upload,
    give the recipe of the shares of the cloud: the entries in order. *)

From stdpp Require Import base list numbers.
From coqutil Require Import Byte Word.LittleEndianList.
From Stdlib Require Import Lia.
From S2P Require Import Prelude Structs GaloisField CryptoPrimitive CDCodec FileNames World MinDedupCore MinStages MinPackage MinRestore MinRestoreProof Socket Uploader UploaderProof Uploads Downloader DownloaderProof Encoder RecipeWriter MetaChunks DedupUpload ErasureCode AontSchemes CodecTheorems.

Local Open Scope Z_scope.

(** Blocks of equal size *)
Lemma join_block {A} (l : list (list A)) m k x :
  Forall (fun b => length b = m) l -> l !! k = Some x -> take m (drop (m * k) (mjoin l)) = x.
Proof.
  revert k. induction l as [|b l IH]; intros [|k] HF Hk; cbn in Hk; simplify_eq; apply list.Forall_cons in HF as [<- HF];
    change (mjoin (b :: l)) with (b ++ mjoin l) || change (mjoin (x :: l)) with (x ++ mjoin l).
  - by rewrite Nat.mul_0_r, drop_0, take_app_length.
  - rewrite Nat.mul_succ_r, Nat.add_comm, <- drop_drop, drop_app_length. by apply IH.
Qed.

Lemma length_join_blocks {A} (l : list (list A)) m : Forall (fun b => length b = m) l -> length (mjoin l) = (m * length l)%nat.
Proof.
  induction 1 as [|b l Hb _ IH]; [done|]. change (mjoin (b :: l)) with (b ++ mjoin l). rewrite length_app, IH, Hb. cbn [length]. lia.
Qed.

Lemma join_middle {A} (l : list (list A)) k x : l !! k = Some x -> exists a b, mjoin l = a ++ x ++ b.
Proof.
  intros Hk. exists (mjoin (take k l)), (mjoin (drop (S k) l)). rewrite <- (take_drop_middle l k x Hk) at 1. by rewrite join_app.
Qed.

(** The size of the secrets of a list of entries *)
Definition secretsSize (es : list RecipeEntry) : Z := foldr (fun e z => re_secretSize e + z) 0 es.

Lemma secretsSize_app es es' : secretsSize (es ++ es') = secretsSize es + secretsSize es'.
Proof. induction es as [|e es IH]; cbn; [done|]. fold (secretsSize (es ++ es')) (secretsSize es). lia. Qed.

Lemma secretsSize_nonneg es : Forall (fun e => 0 <= re_secretSize e) es -> 0 <= secretsSize es.
Proof. induction 1; cbn; [done|]. fold (secretsSize l). lia. Qed.

Section Rebuild.
Context {SSL : OpenSSL} {MM : Memory} {ML : MemoryLaws} {EL : EncodeLimits} {DL : DownloadLimits}.
Context {crypto : CryptoPrimitive} {bs : nat} {digest : bytes -> bytes} {encipher decipher : bytes -> bytes -> bytes}.
Context {CK : CryptoOk crypto 32 bs digest encipher decipher}.
Abbreviation keyEntry := (MetaChunks.keyEntry (digest := digest) (encipher := encipher)).
Abbreviation keysOf := (MetaChunks.keysOf (digest := digest) (encipher := encipher)).
Abbreviation chunkCipher := (MetaChunks.chunkCipher (digest := digest) (encipher := encipher)).
Abbreviation chunkMD := (MetaChunks.chunkMD (digest := digest) (encipher := encipher)).
Abbreviation EncodeOk := (MetaChunks.EncodeOk (bs := bs)).

Lemma length_keyEntry j l : length (keyEntry j l) = metaKeySize.
Proof. unfold MetaChunks.keyEntry. rewrite !length_app, length_le32, !(ok_digest_length (c := crypto)). done. Qed.

(** Reading up to the key of chunk [j] *)
Lemma readKeys_spec {R} (chunks : list (bool * list Node)) j y :
  chunks !! j = Some y -> readKeys (R := R) (S j) (keysOf chunks) = Ok (keyEntry j y.2).
Proof.
  intros Hj. unfold readKeys. set (es := imap (fun j y => keyEntry j y.2) chunks).
  assert (Forall (fun b => length b = metaKeySize) es) as HF.
  { apply list.Forall_lookup. intros k b Hk. unfold es in Hk. rewrite list_lookup_imap in Hk.
    destruct (chunks !! k); cbn in Hk; simplify_eq. apply length_keyEntry. }
  assert (forall k, (k <= j)%nat -> exists z, es !! k = Some z) as Hes.
  { intros k Hk. apply lookup_lt_is_Some_2. unfold es. rewrite length_imap. apply lookup_lt_Some in Hj. lia. }
  match goal with |- context [forN (S j) 0 ?body ?s] => destruct (forN_inv (R := R) (fun k (st : bytes * nat) =>
    length st.1 = metaKeySize /\ st.2 = (metaKeySize * k)%nat /\ forall k', k = S k' -> es !! k' = Some st.1) (S j) 0 body s) as ([b pos] & -> & H) end.
  - split_and!; [apply fresh_length|cbn; lia|done].
  - intros k [b pos] Hk (Lb & Hp & _). cbn [fst snd] in Lb, Hp. subst pos.  destruct (Hes k ltac:(lia)) as [z Hz].
    change (keysOf chunks) with (mjoin es). rewrite (join_block es metaKeySize k z HF Hz).
    pose proof (proj1 (list.Forall_lookup _ _) HF k z Hz) as Lz. cbn beta in Lz.
    rewrite wr_ok by lia. cbn [mbind res_bind]. eexists. split; [done|]. cbn [fst snd].
    rewrite take_0, drop_ge, app_nil_r by lia. split_and!; [done|lia|]. intros k' [= ->]. done.
  - destruct H as (_ & _ & H). cbn [fst snd mbind res_bind] in *. specialize (H j eq_refl). unfold es in H.
    rewrite list_lookup_imap, Hj in H. cbn in H. by simplify_eq.
Qed.

(** A downloaded chunk is decrypted. *)
Lemma decryptChunk_spec {R} (chunks : list (bool * list Node)) j y slack :
  EncodeOk -> chunks !! j = Some y -> Forall wfNode y.2 -> Z.of_nat j < 2 ^ 31 - 2 ->
  decryptChunk (R := R) crypto (keysOf chunks) (Z.of_nat (S j)) (Z.of_nat (length (plainOf y.2))) (chunkCipher y.2 ++ slack)
  = Ok (Some (plainOf y.2 ++ slack)).
Proof.
  intros OK Hj Hn Hb. pose proof (length_chunkCipher (crypto := crypto) _ OK Hn) as Lc. pose proof (plain_blocks _ OK Hn) as Hblk.
  unfold decryptChunk. rewrite Nat2Z.id. step (readKeys_spec (R := R) chunks j y Hj).
  unfold MetaChunks.keyEntry. set (key := digest (plainOf y.2)). set (fp := digest (chunkCipher y.2)).
  assert (length key = 32%nat /\ length fp = 32%nat) as [Lk Lf] by (split; apply (ok_digest_length (c := crypto))).
  rewrite (getI32_at [] (-1 - Z.of_nat j) (fp ++ key)) by (try done; unfold int32; lia). cbn [mbind res_bind].
  step (@sint_ok R (- (-1 - Z.of_nat j)) ltac:(lia)).
  replace (- (-1 - Z.of_nat j) =? Z.of_nat (S j)) with true by (symmetry; apply Z.eqb_eq; lia). cbn [negb].
  rewrite <- (app_nil_r key), app_assoc. step (rd_mid (R := R) (le32 (-1 - Z.of_nat j) ++ fp) key [] (4 + FP_SIZE) FP_SIZE ltac:(lens; rewrite Lf; done) ltac:(by rewrite Lk)).
  step (@sz_ok R (Z.of_nat (length (plainOf y.2))) ltac:(lia)). rewrite Nat2Z.id.
  step (rd_front (R := R) (chunkCipher y.2) slack (length (plainOf y.2)) ltac:(lia)).
  step (ok_decrypt (c := crypto) R (chunkCipher y.2) key Lk ltac:(by rewrite Lc)). cbn [negb].
  assert (decipher (chunkCipher y.2) key = plainOf y.2) as -> by (exact (ok_decipher (c := crypto) (plainOf y.2) key Lk Hblk)).
  step (wr_fresh (R := R) (length (plainOf y.2)) (plainOf y.2) eq_refl).
  step (wr_front (R := R) (chunkCipher y.2) slack (plainOf y.2) ltac:(lia)). done.
Qed.

(** One node of the decrypted chunk *)
Lemma writeNode_spec {R} (l : list Node) i x slack recipe size :
  Forall wfNode l -> l !! i = Some x -> int32 (size + re_secretSize (nd_entry x)) ->
  writeNode (R := R) (plainOf l ++ slack) i (recipe, size) = Ok (recipe ++ encodeEntry (nd_entry x), size + re_secretSize (nd_entry x)).
Proof.
  intros HF Hi Hs. pose proof (proj1 (list.Forall_lookup _ _) HF i x Hi) as Hx. pose proof Hx as [(Lf & Wi & Ws) Lo].
  assert (Forall (fun b => length b = metaNodeSize) (nodeBytes <$> l)) as HB.
  { apply list.Forall_fmap. eapply list.Forall_impl; [exact HF|]. apply length_nodeBytes. }
  assert (rd (R := R) (plainOf l ++ slack) (i * metaNodeSize) metaNodeSize = Ok (nodeBytes x)) as E.
  { apply lookup_lt_Some in Hi as Hl. pose proof (length_plainOf l HF). rewrite rd_ok by (rewrite length_app; nia).
    rewrite drop_app_le, take_app_le by (rewrite ?length_drop; nia). f_equal. rewrite Nat.mul_comm.
    apply join_block; [done|]. by rewrite list_lookup_fmap, Hi. }
  unfold writeNode. step E. unfold nodeBytes.
  step (rd_front (R := R) (re_fp (nd_entry x)) (nd_other x ++ le32 (re_secretID (nd_entry x)) ++ le32 (re_secretSize (nd_entry x)) ++ le32 (Z.of_nat (nd_size x)))
    FP_SIZE ltac:(by rewrite Lf)).
  rewrite (getI32_at (re_fp (nd_entry x) ++ nd_other x) (re_secretID (nd_entry x)) (le32 (re_secretSize (nd_entry x)) ++ le32 (Z.of_nat (nd_size x))) _ 52);
    [|by rewrite <- app_assoc|rewrite length_app, Lf, Lo; done|done]. cbn [mbind res_bind].
  rewrite (getI32_at ((re_fp (nd_entry x) ++ nd_other x) ++ le32 (re_secretID (nd_entry x))) (re_secretSize (nd_entry x)) (le32 (Z.of_nat (nd_size x))) _ 56);
    [|by rewrite <- !app_assoc|rewrite !length_app, Lf, Lo, length_le32; done|done]. cbn [mbind res_bind].
  step (@sint_ok R _ Hs). done.
Qed.

(** All nodes of a chunk *)
Lemma writeNodes_spec {R} (l : list Node) slack recipe size :
  Forall wfNode l -> Forall (fun e => 0 <= re_secretSize e) (nd_entry <$> l) -> - 2 ^ 31 <= size ->
  size + secretsSize (nd_entry <$> l) < 2 ^ 31 ->
  forN (R := R) (length l) 0 (writeNode (plainOf l ++ slack)) (recipe, size)
  = Ok (recipe ++ encodeEntries (nd_entry <$> l), size + secretsSize (nd_entry <$> l)).
Proof.
  intros HF Hpos Hlow Hsum.
  destruct (forN_inv (R := R) (fun k st => st = (recipe ++ encodeEntries (nd_entry <$> take k l), size + secretsSize (nd_entry <$> take k l)))
    (length l) 0 (writeNode (plainOf l ++ slack)) (recipe, size)) as (st & -> & ->).
  - cbn. by rewrite app_nil_r, Z.add_0_r.
  - intros k st Hk ->. destruct (lookup_lt_is_Some_2 l k ltac:(lia)) as [x Hx].
    assert (secretsSize (nd_entry <$> take (S k) l) = secretsSize (nd_entry <$> take k l) + re_secretSize (nd_entry x)) as ES.
    { rewrite (take_S_r l k x Hx), fmap_app, secretsSize_app. cbn. lia. }
    assert (0 <= secretsSize (nd_entry <$> take k l) /\ 0 <= secretsSize (nd_entry <$> drop (S k) l) /\ 0 <= re_secretSize (nd_entry x)) as (? & ? & ?).
    { rewrite list.Forall_fmap in Hpos. split_and!; [apply secretsSize_nonneg, list.Forall_fmap, Forall_take; done|apply secretsSize_nonneg, list.Forall_fmap, Forall_drop; done|].
      exact (proj1 (list.Forall_lookup _ _) Hpos k x Hx). }
    rewrite <- (take_drop (S k) l), fmap_app, secretsSize_app, ES in Hsum.
    eexists. split; [apply (writeNode_spec l k x); [done|done|unfold int32; lia]|].
    rewrite ES, (take_S_r l k x Hx), fmap_app, encodeEntries_app, app_assoc. f_equal; [|lia].
    f_equal. unfold encodeEntries. cbn. by rewrite app_nil_r.
  - by rewrite Nat.add_0_l, take_ge by done.
Qed.

(** The item of chunk [j] as a download thread delivers it *)
Definition chunkDItem (j : nat) (y : bool * list Node) : DItem := itemOf (recipeEntryOf (chunkMD j y.2)) (chunkCipher y.2).

Lemma writeChunk_spec {R} (chunks : list (bool * list Node)) j y recipe size :
  EncodeOk -> chunks !! j = Some y -> Forall wfNode y.2 -> Z.of_nat j < 2 ^ 31 - 2 -> Z.of_nat (length (plainOf y.2)) < 2 ^ 31 ->
  Forall (fun e => 0 <= re_secretSize e) (nd_entry <$> y.2) -> - 2 ^ 31 <= size -> size + secretsSize (nd_entry <$> y.2) < 2 ^ 31 ->
  match chunkDItem j y with
  | ShareItem h d => writeRetrivedFileRecipe (R := R) crypto true h d {| rb_keys := Some (keysOf chunks); rb_recipe := recipe; rb_fileSize := size |}
      = Ok (1, {| rb_keys := Some (keysOf chunks); rb_recipe := recipe ++ encodeEntries (nd_entry <$> y.2);
                  rb_fileSize := size + secretsSize (nd_entry <$> y.2) |})
  | HeaderObj _ => False
  end.
Proof.
  intros OK Hj Hn Hjb Hlen Hpos Hlow Hsum. pose proof (length_chunkCipher (crypto := crypto) _ OK Hn) as Lc.
  unfold chunkDItem, itemOf, entryBytes, recipeEntryOf, MetaChunks.chunkMD. cbn [re_secretID re_secretSize sm_secretID sm_secretSize sm_fp sm_size].
  rewrite Lc. set (len := Z.of_nat (length (plainOf y.2))) in *. unfold writeRetrivedFileRecipe.
  rewrite (getI32_at [] (-1 - Z.of_nat j) (le32 len ++ le32 len) _ 0) by (try done; unfold int32; lia). cbn [mbind res_bind].
  rewrite (getI32_at (le32 (-1 - Z.of_nat j) ++ le32 len) len [] _ 8); [|by rewrite app_nil_r, <- app_assoc|lens|unfold int32; lia]. cbn [mbind res_bind].
  step (@sint_ok R (- (-1 - Z.of_nat j)) ltac:(lia)). cbn [rb_keys rb_recipe rb_fileSize].
  replace (- (-1 - Z.of_nat j)) with (Z.of_nat (S j)) by lia.
  pose proof (decryptChunk_spec (R := R) chunks j y (drop (length (plainOf y.2)) (fresh ITEM_DATA_SIZE)) OK Hj Hn Hjb) as ED. fold len in ED.
  step ED. cbn [negb].
  step (@sz_ok R len ltac:(lia)). replace (Z.to_nat len / metaNodeSize)%nat with (length y.2)
    by (unfold len; rewrite Nat2Z.id, length_plainOf, Nat.mul_comm, Nat.div_mul by done; done). step (writeNodes_spec (R := R) y.2 (drop (length (plainOf y.2)) (fresh ITEM_DATA_SIZE)) recipe size Hn Hpos Hlow Hsum). done.
Qed.

Definition chunkEntries (chunks : list (bool * list Node)) : list RecipeEntry := nd_entry <$> mjoin chunks.*2.

Record goodChunks (chunks : list (bool * list Node)) : Prop := {
  gk_nodes : Forall (fun y => Forall wfNode y.2) chunks;
  gk_count : Z.of_nat (length chunks) < 2 ^ 31 - 2;
  gk_sizes : Forall (fun y => Z.of_nat (length (plainOf y.2)) < 2 ^ 31) chunks;
  gk_secrets : Forall (fun e => 0 <= re_secretSize e) (chunkEntries chunks);
}.

Lemma chunkEntries_cons y chunks : chunkEntries (y :: chunks) = (nd_entry <$> y.2) ++ chunkEntries chunks.
Proof. unfold chunkEntries. cbn. by rewrite fmap_app. Qed.

(** The chunks behind the first [k] *)
Lemma writeChunks_spec {R} (chunks : list (bool * list Node)) k recipe size :
  EncodeOk -> goodChunks chunks -> - 2 ^ 31 <= size -> size + secretsSize (chunkEntries (drop k chunks)) < 2 ^ 31 ->
  writeChunks (R := R) crypto true (length (drop k chunks)) (drop k (imap chunkDItem chunks))
    {| rb_keys := Some (keysOf chunks); rb_recipe := recipe; rb_fileSize := size |}
  = Ok {| rb_keys := Some (keysOf chunks); rb_recipe := recipe ++ encodeEntries (chunkEntries (drop k chunks));
          rb_fileSize := size + secretsSize (chunkEntries (drop k chunks)) |}.
Proof.
  intros OK G. pose proof G as [Gn Gc Gs Gp]. remember (length (drop k chunks)) as m eqn:Hm. revert k recipe size Hm.
  induction m as [|m IH]; intros k recipe size Hm Hlow Hsum; rewrite length_drop in Hm.
  - rewrite (drop_ge chunks) by lia. cbn. by rewrite app_nil_r, Z.add_0_r.
  - destruct (lookup_lt_is_Some_2 chunks k ltac:(lia)) as [y Hy]. rewrite (drop_S chunks y k Hy) in *. rewrite chunkEntries_cons, secretsSize_app in *.
    rewrite (drop_S _ (chunkDItem k y)) by (by rewrite list_lookup_imap, Hy).
    assert (Forall (fun e => 0 <= re_secretSize e) (nd_entry <$> y.2) /\ Forall (fun e => 0 <= re_secretSize e) (chunkEntries (drop (S k) chunks))) as [P1 P2].
    { rewrite <- (take_drop k chunks), (drop_S chunks y k Hy) in Gp. unfold chunkEntries in Gp.
      rewrite fmap_app, join_app, fmap_app in Gp. apply Forall_app in Gp as [_ Gp]. cbn in Gp. rewrite fmap_app in Gp. by apply Forall_app in Gp. }
    pose proof (secretsSize_nonneg _ P1). pose proof (secretsSize_nonneg _ P2). apply lookup_lt_Some in Hy as Hk.
    pose proof (writeChunk_spec (R := R) chunks k y recipe size OK Hy (proj1 (list.Forall_lookup _ _) Gn k y Hy) ltac:(lia)
      (proj1 (list.Forall_lookup _ _) Gs k y Hy) P1 Hlow ltac:(lia)) as E.
    destruct (chunkDItem k y) as [?|h d]; [done|]. cbn [writeChunks]. step E.
    rewrite IH by (rewrite ?length_drop; lia). rewrite encodeEntries_app, app_assoc, Z.add_assoc. done.
Qed.

Lemma rebuildRecipe_spec {R} (chunks : list (bool * list Node)) fileSize pad size :
  EncodeOk -> goodChunks chunks -> - 2 ^ 31 <= size -> size + secretsSize (chunkEntries chunks) < 2 ^ 31 ->
  rebuildRecipe (R := R) crypto true (HeaderObj (fileHead fileSize (length chunks) pad) :: imap chunkDItem chunks)
    {| rb_keys := Some (keysOf chunks); rb_recipe := []; rb_fileSize := size |}
  = Ok {| rb_keys := Some (keysOf chunks); rb_recipe := encodeEntries (chunkEntries chunks); rb_fileSize := size + secretsSize (chunkEntries chunks) |}.
Proof.
  intros OK G Hlow Hsum. unfold rebuildRecipe, fileHead. pose proof (gk_count _ G).
  rewrite (getI32_at (le64 fileSize) (Z.of_nat (length chunks)) pad _ 8); [|done|by rewrite length_le64|unfold int32; lia].
  cbn [mbind res_bind]. rewrite Nat2Z.id. exact (writeChunks_spec chunks 0 [] size OK G Hlow Hsum).
Qed.

(** ** Whole files *)

Lemma shareItems_flagged (xs : list ClientShare) : (fun y => shareItem y.1 y.2) <$> flagged xs = shareItems xs.
Proof. induction xs as [|x [|y xs] IH]; [done..|]. rewrite flagged_cons. cbn [fmap list_fmap] in *. by rewrite IH. Qed.

Lemma flagged_imap {A B} (f : nat -> A -> B) (l : list A) : imap (fun j y => (y.1, f j y.2)) (flagged l) = flagged (imap f l).
Proof.
  revert f. induction l as [|x [|y l] IH]; intros f; [done..|]. rewrite flagged_cons.
  exact (f_equal (cons (false, f 0%nat x)) (IH (fun j => f (S j)))).
Qed.

Lemma flagged_zip {A B} (f : A -> B) (g : A -> bool) (l : list A) :
  g <$> l = (flagged l).*1 -> (fun r => (g r, f r)) <$> l = flagged (f <$> l).
Proof.
  induction l as [|x [|y l] IH]; intros H; [done|injection H as Hx; cbn; by rewrite Hx|]. rewrite flagged_cons in H. cbn [fmap list_fmap] in *.
  injection H as Hx H. rewrite flagged_cons, Hx. f_equal. apply IH. exact H.
Qed.

(** The metadata chunks of a whole file are well formed if the shares are. *)
Lemma segments_good n rounds (i : nat) (cs : list (list Node)) :
  EncodeOk -> (i < n)%nat -> Forall (goodRound n) rounds -> Z.of_nat (length rounds) < 2 ^ 25 ->
  segments noSeg (nodesFor (digest := digest) rounds i) = {| sg_chunks := flagged cs; sg_cur := []; sg_size := 0 |} ->
  goodChunks (flagged cs) /\ chunkEntries (flagged cs) = (fun r => nd_entry (nodeOf (digest := digest) r.2 i (lc_node r.1 i))) <$> rounds.
Proof.
  intros OK Hi HG Hnum E. pose proof (segments_nodes noSeg (nodesFor (digest := digest) rounds i)) as HN. rewrite E in HN. unfold allNodes in HN. cbn in HN.
  rewrite app_nil_r, flagged_snd in HN. unfold nodesFor in HN. rewrite <- list_fmap_compose in HN. unfold compose in HN. cbn in HN.
  pose proof (segments_few (digest := digest) rounds i) as Hc. rewrite E in Hc. cbn in Hc.
  assert (Forall wfNode (mjoin cs)) as Hw.
  { rewrite HN. apply list.Forall_fmap. eapply list.Forall_impl; [exact HG|]. intros r [G Gn]. by apply (nodeOf_wf (crypto := crypto) n); [|apply Gn]. }
  assert (chunkEntries (flagged cs) = (fun r => nd_entry (nodeOf (digest := digest) r.2 i (lc_node r.1 i))) <$> rounds) as HE.
  { unfold chunkEntries. rewrite flagged_snd, HN, <- list_fmap_compose. done. }
  assert (Forall (Forall wfNode) cs) as Hws.
  { apply list.Forall_lookup. intros k c Hk. destruct (join_middle cs k c Hk) as (a & b & Hab). rewrite Hab in Hw.
    apply Forall_app in Hw as [_ Hw]. by apply Forall_app in Hw as [Hw _]. }
  assert (Forall (fun c => length c <= length rounds)%nat cs) as Hlen.
  { apply list.Forall_lookup. intros k c Hk. rewrite <- (length_fmap (fun r => nodeOf (digest := digest) r.2 i (lc_node r.1 i)) rounds), <- HN.
    destruct (join_middle cs k c Hk) as (a & b & ->). rewrite !length_app. lia. }
  split; [|done]. split.
  - rewrite <- (flagged_snd cs), list.Forall_fmap in Hws. exact Hws.
  - lia.
  - rewrite <- (flagged_snd cs), list.Forall_fmap in Hws, Hlen. apply list.Forall_lookup. intros k y Hk.
    pose proof (proj1 (list.Forall_lookup _ _) Hws k y Hk) as H1. pose proof (proj1 (list.Forall_lookup _ _) Hlen k y Hk) as H2. cbn in H1, H2.
    rewrite length_plainOf by done. unfold metaNodeSize. lia.
  - rewrite HE. apply list.Forall_fmap. eapply list.Forall_impl; [exact HG|]. intros r [G _]. cbn. apply (gc_secret n), G.
Qed.

(** The uploaded chunks, as a download thread delivers them *)
Lemma delivered_chunks (cs : list (list Node)) :
  EncodeOk -> Forall (fun y => Forall wfNode y.2) (flagged cs) ->
  (fun x => itemOf (recipeEntryOf (cs_md x)) (content x)) <$> imap (chunkShare (digest := digest) (encipher := encipher)) cs = imap chunkDItem (flagged cs).
Proof.
  intros OK Hw. rewrite fmap_imap. change chunkDItem with (fun j y => chunkDItem j (true, (y : bool * list Node).2)).
  etrans; [|exact (imap_fmap (fun j l => chunkDItem j (true, l)) snd (flagged cs))]. rewrite flagged_snd.
  apply imap_ext. intros j l Hl. unfold compose, chunkDItem, content. cbn.
  assert (Forall wfNode l) as Hwl.
  { rewrite <- (flagged_snd cs), list_lookup_fmap in Hl. destruct (flagged cs !! j) as [y|] eqn:Hy; cbn in Hl; simplify_eq.
    exact (proj1 (list.Forall_lookup _ _) Hw j y Hy). }
  f_equal. rewrite take_app_le, take_ge by (rewrite (length_chunkCipher (crypto := crypto)) by done; lia). done.
Qed.

(** The share of the path of a file that names it at cloud [i] *)
Definition pathShare {GF : GaloisField} (codec : CDCodec) (rand : nat -> byte) (head : FileHead) (i : nat) : bytes :=
  let s := Z.to_nat (fh_fullNameSize head) in
  ErasureCode.shareOf codec (packageFor (digest := digest) (encipher := encipher) (CDType_ codec) (bytesPerSecretWord_ codec) rand (alignedSecret codec (fh_data head) s))
    (shareSizeOf (bytesPerSecretWord_ codec) (k_ codec) s) i.

(** A file header that the collect thread can take *)
Record goodHead {GF : GaloisField} (n : nat) (codec : CDCodec) (junk : RoundJunk) (head : FileHead) : Prop := {
  gh_size : 0 <= fh_fullNameSize head;
  gh_codec : wf_aont (bs := bs) (digest := digest) (encipher := encipher) (decipher := decipher) codec;
  gh_type : aont_type (CDType_ codec);
  gh_n : n_ codec = n;
  gh_enc : enc_pre codec (fh_data head) (Z.to_nat (fh_fullNameSize head)) (fresh (Z.to_nat (fh_fullNameSize head) * 32));
  gh_ring : (shareSizeOf (bytesPerSecretWord_ codec) (k_ codec) (Z.to_nat (fh_fullNameSize head)) <= RING_BUFFER_DATA_SIZE)%nat;
  gh_headerD : length (lc_headerD junk) = fileShareMDHeadSize_;
  gh_headerM : length (lc_headerM junk) = fileShareMDHeadSize_;
}.

Lemma collectHead_spec {GF : GaloisField} {LAWS : GaloisFieldLaws GF} {R} n codec rand junk head clouds :
  (0 < n)%nat -> goodHead n codec junk head -> cloudsHave (digest := digest) (encipher := encipher) n (fun _ => []) (fun _ => []) [] clouds ->
  exists codec' clouds', collectFile (R := R) codec rand (lc_headerD junk) (lc_headerM junk) head clouds = Ok (codec', clouds') /\
    cloudsHave (digest := digest) (encipher := encipher) n
      (fun i => [headItem (lc_headerD junk) (fh_fileSize head) (pathShare codec rand head i)])
      (fun i => [headItem (lc_headerM junk) (fh_fileSize head) (pathShare codec rand head i)]) [] clouds'.
Proof.
  intros Hn [Hs Hw HT Hcn Hpre Hring LD LM] HC.
  destruct (encoding_spec (R := R) codec rand (fh_data head) _ _ 0%nat Hw HT Hpre) as (o & E & c' & -> & _).
  set (s := Z.to_nat (fh_fullNameSize head)) in *. set (sz := shareSizeOf _ _ s) in *. set (pkg := packageFor _ _ _ _) in *.
  pose proof (ep_shares _ _ _ _ Hpre) as Hsh. fold s sz in Hsh. pose proof (sharesOf_length codec pkg sz) as LS.
  destruct (collectFile_spec (digest := digest) (encipher := encipher) (R := R) n codec rand junk head clouds _ _ _ _ (fun _ => []) (fun _ => []) Hs LD LM E) as (cl & -> & H); try done.
  { rewrite length_app, LS, Hcn. lia. }
  exists c', cl. split; [done|]. destruct H as [L H]. split; [done|]. intros i Hi. destruct (H i Hi) as (c & Ec & HCc). exists c. split; [done|].
  assert (nameShare (sharesOf codec pkg sz ++ drop (sz * n_ codec) (fresh (s * 32))) sz i = pathShare codec rand head i) as EN.
  { unfold pathShare. fold s pkg sz. rewrite <- (sharesOf_blk codec pkg sz i (drop (sz * n_ codec) (fresh (s * 32)))) by lia. unfold nameShare, ErasureCode.blk. by rewrite Nat.mul_comm. }
  cbn [app] in HCc. by rewrite EN in HCc.
Qed.

Lemma collect_file {GF : GaloisField} {LAWS : GaloisFieldLaws GF} (n : nat) (codec : CDCodec) (rand : nat -> byte)
    (junk : RoundJunk) (head : FileHead) (rounds : list (RoundJunk * ShareChunk)) :
  EncodeOk -> (0 < n)%nat -> goodHead n codec junk head -> rounds <> [] -> Forall (goodRound n) rounds ->
  (fun r => sc_end r.2) <$> rounds = (flagged rounds).*1 -> Z.of_nat (length rounds) < 2 ^ 25 ->
  (forall i, (i < n)%nat -> roomy noSeg (nodesFor (digest := digest) rounds i)) ->
  exists codec' clouds,
    collect (R := False) crypto true rand ((junk, FileItem head) :: chunkRounds rounds) (codec, replicate n newCloud) = Ok (codec', clouds) /\
    length clouds = n /\
    forall i c, clouds !! i = Some c ->
      dataItems c = headItem (lc_headerD junk) (fh_fileSize head) (pathShare codec rand head i)
                    :: shareItems ((fun r => dataShare (digest := digest) r.2 i) <$> rounds) /\
      exists chunks : list ClientShare,
        metaItems c = headItem (lc_headerM junk) (fh_fileSize head) (pathShare codec rand head i) :: shareItems chunks /\
        forall fileSize pad size0,
          let es := (fun r => recipeEntryOf (cs_md (dataShare (digest := digest) r.2 i))) <$> rounds in
          - 2 ^ 31 <= size0 -> size0 + secretsSize es < 2 ^ 31 ->
          rebuildRecipe (R := False) crypto true
            (HeaderObj (fileHead fileSize (length chunks) pad) :: ((fun x => itemOf (recipeEntryOf (cs_md x)) (content x)) <$> chunks))
            {| rb_keys := Some (keyFile c); rb_recipe := []; rb_fileSize := size0 |}
          = Ok {| rb_keys := Some (keyFile c); rb_recipe := encodeEntries es; rb_fileSize := size0 + secretsSize es |}.
Proof.
  intros OK Hn HH Hne HG Hend Hnum Hroom.
  assert (cloudsHave (digest := digest) (encipher := encipher) n (fun _ => []) (fun _ => []) [] (replicate n newCloud)) as HC0.
  { split; [apply length_replicate|]. intros i Hi. exists newCloud. split; [by apply lookup_replicate_2|apply newCloud_collected]. }
  destruct (collectHead_spec (R := False) n codec rand junk head _ Hn HH HC0) as (codec' & cl & E1 & HC1).
  destruct (collect_rounds (crypto := crypto) (R := False) n _ _ rand codec' [] rounds cl OK HG HC1 Hroom ltac:(cbn; lia)) as (cl' & E2 & [HL HC2]).
  exists codec', cl'. split; [cbn [collect collectItem]; rewrite E1; exact E2|]. split; [done|]. intros i c Hc.
  assert (i < n)%nat as Hi by (rewrite <- HL; by eapply lookup_lt_Some). destruct (HC2 i Hi) as (c' & Hc' & HC). rewrite Hc in Hc'. injection Hc' as <-.
  cbn [app] in HC. pose proof (flagged_zip (fun r => dataShare (digest := digest) r.2 i) _ rounds Hend) as HX.
  pose proof (flagged_zip (fun r => nodeOf (digest := digest) r.2 i (lc_node r.1 i)) _ rounds Hend) as HY.
  destruct (segments_file ((fun r => nodeOf (digest := digest) r.2 i (lc_node r.1 i)) <$> rounds)) as (cs & ES & _); [by destruct rounds|].
  rewrite <- HY in ES. change ((fun r => (sc_end r.2, nodeOf (digest := digest) r.2 i (lc_node r.1 i))) <$> rounds) with (nodesFor (digest := digest) rounds i) in ES.
  destruct (segments_good n rounds i cs OK Hi HG Hnum ES) as [GC HE]. destruct HC as [_ _ _ _ _ HD HM HK]. rewrite ES in HM, HK. cbn [sg_chunks] in HM, HK.
  split; [rewrite HD; unfold sharesFor; rewrite HX, shareItems_flagged; done|].
  exists (imap (chunkShare (digest := digest) (encipher := encipher)) cs). split.
  { rewrite HM, <- shareItems_flagged, <- flagged_imap, fmap_imap. done. }
  intros fileSize pad size0 es Hlow Hsum. rewrite HK, length_imap, delivered_chunks by (try done; apply GC).
  assert (chunkEntries (flagged cs) = es) as EE by exact HE. rewrite <- EE in Hsum |- *.
  replace (length cs) with (length (flagged cs)) by (rewrite <- (flagged_snd cs) at 2; by rewrite length_fmap).
  exact (rebuildRecipe_spec (flagged cs) fileSize pad size0 OK GC Hlow Hsum).
Qed.

(** C8: metadata round trip.  The collect thread gets the header of a file and its
    encoded secrets, the last one marked.  For every cloud it hands to the uploader the
    header, named by the cloud's share of the path, and the shares with their
    fingerprints in order, in the form the upload threads take; and to the metadata
    uploader a sequence of encrypted chunks.  From these chunks, as a download thread
    delivers them, and the key file it has written, writeRetrivedFileRecipe rebuilds
    exactly the recipe of the cloud's shares: their fingerprints, ids and secret sizes
    in order, with the sum of the sizes added to fileSizeCounter (whose first value,
    [size0], the code does not set).  The sum must fit an int, and the buffer of a
    segment must have room for its nodes. *)
Theorem metadata_roundtrip {GF : GaloisField} {LAWS : GaloisFieldLaws GF} (n : nat) (codec : CDCodec) (rand : nat -> byte)
    (junk : RoundJunk) (head : FileHead) (rounds : list (RoundJunk * ShareChunk)) :
  EncodeOk -> (0 < n)%nat -> goodHead n codec junk head -> rounds <> [] -> Forall (goodRound n) rounds ->
  (fun r => sc_end r.2) <$> rounds = (flagged rounds).*1 -> Z.of_nat (length rounds) < 2 ^ 25 ->
  (forall i, (i < n)%nat -> roomy noSeg (nodesFor (digest := digest) rounds i)) ->
  exists codec' clouds,
    collect (R := False) crypto true rand ((junk, FileItem head) :: chunkRounds rounds) (codec, replicate n newCloud) = Ok (codec', clouds) /\
    length clouds = n /\
    forall i c, clouds !! i = Some c ->
      dataItems c = headItem (lc_headerD junk) (fh_fileSize head) (pathShare codec rand head i)
                    :: shareItems ((fun r => dataShare (digest := digest) r.2 i) <$> rounds) /\
      exists chunks : list ClientShare,
        metaItems c = headItem (lc_headerM junk) (fh_fileSize head) (pathShare codec rand head i) :: shareItems chunks /\
        forall fileSize pad size0,
          let es := (fun r => recipeEntryOf (cs_md (dataShare (digest := digest) r.2 i))) <$> rounds in
          - 2 ^ 31 <= size0 -> size0 + secretsSize es < 2 ^ 31 ->
          rebuildRecipe (R := False) crypto true
            (HeaderObj (fileHead fileSize (length chunks) pad) :: ((fun x => itemOf (recipeEntryOf (cs_md x)) (content x)) <$> chunks))
            {| rb_keys := Some (keyFile c); rb_recipe := []; rb_fileSize := size0 |}
          = Ok {| rb_keys := Some (keyFile c); rb_recipe := encodeEntries es; rb_fileSize := size0 + secretsSize es |}.
Proof. exact (collect_file n codec rand junk head rounds). Qed.
End Rebuild.
