(* ===== verification/Pipeline.v ===== *)
(** * The threads around the codec

    Encoder and Decoder share a structure: items are added to the input buffers of
    [T] threads in turn, each thread takes an item, works on it with its own codec
    object and puts the result into its output buffer, and a collect thread takes the
    results from the output buffers in turn.  The ring buffers are bounded first-in
    first-out queues (RingBuffer.v).  The steps of the threads may interleave in any
    way; every run is finite, none gets stuck, and the results come out in the order
    of the items. *)

From stdpp Require Import base list numbers relations.
From Stdlib Require Import Lia.
From S2P Require Import Prelude.

Section Pipeline.
Context {A B S : Type} (work : S -> A -> res False (B * S)) (T cap : nat).

(** A thread: its input buffer, its codec object, the result it has not yet put into
    its output buffer, and that buffer. *)
Record Worker := {
  w_in : list A;
  w_obj : S;
  w_hand : option B;
  w_out : list B;
}.

(** The items to be added, the index of the next input buffer, the threads, the index of
    the next output buffer, and the results taken so far. *)
Record Pipe := {
  p_todo : list A;
  p_nextAdd : nat;
  p_workers : list Worker;
  p_nextOut : nat;
  p_done : list B;
}.

Definition setWorker (p : Pipe) (t : nat) (w : Worker) : Pipe :=
  {| p_todo := p_todo p; p_nextAdd := p_nextAdd p; p_workers := <[t := w]> (p_workers p); p_nextOut := p_nextOut p; p_done := p_done p |}.

Inductive pipeStep (p : Pipe) : Pipe -> Prop :=
| step_add x rest w :
    p_todo p = x :: rest -> p_workers p !! p_nextAdd p = Some w -> length (w_in w) < cap ->
    pipeStep p {| p_todo := rest; p_nextAdd := (p_nextAdd p + 1) mod T;
                  p_workers := <[p_nextAdd p := {| w_in := w_in w ++ [x]; w_obj := w_obj w; w_hand := w_hand w; w_out := w_out w |}]> (p_workers p);
                  p_nextOut := p_nextOut p; p_done := p_done p |}
| step_work t w x q b s' :
    p_workers p !! t = Some w -> w_hand w = None -> w_in w = x :: q -> work (w_obj w) x = Ok (b, s') ->
    pipeStep p (setWorker p t {| w_in := q; w_obj := s'; w_hand := Some b; w_out := w_out w |})
| step_put t w b :
    p_workers p !! t = Some w -> w_hand w = Some b -> length (w_out w) < cap ->
    pipeStep p (setWorker p t {| w_in := w_in w; w_obj := w_obj w; w_hand := None; w_out := w_out w ++ [b] |})
| step_take w b q :
    p_workers p !! p_nextOut p = Some w -> w_out w = b :: q ->
    pipeStep p {| p_todo := p_todo p; p_nextAdd := p_nextAdd p;
                  p_workers := <[p_nextOut p := {| w_in := w_in w; w_obj := w_obj w; w_hand := w_hand w; w_out := q |}]> (p_workers p);
                  p_nextOut := (p_nextOut p + 1) mod T; p_done := p_done p ++ [b] |}.

(** At the start: objects for the threads, empty buffers. *)
Definition newWorker (s : S) : Worker := {| w_in := []; w_obj := s; w_hand := None; w_out := [] |}.
Definition newPipe (items : list A) (objs : list S) : Pipe :=
  {| p_todo := items; p_nextAdd := 0; p_workers := newWorker <$> objs; p_nextOut := 0; p_done := [] |}.

(** ** The invariant

    [g] is the result for an item, whatever the object has worked on before. *)
Variables (good : A -> Prop) (ok : S -> Prop) (g : A -> B).
Hypothesis work_ok : forall s x, ok s -> good x -> exists s', work s x = Ok (g x, s') /\ ok s'.
Hypothesis T_pos : 0 < T.
Hypothesis cap_pos : 0 < cap.
Variable items : list A.
Hypothesis items_good : Forall good items.

(** The items between the [c]-th and the [a]-th that thread [t] gets. *)
Definition slice (t c a : nat) : list A := omap (fun k => if decide (k mod T = t) then items !! k else None) (seq c (a - c)).

(** What is on its way through a thread *)
Definition inside (w : Worker) : list B := w_out w ++ option_list (w_hand w) ++ (g <$> w_in w).

Record PipeInv (a c : nat) (p : Pipe) : Prop := {
  pi_range : c <= a <= length items;
  pi_todo : p_todo p = drop a items;
  pi_done : p_done p = g <$> take c items;
  pi_add : p_nextAdd p = a mod T;
  pi_out : p_nextOut p = c mod T;
  pi_count : length (p_workers p) = T;
  pi_obj : forall t w, p_workers p !! t = Some w -> ok (w_obj w) /\ Forall good (w_in w);
  pi_inside : forall t w, p_workers p !! t = Some w -> inside w = g <$> slice t c a;
}.

Lemma slice_empty t c : slice t c c = [].
Proof. unfold slice. by rewrite Nat.sub_diag. Qed.

Lemma slice_add t c a x :
  c <= a -> items !! a = Some x -> slice t c (a + 1) = slice t c a ++ (if decide (a mod T = t) then [x] else []).
Proof.
  intros Hc Hx. unfold slice. replace (a + 1 - c) with ((a - c) + 1) by lia. rewrite seq_app, omap_app. f_equal.
  replace (c + (a - c)) with a by lia. cbn. case_decide; [by rewrite Hx|done].
Qed.

Lemma slice_take t c a x :
  c < a -> items !! c = Some x -> slice t c a = (if decide (c mod T = t) then [x] else []) ++ slice t (c + 1) a.
Proof.
  intros Hc Hx. unfold slice. replace (a - c) with (Datatypes.S (a - (c + 1))) by lia. cbn [seq omap list_omap].
  replace (Datatypes.S c) with (c + 1) by lia. case_decide; [by rewrite Hx|done].
Qed.

Lemma next_mod a : (a mod T + 1) mod T = (a + 1) mod T.
Proof. by rewrite Nat.Div0.add_mod_idemp_l. Qed.

Lemma newPipe_inv objs : length objs = T -> Forall ok objs -> PipeInv 0 0 (newPipe items objs).
Proof.
  intros HL HO. split; cbn; try done; [lia|by rewrite Nat.Div0.mod_0_l|by rewrite Nat.Div0.mod_0_l|by rewrite length_fmap| |].
  - intros t w Hw. rewrite list_lookup_fmap in Hw. destruct (objs !! t) as [s|] eqn:Hs; [|done]. injection Hw as <-.
    split; [exact (proj1 (list.Forall_lookup _ _) HO t s Hs)|constructor].
  - intros t w Hw. rewrite list_lookup_fmap in Hw. destruct (objs !! t) as [s|]; [|done]. injection Hw as <-. done.
Qed.

(** A change of one thread that keeps what is inside it *)
Lemma inv_worker a c p t w w' :
  PipeInv a c p -> p_workers p !! t = Some w -> inside w' = inside w -> ok (w_obj w') -> Forall good (w_in w') ->
  PipeInv a c (setWorker p t w').
Proof.
  intros [H1 H2 H3 H4 H5 H6 H7 H8] Hw Hin Hok Hg. split; cbn; try done; [by rewrite length_insert| |];
    intros t' v Hv; apply list_lookup_insert_Some in Hv as [(<- & <- & _)|[Hne Hv]]; eauto.
  rewrite Hin. by apply H8.
Qed.

Lemma pipe_preserved a c p p' :
  PipeInv a c p -> pipeStep p p' -> exists a' c', PipeInv a' c' p'.
Proof.
  intros HI Hst. pose proof HI as [H1 H2 H3 H4 H5 H6 H7 H8]. destruct Hst as [x rest w Ht Hw Hl|t w x q b s' Hw Hh Hi Hb|t w b Hw Hh Hl|w b q Hw Ho].
  - rewrite Ht in H2. assert (items !! a = Some x) as Hx.
    { rewrite <- (Nat.add_0_r a), <- lookup_drop, <- H2. done. }
    apply lookup_lt_Some in Hx as Hlt. exists (a + 1), c. split; cbn; try done.
    + lia.
    + rewrite <- drop_drop, <- H2. done.
    + by rewrite H4, next_mod.
    + by rewrite length_insert.
    + intros t v Hv. apply list_lookup_insert_Some in Hv as [(<- & <- & _)|[Hne Hv]]; [|eauto]. cbn.
      destruct (H7 _ _ Hw) as [? ?]. split; [done|]. apply Forall_app. split; [done|]. constructor; [|done].
      exact (proj1 (list.Forall_lookup _ _) items_good a x Hx).
    + intros t v Hv. rewrite (slice_add t c a x) by (done || lia). rewrite fmap_app. apply list_lookup_insert_Some in Hv as [(<- & <- & _)|[Hne Hv]].
      * rewrite decide_True by done. cbn. rewrite <- (H8 _ _ Hw). unfold inside. cbn. by rewrite fmap_app, !app_assoc.
      * rewrite decide_False by congruence. rewrite app_nil_r. by apply H8.
  - exists a, c. destruct (H7 _ _ Hw) as [Hok Hg]. rewrite Hi in Hg. apply list.Forall_cons in Hg as [Hgx Hg].
    destruct (work_ok _ x Hok Hgx) as (s1 & E & Hs1). rewrite E in Hb. injection Hb as <- <-.
    eapply inv_worker; [done|done| |done|done]. unfold inside. cbn. by rewrite Hh, Hi.
  - exists a, c. destruct (H7 _ _ Hw) as [Hok Hg]. eapply inv_worker; [done|done| |done|done].
    unfold inside. cbn. rewrite Hh. cbn. by rewrite <- app_assoc.
  - pose proof (H8 _ _ Hw) as Hin. unfold inside in Hin. rewrite Ho in Hin. cbn in Hin.
    assert (c < a) as Hca. { destruct (decide (c = a)) as [->|]; [by rewrite slice_empty in Hin|lia]. }
    destruct (lookup_lt_is_Some_2 items c ltac:(lia)) as [x Hx]. rewrite (slice_take _ c a x Hca Hx), decide_True in Hin by done.
    cbn in Hin. injection Hin as Hb Hin. exists a, (c + 1). split; cbn; try done.
    + lia.
    + rewrite H3, Hb. rewrite Nat.add_1_r, (take_S_r items c x Hx), fmap_app. done.
    + by rewrite H5, next_mod.
    + by rewrite length_insert.
    + intros t v Hv. apply list_lookup_insert_Some in Hv as [(<- & <- & _)|[Hne Hv]]; [by apply (H7 _ _ Hw)|eauto].
    + intros t v Hv. apply list_lookup_insert_Some in Hv as [(<- & <- & _)|[Hne Hv]]; [exact Hin|].
      rewrite (H8 _ _ Hv), (slice_take t c a x Hca Hx), decide_False by congruence. done.
Qed.

(** ** No run gets stuck before the last result *)
Lemma pipe_progress a c p : PipeInv a c p -> c < length items -> exists p', pipeStep p p'.
Proof.
  intros [H1 H2 H3 H4 H5 H6 H7 H8] Hc.
  destruct (lookup_lt_is_Some_2 (p_workers p) (c mod T)) as [w Hw]; [rewrite H6; apply Nat.mod_upper_bound; lia|].
  destruct (H7 _ _ Hw) as [Hok Hg]. pose proof (H8 _ _ Hw) as Hin. destruct (lookup_lt_is_Some_2 items c Hc) as [x Hx].
  destruct (decide (c = a)) as [->|Hne].
  - rewrite slice_empty in Hin. unfold inside in Hin. apply app_eq_nil in Hin as [_ Hin]. apply app_eq_nil in Hin as [_ Hin].
    apply fmap_nil_inv in Hin. rewrite (drop_S items x a Hx) in H2. rewrite <- H4 in Hw.
    eexists. eapply step_add; [done|done|]. by rewrite Hin.
  - rewrite (slice_take _ c a x), decide_True in Hin by (done || lia). cbn in Hin. unfold inside in Hin.
    destruct (w_out w) as [|b q] eqn:Ho; [|rewrite <- H5 in Hw; eexists; by eapply step_take].
    destruct (w_hand w) as [b|] eqn:Hh; [eexists; eapply step_put; [done|done|by rewrite Ho]|].
    destruct (w_in w) as [|y q] eqn:Hi; [done|]. apply list.Forall_cons in Hg as [Hy _].
    destruct (work_ok _ y Hok Hy) as (s' & E & _). eexists. by eapply step_work.
Qed.

(** ** Every run is finite *)
Definition weight (w : Worker) : nat := 3 * length (w_in w) + 2 * length (option_list (w_hand w)) + length (w_out w).
Definition stepsLeft (p : Pipe) : nat := 4 * length (p_todo p) + sum_list_with weight (p_workers p).

Lemma weight_insert l t w w' : l !! t = Some w -> sum_list_with weight (<[t := w']> l) + weight w = sum_list_with weight l + weight w'.
Proof.
  revert t. induction l as [|v l IH]; intros [|t] H; [done..|injection H as ->; cbn; lia|specialize (IH t H)].
  change (<[Datatypes.S t := w']> (v :: l)) with (v :: <[t := w']> l). cbn [sum_list_with]. lia.
Qed.

Lemma pipe_decreases p p' : pipeStep p p' -> stepsLeft p = Datatypes.S (stepsLeft p').
Proof.
  intros [x rest w Ht Hw Hl|t w x q b s' Hw Hh Hi Hb|t w b Hw Hh Hl|w b q Hw Ho]; unfold stepsLeft; cbn;
    match goal with |- context [<[?t := ?w']> _] => pose proof (weight_insert _ t w w' Hw) as Hs end; unfold weight at 2 4 in Hs; cbn in Hs.
  - rewrite Ht. rewrite length_app in Hs. cbn in *. lia.
  - rewrite Hh, Hi in Hs. cbn in Hs. lia.
  - rewrite Hh, length_app in Hs. cbn in Hs. lia.
  - rewrite Ho in Hs. cbn in Hs. lia.
Qed.

Lemma pipe_runs n p p' a c : PipeInv a c p -> nsteps pipeStep n p p' -> stepsLeft p = n + stepsLeft p' /\ exists a' c', PipeInv a' c' p'.
Proof.
  intros HI Hn. revert a c HI. induction Hn as [|n p p1 p' Hst _ IH]; intros a c HI; [eauto|].
  destruct (pipe_preserved _ _ _ _ HI Hst) as (a' & c' & HI'). destruct (IH _ _ HI') as [E HE]. split; [|done].
  rewrite (pipe_decreases _ _ Hst). lia.
Qed.

Lemma newPipe_steps objs : stepsLeft (newPipe items objs) = 4 * length items.
Proof. unfold stepsLeft. cbn. assert (sum_list_with weight (newWorker <$> objs) = 0) as -> by (induction objs; cbn; lia). lia. Qed.

(** All runs: at most four steps for an item; at any time the results are those of the
    first items, in order; a run that cannot go on has delivered all of them. *)
Theorem pipeline_in_order objs n p :
  length objs = T -> Forall ok objs -> nsteps pipeStep n (newPipe items objs) p ->
  n <= 4 * length items /\
  p_done p = g <$> take (length (p_done p)) items /\
  ((forall p', ~ pipeStep p p') -> p_done p = g <$> items).
Proof.
  intros HL HO Hn. destruct (pipe_runs n _ p 0 0 (newPipe_inv objs HL HO) Hn) as [HS (a & c & HI)].
  rewrite newPipe_steps in HS. split; [lia|]. pose proof (pi_range _ _ _ HI) as Hr. pose proof (pi_done _ _ _ HI) as Hd. split.
  - rewrite Hd at 2. rewrite length_fmap, length_take, Nat.min_l by lia. done.
  - intros Hstuck. destruct (decide (c < length items)) as [Hc|Hc].
    + destruct (pipe_progress a c p HI Hc) as [p' Hp']. by destruct (Hstuck p').
    + rewrite Hd, take_ge by lia. done.
Qed.
End Pipeline.
