(* ===== verification/EncodeThreads.v ===== *)
(** * The encoding threads

    Encoder::thread_handler on the pipeline: whichever thread encodes a secret and in
    whatever order the threads run, the collect thread gets the shares of the secrets
    in the order of the file. *)

From stdpp Require Import base list numbers relations.
From coqutil Require Import Byte.
From Stdlib Require Import Lia.
From S2P Require Import Prelude Structs GaloisField CryptoPrimitive CDCodec ErasureCode AontSchemes CodecTheorems Socket Uploader Encoder Pipeline.

(** encoder.hh *)
Definition NUM_THREADS : nat := 2.
Definition RB_SIZE : nat := 1024.

Section Threads.
Context {GF : GaloisField} {LAWS : GaloisFieldLaws GF} {SSL : OpenSSL} {MM : Memory} {ML : MemoryLaws} {EL : EncodeLimits}.
Context {bs hs : nat} {digest : bytes -> bytes} {encipher decipher : bytes -> bytes -> bytes}.
Context (n m : nat) (crypto : CryptoPrimitive).
Abbreviation wf := (wf_aont (bs := bs) (digest := digest) (encipher := encipher) (decipher := decipher)).
Abbreviation packageOf := (packageFor (digest := digest) (encipher := encipher)).

(** The object of a thread, with any history *)
Definition codecOk (c : CDCodec) : Prop := wf c /\ built c CAONT_RS_TYPE n m hs crypto.

Lemma codecOk_static c c' : codecOk c -> wf c' -> same_static c c' -> codecOk c'.
Proof. intros [_ HB] Hw (key & h & r & a & w & d & s & i & ->). split; [done|]. exact HB. Qed.

(** A secret that fits the buffers *)
Record goodSecret (s : Secret) : Prop := {
  gs_size : (0 <= se_secretSize s)%Z;
  gs_data : Z.to_nat (se_secretSize s) <= length (se_data s);
  gs_max : Z.to_nat (se_secretSize s) <= MAX_SECRET_SIZE;
  gs_shares : shareSizeOf hs (n - m) (Z.to_nat (se_secretSize s)) * n <= SHARE_BUFFER_SIZE;
}.
Definition goodItem (x : SecretItem) : Prop := match x with HeadItem _ => True | SecretObj s => goodSecret s end.

(** What the thread makes of an item; [c0] is any of the objects. *)
Definition packageOfSecret (rand : nat -> byte) (c0 : CDCodec) (s : Secret) : bytes :=
  packageOf CAONT_RS_TYPE hs rand (alignedSecret c0 (se_data s) (Z.to_nat (se_secretSize s))).
Definition encodedChunk (rand : nat -> byte) (c0 : CDCodec) (s : Secret) : ShareChunk :=
  let size := shareSizeOf hs (n - m) (Z.to_nat (se_secretSize s)) in
  {| sc_data := sharesOf c0 (packageOfSecret rand c0 s) size ++ drop (size * n) (fresh SHARE_BUFFER_SIZE);
     sc_secretID := se_secretID s; sc_secretSize := se_secretSize s; sc_shareSize := Z.of_nat size; sc_end := se_end s |}.
Definition encodedItem (rand : nat -> byte) (c0 : CDCodec) (x : SecretItem) : CollectItem :=
  match x with HeadItem h => FileItem h | SecretObj s => ChunkItem (encodedChunk rand c0 s) end.

Hypothesis k_gt1 : 1 < n - m.

Lemma goodSecret_pre c s : codecOk c -> goodSecret s -> enc_pre c (se_data s) (Z.to_nat (se_secretSize s)) (fresh SHARE_BUFFER_SIZE).
Proof.
  intros [Hw (HT & Hn & Hm & Hk & Hb & Ha & _)] [? Hd Hmax Hs]. pose proof (wa_crypto c Hw). pose proof ok_hs_4.
  constructor; rewrite ?Hb, ?Hk, ?Ha, ?Hn, ?fresh_length; [done| |done]. apply aligned_le_max; [lia|done|done].
Qed.

Lemma encodeItem_spec rand junk c0 c x :
  codecOk c0 -> codecOk c -> goodItem x ->
  exists c', encodeItem (R := False) rand junk c x = Ok (encodedItem rand c0 x, c') /\ codecOk c'.
Proof.
  intros H0 Hc Hx. destruct x as [h|s]; cbn [encodeItem encodedItem]; [by exists c|]. cbn in Hx.
  rewrite sz_ok by apply Hx. cbn [mbind res_bind]. pose proof Hc as [Hw HB]. pose proof HB as (HT & Hn & Hm & Hk & Hb & Ha & _).
  pose proof H0 as [Hw0 HB0]. pose proof HB0 as (_ & _ & _ & Hk0 & Hb0 & _).
  destruct (encoding_spec (R := False) c rand (se_data s) (Z.to_nat (se_secretSize s)) (fresh SHARE_BUFFER_SIZE) junk Hw) as (o & -> & c' & -> & Hw' & HS).
  - rewrite HT. by right; right.
  - by apply goodSecret_pre.
  - cbn [mbind res_bind]. exists c'. split; [|by eapply codecOk_static].
    unfold encodedChunk, packageOfSecret. rewrite Hb, Hk, Hn, HT.
    rewrite (built_shares c c0 CAONT_RS_TYPE n m hs crypto) by done.
    assert (alignedSecret c (se_data s) (Z.to_nat (se_secretSize s)) = alignedSecret c0 (se_data s) (Z.to_nat (se_secretSize s))) as -> by (unfold alignedSecret; congruence).
    done.
Qed.

(** Every run of the encoder's threads on the items of a file *)
Lemma encoder_runs rand junk c0 items objs k p :
  codecOk c0 -> Forall goodItem items -> length objs = NUM_THREADS -> Forall codecOk objs ->
  nsteps (pipeStep (encodeItem (R := False) rand junk) NUM_THREADS RB_SIZE) k (newPipe items objs) p ->
  k <= 4 * length items /\
  p_done p = encodedItem rand c0 <$> take (length (p_done p)) items /\
  ((forall p', ~ pipeStep (encodeItem (R := False) rand junk) NUM_THREADS RB_SIZE p p') -> p_done p = encodedItem rand c0 <$> items).
Proof.
  intros H0 HI HL HO Hk.
  apply (pipeline_in_order (encodeItem (R := False) rand junk) NUM_THREADS RB_SIZE goodItem codecOk (encodedItem rand c0)
    (fun s x Hs Hx => encodeItem_spec rand junk c0 s x H0 Hs Hx) ltac:(unfold NUM_THREADS; lia) ltac:(unfold RB_SIZE; lia) items HI objs k p HL HO Hk).
Qed.
End Threads.
