(* ===== verification/PreDownload.v ===== *)
(** * The first half of a download

    Downloader::preDownloadFile: the shares of the path name the file at the metadata
    servers, the recipes of the clouds are rebuilt from the metadata chunks they
    deliver and are sent back to the servers. *)

From stdpp Require Import base list numbers.
From coqutil Require Import Byte.
From Stdlib Require Import Lia.
From S2P Require Import Prelude Structs GaloisField CryptoPrimitive CDCodec ErasureCode AontSchemes CodecTheorems MinPackage MinRestoreProof DedupUpload Socket Downloader DownloaderProof Uploader UploaderProof Uploads KeyFiles RecipeFiles Encoder MetaChunks RecipeWriter RecipeRebuild EncodeThreads.

Local Open Scope Z_scope.

Section PreDownload.
Context {GF : GaloisField} {SSL : OpenSSL} {N : Network} {MM : Memory}.

(** init_t: filename and namesize of the requests; the object is reused. *)
Definition FILENAME_SIZE : nat := 256.
Definition requestNames {R} (tmp : bytes) (tmp_s numOfCloud : nat) : res R (list bytes) :=
  '(names, _) ← forN numOfCloud 0 (fun i '(names, filename) =>
    filename ← memcpy filename 0 tmp (i * tmp_s) tmp_s;
    name ← rd filename 0 tmp_s;
    Ok (names ++ [name], filename)) ([], fresh FILENAME_SIZE);
  Ok names.

(** The headers: numOfShares of every cloud. *)
Fixpoint takeMetaHeaders {R} (rings : list (list DItem)) : res R (list Z * list (list DItem)) :=
  match rings with
  | [] => Ok ([], [])
  | (HeaderObj header :: ring) :: rings' =>
      n ← getI32 header 8;
      '(ns, rings') ← takeMetaHeaders rings';
      Ok (n :: ns, ring :: rings')
  | (ShareItem _ _ :: _) :: _ => UB
  | [] :: _ => Hang
  end.

(** The chunks, cloud by cloud. *)
Fixpoint rebuildAll {R} (crypto : CryptoPrimitive) (opens : bool) (numOfShares : list Z) (rings : list (list DItem)) (sts : list Rebuilt)
  : res R (list Rebuilt) :=
  match numOfShares, rings, sts with
  | n :: ns, ring :: rings', st :: sts' =>
      st ← writeChunks crypto opens (Z.to_nat n) ring st;
      sts' ← rebuildAll crypto opens ns rings' sts';
      Ok (st :: sts')
  | [], [], [] => Ok []
  | _, _, _ => UB
  end.

(** uploadRetrivedRecipeFile for every cloud from the [i]-th. *)
Fixpoint sendRecipes {R} (name_ : bytes) (userID_ : Z) (i : nat) (sts : list Rebuilt) (socketArray_ : list Conn) : res R (list Conn) :=
  match sts, socketArray_ with
  | st :: sts', c :: cs =>
      match uploadRetrivedRecipeFile (ret := False) name_ i userID_ (rb_fileSize st) (Some (rb_recipe st)) c with
      | Ok (_, c') => cs' ← sendRecipes name_ userID_ (S i) sts' cs; Ok (c' :: cs')
      | Return r => match r.1 with end
      | Exit code => Exit code
      | UB => UB
      | Hang => Hang
      end
  | [], [] => Ok []
  | _, _ => UB
  end.

(** The names of the requests, the recipes, the connections and the codec object
    afterwards; [rings] is what the metadata threads of the clouds deliver. *)
Definition preDownloadFile {R} (crypto : CryptoPrimitive) (opens : bool) (randomKey : nat -> byte) (name_ : bytes) (userID_ : Z)
    (filename : bytes) (namesize : Z) (rings : list (list DItem)) (sts : list Rebuilt) (socketArray_ : list Conn) (codec : CDCodec)
  : res R (list bytes * list Rebuilt * list Conn * CDCodec) :=
  len ← sz namesize;
  '(_, codec, tmp, tmp_s) ← encoding codec randomKey filename len (fresh (len * 32)) 0;
  names ← requestNames tmp tmp_s (length rings);
  '(numOfShares, rings) ← takeMetaHeaders rings;
  sts ← rebuildAll crypto opens numOfShares rings sts;
  socketArray_ ← sendRecipes name_ userID_ 0 sts socketArray_;
  Ok (names, sts, socketArray_, codec).

(** ** What the parts do *)

Context {NL : NetworkLaws} {ML : MemoryLaws}.

Lemma requestNames_spec {R} (tmp : bytes) (tmp_s K : nat) :
  (K * tmp_s <= length tmp)%nat -> (tmp_s <= FILENAME_SIZE)%nat ->
  requestNames (R := R) tmp tmp_s K = Ok (nameShare tmp tmp_s <$> seq 0 K).
Proof.
  intros Ht Hs. unfold requestNames.
  destruct (forN_inv (R := R) (fun i (st : list bytes * bytes) => st.1 = nameShare tmp tmp_s <$> seq 0 i /\ length st.2 = FILENAME_SIZE) K 0
    (fun i '(names, filename) => filename ← memcpy filename 0 tmp (i * tmp_s) tmp_s; name ← rd filename 0 tmp_s; Ok (names ++ [name], filename))
    ([], fresh FILENAME_SIZE)) as ([names f] & -> & E & _); [split; [done|apply fresh_length]| |by cbn [mbind res_bind]; cbn in E; rewrite E].
  intros i [names f] Hi [En Lf]. cbn [fst snd] in En, Lf. subst names.
  assert (i * tmp_s + tmp_s <= length tmp)%nat by nia.
  rewrite memcpy_ok by lia. cbn [mbind res_bind]. rewrite rd_ok by (cbn; lens). cbn [mbind res_bind]. eexists. split; [reflexivity|]. cbn [fst snd]. split.
  - rewrite seq_S, fmap_app. f_equal. cbn. f_equal. unfold nameShare. rewrite drop_0, take_0, app_nil_l, take_app_le, take_ge; [done| |]; rewrite length_take, length_drop; lia.
  - cbn. lens.
Qed.

(** For every cloud the items of its thread, and the state before and after. *)
Lemma rebuildAll_spec {R} (crypto : CryptoPrimitive) (ds : list (list DItem * Rebuilt * Rebuilt)) :
  Forall (fun d => rebuildRecipe (R := R) crypto true d.1.1 d.1.2 = Ok d.2) ds ->
  exists ns rings, takeMetaHeaders (R := R) (fst <$> ds.*1) = Ok (ns, rings) /\ rebuildAll (R := R) crypto true ns rings (snd <$> ds.*1) = Ok ds.*2.
Proof.
  induction 1 as [|[[ring st] st'] ds Hd _ (ns & rings & E1 & E2)]; [by exists [], []|]. cbn [fst snd] in Hd.
  destruct ring as [|[header|] ring]; [done| |done]. cbn [rebuildRecipe] in Hd. cbn [fmap list_fmap takeMetaHeaders fst snd].
  destruct (getI32 (R := R) header 8) as [n| | | |] eqn:En; try done. cbn [mbind res_bind] in *. rewrite E1. cbn [mbind res_bind].
  eexists _, _. split; [reflexivity|]. cbn [rebuildAll]. rewrite Hd. cbn [mbind res_bind]. by rewrite E2.
Qed.

(** The recipe of a cloud is sent to it. *)
Lemma sendRecipes_spec {R} (name_ : bytes) (userID_ : Z) (rs : list (list RecipeEntry * Z)) keys : forall i cs,
  length cs = length rs ->
  (forall j, (i <= j < i + length rs)%nat -> (length (recipeFileName name_ j) < 256)%nat) ->
  Forall (fun r => Forall wfEntry r.1 /\ Z.of_nat (length (encodeEntries r.1)) + 24 < 2 ^ 31) rs ->
  exists cs', sendRecipes (R := R) name_ userID_ i (imap (fun j r => {| rb_keys := keys (i + j)%nat; rb_recipe := encodeEntries r.1; rb_fileSize := r.2 |}) rs) cs = Ok cs' /\
    length cs' = length cs /\
    forall j r c c', rs !! j = Some r -> cs !! j = Some c -> cs' !! j = Some c' ->
      moved c c' [] (recipeMessage (recipeFileName name_ (i + j)) (encodeRecipe (recipeOfEntries userID_ r.2 r.1))).
Proof.
  induction rs as [|[es size] rs IH]; intros i [|c cs] Hl Hn HF; cbn in Hl; try lia; [by exists []|].
  apply list.Forall_cons in HF as [[He Hs] HF]. cbn [imap sendRecipes rb_fileSize rb_recipe fst snd] in *.
  destruct (wps_result (ret := False) _ _ c (uploadRecipe_spec name_ i userID_ size es c (fun _ _ => False) ltac:(apply Hn; cbn; lia) He Hs)) as (r & c1 & -> & _ & HM).
  destruct (IH (S i) cs) as (cs' & E & L & H); [lia|intros j Hj; apply Hn; cbn; lia|done|].
  rewrite (imap_ext _ (fun j r => {| rb_keys := keys (S i + j)%nat; rb_recipe := encodeEntries r.1; rb_fileSize := r.2 |})).
  2: { intros j x _. unfold compose. cbn. by rewrite Nat.add_succ_r. }
  rewrite E. cbn [mbind res_bind]. exists (c1 :: cs'). split; [done|]. split; [cbn; lia|].
  intros [|j] x d d' Hx Hd Hd'; cbn in Hx, Hd, Hd'; simplify_eq; [by rewrite Nat.add_0_r|]. rewrite Nat.add_succ_r. by apply (H j).
Qed.
End PreDownload.

(** A choice for every element of a list *)
Lemma list_choice {A B} (l : list A) : forall (P : nat -> A -> B -> Prop),
  (forall i x, l !! i = Some x -> exists y, P i x y) ->
  exists ps : list (A * B), ps.*1 = l /\ forall i p, ps !! i = Some p -> P i p.1 p.2.
Proof.
  induction l as [|x l IH]; intros P H; [by exists []|].
  destruct (H 0%nat x eq_refl) as [y Hy]. destruct (IH (fun i => P (S i))) as (ps & <- & Hps); [intros i z Hz; by apply (H (S i))|].
  exists ((x, y) :: ps). split; [done|]. intros [|i] p Hp; cbn in Hp; [by simplify_eq|by apply Hps].
Qed.

Section Roundtrip.
Context {GF : GaloisField} {LAWS : GaloisFieldLaws GF} {SSL : OpenSSL} {N : Network} {NL : NetworkLaws} {MM : Memory} {ML : MemoryLaws}.
Context {EL : EncodeLimits} {DL : DownloadLimits}.
Context {crypto : CryptoPrimitive} {bs : nat} {digest : bytes -> bytes} {encipher decipher : bytes -> bytes -> bytes}.
Context {CK : CryptoOk crypto 32 bs digest encipher decipher}.
Context (n m : nat).
Abbreviation codecOk := (EncodeThreads.codecOk (bs := bs) (hs := 32) (digest := digest) (encipher := encipher) (decipher := decipher) n m crypto).
Abbreviation pathShare := (RecipeRebuild.pathShare (digest := digest) (encipher := encipher)).
Abbreviation goodHead := (RecipeRebuild.goodHead (bs := bs) (digest := digest) (encipher := encipher) (decipher := decipher)).

(** The path is encoded alike by all objects. *)
Lemma request_path {R} codec dcodec rand rand' junk head filename :
  let s := Z.to_nat (fh_fullNameSize head) in
  codecOk codec -> codecOk dcodec -> goodHead n codec junk head ->
  take s filename = take s (fh_data head) -> (s <= length filename)%nat ->
  exists dcodec' tmp, codecOk dcodec' /\
    encoding (R := R) dcodec rand' filename s (fresh (s * 32)) 0 = Ok (true, dcodec', tmp, shareSizeOf 32 (n - m) s) /\
    (n * shareSizeOf 32 (n - m) s <= length tmp)%nat /\
    forall i, (i < n)%nat -> nameShare tmp (shareSizeOf 32 (n - m) s) i = pathShare codec rand head i.
Proof.
  intros s Hc Hd HG Ef Hl. pose proof Hc as [Hw (HT & Hn & Hm & Hk & Hb & Ha & Hrest)]. pose proof Hd as [Hw' (HT' & Hn' & Hm' & Hk' & Hb' & Ha' & Hrest')].
  pose proof (gh_enc _ _ _ _ HG) as [P1 P2 P3]. fold s in P1, P2, P3. rewrite Hb, Hk, Ha in P2. rewrite Hb, Hk, Hn in P3.
  assert (enc_pre dcodec filename s (fresh (s * 32))) as HP by (split; rewrite ?Hb', ?Hk', ?Ha', ?Hn'; done).
  destruct (encoding_spec (R := R) dcodec rand' filename s (fresh (s * 32)) 0%nat Hw' ltac:(rewrite HT'; by right; right) HP) as (o & E & c' & -> & W' & S').
  rewrite Hb', Hk', Hn' in E. set (size := shareSizeOf 32 (n - m) s) in *. set (pkg := packageFor _ _ _ _) in E.
  exists c'. eexists. split; [by eapply codecOk_static|]. split; [exact E|]. split.
  { rewrite length_app, sharesOf_length, Hn'. lia. }
  intros i Hi. unfold pathShare. fold s. rewrite Hb, Hk, HT. fold size.
  assert (alignedSecret dcodec filename s = alignedSecret codec (fh_data head) s) as EA by (unfold alignedSecret; congruence).
  assert (pkg = packageFor (digest := digest) (encipher := encipher) CAONT_RS_TYPE 32 rand (alignedSecret codec (fh_data head) s)) as EP.
  { unfold pkg. rewrite EA, HT'. unfold packageFor, keyFor. reflexivity. }
  rewrite <- EP, <- (sharesOf_blk codec pkg size i (drop (size * n) (fresh (s * 32)))) by lia.
  rewrite (built_shares dcodec codec CAONT_RS_TYPE n m 32 crypto) by (apply Hc || apply Hd).
  unfold nameShare, ErasureCode.blk. by rewrite Nat.mul_comm.
Qed.

Abbreviation entriesOf rounds i := ((fun r => recipeEntryOf (cs_md (dataShare (digest := digest) r.2 i))) <$> rounds).

Lemma entries_wf rounds i : (i < n)%nat -> Forall (goodRound n) rounds -> Forall wfEntry (entriesOf rounds i).
Proof.
  intros Hi HF. apply list.Forall_fmap. eapply list.Forall_impl; [exact HF|]. intros r [[_ _ _ _ Gi Gs] _]. unfold compose.
  split_and!; cbn; [apply (ok_digest_length (c := crypto))|done|unfold int32; lia].
Qed.

(** C9: the first half of a download undoes the metadata of an upload.  The collect
    thread has handed the header of a file and the metadata chunks of its shares to the
    metadata uploader of every cloud ([parts]: each cloud with its chunks).  When the
    metadata threads of the first clouds deliver these chunks and the key files hold
    what the collect thread wrote, preDownloadFile, with a codec object of any history,
    requests exactly the names the files were uploaded under, rebuilds the recipes and
    sends to every cloud the recipe of its shares: their fingerprints, ids and sizes in
    order, under the name the data thread asks for, and nothing else.  The share of the
    path must fit the request. *)
Theorem predownload_roundtrip (codec dcodec : CDCodec) (rand rand' : nat -> byte) (junk : RoundJunk) (head : FileHead)
    (rounds : list (RoundJunk * ShareChunk)) (filename name_ : bytes) (userID_ fileSize : Z) (pad : nat -> bytes) (size0 : nat -> Z) (conns : list Conn) :
  let K := length conns in
  let len := Z.to_nat (fh_fullNameSize head) in
  EncodeOk (bs := bs) -> (0 < n)%nat -> (K <= n)%nat -> codecOk codec -> codecOk dcodec -> goodHead n codec junk head ->
  rounds <> [] -> Forall (goodRound n) rounds ->
  (fun r => sc_end r.2) <$> rounds = (flagged rounds).*1 -> Z.of_nat (length rounds) < 2 ^ 25 ->
  (forall i, (i < n)%nat -> roomy noSeg (nodesFor (digest := digest) rounds i)) ->
  take len filename = take len (fh_data head) -> (len <= length filename)%nat -> (shareSizeOf 32 (n - m) len <= FILENAME_SIZE)%nat ->
  (forall i, (i < K)%nat -> (length (recipeFileName name_ i) < 256)%nat) ->
  (forall i, (i < K)%nat -> - 2 ^ 31 <= size0 i /\ size0 i + secretsSize (entriesOf rounds i) < 2 ^ 31) ->
  exists codec' (parts : list (Cloud * list ClientShare)),
    collect (R := False) crypto true rand ((junk, FileItem head) :: chunkRounds rounds) (codec, replicate n newCloud) = Ok (codec', parts.*1) /\
    length parts = n /\
    (forall i p, parts !! i = Some p ->
       metaItems p.1 = headItem (lc_headerM junk) (fh_fileSize head) (pathShare codec rand head i) :: shareItems p.2) /\
    exists sts' conns' dcodec',
      preDownloadFile (R := False) crypto true rand' name_ userID_ filename (Z.of_nat len)
        (imap (fun i p => HeaderObj (fileHead fileSize (length p.2) (pad i)) :: ((fun x => itemOf (recipeEntryOf (cs_md x)) (content x)) <$> p.2)) (take K parts))
        (imap (fun i p => {| rb_keys := Some (keyFile p.1); rb_recipe := []; rb_fileSize := size0 i |}) (take K parts)) conns dcodec
        = Ok (pathShare codec rand head <$> seq 0 K, sts', conns', dcodec') /\
      codecOk dcodec' /\ length conns' = K /\
      forall i c c', conns !! i = Some c -> conns' !! i = Some c' ->
        moved c c' [] (recipeMessage (recipeFileName name_ i)
          (encodeRecipe (recipeOfEntries userID_ (size0 i + secretsSize (entriesOf rounds i)) (entriesOf rounds i)))).
Proof.
  intros K len OK Hn HK Hc Hd HG Hne HF Hend Hnum Hroom Ef Hfl Hreq Hnames Hsize.
  destruct (collect_file (crypto := crypto) n codec rand junk head rounds OK Hn HG Hne HF Hend Hnum Hroom) as (codec' & clouds & E & L & H).
  destruct (list_choice clouds (fun i c chunks => metaItems c = headItem (lc_headerM junk) (fh_fileSize head) (pathShare codec rand head i) :: shareItems chunks /\
    forall fileSize pad size0, - 2 ^ 31 <= size0 -> size0 + secretsSize (entriesOf rounds i) < 2 ^ 31 ->
      rebuildRecipe (R := False) crypto true
        (HeaderObj (fileHead fileSize (length chunks) pad) :: ((fun x => itemOf (recipeEntryOf (cs_md x)) (content x)) <$> chunks))
        {| rb_keys := Some (keyFile c); rb_recipe := []; rb_fileSize := size0 |}
      = Ok {| rb_keys := Some (keyFile c); rb_recipe := encodeEntries (entriesOf rounds i); rb_fileSize := size0 + secretsSize (entriesOf rounds i) |}))
    as (parts & <- & HP).
  { intros i c Hic. destruct (H i c Hic) as (_ & chunks & HM & HR). by exists chunks. }
  rewrite length_fmap in L. exists codec', parts. split; [exact E|]. split; [done|]. split; [intros i p Hp; apply (HP i p Hp)|].
  destruct (request_path (R := False) codec dcodec rand rand' junk head filename Hc Hd HG Ef Hfl) as (dcodec' & tmp & Hd' & EE & Lt & HT).
  fold len in EE, Lt, HT. set (size := shareSizeOf 32 (n - m) len) in *.
  assert (length (take K parts) = K) as LK by (rewrite length_take; lia).
  set (ds := imap (fun i (p : Cloud * list ClientShare) =>
    (HeaderObj (fileHead fileSize (length p.2) (pad i)) :: ((fun x => itemOf (recipeEntryOf (cs_md x)) (content x)) <$> p.2),
     {| rb_keys := Some (keyFile p.1); rb_recipe := []; rb_fileSize := size0 i |},
     {| rb_keys := Some (keyFile p.1); rb_recipe := encodeEntries (entriesOf rounds i); rb_fileSize := size0 i + secretsSize (entriesOf rounds i) |})) (take K parts)).
  destruct (rebuildAll_spec (R := False) crypto ds) as (ns & rings & E1 & E2).
  { apply list.Forall_lookup. intros i d Hi. unfold ds in Hi. rewrite list_lookup_imap in Hi. destruct (take K parts !! i) as [p|] eqn:Hp; [|done].
    injection Hi as <-. pose proof (lookup_lt_Some _ _ _ Hp) as Hik. rewrite LK in Hik. rewrite lookup_take_lt in Hp by done.
    destruct (Hsize i Hik). by apply (proj2 (HP i p Hp)). }
  set (rs := imap (fun i (_ : Cloud * list ClientShare) => (entriesOf rounds i, size0 i + secretsSize (entriesOf rounds i))) (take K parts)).
  set (keys := fun j : nat => (fun p : Cloud * list ClientShare => keyFile p.1) <$> (take K parts !! j)).
  assert (length rs = K) as Lr by (unfold rs; by rewrite length_imap).
  destruct (sendRecipes_spec (R := False) name_ userID_ rs keys 0 conns) as (conns' & E3 & Lc & HS); [by rewrite Lr|intros j Hj; apply Hnames; lia| |].
  { apply list.Forall_lookup. intros i r Hi. unfold rs in Hi. rewrite list_lookup_imap in Hi. destruct (take K parts !! i) as [p|] eqn:Hp; [|done].
    injection Hi as <-. pose proof (lookup_lt_Some _ _ _ Hp) as Hik. cbn [fst].
    pose proof (entries_wf rounds i ltac:(lia) HF) as HW. split; [done|]. rewrite length_encodeEntries, length_fmap by done. unfold fileRecipeEntrySize_. lia. }
  assert (imap (fun j r => {| rb_keys := keys (0 + j)%nat; rb_recipe := encodeEntries r.1; rb_fileSize := r.2 |}) rs = ds.*2) as ES.
  { apply list_eq. intros i. unfold rs, ds, keys. rewrite list_lookup_imap, list_lookup_fmap, !list_lookup_imap. cbn [Nat.add]. by destruct (take K parts !! i). }
  assert (imap (fun i (p : Cloud * list ClientShare) => HeaderObj (fileHead fileSize (length p.2) (pad i))
    :: ((fun x => itemOf (recipeEntryOf (cs_md x)) (content x)) <$> p.2)) (take K parts) = fst <$> ds.*1) as F1 by (unfold ds; by rewrite !fmap_imap).
  assert (imap (fun i (p : Cloud * list ClientShare) => {| rb_keys := Some (keyFile p.1); rb_recipe := []; rb_fileSize := size0 i |}) (take K parts)
    = snd <$> ds.*1) as F2 by (unfold ds; by rewrite !fmap_imap).
  rewrite ES in E3. exists ds.*2, conns', dcodec'. split; [|split; [done|split; [done|]]].
  - unfold preDownloadFile. rewrite sz_ok by lia. cbn [mbind res_bind]. rewrite Nat2Z.id, EE. cbn [mbind res_bind].
    rewrite length_imap, LK, requestNames_spec by (try done; nia). cbn [mbind res_bind].
    rewrite F1, E1. cbn [mbind res_bind]. rewrite F2, E2. cbn [mbind res_bind].
    rewrite E3. cbn [mbind res_bind].
    assert (nameShare tmp size <$> seq 0 K = pathShare codec rand head <$> seq 0 K) as EN; [|by rewrite EN].
    apply list_fmap_ext. intros j i Hi. apply lookup_seq in Hi as [-> Hi]. apply HT. lia.
  - intros i c c' Hi Hi'. pose proof (lookup_lt_Some _ _ _ Hi) as Hik.
    destruct (lookup_lt_is_Some_2 (take K parts) i) as [p Hp]; [by rewrite LK|].
    apply (HS i (entriesOf rounds i, size0 i + secretsSize (entriesOf rounds i)) c c'); try done. unfold rs. by rewrite list_lookup_imap, Hp.
Qed.
End Roundtrip.
