(* ===== verification/ClientUpload.v ===== *)
(** * The upload of a file: reading and chunking

    client/main.cc: the file is read in parts, each part is cut into chunks, and the
    chunks are added to the encoder as secrets, behind a header with the name and the
    size of the file; client/utils/conf.hh: the parameters. *)

From stdpp Require Import base list numbers.
From coqutil Require Import Byte.
From Stdlib Require Import Lia.
From S2P Require Import Prelude Structs Socket Chunker GaloisField CryptoPrimitive CDCodec Uploader Encoder.

Local Open Scope Z_scope.

(** ** Configuration *)

Record Configuration := {
  conf_n : Z;
  conf_m : Z;
  conf_k : Z;
  conf_r : Z;
  conf_secretBufferSize : Z;
  conf_shareBufferSize : Z;
  conf_bufferSize : Z;
  conf_chunkEndIndexListSize : Z;
}.

Definition new_Configuration : Configuration :=
  let n := 4 in
  let m := 1 in
  let k := n - m in
  {| conf_n := n; conf_m := m; conf_k := k; conf_r := k - 1; conf_secretBufferSize := 16 * 1024;
     conf_shareBufferSize := 16 * 1024 * n; conf_bufferSize := 128 * 1024 * 1024; conf_chunkEndIndexListSize := 1024 * 1024 |}.

(** The arguments of [new Chunker(VAR_SIZE_TYPE)]: avg, min, max and window. *)
Definition defaultSizes : Z * Z * Z * Z := (Z.shiftl 8 10, Z.shiftl 2 10, Z.shiftl 16 10, 48).

(** ** main: the upload *)

Section Main.
Context {MM : Memory} {EL : EncodeLimits}.

(** One round of the inner loop: the secret of the [count]-th chunk and the new preEnd.
    [last]: total + ret == size. *)
Definition nextSecret {R} (buffer : bytes) (ends : list Z) (num : nat) (last : bool) (totalChunks preEnd : Z) (count : nat)
  : res R (Secret * Z) :=
  e ← aget ends count;
  size ← sint (e - preEnd);
  len ← sz size;
  o ← sz (preEnd + 1);
  data ← memcpy (fresh SECRET_SIZE) 0 buffer o len;
  Ok ({| se_data := data; se_secretID := totalChunks; se_secretSize := size; se_end := last && (count + 1 =? num)%nat |}, e).

(** The inner loop: the secrets of one part, and totalChunks. *)
Definition addChunks {R} (buffer : bytes) (ends : list Z) (num : nat) (last : bool) (totalChunks : Z) : res R (list Secret * Z) :=
  '(secrets, totalChunks, _) ← forN num 0 (fun count '(secrets, totalChunks, preEnd) =>
    '(s, preEnd) ← nextSecret buffer ends num last totalChunks preEnd count;
    totalChunks ← sint (totalChunks + 1);
    Ok (secrets ++ [s], totalChunks, preEnd)) ([], totalChunks, -1);
  Ok (secrets, totalChunks).

(** The outer loop over the rest of the file; [rounds] bounds its rounds, which do not
    end if the file is shorter than [size]. *)
Fixpoint readFile {R} (rounds : nat) (chunker : Chunker) (buffer : bytes) (ends : list Z) (rest : bytes) (total size totalChunks : Z)
  : res R (list Secret) :=
  if total <? size then
    match rounds with
    | O => Hang
    | S rounds' =>
        let part := take (length buffer) rest in
        let ret := Z.of_nat (length part) in
        buffer ← wr buffer 0 part;
        '(ends, num) ← chunking chunker buffer ret ends;
        '(secrets, totalChunks) ← addChunks buffer ends num (total + ret =? size) totalChunks;
        more ← readFile rounds' chunker buffer ends (drop (length part) rest) (total + ret) size totalChunks;
        Ok (secrets ++ more)
    end
  else Ok [].

(** The items that main adds for a file: the name is argv[1] with its NUL; fileSize is
    the size converted to int. *)
Definition uploadItems {R} (chunker : Chunker) (buffer : bytes) (ends : list Z) (name file : bytes) : res R (list SecretItem) :=
  data ← memcpy (fresh SECRET_SIZE) 0 name 0 (length name);
  let size := Z.of_nat (length file) in
  secrets ← readFile (length file) chunker buffer ends file 0 size 0;
  Ok (HeadItem {| fh_data := data; fh_fullNameSize := Z.of_nat (length name); fh_fileSize := signedOf 32 size |} :: (SecretObj <$> secrets)).
End Main.

(** ** What is added *)

Section Proof.
Context {MM : Memory} {ML : MemoryLaws} {EL : EncodeLimits}.
Context (c : Chunker) (win mn mx : nat) (Hwf : wf_chunker c win mn mx).

(** The chunks of a part *)
Definition partChunks (part : bytes) : list bytes := chunksOf (refSizes c win mn mx part) part.

Definition secretOf (j : nat) (last : bool) (chunk : bytes) : Secret :=
  {| se_data := chunk ++ drop (length chunk) (fresh SECRET_SIZE); se_secretID := Z.of_nat j; se_secretSize := Z.of_nat (length chunk); se_end := last |}.

Lemma endsFrom_at p sizes i n :
  sizes !! i = Some n -> endsFrom p sizes !! i = Some (Z.of_nat (p + sum_list (take i sizes) + n) - 1).
Proof.
  revert p i. induction sizes as [|m sizes IH]; intros p [|i] H; [done..| |].
  - injection H as ->. cbn. f_equal. lia.
  - etrans; [exact (IH (p + m)%nat i H)|]. f_equal. change (take (S i) (m :: sizes)) with (m :: take i sizes). rewrite sum_list_cons. lia.
Qed.

Lemma chunksOf_at sizes data i n :
  sizes !! i = Some n -> chunksOf sizes data !! i = Some (take n (drop (sum_list (take i sizes)) data)).
Proof.
  revert data i. induction sizes as [|m sizes IH]; intros data [|i] H; [done..| |].
  - by injection H as ->.
  - etrans; [exact (IH (drop m data) i H)|]. rewrite drop_drop. done.
Qed.

Lemma length_chunksOf sizes data : length (chunksOf sizes data) = length sizes.
Proof. revert data. induction sizes as [|n l IH]; intros data; cbn; [done|]. by rewrite IH. Qed.

Lemma sum_take_le sizes i n : sizes !! i = Some n -> (sum_list (take i sizes) + n <= sum_list sizes)%nat.
Proof.
  intros H. rewrite <- (take_drop_middle sizes i n H) at 2. rewrite sum_list_app, sum_list_cons. lia.
Qed.

(** The secrets of a part with the chunks [chunks], after [j] others. *)
Definition secretsFrom (j : nat) (last : bool) (chunks : list bytes) : list Secret :=
  imap (fun i y => secretOf (j + i) (last && (i + 1 =? length chunks)%nat) y) chunks.

Lemma nextSecret_spec {R} part slack ends' (j i : nat) last n preEnd :
  let sizes := refSizes c win mn mx part in
  sizes !! i = Some n -> (mx <= SECRET_SIZE)%nat -> Z.of_nat (length part + mx) < 2 ^ 31 ->
  preEnd = Z.of_nat (sum_list (take i sizes)) - 1 ->
  nextSecret (R := R) (part ++ slack) (endsFrom 0 sizes ++ ends') (length sizes) last (Z.of_nat (j + i)) preEnd i
  = Ok (secretOf (j + i) (last && (i + 1 =? length sizes)%nat) (take n (drop (sum_list (take i sizes)) part)),
        Z.of_nat (sum_list (take (S i) sizes)) - 1).
Proof.
  intros sizes Hi Hmx Hlen ->. pose proof (endsFrom_at 0 sizes i n Hi) as He. pose proof (sum_take_le sizes i n Hi) as Hs.
  unfold sizes in Hs at 2. rewrite (refSizes_sum c win mn mx Hwf) in Hs. fold sizes in Hs. set (o := sum_list (take i sizes)) in *.
  assert (n <= mx)%nat as Hn.
  { destruct (refSizes_shape c win mn mx Hwf part) as (l & n' & E & Hl & Hn' & _). unfold sizes in Hi. rewrite E in Hi.
    apply lookup_app_Some in Hi as [Hi|[_ Hi]]; [apply (proj1 (list.Forall_lookup _ _) Hl i n Hi)|].
    apply list_lookup_singleton_Some in Hi as [_ <-]. done. }
  unfold nextSecret. rewrite (aget_ok _ i (Z.of_nat (0 + o + n) - 1)) by (by apply lookup_app_l_Some). cbn [mbind res_bind].
  step (@sint_ok R (Z.of_nat (0 + o + n) - 1 - (Z.of_nat o - 1)) ltac:(lia)). replace (Z.of_nat (0 + o + n) - 1 - (Z.of_nat o - 1)) with (Z.of_nat n) by lia.
  step (@sz_ok R (Z.of_nat n) ltac:(lia)). step (@sz_ok R (Z.of_nat o - 1 + 1) ltac:(lia)). rewrite Nat2Z.id.
  replace (Z.to_nat (Z.of_nat o - 1 + 1)) with o by lia.
  rewrite memcpy_ok by (rewrite ?fresh_length, ?length_app; lia). cbn [mbind res_bind]. rewrite take_0, drop_app_le, take_app_le by (rewrite ?length_drop; lia).
  assert (length (take n (drop o part)) = n) as Ln by (lens). unfold secretOf. rewrite Ln. cbn [Nat.add app].
  rewrite (take_S_r sizes i n Hi), sum_list_app, sum_list_cons. cbn [sum_list sum_list_with]. do 2 f_equal. fold o. cbn. lia.
Qed.

Lemma addChunks_spec {R} part slack ends' (j : nat) last :
  let sizes := refSizes c win mn mx part in
  (mx <= SECRET_SIZE)%nat -> Z.of_nat (length part + mx) < 2 ^ 31 -> Z.of_nat (j + length sizes) < 2 ^ 31 ->
  addChunks (R := R) (part ++ slack) (endsFrom 0 sizes ++ ends') (length sizes) last (Z.of_nat j)
  = Ok (secretsFrom j last (partChunks part), Z.of_nat (j + length (partChunks part))).
Proof.
  intros sizes Hmx Hlen Hj. unfold addChunks.
  assert (length (partChunks part) = length sizes) as Lp by apply length_chunksOf.
  match goal with |- context [forN _ 0 ?body ?s] => destruct (forN_inv (R := R) (fun i st =>
    st = (take i (secretsFrom j last (partChunks part)), Z.of_nat (j + i), Z.of_nat (sum_list (take i sizes)) - 1)) (length sizes) 0 body s) as (st & -> & ->) end.
  - by rewrite Nat.add_0_r.
  - intros i st Hi ->. destruct (lookup_lt_is_Some_2 sizes i ltac:(lia)) as [n Hn].
    pose proof (nextSecret_spec (R := R) part slack ends' j i last n _ Hn Hmx Hlen eq_refl) as E. fold sizes in E. step E.
    step (@sint_ok R (Z.of_nat (j + i) + 1) ltac:(lia)). eexists. split; [done|].
    replace (Z.of_nat (j + i) + 1) with (Z.of_nat (j + S i)) by lia.
    rewrite (take_S_r (secretsFrom j last (partChunks part)) i (secretOf (j + i) (last && (i + 1 =? length sizes)%nat) (take n (drop (sum_list (take i sizes)) part)))); [done|].
    unfold secretsFrom. rewrite list_lookup_imap, Lp. unfold partChunks. fold sizes. rewrite (chunksOf_at sizes part i n Hn). done.
  - cbn [mbind res_bind]. rewrite Lp. rewrite take_ge; [done|]. unfold secretsFrom. rewrite length_imap. lia.
Qed.

(** ** The whole file *)

(** The chunks of a file that is read in parts of [n] bytes. *)
Fixpoint chunksIn (rounds n : nat) (rest : bytes) : list bytes :=
  match rounds, rest with
  | S rounds', _ :: _ => partChunks (take n rest) ++ chunksIn rounds' n (drop n rest)
  | _, _ => []
  end.
Definition fileChunks (n : nat) (file : bytes) : list bytes := chunksIn (length file) n file.

Lemma partChunks_join part : mjoin (partChunks part) = part.
Proof. apply chunksOf_concat, (refSizes_sum c win mn mx Hwf). Qed.

Lemma chunksIn_join rounds n rest : (0 < n)%nat -> (length rest <= rounds)%nat -> mjoin (chunksIn rounds n rest) = rest.
Proof.
  intros Hn. revert rest. induction rounds as [|rounds IH]; intros [|x rest] Hl; [done|cbn in Hl; lia|done|]. cbn [chunksIn].
  rewrite join_app, partChunks_join, IH; [apply take_drop|]. rewrite length_drop. cbn [length] in *. lia.
Qed.

Lemma partChunks_sizes part : part <> [] -> Forall (fun x => 0 < length x <= mx)%nat (partChunks part).
Proof.
  intros Hne. destruct (refSizes_shape c win mn mx Hwf part) as (l & n & E & Hl & Hn & Hp). pose proof (wc_win_pos _ _ _ _ Hwf). pose proof (wc_win_min _ _ _ _ Hwf).
  apply list.Forall_lookup. intros i x Hx. apply lookup_lt_Some in Hx as Hi. unfold partChunks in Hx, Hi. rewrite length_chunksOf in Hi.
  destruct (lookup_lt_is_Some_2 _ i Hi) as [m Hm]. rewrite (chunksOf_at _ part i m Hm) in Hx. injection Hx as <-.
  pose proof (sum_take_le _ i m Hm) as Hs. rewrite (refSizes_sum c win mn mx Hwf) in Hs. rewrite E in Hm.
  assert (0 < m <= mx)%nat.
  { apply lookup_app_Some in Hm as [Hm|[_ Hm]]; [pose proof (proj1 (list.Forall_lookup _ _) Hl i m Hm); cbn in *; lia|].
    apply list_lookup_singleton_Some in Hm as [_ <-]. auto. }
  lens.
Qed.

Lemma chunksIn_sizes rounds n rest : (0 < n)%nat -> Forall (fun x => 0 < length x <= mx)%nat (chunksIn rounds n rest).
Proof.
  intros Hn. revert rest. induction rounds as [|rounds IH]; intros [|x rest]; cbn [chunksIn]; [constructor..|].
  apply Forall_app. split; [|apply IH]. apply partChunks_sizes. by destruct n; [lia|].
Qed.

Lemma chunksIn_nonempty rounds n rest : (0 < n)%nat -> (length rest <= rounds)%nat -> rest <> [] -> chunksIn rounds n rest <> [].
Proof. intros Hn Hl Hne E. pose proof (chunksIn_join rounds n rest Hn Hl) as H. rewrite E in H. by subst. Qed.

Lemma secretsFrom_app j chunks more :
  more <> [] -> secretsFrom j false chunks ++ secretsFrom (j + length chunks) true more = secretsFrom j true (chunks ++ more).
Proof.
  intros Hm. unfold secretsFrom. rewrite imap_app. assert (0 < length more)%nat by (destruct more; [done|cbn; lia]). f_equal; apply imap_ext.
  - intros i y Hi. apply lookup_lt_Some in Hi. f_equal. cbn [andb]. symmetry. apply Nat.eqb_neq. rewrite length_app. lia.
  - intros i y _. cbn [andb]. rewrite length_app. f_equal; [lia|]. destruct (Nat.eqb_spec (i + 1) (length more)), (Nat.eqb_spec (length chunks + i + 1) (length chunks + length more)); lia || done.
Qed.

Lemma readFile_spec {R} rounds buffer ends rest total size (j : nat) :
  (0 < length buffer)%nat -> (mx <= SECRET_SIZE)%nat -> Z.of_nat (length buffer + mx) < 2 ^ 31 -> enough_room mn (length buffer) ends ->
  (length rest <= rounds)%nat -> rest <> [] -> total = size - Z.of_nat (length rest) ->
  Z.of_nat (j + length (chunksIn rounds (length buffer) rest)) < 2 ^ 31 ->
  readFile (R := R) rounds c buffer ends rest total size (Z.of_nat j) = Ok (secretsFrom j true (chunksIn rounds (length buffer) rest)).
Proof.
  intros Hb Hmx Hov. revert buffer Hb Hov ends rest total j. induction rounds as [|rounds IH]; intros buffer Hb Hov ends rest total j Hroom Hl Hne Ht Hj.
  { by destruct rest; [|cbn in Hl; lia]. }
  destruct rest as [|x rest]; [done|]. set (r := x :: rest) in *. cbn [readFile].
  assert (0 < length r)%nat as Hr by (cbn; lia). rewrite (proj2 (Z.ltb_lt total size)) by lia.
  set (part := take (length buffer) r). assert (length part = Nat.min (length buffer) (length r)) as Lp by apply length_take.
  assert (chunksIn (S rounds) (length buffer) r = partChunks part ++ chunksIn rounds (length buffer) (drop (length buffer) r)) as EC by done.
  rewrite EC, length_app in Hj.
  rewrite wr_ok by lia. cbn [mbind res_bind]. rewrite take_0, app_nil_l. cbn [Nat.add].
  set (sizes := refSizes c win mn mx part). unfold chunking. rewrite (wc_type _ _ _ _ Hwf). change (eqb VAR_SIZE_TYPE FIX_SIZE_TYPE) with false. cbv iota.
  assert (enough_room mn (length part) ends) as Hroom'.
  { unfold enough_room in *. eapply Nat.le_lt_trans; [|exact Hroom]. apply Nat.Div0.div_le_mono. lia. }
  pose proof (varSizeChunking_spec c win mn mx Hwf (R := R) part (drop (length part) buffer) ends ltac:(lia) Hroom') as EV. fold sizes in EV. step EV.
  pose proof (addChunks_spec (R := R) part (drop (length part) buffer) (drop (length sizes) ends) j (total + Z.of_nat (length part) =? size) Hmx ltac:(lia)) as EA.
  fold sizes in EA. rewrite EA by (unfold partChunks at 1 in Hj; rewrite length_chunksOf in Hj; fold sizes in Hj; lia). clear EA. cbn [mbind res_bind].
  assert (length (part ++ drop (length part) buffer) = length buffer) as Lb by lens.
  destruct (decide (length r <= length buffer)%nat) as [Hlast|Hmore].
  - rewrite (proj2 (Z.eqb_eq _ _)) by lia. rewrite EC, (drop_ge r (length buffer)) by lia.
    assert (forall m R' b e, readFile (R := R') rounds c b e (drop (length part) r) (total + Z.of_nat (length part)) size m = Ok []) as ->.
    { intros m R' b e. assert ((total + Z.of_nat (length part) <? size) = false) as E by (apply Z.ltb_ge; lia). destruct rounds; cbn [readFile]; by rewrite E. }
    cbn [mbind res_bind]. rewrite !app_nil_r. assert (chunksIn rounds (length buffer) [] = []) as -> by (by destruct rounds). by rewrite app_nil_r.
  - rewrite (proj2 (Z.eqb_neq _ _)) by lia. assert (length part = length buffer) as Lpb by lia.
    assert (drop (length buffer) r <> []) as Hne' by (intros E; apply (f_equal length) in E; rewrite length_drop in E; change (length (A := byte) []) with 0%nat in E; lia).
    rewrite IH; rewrite ?Lb; try lia; try done; rewrite ?Lpb, ?length_drop; try lia; try done.
    + cbn [mbind res_bind]. rewrite EC, secretsFrom_app; [done|]. apply chunksIn_nonempty; [lia| |done]. rewrite length_drop. lia.
    + unfold enough_room in *. rewrite length_app, endsFrom_length, length_drop. lia.
Qed.
End Proof.
