(* ===== verification/ClientDownload.v ===== *)
(** * The download of a file: decoding

    Downloader::downloadFile takes the shares of a secret from the ring buffers of the
    clouds and adds them to the decoder; the threads of the Decoder decode them; its
    collect thread writes the secrets to the file (client/comm/downloader.cc,
    client/coding/decoder.cc). *)

From stdpp Require Import base list numbers relations.
From coqutil Require Import Byte.
From Stdlib Require Import Lia.
From S2P Require Import Prelude Structs GaloisField CryptoPrimitive CDCodec Socket Downloader Uploader Encoder.

Local Open Scope Z_scope.

(** decoder.hh, downloader.hh *)
Definition DECODE_NUM_THREADS : nat := 2.
Definition DECODE_RB_SIZE : nat := 2.
Definition MAX_NUMBER_OF_CLOUDS : nat := 16.
Class DecodeLimits := { FWRITE_BUFFER_SIZE : nat; }.
Definition decodeLimits : DecodeLimits := {| FWRITE_BUFFER_SIZE := Z.to_nat (4 * 1024 * 1024) |}.

(** Decoder::ShareChunk_t and Decoder::Secret_t *)
Record DChunk := {
  dc_data : bytes;
  dc_secretSize : Z;
  dc_shareSize : Z;
  dc_secretID : Z;
}.
Record DSecret := {
  ds_data : bytes;
  ds_secretSize : Z;
}.

Section Download.
Context {GF : GaloisField} {SSL : OpenSSL} {MM : Memory} {EL : EncodeLimits} {DE : DecodeLimits}.

(** ** Downloader::downloadFile *)

(** The shares of one secret: a round of the loop over the clouds. *)
Definition takeShare {R} (i : nat) (st : list (list DItem) * bytes * (Z * Z * Z)) : res R (list (list DItem) * bytes * (Z * Z * Z)) :=
  let '(rings, shareBuffer, _) := st in
  ring ← aget rings i;
  match ring with
  | ShareItem share_header data :: ring' =>
      secretSize ← getI32 share_header 4;
      shareSize ← getI32 share_header 8;
      id ← getI32 share_header 0;
      len ← sz shareSize;
      shareBuffer ← memcpy shareBuffer (i * len) data 0 len;
      rings ← aset rings i ring';
      Ok (rings, shareBuffer, (secretSize, shareSize, id))
  | HeaderObj _ :: _ => UB
  | [] => Hang
  end.

(** One round of the main loop: the package for the decoder. *)
Definition takeShares {R} (numOfCloud : nat) (rings : list (list DItem)) (shareBuffer : bytes) : res R (list (list DItem) * bytes * DChunk) :=
  '(rings, shareBuffer, (secretSize, shareSize, id)) ← forN (length rings) 0 takeShare (rings, shareBuffer, (0, 0, 0));
  len ← sz shareSize;
  data ← memcpy (fresh SHARE_BUFFER_SIZE) 0 shareBuffer 0 (numOfCloud * len);
  Ok (rings, shareBuffer, {| dc_data := data; dc_secretSize := secretSize; dc_shareSize := shareSize; dc_secretID := id |}).

Fixpoint takeSecrets {R} (numOfCloud count : nat) (rings : list (list DItem)) (shareBuffer : bytes) : res R (list DChunk) :=
  match count with
  | O => Ok []
  | S count' =>
      '(rings, shareBuffer, package) ← takeShares numOfCloud rings shareBuffer;
      more ← takeSecrets numOfCloud count' rings shareBuffer;
      Ok (package :: more)
  end.

(** The header objects: the number of shares of the last one counts. *)
Fixpoint takeHeaders {R} (rings : list (list DItem)) (numOfShares : option Z) : res R (list (list DItem) * option Z) :=
  match rings with
  | [] => Ok ([], numOfShares)
  | (HeaderObj header :: ring) :: rings' =>
      n ← getI32 header 8;
      '(rings', r) ← takeHeaders rings' (Some n);
      Ok (ring :: rings', r)
  | (ShareItem _ _ :: _) :: _ => UB
  | [] :: _ => Hang
  end.

(** numOfShares, for setTotal, and what is added to the decoder, in order, from the
    items the download threads have put into the ring buffers [rings]. *)
Definition downloadFile {R} (numOfCloud : nat) (rings : list (list DItem)) : res R (Z * list DChunk) :=
  '(rings, r) ← takeHeaders rings None;
  match r with
  | None => UB
  | Some numOfShares =>
      chunks ← takeSecrets numOfCloud (Z.to_nat numOfShares) rings (fresh (RING_BUFFER_DATA_SIZE * MAX_NUMBER_OF_CLOUDS));
      Ok (numOfShares, chunks)
  end.

(** ** Decoder *)

(** One round of thread_handler: the result of decoding is not looked at. *)
Definition decodeItem {R} (kShareIDList : list nat) (codec : CDCodec) (temp : DChunk) : res R (DSecret * CDCodec) :=
  shareSize ← sz (dc_shareSize temp);
  secretSize ← sz (dc_secretSize temp);
  '(_, codec, data) ← decoding codec (dc_data temp) kShareIDList shareSize secretSize (fresh SECRET_SIZE);
  Ok ({| ds_data := data; ds_secretSize := dc_secretSize temp |}, codec).

(** One round of the collect thread: buf, out_index, count and the file written so far;
    true when the last secret was written. *)
Record Writer := {
  wt_buf : bytes;
  wt_index : Z;
  wt_count : Z;
  wt_file : bytes;
}.
Definition collectSecret {R} (totalSecrets : Z) (temp : DSecret) (w : Writer) : res R (bool * Writer) :=
  next ← sint (wt_index w + ds_secretSize temp);
  '(file, index) ← (if next >? Z.of_nat FWRITE_BUFFER_SIZE
                    then len ← sz (wt_index w); part ← rd (wt_buf w) 0 len; Ok (wt_file w ++ part, 0)
                    else Ok (wt_file w, wt_index w));
  o ← sz index;
  len ← sz (ds_secretSize temp);
  buf ← memcpy (wt_buf w) o (ds_data temp) 0 len;
  index ← sint (index + ds_secretSize temp);
  count ← sint (wt_count w + 1);
  if count =? totalSecrets then
    len ← sz index;
    file ← (if index >? 0 then part ← rd buf 0 len; Ok (file ++ part) else Ok file);
    Ok (true, {| wt_buf := buf; wt_index := index; wt_count := count; wt_file := file |})
  else Ok (false, {| wt_buf := buf; wt_index := index; wt_count := count; wt_file := file |}).

(** The thread over the secrets it extracts: the content of the file when it ends. *)
Fixpoint collectSecrets {R} (totalSecrets : Z) (items : list DSecret) (w : Writer) : res R bytes :=
  match items with
  | [] => Hang
  | temp :: items' =>
      '(stop, w) ← collectSecret totalSecrets temp w;
      if (stop : bool) then Ok (wt_file w) else collectSecrets totalSecrets items' w
  end.
Definition writeFile {R} (totalSecrets : Z) (items : list DSecret) : res R bytes :=
  collectSecrets totalSecrets items {| wt_buf := fresh FWRITE_BUFFER_SIZE; wt_index := 0; wt_count := 0; wt_file := [] |}.
End Download.

(** ** Writing the file *)

Section WriteProof.
Context {MM : Memory} {ML : MemoryLaws} {DE : DecodeLimits}.

Definition secretBytes (x : DSecret) : bytes := take (Z.to_nat (ds_secretSize x)) (ds_data x).
Definition writable (x : DSecret) : Prop :=
  0 <= ds_secretSize x <= Z.of_nat FWRITE_BUFFER_SIZE /\ (Z.to_nat (ds_secretSize x) <= length (ds_data x))%nat.

(** [pending] is in the buffer. *)
Definition buffered (pending : bytes) (w : Writer) : Prop :=
  wt_index w = Z.of_nat (length pending) /\ length (wt_buf w) = FWRITE_BUFFER_SIZE /\ exists rest, wt_buf w = pending ++ rest.

Lemma collectSecret_spec {R} total x w pending :
  Z.of_nat FWRITE_BUFFER_SIZE < 2 ^ 30 -> writable x -> buffered pending w -> -1 <= wt_count w < 2 ^ 31 - 1 ->
  exists w', collectSecret (R := R) total x w = Ok (wt_count w + 1 =? total, w') /\ wt_count w' = wt_count w + 1 /\
    if wt_count w + 1 =? total then wt_file w' = wt_file w ++ pending ++ secretBytes x
    else exists pending', buffered pending' w' /\ wt_file w' ++ pending' = wt_file w ++ pending ++ secretBytes x.
Proof.
  intros Hmax [Hs Hl] (Ei & Lb & rest & Eb) Hc. unfold collectSecret. rewrite Ei. assert (length pending <= FWRITE_BUFFER_SIZE)%nat by (rewrite <- Lb, Eb; lens).
  step (@sint_ok R (Z.of_nat (length pending) + ds_secretSize x) ltac:(lia)). set (len := Z.to_nat (ds_secretSize x)) in *.
  assert (length (secretBytes x) = len) as Lx by (unfold secretBytes; fold len; lens).
  assert (exists file p rest', (if Z.of_nat (length pending) + ds_secretSize x >? Z.of_nat FWRITE_BUFFER_SIZE
      then len ← sz (Z.of_nat (length pending)); part ← rd (wt_buf w) 0 len; Ok (wt_file w ++ part, 0) else Ok (wt_file w, Z.of_nat (length pending)))
      = Ok (R := R) (file, Z.of_nat (length p)) /\ file ++ p = wt_file w ++ pending /\ wt_buf w = p ++ rest' /\ (length p + len <= FWRITE_BUFFER_SIZE)%nat)
    as (file & p & rest' & -> & Ef & Ep & Hp).
  { destruct (Z.gtb_spec (Z.of_nat (length pending) + ds_secretSize x) (Z.of_nat FWRITE_BUFFER_SIZE)).
    - exists (wt_file w ++ pending), [], (wt_buf w). rewrite sz_ok by lia. cbn [mbind res_bind]. rewrite Nat2Z.id, Eb, rd_front by done.
      split_and!; [done|by rewrite app_nil_r|done|cbn; lia].
    - exists (wt_file w), pending, rest. split_and!; [done|done|done|lia]. }
  cbn [mbind res_bind]. step (@sz_ok R (Z.of_nat (length p)) ltac:(lia)). step (@sz_ok R (ds_secretSize x) ltac:(lia)). fold len. rewrite Nat2Z.id.
  unfold memcpy. rewrite rd_ok by lia. cbn [mbind res_bind]. rewrite drop_0. change (take len (ds_data x)) with (secretBytes x).
  rewrite Ep, wr_next by (rewrite ?Lx; try done; rewrite Ep, length_app in Lb; lia). cbn [mbind res_bind].
  step (@sint_ok R (Z.of_nat (length p) + ds_secretSize x) ltac:(lia)). step (@sint_ok R (wt_count w + 1) ltac:(lia)).
  replace (Z.of_nat (length p) + ds_secretSize x) with (Z.of_nat (length (p ++ secretBytes x))) by (rewrite length_app, Lx; lia).
  assert (length ((p ++ secretBytes x) ++ drop (length (secretBytes x)) rest') = FWRITE_BUFFER_SIZE) as Lb'.
  { rewrite Ep, length_app in Lb. rewrite !length_app, length_drop. lia. }
  destruct (wt_count w + 1 =? total).
  - rewrite sz_ok by lia. cbn [mbind res_bind]. rewrite Nat2Z.id, rd_front by done. cbn [mbind res_bind].
    destruct (Z.gtb_spec (Z.of_nat (length (p ++ secretBytes x))) 0) as [_|H0]; cbn [mbind res_bind].
    + eexists. split; [done|]. cbn. split; [done|]. by rewrite app_assoc, Ef, <- app_assoc.
    + eexists. split; [done|]. cbn. split; [done|]. rewrite app_assoc, <- Ef, <- app_assoc.
      destruct (p ++ secretBytes x); [by rewrite app_nil_r|cbn in H0; lia].
  - eexists. split; [done|]. cbn. split; [done|]. exists (p ++ secretBytes x). split; [split_and!; [done|done|by eexists]|]. cbn.
    by rewrite app_assoc, Ef, <- app_assoc.
Qed.

Lemma collectSecrets_spec {R} total items w pending :
  Z.of_nat FWRITE_BUFFER_SIZE < 2 ^ 30 -> Forall writable items -> buffered pending w -> items <> [] ->
  0 <= wt_count w -> total = wt_count w + Z.of_nat (length items) -> total < 2 ^ 31 ->
  collectSecrets (R := R) total items w = Ok (wt_file w ++ pending ++ mjoin (secretBytes <$> items)).
Proof.
  intros Hmax HF. revert w pending. induction HF as [|x items Hx HF IH]; intros w pending HB Hne Hc Ht Hlim; [done|]. cbn [collectSecrets length] in *.
  destruct (collectSecret_spec (R := R) total x w pending Hmax Hx HB ltac:(lia)) as (w' & -> & Hc' & H). cbn [mbind res_bind].
  change (mjoin (secretBytes <$> x :: items)) with (secretBytes x ++ mjoin (secretBytes <$> items)).
  destruct (Z.eqb_spec (wt_count w + 1) total) as [E|E].
  - destruct items; [|cbn in Ht; lia]. cbn. by rewrite H, app_nil_r.
  - destruct H as (pending' & HB' & HE). rewrite (IH w' pending' HB'); [|destruct items; [cbn in Ht; lia|done]|lia|lia|lia].
    f_equal. rewrite app_assoc, HE, <- !app_assoc. done.
Qed.

Lemma writeFile_spec {R} items :
  Z.of_nat FWRITE_BUFFER_SIZE < 2 ^ 30 -> Forall writable items -> items <> [] -> Z.of_nat (length items) < 2 ^ 31 ->
  writeFile (R := R) (Z.of_nat (length items)) items = Ok (mjoin (secretBytes <$> items)).
Proof.
  intros Hmax HF Hne Hn. unfold writeFile. rewrite (collectSecrets_spec _ _ _ []); try done; cbn; try lia.
  split_and!; [done|apply fresh_length|by eexists].
Qed.
End WriteProof.
