(* ===== verification/ClientProof.v ===== *)
(** * Decoding what was downloaded

    The ring buffers of the clouds hold, behind a header, the shares of the same
    secrets in the same order; downloadFile puts the shares of a secret side by side,
    and a decoding thread restores the secret. *)

From stdpp Require Import base list numbers relations.
From coqutil Require Import Byte.
From Stdlib Require Import Lia.
From S2P Require Import Prelude Structs GaloisField CryptoPrimitive CDCodec ErasureCode AontSchemes CodecTheorems MinRestoreProof Socket Downloader DownloaderProof Uploader Encoder MetaChunks RecipeWriter RecipeRebuild Pipeline EncodeThreads ClientDownload.

Local Open Scope Z_scope.

(** The shares of a secret, by cloud, with its id and size *)
Record Row := {
  rw_id : Z;
  rw_secretSize : Z;
  rw_size : nat;
  rw_share : nat -> bytes;
}.

Section Rings.
Context {MM : Memory} {ML : MemoryLaws} {EL : EncodeLimits} {DL : DownloadLimits}.
Implicit Types (r : Row) (rs : list Row).

Definition rowItem r (i : nat) : DItem :=
  ShareItem (le32 (rw_id r) ++ le32 (rw_secretSize r) ++ le32 (Z.of_nat (rw_size r))) (rw_share r i ++ drop (rw_size r) (fresh ITEM_DATA_SIZE)).
Definition ringOf rs (i : nat) : list DItem := (fun r => rowItem r i) <$> rs.
Definition rowShares (K : nat) r : list bytes := rw_share r <$> seq 0 K.

Record goodRow (K : nat) r : Prop := {
  gr_id : int32 (rw_id r);
  gr_secret : int32 (rw_secretSize r);
  gr_size : int32 (Z.of_nat (rw_size r));
  gr_share : forall i, (i < K)%nat -> length (rw_share r i) = rw_size r;
  gr_buffer : (K * rw_size r <= RING_BUFFER_DATA_SIZE * MAX_NUMBER_OF_CLOUDS)%nat;
  gr_package : (K * rw_size r <= SHARE_BUFFER_SIZE)%nat;
}.

Lemma rowShares_blocks K r : goodRow K r -> Forall (fun b => length b = rw_size r) (rowShares K r).
Proof.
  intros G. apply list.Forall_lookup. intros i b Hb. unfold rowShares in Hb. rewrite list_lookup_fmap in Hb.
  destruct (seq 0 K !! i) as [j|] eqn:Hj; [|done]. injection Hb as <-. apply lookup_seq in Hj as [-> Hj]. by apply (gr_share _ _ G).
Qed.

Lemma length_rowShares K r : goodRow K r -> length (mjoin (rowShares K r)) = (K * rw_size r)%nat.
Proof. intros G. rewrite (length_join_blocks _ _ (rowShares_blocks K r G)). unfold rowShares. rewrite length_fmap, length_seq. lia. Qed.

(** The shares of a secret are side by side in the buffer. *)
Lemma takeShare_rounds {R} K r rs buf :
  (0 < K)%nat -> goodRow K r -> length buf = (RING_BUFFER_DATA_SIZE * MAX_NUMBER_OF_CLOUDS)%nat ->
  exists buf', forN (R := R) K 0 takeShare (ringOf (r :: rs) <$> seq 0 K, buf, (0, 0, 0))
    = Ok (ringOf rs <$> seq 0 K, mjoin (rowShares K r) ++ buf', (rw_secretSize r, Z.of_nat (rw_size r), rw_id r)) /\
    length (mjoin (rowShares K r) ++ buf') = length buf.
Proof.
  intros HK G Lb. pose proof G as [Gi Gs Gz Gsh Gb Gp].
  destruct (forN_inv (R := R) (fun i (st : list (list DItem) * bytes * (Z * Z * Z)) =>
    length st.1.1 = K /\ (forall j, (j < K)%nat -> st.1.1 !! j = Some (ringOf (if decide (j < i)%nat then rs else r :: rs) j)) /\
    length st.1.2 = length buf /\ (exists rest, st.1.2 = mjoin (rowShares i r) ++ rest) /\
    ((0 < i)%nat -> st.2 = (rw_secretSize r, Z.of_nat (rw_size r), rw_id r))) K 0 takeShare (ringOf (r :: rs) <$> seq 0 K, buf, (0, 0, 0)))
    as ([[rings b] z] & -> & HL & HR & Lb' & (rest & Eb) & Hz).
  - cbn [fst snd]. split_and!; [by rewrite length_fmap, length_seq| |done|by exists buf|lia].
    intros j Hj. by rewrite list_lookup_fmap, lookup_seq_lt by lia.
  - intros i [[rings b] z] Hi (HL & HR & Lb' & (rest & Eb) & _). cbn [fst snd] in *. unfold takeShare.
    step (aget_ok (R := R) rings i _ (HR i ltac:(lia))). rewrite decide_False by lia. cbn [ringOf fmap list_fmap rowItem].
    rewrite (getI32_at (le32 (rw_id r)) (rw_secretSize r) (le32 (Z.of_nat (rw_size r))) _ 4) by (try done; by rewrite length_le32). cbn [mbind res_bind].
    rewrite (getI32_at (le32 (rw_id r) ++ le32 (rw_secretSize r)) (Z.of_nat (rw_size r)) [] _ 8); [|by rewrite app_nil_r, <- app_assoc|lens|done]. cbn [mbind res_bind].
    rewrite (getI32_at [] (rw_id r) (le32 (rw_secretSize r) ++ le32 (Z.of_nat (rw_size r))) _ 0) by done. cbn [mbind res_bind].
    step (@sz_ok R (Z.of_nat (rw_size r)) ltac:(lia)). rewrite Nat2Z.id. pose proof (Gsh i ltac:(lia)) as Ls.
    assert (goodRow i r) as G' by (split; try done; [intros; apply Gsh; lia|nia|nia]). pose proof (length_rowShares i r G') as Li.
    assert (memcpy (R := R) b (i * rw_size r) (rw_share r i ++ drop (rw_size r) (fresh ITEM_DATA_SIZE)) 0 (rw_size r)
      = Ok ((mjoin (rowShares i r) ++ rw_share r i) ++ drop (rw_size r) rest)) as ->.
    { unfold memcpy. rewrite rd_front by done. cbn [mbind res_bind]. rewrite Eb, wr_next; [by rewrite Ls|done|].
      rewrite Eb, length_app in Lb'. rewrite Ls. nia. }
    cbn [mbind res_bind]. rewrite aset_ok by lia. cbn [mbind res_bind]. eexists. split; [done|]. cbn [fst snd].
    assert (mjoin (rowShares (S i) r) = mjoin (rowShares i r) ++ rw_share r i) as EJ.
    { unfold rowShares. rewrite seq_S, fmap_app, join_app. cbn. by rewrite app_nil_r. }
    split_and!; [by rewrite length_insert| | |rewrite EJ; by eexists|done].
    + intros j Hj. destruct (decide (j = i)) as [->|Hne].
      * rewrite list_lookup_insert_eq by lia. by rewrite decide_True by lia.
      * rewrite list_lookup_insert_ne, HR by done. destruct (decide (j < i)%nat), (decide (j < S i)%nat); lia || done.
    + rewrite <- Lb', Eb. rewrite Eb, length_app in Lb'. assert (rw_size r <= length rest)%nat by nia. lens.
  - cbn [fst snd] in *. subst b. exists rest. split; [|done]. rewrite (Hz ltac:(lia)). do 3 f_equal. apply list_eq. intros j.
    rewrite list_lookup_fmap. destruct (decide (j < K)%nat) as [Hj|Hj].
    + rewrite HR, decide_True by lia. by rewrite lookup_seq_lt by lia.
    + rewrite !lookup_ge_None_2 by (rewrite ?HL, ?length_seq; lia). done.
Qed.

Definition packageOfRow (K : nat) r : DChunk :=
  {| dc_data := mjoin (rowShares K r) ++ drop (K * rw_size r) (fresh SHARE_BUFFER_SIZE); dc_secretSize := rw_secretSize r;
     dc_shareSize := Z.of_nat (rw_size r); dc_secretID := rw_id r |}.

Lemma takeSecrets_spec {R} K rs buf :
  (0 < K)%nat -> Forall (goodRow K) rs -> length buf = (RING_BUFFER_DATA_SIZE * MAX_NUMBER_OF_CLOUDS)%nat ->
  takeSecrets (R := R) K (length rs) (ringOf rs <$> seq 0 K) buf = Ok (packageOfRow K <$> rs).
Proof.
  intros HK HG. revert buf. induction HG as [|r rs G _ IH]; intros buf Lb; [done|]. cbn [length takeSecrets]. unfold takeShares.
  rewrite length_fmap, length_seq. destruct (takeShare_rounds (R := R) K r rs buf HK G Lb) as (b' & -> & Lb'). cbn [mbind res_bind].
  step (@sz_ok R (Z.of_nat (rw_size r)) ltac:(lia)). rewrite Nat2Z.id. pose proof (length_rowShares K r G) as LR. pose proof (gr_package _ _ G).
  assert (memcpy (R := R) (fresh SHARE_BUFFER_SIZE) 0 (mjoin (rowShares K r) ++ b') 0 (K * rw_size r)
    = Ok (mjoin (rowShares K r) ++ drop (K * rw_size r) (fresh SHARE_BUFFER_SIZE))) as ->.
  { unfold memcpy. rewrite rd_front by done. cbn [mbind res_bind]. rewrite wr_ok by (rewrite fresh_length; lia). by rewrite take_0, LR. }
  cbn [mbind res_bind]. rewrite IH by (by rewrite Lb'). done.
Qed.

(** ** downloadFile *)

Definition cloudRing (rs : list Row) (fileSize : Z) (pad : nat -> bytes) (i : nat) : list DItem :=
  HeaderObj (fileHead fileSize (length rs) (pad i)) :: ringOf rs i.

Lemma takeHeaders_spec {R} rs fileSize pad js (z : option Z) :
  Z.of_nat (length rs) < 2 ^ 31 ->
  takeHeaders (R := R) (cloudRing rs fileSize pad <$> js) z = Ok (ringOf rs <$> js, if decide (js = []) then z else Some (Z.of_nat (length rs))).
Proof.
  intros Hn. revert z. induction js as [|j js IH]; intros z; [done|]. cbn [fmap list_fmap takeHeaders cloudRing fileHead].
  rewrite (getI32_at (le64 fileSize) (Z.of_nat (length rs)) (pad j) _ 8); [|done|by rewrite length_le64|unfold int32; lia]. cbn [mbind res_bind].
  rewrite IH. cbn [mbind res_bind]. rewrite (decide_False (P := j :: js = [])) by done. by destruct (decide (js = [])).
Qed.

Lemma downloadFile_spec {R} K rs fileSize pad :
  (0 < K)%nat -> Forall (goodRow K) rs -> Z.of_nat (length rs) < 2 ^ 31 ->
  downloadFile (R := R) K (cloudRing rs fileSize pad <$> seq 0 K) = Ok (Z.of_nat (length rs), packageOfRow K <$> rs).
Proof.
  intros HK HG Hn. unfold downloadFile. rewrite takeHeaders_spec by done. cbn [mbind res_bind].
  rewrite decide_False by (destruct K; [lia|done]). rewrite Nat2Z.id, takeSecrets_spec by (try done; apply fresh_length). done.
Qed.
End Rings.

(** ** Decoding a secret *)

Section Decode.
Context {GF : GaloisField} {LAWS : GaloisFieldLaws GF} {SSL : OpenSSL} {MM : Memory} {ML : MemoryLaws} {EL : EncodeLimits} {DL : DownloadLimits}.
Context {bs hs : nat} {digest : bytes -> bytes} {encipher decipher : bytes -> bytes -> bytes}.
Context (n m : nat) (crypto : CryptoPrimitive).
Abbreviation codecOk := (EncodeThreads.codecOk (bs := bs) (hs := hs) (digest := digest) (encipher := encipher) (decipher := decipher) n m crypto).
Abbreviation goodSecret := (EncodeThreads.goodSecret (hs := hs) n m).
Abbreviation packageOfSecret := (EncodeThreads.packageOfSecret (hs := hs) (digest := digest) (encipher := encipher)).

(** The row of the shares of a secret *)
Definition secretRow (rand : nat -> byte) (c0 : CDCodec) (s : Secret) : Row :=
  let size := shareSizeOf hs (n - m) (Z.to_nat (se_secretSize s)) in
  {| rw_id := se_secretID s; rw_secretSize := se_secretSize s; rw_size := size; rw_share := shareOf c0 (packageOfSecret rand c0 s) size |}.

Definition secretContent (s : Secret) : bytes := take (Z.to_nat (se_secretSize s)) (se_data s).
Definition decodedSecret (s : Secret) : DSecret :=
  {| ds_data := secretContent s ++ drop (Z.to_nat (se_secretSize s)) (fresh SECRET_SIZE); ds_secretSize := se_secretSize s |}.

Lemma length_shareOf c pkg size i : length (shareOf c pkg size i) = size.
Proof. unfold shareOf. apply comb_length. Qed.

Lemma decodeItem_spec rand c0 c s :
  (1 < n - m)%nat -> (n - m <= n)%nat -> codecOk c0 -> codecOk c -> goodSecret s -> (Z.to_nat (se_secretSize s) <= SECRET_SIZE)%nat ->
  goodRow (n - m) (secretRow rand c0 s) ->
  exists c', decodeItem (R := False) (seq 0 (n - m)) c (packageOfRow (n - m) (secretRow rand c0 s)) = Ok (decodedSecret s, c') /\ codecOk c'.
Proof.
  intros Hk Hnk H0 Hc Hs Hmax G. pose proof Hs as [Hsz Hd Hms _]. pose proof Hc as [Hw HB]. pose proof HB as (HT & Hn & Hm & Hkc & Hb & Ha & _).
  pose proof H0 as [_ HB0]. pose proof HB0 as (_ & Hn0 & _ & Hk0 & Hb0 & _). pose proof (wa_crypto c Hw). pose proof ok_hs_4.
  set (len := Z.to_nat (se_secretSize s)) in *. unfold decodeItem. cbn [packageOfRow dc_shareSize dc_secretSize dc_data secretRow rw_size rw_secretSize].
  fold len. set (size := shareSizeOf hs (n - m) len). step (@sz_ok False (Z.of_nat size) ltac:(lia)). rewrite Nat2Z.id. step (@sz_ok False (se_secretSize s) Hsz). fold len.
  set (sh := mjoin _ ++ _). set (A := alignedSecret c (se_data s) len).
  assert (alignedSize hs (n - m) len <= MAX_SECRET_SIZE + hs * (n - m))%nat as Hal by (apply aligned_le_max; lia).
  assert (length (mjoin (rowShares (n - m) (secretRow rand c0 s))) = ((n - m) * size)%nat) as LJ by exact (length_rowShares _ _ G).
  destruct (decoding_spec (R := False) c len rand A (seq 0 (n - m)) sh (fresh SECRET_SIZE) Hw) as (o & Ed & c' & -> & Hw' & HS).
  - rewrite HT. by right; right.
  - rewrite Hb, Hkc. rewrite <- Hb, <- Hkc. by apply (alignedSecret_length (bs := bs) (digest := digest) (encipher := encipher) (decipher := decipher)).
  - by rewrite Hb, Hkc, Ha.
  - split; [apply NoDup_seq|]. rewrite length_seq, Hn, Hkc. split; [done|]. apply list.Forall_forall. intros i Hi. apply elem_of_seq in Hi. lia.
  - by rewrite fresh_length.
  - rewrite Hb, Hkc. fold size. split; [unfold sh; rewrite length_app, LJ, Hkc; lia|]. intros j Hj. rewrite Hkc in Hj.
    rewrite lookup_total_seq_lt by lia. cbn [Nat.add].
    assert (blk sh size j = rw_share (secretRow rand c0 s) j) as ->.
    { unfold blk, sh. rewrite drop_app_le, take_app_le by (rewrite ?length_drop, LJ; nia). apply join_block; [exact (rowShares_blocks _ _ G)|].
      unfold rowShares. by rewrite list_lookup_fmap, lookup_seq_lt. }
    cbn. fold len size. unfold EncodeThreads.packageOfSecret. fold len. rewrite HT.
    assert (A = alignedSecret c0 (se_data s) len) as -> by (unfold A, alignedSecret; congruence).
    unfold shareOf. destruct HB as (_ & _ & _ & _ & _ & _ & _ & HD), HB0 as (_ & _ & _ & _ & _ & _ & _ & HD0). by rewrite Hkc, Hk0, HD, HD0.
  - rewrite Hb, Hkc in Ed. fold size in Ed. step Ed. exists c'. split; [|by eapply codecOk_static].
    assert (take len A = secretContent s) as ->.
    { unfold A, alignedSecret, secretContent. fold len. replace len with (length (take len (se_data s))) at 1 by (rewrite length_take; lia). apply padded_prefix. }
    unfold decodedSecret. fold len. replace (length (secretContent s)) with len by (unfold secretContent; fold len; rewrite length_take; lia). done.
Qed.
End Decode.
