(* ===== verification/ClientTheorems.v ===== *)
(** * The client, from the file and back

    main.cc with the threads it starts: a file is cut, encoded and handed to the
    uploaders; from the shares and the metadata of the clouds the file is restored. *)

From stdpp Require Import base list numbers relations.
From coqutil Require Import Byte.
From Stdlib Require Import Lia.
From S2P Require Import Prelude Structs GaloisField CryptoPrimitive CDCodec ErasureCode AontSchemes CodecTheorems Chunker MinPackage MinRestoreProof DedupUpload Socket Downloader DownloaderProof Uploader UploaderProof Uploads Encoder MetaChunks RecipeWriter RecipeRebuild Pipeline EncodeThreads ClientUpload ClientDownload ClientProof.

Local Open Scope Z_scope.

(** ** Lists *)

Lemma flagged_length {A B} (l : list A) (l' : list B) : length l = length l' -> (flagged l).*1 = (flagged l').*1.
Proof.
  revert l'. induction l as [|x [|y l] IH]; intros [|x' [|y' l']] H; cbn in H; try lia; [done..|].
  rewrite !flagged_cons. cbn [fmap list_fmap] in *. f_equal. apply (IH (y' :: l')). cbn. lia.
Qed.

Lemma flagged_imap_last {A} (l : list A) : (flagged l).*1 = imap (fun i _ => (i + 1 =? length l)%nat) l.
Proof.
  destruct l as [|x l'] using rev_ind; [done|]. clear IHl'. rewrite flagged_last, fmap_app, imap_app, <- list_fmap_compose. f_equal.
  - rewrite <- imap_const. symmetry. apply imap_ext. intros i y Hi. apply lookup_lt_Some in Hi. cbn. apply Nat.eqb_neq. rewrite length_app. cbn. lia.
  - cbn. f_equal. symmetry. apply Nat.eqb_eq. rewrite length_app. cbn. lia.
Qed.

Lemma secretsFrom_flags {MM : Memory} {EL : EncodeLimits} j (l : list bytes) : se_end <$> secretsFrom j true l = (flagged l).*1.
Proof. unfold secretsFrom. by rewrite fmap_imap, flagged_imap_last. Qed.

Lemma chunkRounds_zip junks chunks : chunkRounds (zip junks chunks) = zip junks (ChunkItem <$> chunks).
Proof. revert chunks. induction junks as [|j junks IH]; intros [|c chunks]; cbn; [done..|]. f_equal. apply IH. Qed.

(** ** The client *)

Section Client.
Context {GF : GaloisField} {LAWS : GaloisFieldLaws GF} {SSL : OpenSSL} {MM : Memory} {ML : MemoryLaws}.
Context {EL : EncodeLimits} {DL : DownloadLimits} {DE : DecodeLimits}.
Context {crypto : CryptoPrimitive} {bs : nat} {digest : bytes -> bytes} {encipher decipher : bytes -> bytes -> bytes}.
Context {CK : CryptoOk crypto 32 bs digest encipher decipher}.
Context (n m : nat) (chunker : Chunker) (win mn mx : nat).
Abbreviation codecOk := (EncodeThreads.codecOk (bs := bs) (hs := 32) (digest := digest) (encipher := encipher) (decipher := decipher) n m crypto).
Abbreviation goodSecret := (EncodeThreads.goodSecret (hs := 32) n m).
Abbreviation encodedChunk := (EncodeThreads.encodedChunk (hs := 32) (digest := digest) (encipher := encipher) n m).
Abbreviation encodedItem := (EncodeThreads.encodedItem (hs := 32) (digest := digest) (encipher := encipher) n m).
Abbreviation secretRow := (ClientProof.secretRow (hs := 32) (digest := digest) (encipher := encipher) n m).
Abbreviation packageOfSecret := (EncodeThreads.packageOfSecret (hs := 32) (digest := digest) (encipher := encipher)).
Abbreviation shareSize s := (shareSizeOf 32 (n - m) s).

(** The sizes fit: of the chunker, of the shares of its chunks and of the buffers. *)
Record ClientOk : Prop := {
  cl_encode : EncodeOk (bs := bs);
  cl_chunker : wf_chunker chunker win mn mx;
  cl_k : (1 < n - m)%nat;
  cl_clouds : (n - m <= MAX_NUMBER_OF_CLOUDS)%nat;
  cl_secret : (mx <= SECRET_SIZE)%nat;
  cl_codec : (SECRET_SIZE <= MAX_SECRET_SIZE)%nat;
  cl_write : (SECRET_SIZE <= FWRITE_BUFFER_SIZE)%nat;
  cl_write_max : Z.of_nat FWRITE_BUFFER_SIZE < 2 ^ 30;
  cl_shares : forall s, (s <= SECRET_SIZE)%nat -> (shareSize s * n <= SHARE_BUFFER_SIZE)%nat;
  cl_ring : forall s, (s <= SECRET_SIZE)%nat -> (shareSize s <= RING_BUFFER_DATA_SIZE)%nat;
  cl_max : Z.of_nat SHARE_BUFFER_SIZE < 2 ^ 31;
}.

Lemma secretOf_good j last chunk : ClientOk -> (length chunk <= mx)%nat -> goodSecret (secretOf j last chunk).
Proof.
  intros OK Hl. pose proof (cl_secret OK). pose proof (cl_codec OK). split; cbn [secretOf se_secretSize se_data]; rewrite ?Nat2Z.id; try lia.
  - rewrite length_app, length_drop, fresh_length. lia.
  - apply (cl_shares OK). lia.
Qed.

Lemma secretOf_content j last chunk : secretContent (secretOf j last chunk) = chunk.
Proof. unfold secretContent. cbn. by rewrite Nat2Z.id, take_app_length. Qed.

Lemma decoded_bytes s : goodSecret s -> secretBytes (decodedSecret s) = secretContent s.
Proof.
  intros G. unfold secretBytes. cbn. rewrite take_app_le, take_ge; [done| |]; unfold secretContent; rewrite length_take; pose proof (gs_data _ _ _ G); lia.
Qed.

(** The secrets of a file are those of its chunks. *)
Lemma secretsFrom_forall (P : Secret -> Prop) (Q : bytes -> Prop) j last chunks :
  (forall j last x, Q x -> int32 (Z.of_nat j) -> P (secretOf j last x)) -> Forall Q chunks -> Z.of_nat (j + length chunks) < 2 ^ 31 ->
  Forall P (secretsFrom j last chunks).
Proof.
  intros H HF Hn. apply list.Forall_lookup. intros i s Hs. unfold secretsFrom in Hs. rewrite list_lookup_imap in Hs.
  destruct (chunks !! i) as [x|] eqn:Hx; [|done]. injection Hs as <-. apply lookup_lt_Some in Hx as Hi.
  apply H; [exact (proj1 (list.Forall_lookup _ _) HF i x Hx)|unfold int32; lia].
Qed.

(** What is needed of a secret at every stage *)
Record fits (s : Secret) : Prop := {
  ft_good : goodSecret s;
  ft_size : (Z.to_nat (se_secretSize s) <= SECRET_SIZE)%nat;
  ft_id : int32 (se_secretID s);
}.

Lemma secretOf_fits j last chunk : ClientOk -> (0 < length chunk <= mx)%nat -> int32 (Z.of_nat j) -> fits (secretOf j last chunk).
Proof. intros OK Hl Hj. pose proof (cl_secret OK). split; [by apply secretOf_good; [|lia]|cbn; rewrite Nat2Z.id; lia|done]. Qed.

Lemma fits_chunk rand c0 s : ClientOk -> codecOk c0 -> fits s -> goodChunk n (encodedChunk rand c0 s).
Proof.
  intros OK [_ (_ & Hn & _)] [G Hsz Hid]. pose proof G as [G1 G2 G3 G4]. pose proof (cl_ring OK _ Hsz). pose proof (cl_shares OK _ Hsz).
  pose proof (cl_codec OK). pose proof (cl_max OK). pose proof (cl_k OK). split; cbn [EncodeThreads.encodedChunk sc_shareSize sc_data sc_secretID sc_secretSize]; rewrite ?Nat2Z.id; try done; try lia.
  - rewrite length_app, sharesOf_length, Hn. lia.
  - unfold int32. nia.
  - split; [done|]. assert (Z.of_nat MAX_SECRET_SIZE < 2 ^ 31) by (vm_compute; done). lia.
Qed.

Lemma fits_row rand c0 s : ClientOk -> fits s -> goodRow (n - m) (secretRow rand c0 s).
Proof.
  intros OK [G Hsz Hid]. pose proof (cl_ring OK _ Hsz). pose proof (cl_shares OK _ Hsz). pose proof (cl_clouds OK). pose proof (cl_max OK). pose proof (cl_k OK).
  assert (Z.of_nat MAX_SECRET_SIZE < 2 ^ 31) by (vm_compute; done). pose proof (cl_codec OK). pose proof (gs_size _ _ _ G).
  split; cbn [ClientProof.secretRow rw_id rw_secretSize rw_size rw_share]; try done; unfold int32; try nia. intros i Hi. apply length_shareOf.
Qed.

(** The share of a cloud, and the item of it that a download thread delivers *)
Lemma cloudShare_encoded rand c0 s i :
  codecOk c0 -> (i < n)%nat ->
  cloudShare (encodedChunk rand c0 s) i = rw_share (secretRow rand c0 s) i.
Proof.
  intros [_ (_ & Hn & _)] Hi. unfold cloudShare. cbn [EncodeThreads.encodedChunk sc_shareSize sc_data ClientProof.secretRow rw_share]. rewrite Nat2Z.id. set (size := shareSize (Z.to_nat (se_secretSize s))).
  rewrite <- (sharesOf_blk c0 (packageOfSecret rand c0 s) size i (drop (size * n) (fresh SHARE_BUFFER_SIZE))) by lia.
  unfold blk. by rewrite (Nat.mul_comm i).
Qed.

Definition uploaded (rand : nat -> byte) (c0 : CDCodec) (secrets : list Secret) (i : nat) : list ClientShare :=
  (fun s => dataShare (digest := digest) (encodedChunk rand c0 s) i) <$> secrets.
Definition delivered (x : ClientShare) : DItem := itemOf (recipeEntryOf (cs_md x)) (UploaderProof.content x).

Lemma delivered_row rand c0 secrets i :
  codecOk c0 -> (i < n)%nat -> delivered <$> uploaded rand c0 secrets i = ringOf (secretRow rand c0 <$> secrets) i.
Proof.
  intros H0 Hi. unfold uploaded, ringOf. rewrite <- !list_fmap_compose. apply list_fmap_ext. intros j s _. unfold compose, delivered, itemOf, entryBytes, UploaderProof.content.
  cbn [dataShare cs_md cs_data sm_size sm_secretID sm_secretSize sm_fp recipeEntryOf re_secretID re_secretSize EncodeThreads.encodedChunk sc_shareSize sc_secretID sc_secretSize].
  rewrite Nat2Z.id. set (size := shareSize (Z.to_nat (se_secretSize s))). fold (encodedChunk rand c0 s). rewrite (cloudShare_encoded rand c0 s i H0 Hi).
  assert (length (rw_share (secretRow rand c0 s) i) = size) as L by apply length_shareOf.
  rewrite take_app_le, take_ge by (rewrite L; lia). unfold rowItem. rewrite L. done.
Qed.

(** ** The steps of the round trip *)

Definition fileHeadOf (name file : bytes) : FileHead :=
  {| fh_data := name ++ drop (length name) (fresh SECRET_SIZE); fh_fullNameSize := Z.of_nat (length name); fh_fileSize := signedOf 32 (Z.of_nat (length file)) |}.
Definition fileSecrets (bufferSize : nat) (file : bytes) : list Secret := secretsFrom 0 true (fileChunks chunker win mn mx bufferSize file).

Lemma uploadItems_spec {R} buffer ends name file :
  ClientOk -> (0 < length buffer)%nat -> Z.of_nat (length buffer + mx) < 2 ^ 31 -> enough_room mn (length buffer) ends ->
  file <> [] -> Z.of_nat (length (fileChunks chunker win mn mx (length buffer) file)) < 2 ^ 31 -> (length name <= SECRET_SIZE)%nat ->
  uploadItems (R := R) chunker buffer ends name file = Ok (HeadItem (fileHeadOf name file) :: (SecretObj <$> fileSecrets (length buffer) file)).
Proof.
  intros OK Hb Hov Hroom Hne Hn Hname. unfold uploadItems. rewrite memcpy_ok by (rewrite ?fresh_length; lia). cbn [mbind res_bind].
  rewrite (readFile_spec chunker win mn mx (cl_chunker OK) (length file) buffer ends file 0 (Z.of_nat (length file)) 0%nat) by (try done; try lia; apply (cl_secret OK)).
  cbn [mbind res_bind]. unfold fileHeadOf. rewrite take_0, drop_0, take_ge by lia. done.
Qed.

Lemma fileSecrets_fit bufferSize file :
  ClientOk -> (0 < bufferSize)%nat -> Z.of_nat (length (fileChunks chunker win mn mx bufferSize file)) < 2 ^ 31 -> Forall fits (fileSecrets bufferSize file).
Proof.
  intros OK Hb Hn. apply (secretsFrom_forall _ (fun x => (0 < length x <= mx)%nat)); [intros; by apply secretOf_fits| |done].
  by apply (chunksIn_sizes chunker win mn mx (cl_chunker OK)).
Qed.

Lemma fileSecrets_content bufferSize file :
  ClientOk -> (0 < bufferSize)%nat -> secretContent <$> fileSecrets bufferSize file = fileChunks chunker win mn mx bufferSize file.
Proof.
  intros OK Hb. unfold fileSecrets, secretsFrom. rewrite fmap_imap. etrans; [|apply list_fmap_id]. rewrite <- imap_const. apply imap_ext.
  intros i x _. apply secretOf_content.
Qed.

Lemma fileSecrets_nonempty bufferSize file : ClientOk -> (0 < bufferSize)%nat -> file <> [] -> fileSecrets bufferSize file <> [].
Proof.
  intros OK Hb Hne E. apply (f_equal (fmap secretContent)) in E. rewrite fileSecrets_content in E by done.
  by apply (chunksIn_nonempty chunker win mn mx (cl_chunker OK) (length file) bufferSize file Hb (Nat.le_refl _)) in E.
Qed.

Lemma goodHead_name codec junk name file :
  ClientOk -> codecOk codec -> (length name <= SECRET_SIZE)%nat -> (shareSize (length name) * n <= length name * 32)%nat ->
  length (lc_headerD junk) = fileShareMDHeadSize_ -> length (lc_headerM junk) = fileShareMDHeadSize_ ->
  goodHead (bs := bs) (digest := digest) (encipher := encipher) (decipher := decipher) n codec junk (fileHeadOf name file).
Proof.
  intros OK [Hw (HT & Hn & Hm & Hk & Hb & Ha & _)] Hname Htmp LD LM. pose proof (cl_codec OK). pose proof (cl_k OK).
  split; cbn [fileHeadOf fh_fullNameSize fh_data]; rewrite ?Nat2Z.id; try done; try lia.
  - rewrite HT. by right; right.
  - split; rewrite ?Hb, ?Hk, ?Ha, ?Hn, ?fresh_length; [rewrite length_app; lia| |done]. apply aligned_le_max; lia.
  - rewrite Hb, Hk. by apply (cl_ring OK).
Qed.

(** The collect thread on the encoded file *)
Lemma collect_encoded rand codec c0 junk junks name file secrets :
  ClientOk -> codecOk codec -> codecOk c0 -> secrets <> [] -> Forall fits secrets -> se_end <$> secrets = (flagged secrets).*1 -> Z.of_nat (length secrets) < 2 ^ 25 ->
  (length name <= SECRET_SIZE)%nat -> (shareSize (length name) * n <= length name * 32)%nat ->
  length (lc_headerD junk) = fileShareMDHeadSize_ -> length (lc_headerM junk) = fileShareMDHeadSize_ ->
  length junks = length secrets -> Forall (fun j => forall i, (i < n)%nat -> length (lc_node j i) = metaNodeSize) junks ->
  (forall i, (i < n)%nat -> roomy noSeg (nodesFor (digest := digest) (zip junks (encodedChunk rand c0 <$> secrets)) i)) ->
  exists codec' clouds,
    collect (R := False) crypto true rand (zip (junk :: junks) (encodedItem rand c0 <$> (HeadItem (fileHeadOf name file) :: (SecretObj <$> secrets)))) (codec, replicate n newCloud)
      = Ok (codec', clouds) /\ length clouds = n /\
    forall i c, clouds !! i = Some c ->
      dataItems c = headItem (lc_headerD junk) (fh_fileSize (fileHeadOf name file)) (pathShare (digest := digest) (encipher := encipher) codec rand (fileHeadOf name file) i)
                    :: shareItems (uploaded rand c0 secrets i).
Proof.
  intros OK Hc H0 Hne HF Hend Hnum Hname Htmp LD LM LJ HJ Hroom. set (chunks := encodedChunk rand c0 <$> secrets) in *.
  assert (length junks = length chunks) as LJC by (unfold chunks; by rewrite length_fmap).
  assert ((zip junks chunks).*2 = chunks) as Z2 by (apply snd_zip; lia).
  assert ((zip junks chunks).*1 = junks) as Z1 by (apply fst_zip; lia).
  assert (length (zip junks chunks) = length secrets) as LZ by (rewrite <- (length_fmap snd), Z2; unfold chunks; by rewrite length_fmap).
  cbn [fmap list_fmap zip zip_with encodedItem EncodeThreads.encodedItem]. rewrite <- list_fmap_compose.
  change (fmap (encodedItem rand c0 ∘ SecretObj) secrets) with (fmap (ChunkItem ∘ encodedChunk rand c0) secrets). rewrite list_fmap_compose. fold chunks.
  rewrite <- (chunkRounds_zip junks chunks).
  destruct (collect_file (crypto := crypto) n codec rand junk (fileHeadOf name file) (zip junks chunks)) as (codec' & clouds & E & L & H).
  - apply (cl_encode OK).
  - pose proof (cl_k OK). lia.
  - by apply goodHead_name.
  - intros E. rewrite E in LZ. by destruct secrets.
  - apply list.Forall_lookup. intros k [j ch] Hk. split; cbn [fst snd].
    + assert (chunks !! k = Some ch) as Hch by (rewrite <- Z2, list_lookup_fmap, Hk; done). unfold chunks in Hch. rewrite list_lookup_fmap in Hch.
      destruct (secrets !! k) as [s|] eqn:Hs; [|done]. injection Hch as <-. apply fits_chunk; [done|done|]. exact (proj1 (list.Forall_lookup _ _) HF k s Hs).
    + assert (junks !! k = Some j) as Hj by (rewrite <- Z1, list_lookup_fmap, Hk; done). exact (proj1 (list.Forall_lookup _ _) HJ k j Hj).
  - rewrite (flagged_length (zip junks chunks) secrets LZ), <- Hend. etrans; [apply (list_fmap_compose snd sc_end)|]. rewrite Z2. unfold chunks.
    by rewrite <- list_fmap_compose.
  - by rewrite LZ.
  - done.
  - exists codec', clouds. split; [exact E|]. split; [done|]. intros i c Hi. destruct (H i c Hi) as [-> _]. f_equal. f_equal.
    unfold uploaded. etrans; [apply (list_fmap_compose snd (fun ch => dataShare (digest := digest) ch i))|]. rewrite Z2. unfold chunks. by rewrite <- list_fmap_compose.
Qed.

(** ** The decoding threads *)

Abbreviation decodeStep := (pipeStep (decodeItem (R := False) (seq 0 (n - m))) DECODE_NUM_THREADS DECODE_RB_SIZE).

(** What an object makes of a package *)
Definition decodedBy (c0 : CDCodec) (x : DChunk) : DSecret :=
  match decodeItem (R := False) (seq 0 (n - m)) c0 x with Ok (b, _) => b | _ => {| ds_data := []; ds_secretSize := 0 |} end.

Lemma decoder_runs rand c0 secrets objs k p :
  ClientOk -> codecOk c0 -> Forall fits secrets -> length objs = DECODE_NUM_THREADS -> Forall codecOk objs ->
  nsteps decodeStep k (newPipe (packageOfRow (n - m) <$> (secretRow rand c0 <$> secrets)) objs) p ->
  (k <= 4 * length secrets)%nat /\ ((forall p', ~ decodeStep p p') -> p_done p = decodedSecret <$> secrets).
Proof.
  intros OK H0 HF HL HO Hk. pose proof (cl_k OK).
  set (good := fun x : DChunk => exists s, fits s /\ x = packageOfRow (n - m) (secretRow rand c0 s)).
  assert (forall c s, codecOk c -> fits s -> exists c', decodeItem (R := False) (seq 0 (n - m)) c (packageOfRow (n - m) (secretRow rand c0 s)) = Ok (decodedSecret s, c') /\ codecOk c') as Hdec.
  { intros c s Hc [G Hsz Hid]. apply (decodeItem_spec n m crypto rand c0 c s); try done; [lia|]. apply fits_row; [done|by split]. }
  assert (forall s, fits s -> decodedBy c0 (packageOfRow (n - m) (secretRow rand c0 s)) = decodedSecret s) as Hby.
  { intros s Hs. destruct (Hdec c0 s H0 Hs) as (c' & E & _). unfold decodedBy. by rewrite E. }
  destruct (pipeline_in_order (decodeItem (R := False) (seq 0 (n - m))) DECODE_NUM_THREADS DECODE_RB_SIZE good codecOk (decodedBy c0)
    ltac:(intros c x Hc (s & Hs & ->); rewrite (Hby s Hs); by apply Hdec) ltac:(unfold DECODE_NUM_THREADS; lia) ltac:(unfold DECODE_RB_SIZE; lia)
    (packageOfRow (n - m) <$> (secretRow rand c0 <$> secrets)) ltac:(apply list.Forall_fmap, list.Forall_fmap; eapply list.Forall_impl; [exact HF|]; intros s Hs; by exists s)
    objs k p HL HO Hk) as (Hn & _ & Hd). rewrite !length_fmap in Hn. split; [done|]. intros Hstuck. rewrite (Hd Hstuck), <- !list_fmap_compose.
  apply list_fmap_ext. intros i s Hs. apply Hby. exact (proj1 (list.Forall_lookup _ _) HF i s Hs).
Qed.

(** What the clouds deliver, decoded and written: the chunks of the file. *)
Lemma restored_file rand c0 secrets objs fileSize pad :
  ClientOk -> codecOk c0 -> secrets <> [] -> Forall fits secrets -> Z.of_nat (length secrets) < 2 ^ 31 ->
  length objs = DECODE_NUM_THREADS -> Forall codecOk objs ->
  exists chunks,
    downloadFile (R := False) (n - m)
      ((fun i => HeaderObj (fileHead fileSize (length secrets) (pad i)) :: (delivered <$> uploaded rand c0 secrets i)) <$> seq 0 (n - m))
      = Ok (Z.of_nat (length secrets), chunks) /\
    forall k p, nsteps decodeStep k (newPipe chunks objs) p ->
      (k <= 4 * length secrets)%nat /\
      ((forall p', ~ decodeStep p p') -> writeFile (R := False) (Z.of_nat (length secrets)) (p_done p) = Ok (mjoin (secretContent <$> secrets))).
Proof.
  intros OK H0 Hne HF Hn HL HO. pose proof (cl_k OK). exists (packageOfRow (n - m) <$> (secretRow rand c0 <$> secrets)). split.
  - rewrite (list_fmap_ext _ (cloudRing (secretRow rand c0 <$> secrets) fileSize pad)).
    + rewrite downloadFile_spec; [by rewrite length_fmap|lia| |by rewrite length_fmap].
      apply list.Forall_fmap. eapply list.Forall_impl; [exact HF|]. intros s Hs. by apply fits_row.
    + intros j i Hi. apply lookup_seq in Hi as [-> Hi]. unfold cloudRing. rewrite length_fmap, delivered_row by (done || lia). done.
  - intros k p Hk. destruct (decoder_runs rand c0 secrets objs k p OK H0 HF HL HO Hk) as [Hb Hd]. split; [done|]. intros Hstuck. rewrite (Hd Hstuck).
    replace (length secrets) with (length (decodedSecret <$> secrets)) by apply length_fmap.
    rewrite writeFile_spec.
    + rewrite <- list_fmap_compose. do 2 f_equal. apply list_fmap_ext. intros i s Hs. apply decoded_bytes. exact (ft_good _ (proj1 (list.Forall_lookup _ _) HF i s Hs)).
    + apply (cl_write_max OK).
    + apply list.Forall_fmap. eapply list.Forall_impl; [exact HF|]. intros s [G Hsz _]. pose proof (cl_write OK). pose proof (gs_size _ _ _ G).
      split; cbn [decodedSecret ds_secretSize ds_data]; [lia|]. pose proof (gs_data _ _ _ G). unfold secretContent. rewrite length_app, length_take. lia.
    + by destruct secrets.
    + by rewrite length_fmap.
Qed.

End Client.
