(* ===== verification/ClientBounds.v ===== *)
(** * The constants of the program

    The sizes chosen in conf.hh, chunker.hh, encoder.hh, decoder.hh, uploader.hh,
    downloader.hh, server.hh and dataStruct.hh satisfy what the theorems assume of
    them. *)

From stdpp Require Import base list numbers.
From coqutil Require Import Byte.
From Stdlib Require Import Lia.
From S2P Require Import Prelude Structs GaloisField CryptoPrimitive CDCodec ErasureCode AontSchemes CodecTheorems Chunker MinInvariant Socket Downloader DownloaderProof Uploader UploaderProof Server ServerProof DataSession Encoder MetaChunks ClientUpload ClientDownload ClientTheorems.

Local Open Scope Z_scope.

(** A share is not larger than the k-th part of the secret and three words. *)
Lemma shareSizeOf_bound bps k s : (0 < bps)%nat -> (1 < k)%nat -> (shareSizeOf bps k s * k <= s + bps * k + bps)%nat.
Proof.
  intros Hb Hk. rewrite <- shareSize_eq by lia. unfold alignedSize.
  pose proof (Nat.Div0.mul_div_le (s + bps) (bps * k)). destruct (Nat.eqb_spec ((s + bps) mod (bps * k)) 0); nia.
Qed.

#[local] Existing Instance encodeLimits.
#[local] Existing Instance decodeLimits.

Lemma max_secret : Z.of_nat MAX_SECRET_SIZE = 65536.
Proof. vm_compute. reflexivity. Qed.

(** The shares of a secret, for three of the four clouds *)
Lemma share_fits s : (s <= SECRET_SIZE)%nat -> (shareSizeOf 32 3 s <= RING_BUFFER_DATA_SIZE)%nat /\ (shareSizeOf 32 3 s * 4 <= SHARE_BUFFER_SIZE)%nat.
Proof.
  intros Hs. pose proof (shareSizeOf_bound 32 3 s ltac:(lia) ltac:(lia)) as H. unfold SECRET_SIZE, RING_BUFFER_DATA_SIZE, SHARE_BUFFER_SIZE in *. cbn [encodeLimits] in *. lia.
Qed.

Lemma client_sizes c win mn : wf_chunker c win mn SECRET_SIZE -> ClientOk (bs := 16) 4 1 c win mn SECRET_SIZE.
Proof.
  intros Hw. pose proof max_secret. split; try done; try (unfold SECRET_SIZE, SHARE_BUFFER_SIZE, FWRITE_BUFFER_SIZE, MAX_NUMBER_OF_CLOUDS; cbn [encodeLimits decodeLimits]; lia).
  - split; try (unfold SECRET_SIZE, SECRET_SIZE_META, RING_BUFFER_META_SIZE; cbn [encodeLimits]; lia). reflexivity.
  - intros s Hs. by apply share_fits.
  - intros s Hs. by apply share_fits.
Qed.

