(* ===== verification/ClientExamples.v ===== *)
(** * The client on a concrete input

    The round trips of the client for a file of fourteen bytes, small buffers and
    clouds of any order: four clouds, of which one may be missing. *)

From stdpp Require Import base list numbers relations.
From coqutil Require Import Byte.
From Stdlib Require Import Lia.
From S2P Require Import Prelude Structs GaloisField CryptoPrimitive CDCodec ErasureCode AontSchemes CodecTheorems Chunker MinPackage MinRestoreProof DedupUpload Recipes Socket Downloader DownloaderProof Uploader UploaderProof Uploads UploadExamples Encoder MetaChunks RecipeWriter RecipeRebuild Pipeline EncodeThreads ClientUpload ClientDownload ClientProof ClientTheorems ClientBounds.

Local Open Scope Z_scope.

(** Few shares fit the buffer of a segment. *)
Lemma roomy_few {EL : EncodeLimits} sg l : (metaNodeSize * (length (sg_cur sg) + length l) <= SECRET_SIZE_META)%nat -> roomy sg l.
Proof.
  revert sg. induction l as [|[last x] l IH]; intros sg H; [done|]. cbn [length] in H. split; [unfold room; lia|]. apply IH.
  unfold segStep. destruct (closes _ _ _); cbn [sg_cur]; lens.
Qed.

Module ClientWitness.
Import GF256 SampleSSL SampleNet CodecWitness ChunkerWitness.

(** The object of the program for HIGH security *)
Definition highCrypto : CryptoPrimitive :=
  {| cryptoType_ := HIGH_SEC_PAIR_TYPE; md_ := Some EVP_sha256; hashSize_ := Some 32;
     cipher_ := Some EVP_aes_256_cbc; keySize_ := Some 32; blockSize_ := Some 16;
     iv_ := Some (replicate 16 Byte.x00) |}.

Abbreviation sha := (EVP_Digest EVP_sha256).
Abbreviation aes := (fun d key => cipher EVP_aes_256_cbc key (replicate 16 Byte.x00) d).
Lemma highCrypto_ok : CryptoOk highCrypto 32 16 sha aes aes.
Proof.
  exact (pair_CryptoOk (SSL := sampleSSL) highCrypto EVP_sha256 EVP_aes_256_cbc (replicate 16 Byte.x00)
    eq_refl eq_refl eq_refl eq_refl eq_refl eq_refl eq_refl eq_refl).
Qed.
#[local] Existing Instance highCrypto_ok.

(** Secrets of 16 bytes, whose shares have 32; segments of at most four shares. *)
#[local] Instance encode : EncodeLimits := {|
  SECRET_SIZE := 16; SECRET_SIZE_META := 256; SHARE_BUFFER_SIZE := 128; RING_BUFFER_DATA_SIZE := 64; RING_BUFFER_META_SIZE := 256;
  DIVISOR := 2; PATTERN := 1; MAX_SEGMENT_SIZE := 96 |}.
#[local] Instance decode : DecodeLimits := {| FWRITE_BUFFER_SIZE := 20 |}.
#[local] Instance download : DownloadLimits := {| DOWNLOAD_BUFFER_SIZE := 200; ITEM_DATA_SIZE := 64 |}.

Lemma encode_ok : EncodeOk (bs := 16).
Proof. by split; cbn; try lia. Qed.

Lemma small_shares s : (s <= 16)%nat -> shareSizeOf 32 3 s = 32%nat.
Proof. intros Hs. do 17 (destruct s as [|s]; [reflexivity|]). lia. Qed.

Lemma client_ok : ClientOk (bs := 16) 4 1 small 2 3 6.
Proof.
  pose proof max_secret. split; try (unfold SECRET_SIZE, SHARE_BUFFER_SIZE, FWRITE_BUFFER_SIZE, MAX_NUMBER_OF_CLOUDS; cbn [encode decode]; lia).
  - apply encode_ok.
  - apply small_wf.
  - intros s Hs. change (4 - 1)%nat with 3%nat. by rewrite (small_shares s Hs).
  - intros s Hs. change (4 - 1)%nat with 3%nat. rewrite (small_shares s Hs). cbn. lia.
Qed.

Abbreviation codecOk := (EncodeThreads.codecOk (bs := 16) (hs := 32) (digest := sha) (encipher := aes) (decipher := aes) 4 1 highCrypto).
Lemma codec_exists (b : Init.Byte.byte) : exists c, new_CDCodec (R := False) (CodecWitness.mem b) true CAONT_RS_TYPE 4 1 2 (Some highCrypto) = Ok c /\ codecOk c.
Proof.
  destruct (new_AONT_spec (R := False) (CodecWitness.mem b) CAONT_RS_TYPE 4 1 2 highCrypto 32 (mem_ok _) params_ok highCrypto_ok) as (c & E & W & B).
  exists c. split; [exact E|]. split; [exact W|exact B].
Qed.

(** A path with its terminating null, and the uninitialised parts of the objects *)
Definition name : bytes := [Byte.x2f; Byte.x61; Byte.x2f; Byte.x62; Byte.x00].
Definition junk : RoundJunk :=
  {| lc_headerD := replicate fileShareMDHeadSize_ Byte.xd1; lc_headerM := replicate fileShareMDHeadSize_ Byte.xd2; lc_node := fun _ => replicate metaNodeSize Byte.xd3 |}.
Definition zeros : nat -> Init.Byte.byte := fun _ => Byte.x00.

(** Three encoded secrets; every cloud has the shares of its number. *)
Definition chunkOf (id size : Z) (last : bool) : ShareChunk :=
  {| sc_data := mjoin ((fun i => replicate 32 (byte.of_Z (16 * id + Z.of_nat i))) <$> seq 0 4); sc_secretID := id; sc_secretSize := size; sc_shareSize := 32; sc_end := last |}.
Definition rounds : list (RoundJunk * ShareChunk) := [(junk, chunkOf 0 6 false); (junk, chunkOf 1 4 false); (junk, chunkOf 2 4 true)].


Lemma metadata_roundtrip_witness :
  exists codec codec' clouds,
    collect (R := False) highCrypto true zeros ((junk, FileItem (fileHeadOf name text)) :: chunkRounds rounds) (codec, replicate 4 newCloud) = Ok (codec', clouds) /\
    forall i c, clouds !! i = Some c -> exists chunks,
      metaItems c = headItem (lc_headerM junk) 14 (pathShare (digest := sha) (encipher := aes) codec zeros (fileHeadOf name text) i) :: shareItems chunks /\
      rebuildRecipe (R := False) highCrypto true
        (HeaderObj (fileHead 14 (length chunks) [Byte.x01]) :: ((fun x => itemOf (recipeEntryOf (cs_md x)) (content x)) <$> chunks))
        {| rb_keys := Some (keyFile c); rb_recipe := []; rb_fileSize := 0 |}
      = Ok {| rb_keys := Some (keyFile c);
              rb_recipe := encodeEntries ((fun r => recipeEntryOf (cs_md (dataShare (digest := sha) r.2 i))) <$> rounds); rb_fileSize := 14 |}.
Proof.
  destruct (codec_exists Byte.x00) as (codec & _ & [W B]). pose proof B as (HT & Hn & _ & Hk & Hb & Ha & _).
  destruct (metadata_roundtrip (crypto := highCrypto) (bs := 16) 4 codec zeros junk (fileHeadOf name text) rounds) as (codec' & clouds & E & _ & H).
  - apply encode_ok.
  - lia.
  - apply (goodHead_name (crypto := highCrypto) 4 1 small 2 3 6); [apply client_ok|exact (conj W B)|cbn; lia|cbn; lia|reflexivity|reflexivity].
  - discriminate.
  - repeat constructor; try (cbn; lia); intros; apply length_replicate.
  - reflexivity.
  - cbn. lia.
  - intros i Hi. apply roomy_few. cbn. lia.
  - exists codec, codec', clouds. split; [exact E|]. intros i c Hc. destruct (H i c Hc) as (_ & chunks & HM & HR). exists chunks.
    split; [exact HM|]. exact (HR 14 [Byte.x01] 0 ltac:(lia) ltac:(vm_compute; reflexivity)).
Defined.

Lemma sample_items items :
  uploadItems (R := False) small (replicate 8 Byte.x00) (replicate 10 0) name text = Ok items -> length items = 4%nat.
Proof. vm_compute. by intros [= <-]. Qed.

End ClientWitness.
