(* ===== verification/PreDownloadExamples.v ===== *)
(** * The first half of a download on a concrete input

    The file of ClientExamples.v with three encoded secrets: three of the four clouds
    are asked for its metadata and get their recipes back. *)

From stdpp Require Import base list numbers relations.
From coqutil Require Import Byte.
From Stdlib Require Import Lia.
From S2P Require Import Prelude Structs GaloisField CryptoPrimitive CDCodec ErasureCode AontSchemes CodecTheorems Chunker MinPackage MinRestoreProof DedupUpload Recipes Socket Downloader DownloaderProof Uploader UploaderProof Uploads UploadExamples KeyFiles RecipeFiles Encoder MetaChunks RecipeWriter RecipeRebuild Pipeline EncodeThreads PreDownload ClientUpload ClientDownload ClientProof ClientTheorems ClientBounds ClientExamples.

Local Open Scope Z_scope.

Module PreDownloadWitness.
Import GF256 SampleSSL SampleNet CodecWitness ChunkerWitness ClientWitness.
#[local] Existing Instances ClientWitness.highCrypto_ok ClientWitness.encode ClientWitness.decode ClientWitness.download.

Definition conn : Conn := {| inbox := []; outbox := []; calls := 0 |}.
Abbreviation entries i := ((fun r => recipeEntryOf (cs_md (dataShare (digest := sha) r.2 i))) <$> rounds).

Lemma predownload_roundtrip_witness :
  exists codec (parts : list (Cloud * list ClientShare)) sts' conns' codec',
    preDownloadFile (R := False) highCrypto true zeros name 7 name 5
      (imap (fun i p => HeaderObj (fileHead 14 (length p.2) [Byte.x01]) :: ((fun x => itemOf (recipeEntryOf (cs_md x)) (content x)) <$> p.2)) (take 3 parts))
      (imap (fun i p => {| rb_keys := Some (keyFile p.1); rb_recipe := []; rb_fileSize := 0 |}) (take 3 parts)) [conn; conn; conn] codec
      = Ok (RecipeRebuild.pathShare (digest := sha) (encipher := aes) codec zeros (fileHeadOf name text) <$> [0; 1; 2]%nat, sts', conns', codec') /\
    forall i c', conns' !! i = Some c' -> moved conn c' [] (recipeMessage (recipeFileName name i) (encodeRecipe (recipeOfEntries 7 14 (entries i)))).
Proof.
  destruct (codec_exists Byte.x00) as (codec & _ & [W B]).
  destruct (predownload_roundtrip (crypto := highCrypto) (bs := 16) 4 1 codec codec zeros zeros junk (fileHeadOf name text) rounds name name 7 14
    (fun _ => [Byte.x01]) (fun _ => 0) [conn; conn; conn]) as (codec' & parts & _ & _ & _ & sts' & conns' & dcodec' & E & _ & L & H).
  - apply encode_ok.
  - lia.
  - cbn. lia.
  - exact (conj W B).
  - exact (conj W B).
  - apply (goodHead_name (crypto := highCrypto) 4 1 small 2 3 6); [apply client_ok|exact (conj W B)|cbn; lia|cbn; lia|reflexivity|reflexivity].
  - discriminate.
  - repeat constructor; try (cbn; lia); intros; apply length_replicate.
  - reflexivity.
  - cbn. lia.
  - intros i Hi. apply roomy_few. cbn. lia.
  - reflexivity.
  - cbn. lia.
  - apply Nat.leb_le. vm_compute. reflexivity.
  - intros i Hi. cbn in Hi. do 3 (destruct i as [|i]; [apply Nat.ltb_lt; vm_compute; reflexivity|]). lia.
  - intros i Hi. split; [lia|]. vm_compute. reflexivity.
  - exists codec, parts, sts', conns', dcodec'. split; [exact E|]. intros i c' Hc'.
    apply (H i conn c'); [|exact Hc']. apply lookup_lt_Some in Hc'. rewrite L in Hc'. cbn in Hc'. do 3 (destruct i as [|i]; [reflexivity|]). lia.
Defined.
End PreDownloadWitness.
